(* ===== verification/_CoqProject ===== *)
-Q . S2P
Prelude.v
Memory.v
BitReader.v
Header.v
Prefix.v
ColorCache.v
Transform.v
CopyBlock.v
Huffman.v
BitWindow.v
HuffmanBuild.v
CodeLengths.v
CodeTables.v
Entropy.v
EntropyCache.v
HuffmanCodes.v
Stream.v
FillContract.v
Alpha.v
Rows.v
Rescale.v
Pipeline.v
Image.v
AlphaPlane.v
Lifetime.v
