(* ===== verification/Prelude.v ===== *)
(** * A verification development for the VP8L lossless decoder of ThorVG

    The program is [src/src/loaders/webp/dec/vp8l.cpp], the WebP lossless
    (VP8L) decoder that ThorVG's WebP loader vendors from libwebp.  The file
    drives a bit reader, Huffman table construction and a color cache (all
    three live in [utils/], outside [src/]) and implements the stream
    header, the transform and Huffman-code descriptors, the LZ77 +
    prefix-code + color-cache entropy loop, the row pipeline and the alpha
    path.  [src/examples/Example.cpp] is a GUI demo and is not modelled.

    ** How the parts interact

    [VP8LGetInfo] / [VP8LDecodeHeader] read the 5-byte signature
    ([VP8LCheckSignature], [ReadImageInfo]) and call [DecodeImageStream]
    at level 0, which reads the transforms in a loop ([ReadTransform],
    recursing into [DecodeImageStream] at level 1 for each metadata image,
    then [ExpandColorMap] for a palette), the color-cache descriptor and the
    Huffman codes ([ReadHuffmanCodes] -> [ReadHuffmanCode] ->
    [ReadHuffmanCodeLengths], recursing for the meta-Huffman image), then
    [UpdateDecoder].  [VP8LDecodeImage] runs the entropy loop
    [DecodeImageData] over the raster: each symbol is a literal, a
    back-reference (decoded by [GetCopyLength], [GetCopyDistance],
    [PlaneCodeToDistance] and copied by [CopyBlock32b]) or a color-cache
    reference; every 16 rows it calls a row hook ([ProcessRows]) that
    applies the inverse transforms and emits output; in incremental mode it
    saves a snapshot every 8 rows ([SaveState]) and restores it when the
    input runs out ([RestoreState]).  The alpha path reuses the loop or its
    byte-wide twin [DecodeAlphaData], whose copies are [CopyBlock8b].

    ** Files (in dependency order) and what they model

    - [Prelude] (this file): the notation scope [vp8l_scope] for the C bit
      operators ([<<], [>>], [.&], [.|]), [mask], [u32], [u64], [slice],
      the hint databases [vp8l] / [vp8l_rw], the tactic [bounds], and
      generic lemmas on lists updated by index and on bounded integers.
    - [Memory]: the allocator oracle [Allocator] ([tvg::malloc] and
      [tvg::calloc] may return [NULL]) and the [Outcome] of a call
      (result, out of fuel, or a broken [assert]).
    - [BitReader]: the LSB-first bit reader, spec-modelled (its code is in
      [utils/bit_reader_utils.h]): a record of the byte buffer, an absolute
      bit position and the sticky [eos_] flag; [VP8LReadBits],
      [VP8LPrefetchBits], [VP8LSetBitPos]; little-endian byte lemmas.
      This cursor model is the abstraction of the reader of [BitWindow].
    - [Header]: [VP8LCheckSignature], [ReadImageInfo], [VP8LGetInfo].
    - [Prefix]: [GetCopyDistance], [GetCopyLength], [kCodeToPlane],
      [PlaneCodeToDistance], [kAlphabetSize], [kTableSize] and the
      (spec-modelled) [VP8LSubSampleSize].
    - [ColorCache]: the hash table of recent colors, spec-modelled from
      [utils/color_cache_utils.h]; [insert_all] is the code's
      [while (last_cached < src) VP8LColorCacheInsert(...)].
    - [Transform]: [ReadTransform] over a [TransformState] (the transform
      slots, [next_transform_], [transforms_seen_], the reader), with the
      level-1 [DecodeImageStream] as a parameter; [ExpandColorMap] on bytes
      ([expand_loop], [zero_loop]), over the uninitialised bytes [fresh]
      of the block [malloc] returns; the transform loop [read_transforms]
      and the color-cache descriptor of [DecodeImageStream];
      [UpdateDecoder].
    - [CopyBlock]: [CopyBlock32b], [CopySmallPattern32b], [CopyBlock8b],
      [CopySmallPattern8b], [Rotate8b] over a memory given as a list (of
      32-bit pixels, or of bytes), with the destination's address kept so
      that the alignment branches are those of the code.
    - [Huffman]: [HuffmanCode] entries, [HTreeGroup] and [ReadSymbol] over
      a two-level table.
    - [BitWindow]: the libwebp reader itself ([utils/bit_reader_utils.h]
      and [.c], spec 4.1): the 64-bit window [val_] with [pos_],
      [bit_pos_] and [eos_] ([VP8LBitReaderW]), [ShiftBytes] and the [_w]
      operations, and [ReadSymbol] of [vp8l.cpp] over it ([ReadSymbol_w]);
      sequences of reads ([ReadOp], [read_run], [read_run_w]), the fill
      contract ([honours], [table_ok]) and the reads one iteration of
      [DecodeImageData] makes ([copy_ops], [pixel_ops], [decode_ops]).
    - [HuffmanBuild]: [VP8LBuildHuffmanTable] of [utils/huffman_utils.c]
      (outside [src/], modelled from spec 4.2 as the table it returns): the
      canonical code of the lengths ([count], [next_code], [code]), its
      bit-reversed keys ([rev_bits], [sym_codes]), the root table of
      [2^root_bits] entries and one second-level table per root prefix of
      the longer codes ([build_table]); lengths above 15 and incomplete
      codes are rejected, a one-symbol code is [trivial_table].
    - [CodeTables]: [ReadHuffmanCode] with [VP8LBuildHuffmanTable] as its
      builder, the composition the decoder runs for every tree, and the
      fill-contract condition of the tables it accepts.
    - [CodeLengths]: [ReadHuffmanCodeLengths] (its loop is the [Fixpoint]
      [code_lengths_loop]) and [ReadHuffmanCode]; the table builder is a
      parameter of type [BuildFunc], of which [VP8LBuildHuffmanTable] is
      an instance.
    - [Entropy]: the decoder records [VP8LDecoder] and [VP8LMetadata],
      [SaveState], [RestoreState], [GetMetaIndex], [GetHtreeGroupForPos]
      and [DecodeImageData]: one iteration of its [while] loop is
      [decode_step] (split into [sync_point], [refresh_group],
      [literal_case], [backref_case], [cache_case] and the label
      [advance_by_one]), returning [Continue], [Break] or [Fail] (the
      [goto Error]s); [decode_loop] runs it with fuel, [DecodeImageData]
      adds the epilogue.  The row hook is a parameter.  A module [Examples]
      holds small concrete decoders.
    - [EntropyCache]: the loop invariant [loop_inv] of [DecodeImageData]
      about the color cache, [last_cached] and the snapshot.
    - [HuffmanCodes]: [ReadHuffmanCodes]: the meta-Huffman block
      [read_meta_image] (its sub-stream decoder a parameter, the group
      loop [group_image_loop]), [max_alphabet_size], the loops over groups
      and trees [read_groups] / [read_htrees] that append every table to
      one block, and [make_group] (trees as offsets into the block,
      [is_trivial_literal], [literal_arb]), its three allocations and
      their [OUT_OF_MEMORY] path; [InitMetadata], [ClearMetadata]; the
      invariant [codes_ok] of the codes read, and (section [Trees]) that
      a property of every table the builder makes for tree [j],
      wherever it sits in the block, holds of tree [j] of every group.
    - [Stream]: both levels of [DecodeImageStream] (level 0 with the
      transform loop, a sub-stream [DecodeSubStream] for transform data
      and the meta-Huffman image, threaded through the whole decoder), the
      decoder [Decoder] (entropy state, transforms, [state_]),
      [VP8LNew], [VP8LClear] and [VP8LDecodeHeader]; the color cache and
      the pixels of a sub-stream are allocated through the [Allocator].
    - [FillContract]: the reads of the loop of [DecodeImageData] with the
      groups a decoded header selects ([decoded_pixels]), joining
      [BitWindow], [CodeTables] and [Stream].
    - [Alpha]: the 8-bit path: [Is8bOptimizable],
      [ExtractPalettedAlphaRows], [DecodeAlphaData] (its loop body
      [alpha_step], the loop [alpha_loop] with fuel) and the simulation
      [sim] between it and [DecodeImageData].
    - [Rows]: the output side of a block of rows: [VP8Io] (crop window,
      current block [mb_*], scaling), [SetCropWindow],
      [ApplyInverseTransforms] (the [dsp/] kernel [VP8LInverseTransform]
      a parameter), [EmitRows] (the kernel [VP8LConvertFromBGRA] a
      parameter), [ConvertToYUVA] (luma, chroma of pixel pairs, alpha;
      [VP8RGBToY/U/V] parameters) and [EmitRowsYUVA].  Memory is a list
      of pixels or bytes and a pointer an index into it.
    - [Rescale]: the rescaler as a type class [Rescaler] (the operations
      of [utils/rescaler_utils.c] with the laws the loops rely on: an
      export consumes a pending row, [WebPRescaleNeededLines] is in
      [1 .. lines_left]) with a pass-through instance; against it
      [AllocateAndInitRescaler], [Export], [ExportYUVA],
      [EmitRescaledRowsRGBA] and [EmitRescaledRowsYUVA].
    - [Pipeline]: [ProcessRows] on a [RowState] (decoder, pixel memory,
      [VP8Io], rescaler, output buffer [WebPDecBuffer]), a sequence of
      calls [process_rows_seq] as [DecodeImageData] makes them, and
      [process_hook], [ProcessRows] as the row hook of the entropy loop.
    - [AlphaPlane]: the two row hooks of the alpha path with the plane
      they write: [ApplyInverseTransformsAlpha] (its [assert]s as
      [None]) in [ExtractPalettedAlphaRows], and [ExtractAlphaRows] with
      its green-byte copy [extract_green].
    - [Image]: the entry points with memory: [AllocateInternalBuffers32b]
      and [AllocateInternalBuffers8b] over an [Allocator] oracle that may
      fail, [ExtractAlphaRows], the alpha decoder [ALPHDecoder] with
      [VP8LDecodeAlphaHeader] and [VP8LDecodeAlphaImageStream], and
      [VP8LDecodeImage] with its [READ_DATA] state; a call that breaks an
      [assert] or dereferences a freed buffer is the outcome [Crash].
    - [Lifetime]: the pointer view of the decoder's memory: the heap as
      the set of live blocks ([tfree] of a dead block is a double free),
      the pointer fields [DecoderMem] / [MetadataMem], and [VP8LNew],
      [ClearMetadata], [VP8LClear], [VP8LDelete], the transform slot of
      [ReadTransform] and [DecodeImageStream], [ExpandColorMap]'s
      replacement of the color map, the [pixels_] store and the saved
      color cache of [VP8LDecodeImage] as operations on it.

    ** What the theorems show

    - Entropy loop: after a successful call (completed or suspended) the
      color cache is the starting cache with the decoded pixels inserted in
      raster order, although the code inserts them lazily
      ([EntropyCache.DecodeImageData_color_cache]); enough fuel always gives
      a result; the return value and the status agree; distance symbol 0
      is plane code 1, the pixel one row up, so on the first row every
      back-reference with distance symbol 0 ends the loop
      ([Entropy.plane_code_1_is_row_above]), and a concrete decode shows
      that distance symbol 1 is the previous pixel.
    - Copies: the fast paths of [CopyBlock32b] and [CopyBlock8b] equal the
      element loop for every alignment, and the element loop is the
      periodic (run-length) fill of spec 8.5; [CopyBlock32b] writes nothing
      before its destination.
    - Descriptors: [ExpandColorMap] computes the running byte-wise sums of
      the spec and the black tail whatever the fresh block held, and its
      palette always fits; expanding twice gives the same map only when
      every color but the last is 0; the transform loop never
      overruns its 4 slots, reads each kind once and stops within 5 rounds;
      [ReadHuffmanCodeLengths] never writes past [num_symbols], stops within
      [num_symbols + 1] rounds, and the lengths [ReadHuffmanCode] hands to
      the table builder are below 16.
    - Header and prefix codes: the header round trip for every legal size,
      the bounds of an accepted header, the prefix-code round trip of
      [GetCopyDistance], and [PlaneCodeToDistance] (exact formula, at least
      1, injective on images at least 16 wide).
    - Huffman: [ReadSymbol] on root entries and on one-symbol tables;
      every table [ReadHuffmanCode] accepts from [VP8LBuildHuffmanTable]
      decodes the code it read: [ReadSymbol] returns each coded symbol
      from its bit-reversed canonical code and consumes exactly its
      length, through the root or the second-level table, and a
      one-symbol code reads no bit ([CodeTables.ReadHuffmanCode_decodes],
      resting on the prefix-freeness of the canonical code);
      for a group that [ReadHuffmanCodes] builds with
      [is_trivial_literal], the packed [literal_arb] path of the loop
      equals the path that reads red, blue and alpha; a simple code whose
      second 8-bit symbol lies past the alphabet is accepted as the
      one-symbol code of its first
      ([CodeTables.ReadHuffmanCode_simple_out_of_alphabet]).
    - Bit reader: the windowed reader refines the cursor model: on every
      sequence of [VP8LReadBits], [ReadSymbol] and [VP8LFillBitWindow]
      calls that honours the fill contract and reads inside the input it
      returns the same values and ends at the same cursor
      ([BitWindow.VP8LBitReaderW_refines], by a simulation over the
      abstraction [abs_w] with the invariant [wf_w]), and the contract
      cannot be dropped: five 15-bit symbols after one fill return a
      wrong fifth symbol ([BitWindow.fill_contract_needed]); every table
      [ReadHuffmanCode] accepts from [VP8LBuildHuffmanTable] is
      [table_ok], so [ReadSymbol] consumes at most 15 bits from it, and
      every symbol it decodes lies inside the alphabet
      ([CodeTables.ReadHuffmanCode_symbol_bounds]); and after a successful
      [VP8LDecodeHeader] with that builder, the reads the loop of
      [DecodeImageData] makes at any pixels of the image honour the
      contract, so the windowed reader and the cursor model agree on them
      from any consistent reader state
      ([FillContract.VP8LDecodeHeader_reads_refine]); the distance
      symbols it assumes below 40 are the only ones the distance tree of
      a decoded group returns ([FillContract.VP8LDecodeHeader_dist_symbols]).
    - Stream: after [VP8LDecodeHeader] every pixel's meta-Huffman lookup
      names a group that was read, and the groups are well formed.
    - Alpha: [DecodeAlphaData] refines [DecodeImageData] (on the
      metadata [Is8bOptimizable] accepts it decodes the green channel of
      the 32-bit raster, with the same reader and position), terminates,
      and reports [SUSPENDED] on any early end of stream.
    - Entry points: the 64-bit size computation of
      [AllocateInternalBuffers32b] does not wrap and the ARGB cache ends
      at the end of the block; [VP8LDecodeAlphaHeader] chooses the 8-bit
      path exactly as the spec says and hands over a decoder ready to
      decode; on the 8-bit path a successful call up to the last row
      completes the plane, after which calls return 1 unchanged; a failed
      [VP8LDecodeImage] leaves a status other than [OK] but not its
      state, so a further call breaks its entry [assert]s; a successful
      one leaves [READ_DATA] and a resumed call does not allocate.
    - Allocation failures: [ReadHuffmanCodes] reports [OUT_OF_MEMORY]
      when one of its blocks is [NULL], yet a failed [VP8LDecodeHeader]
      only ever reports [BITSTREAM_ERROR], or [OUT_OF_MEMORY] when a
      color cache could not be allocated: the callers overwrite the
      status of the other allocation failures.
    - Row pipeline: [SetCropWindow] intersects a block with the crop
      window; [EmitRows] writes row [i] of the window at line [i] of the
      output; the chroma sums of [ConvertToYUVA] are the accumulated
      channels [VP8RGBToU/V] expect, for every 32-bit pixel; the rescaled
      emitters terminate for every rescaler meeting the [Rescaler]
      contract; [ProcessRows] always returns, is a row hook that touches
      only [last_row_] and [last_out_row_], and over any sequence of calls
      without scaling [last_out_row_] counts the window rows above
      [last_row_], so each cropped row is emitted once and in order.
    - Alpha plane: the decoder part of both alpha hooks is the hook the
      entropy loops were proved with; the [assert]s of
      [ApplyInverseTransformsAlpha] hold on the 8-bit path; the 32-bit
      hook writes exactly the rows [[last_row_, row)] of the plane.
    - Memory: under the ownership invariant [mem_wf] (owned blocks live
      and distinct, unopened transform slots [NULL]) [VP8LClear] frees
      each owned block once and nothing else and leaves the [calloc]ed
      decoder; a second [VP8LClear] frees nothing, so the error path of
      [VP8LDecodeImage] followed by [VP8LDelete] never frees twice; every
      store of a fresh block ([VP8LNew], [ReadTransform], sub-stream
      data, [ExpandColorMap], [AllocateInternalBuffers*], the saved
      cache) keeps the invariant; [ExpandColorMap] changes the heap
      exactly: the old color map goes (freed once) and the new one comes
      ([Lifetime.ExpandColorMap_mem_wf]).

    ** Bounds and fuel

    [decode_loop] decodes at least one pixel per iteration that goes on, so
    [width * last_row - last_pixel + 1] units of fuel suffice
    ([Entropy.DecodeImageData_terminates]).  [code_lengths_loop] writes at
    least one length per iteration (repeat codes write at least 3), so
    [num_symbols + 1] suffice.  [read_transforms] records a new kind per
    round, so 5 suffice.  [align_loop] of [CopySmallPattern8b] runs at most
    3 times and gets 4.  [alpha_loop] gets [width * last_row -
    last_pixel + 1] for the same reason as [decode_loop]; a sub-stream's
    [DecodeImageData] gets [xsize * ysize + 1], enough from pixel 0; the
    level-0 transform loop gets [NUM_TRANSFORMS + 1].  [EmitRows] and
    [EmitRowsYUVA] loop [mb_h] times exactly.  The rescaled emitters get
    [mb_h + 1] rounds (each consumes at least one input line) and each
    export loop [rescaler_pending + 1] rounds (each exports a pending
    row), enough by the [Rescaler] laws.  The loop of [ShiftBytes]
    ([shift_bytes_loop]) gets [len_ - pos_] rounds: each round loads one
    byte.  Positions and counts are [nat]: image sides are at
    most 2^14, so the C [int] positions (below 2^28) do not overflow; pixel
    and bit values are [Z] with their 32-bit or 64-bit wrap-around written
    out ([u32], [u64]) where the code relies on it.  Arrays are lists
    updated with stdpp's [insert], which does nothing out of range, and
    read with its total lookup, whose value out of range is the default
    ([0] for [nat], [1] for [Z]).  The meta-Huffman lookup
    [GetMetaIndex] is shown to stay inside the group image
    ([Stream.VP8LDecodeHeader_group_in_bounds]); that every write of
    [DecodeAlphaData] lands inside its buffer (as the guards of the C
    code ensure) is not proved.  The bytes [malloc] returns for the
    color map are a parameter ([fresh] of [ExpandColorMap]):
    [Transform.ExpandColorMap_palette] shows the map does not depend on
    them, and [ReadTransform] passes zeros.

    ** Not modelled

    The step-by-step filling loop of [BuildHuffmanTable] ([ReplicateValue],
    [GetNextKey]): [HuffmanBuild] defines the table it produces, not the
    order of its writes; the stream decoders keep the builder as a
    parameter, so their theorems hold for any builder.  The [dsp/]
    kernels of the output (inverse transforms, color conversion, RGB to
    YUV, alpha premultiplication) and the
    rescaler's arithmetic, outside [src/]: parameters of the row
    pipeline, the rescaler an instance of [Rescaler]; the [assert]s of
    [ProcessRows] on the watermarks; [Image.v] sees the row pipeline as
    its hook parameter and [AllocateAndInitRescaler] and [VP8LNew]'s
    [calloc] as flags of the allocator.  The pointer view of [Lifetime]
    is separate from the value view of the other files, and leaves out
    the stores of [ReadHuffmanCodes] and [VP8LColorCacheInit] into
    [hdr_].  Of the bit reader, the unaligned 8-byte load of
    [VP8LDoFillBitWindow] (a faster path to the state [ShiftBytes]
    reaches) is not modelled. Two corners of the windowed reader lie
    outside the hypotheses of its refinement theorem. A read that starts
    at [bit_pos_ = 64] of a fully loaded buffer gets the window's low bits
    back through [& 63]. A buffer shorter than 8 bytes sets [eos_] only
    past bit 64. Both are in [utils/], outside [src/].
    [src/examples/Example.cpp] is a GUI demo. *)

From Stdlib Require Import ZArith Lia.
From stdpp Require Export base list.
From Stdlib Require Export ZArith.

Declare Scope vp8l_scope.
Delimit Scope vp8l_scope with vp8l.

(** Bit operations written as in the C source. *)
Notation "x '<<' n" := (Z.shiftl x n) (at level 33, left associativity) : vp8l_scope.
Notation "x '>>' n" := (Z.shiftr x n) (at level 33, left associativity) : vp8l_scope.
Notation "x '.&' y" := (Z.land x y) (at level 40, left associativity) : vp8l_scope.
Notation "x '.|' y" := (Z.lor x y) (at level 45, left associativity) : vp8l_scope.

Local Open Scope Z_scope.
Local Open Scope vp8l_scope.

(** [mask n] is the C [(1 << n) - 1], i.e. [kBitMask[n]]. *)
Definition mask (n : Z) : Z := Z.ones n.

(** Unsigned 32-bit and 64-bit wrap-around. *)
Definition u32 (x : Z) : Z := x mod 2 ^ 32.
Definition u64 (x : Z) : Z := x mod 2 ^ 64.

(** The store of an [int] into a [uint8_t]. *)
Definition u8 (x : Z) : Z := x mod 2 ^ 8.

Create HintDb vp8l discriminated.
Create Rewrite HintDb vp8l_rw.

(** ** Generic lemmas on bounded integers *)

Lemma land_mask_bound (x n : Z) : 0 <= n -> 0 <= x .& mask n < 2 ^ n.
Proof.
  intros Hn. unfold mask. rewrite Z.land_ones by lia.
  apply Z.mod_pos_bound. apply Z.pow_pos_nonneg; lia.
Qed.

Lemma u32_bound (x : Z) : 0 <= u32 x < 2 ^ 32.
Proof. unfold u32. apply Z.mod_pos_bound. lia. Qed.

Lemma u32_small (x : Z) : 0 <= x < 2 ^ 32 -> u32 x = x.
Proof. unfold u32. apply Z.mod_small. Qed.

Lemma u64_small (x : Z) : 0 <= x < 2 ^ 64 -> u64 x = x.
Proof. unfold u64. apply Z.mod_small. Qed.

Lemma u8_bound (x : Z) : 0 <= u8 x < 2 ^ 8.
Proof. unfold u8. apply Z.mod_pos_bound. lia. Qed.

(** Masking with a shifted mask: [a & (m << k) = ((a >> k) & m) << k]. *)
Lemma land_shiftl_mask (a m k : Z) : 0 <= k -> a .& (m << k) = ((a >> k) .& m) << k.
Proof.
  intros Hk. apply Z.bits_inj'. intros n Hn. rewrite Z.land_spec.
  destruct (Z.lt_ge_cases n k).
  - rewrite !Z.shiftl_spec_low by lia. apply andb_false_r.
  - rewrite !Z.shiftl_spec, Z.land_spec, Z.shiftr_spec by lia.
    replace (n - k + k) with n by lia. reflexivity.
Qed.

(** A 32-bit wrap-around does not reach a mask below [2^32]. *)
Lemma u32_land_small (x m : Z) : 0 <= m < 2 ^ 32 -> u32 x .& m = x .& m.
Proof.
  intros Hm. unfold u32. rewrite <- Z.land_ones by lia. rewrite <- Z.land_assoc.
  f_equal. rewrite Z.land_comm, Z.land_ones by lia. apply Z.mod_small. exact Hm.
Qed.

Lemma shiftr_bound (x n m : Z) :
  0 <= n -> 0 <= m -> 0 <= x < 2 ^ (n + m) -> 0 <= x >> n < 2 ^ m.
Proof.
  intros Hn Hm Hx. rewrite Z.shiftr_div_pow2 by lia. split.
  - apply Z.div_pos; [lia | apply Z.pow_pos_nonneg; lia].
  - apply Z.div_lt_upper_bound; [apply Z.pow_pos_nonneg; lia|].
    rewrite <- Z.pow_add_r by lia. lia.
Qed.

(** A value below [2^k] shifted left by [n] is below [2^(n+k)]. *)
Lemma shiftl_bound (x n k : Z) :
  0 <= n -> 0 <= k -> 0 <= x < 2 ^ k -> 0 <= x << n < 2 ^ (n + k).
Proof.
  intros Hn Hk Hx. rewrite Z.shiftl_mul_pow2 by lia.
  rewrite Z.pow_add_r by lia.
  assert (0 < 2 ^ n) by (apply Z.pow_pos_nonneg; lia). nia.
Qed.

(** [lor] of two values below [2^n] stays below [2^n]. *)
Lemma lor_bound (x y n : Z) :
  0 <= n -> 0 <= x < 2 ^ n -> 0 <= y < 2 ^ n -> 0 <= x .| y < 2 ^ n.
Proof.
  intros Hn Hx Hy. split; [apply Z.lor_nonneg; lia|].
  destruct (Z.eq_dec (x .| y) 0) as [->|Hne]; [lia|].
  assert (Hpos : 0 < x .| y) by (pose proof (Z.lor_nonneg x y); lia).
  assert (0 < n).
  { destruct (Z.eq_dec n 0) as [->|]; [|lia]. simpl in *.
    assert (x = 0) as -> by lia. assert (y = 0) as -> by lia. done. }
  apply (proj2 (Z.log2_lt_pow2 _ _ Hpos)).
  rewrite Z.log2_lor by lia.
  apply Z.max_lub_lt.
  - destruct (Z.eq_dec x 0) as [->|]; [simpl; lia|].
    apply Z.log2_lt_pow2; lia.
  - destruct (Z.eq_dec y 0) as [->|]; [simpl; lia|].
    apply Z.log2_lt_pow2; lia.
Qed.

(** Bitwise [or] with a value shifted above the bits of [x] is addition. *)
Lemma lor_shiftl_add (x y k : Z) :
  0 <= k -> 0 <= x < 2 ^ k -> x .| (y << k) = x + y * 2 ^ k.
Proof.
  intros Hk Hx.
  assert (Hand : x .& (y << k) = 0).
  { apply Z.bits_inj'. intros i Hi. rewrite Z.land_spec, Z.testbit_0_l.
    destruct (Z.ltb_spec i k).
    - rewrite Z.shiftl_spec_low by lia. apply andb_false_r.
    - rewrite <- (Z.mod_small x (2 ^ k)) by lia.
      rewrite Z.mod_pow2_bits_high by lia. reflexivity. }
  rewrite <- Z.shiftl_mul_pow2 by lia.
  rewrite <- Z.add_lor_land, Hand. lia.
Qed.

(** ** Generic lemmas on arrays (lists updated by index) *)

Section Arrays.
  Context {A : Type} `{Inhabited A}.

Lemma lookup_total_insert_same (l : list A) (i : nat) (x : A) :
    (i < length l)%nat -> <[i:=x]> l !!! i = x.
  Proof. apply list_lookup_total_insert_eq. Qed.

Lemma list_eq_lookup_total (l1 l2 : list A) :
    length l1 = length l2 ->
    (forall i, (i < length l1)%nat -> l1 !!! i = l2 !!! i) -> l1 = l2.
  Proof.
    intros Hlen Heq. apply (list_eq_same_length l1 l2 (length l1)); [done|done|].
    intros i x y Hi H1 H2.
    rewrite <- (list_lookup_total_correct _ _ _ H1), <- (list_lookup_total_correct _ _ _ H2).
    auto.
  Qed.

Lemma Forall_lookup_total (P : A -> Prop) (l : list A) (i : nat) :
    P inhabitant -> Forall P l -> P (l !!! i).
  Proof.
    intros Hd HF. rewrite list_lookup_total_alt.
    destruct (l !! i) eqn:E; simpl; [|exact Hd].
    rewrite Forall_lookup in HF. eauto.
  Qed.

Lemma lookup_total_insert_other (l : list A) (i j : nat) (x : A) :
    (i <> j)%nat -> <[i:=x]> l !!! j = l !!! j.
  Proof. apply list_lookup_total_insert_ne. Qed.
End Arrays.

(** [slice l a b] is [l[a..b)], the elements a C loop
    [for (p = a; p < b; ++p)] visits. *)
Definition slice {A} (l : list A) (a b : nat) : list A := drop a (take b l).

Section Slices.
  Context {A : Type} `{Inhabited A}.

Lemma slice_empty (l : list A) (a : nat) : slice l a a = [].
  Proof. unfold slice. apply drop_ge. rewrite length_take. lia. Qed.

Lemma slice_app (l : list A) (a b c : nat) :
    (a <= b <= c)%nat -> (c <= length l)%nat -> slice l a b ++ slice l b c = slice l a c.
  Proof.
    intros Hab Hc. unfold slice.
    rewrite <- (take_drop b (take c l)), take_take.
    replace (min b c) with b by lia.
    rewrite drop_app_le by (rewrite length_take; lia).
    rewrite (drop_ge (take b l) b) by (rewrite length_take; lia). simpl.
    rewrite drop_app_le by (rewrite length_take; lia). reflexivity.
  Qed.

Lemma take_ext (l1 l2 : list A) (b : nat) :
    length l1 = length l2 -> (forall j, (j < b)%nat -> l1 !!! j = l2 !!! j) ->
    take b l1 = take b l2.
  Proof.
    intros Hl Hj. apply list_eq_lookup_total; [rewrite !length_take; lia|].
    intros i Hi. rewrite length_take in Hi.
    specialize (Hj i ltac:(lia)). rewrite !list_lookup_total_alt in Hj |- *.
    rewrite !lookup_take. destruct (decide (i < b)%nat); [exact Hj|lia].
  Qed.

Lemma slice_ext (l1 l2 : list A) (a b : nat) :
    length l1 = length l2 -> (forall j, (j < b)%nat -> l1 !!! j = l2 !!! j) ->
    slice l1 a b = slice l2 a b.
  Proof. intros Hl Hj. unfold slice. f_equal. apply take_ext; assumption. Qed.

Lemma slice_snoc (l : list A) (a b : nat) :
    (a <= b)%nat -> (b < length l)%nat -> slice l a (S b) = slice l a b ++ [l !!! b].
  Proof.
    intros Hab Hb. rewrite <- (slice_app l a b (S b)) by lia. f_equal.
    unfold slice. rewrite (take_S_r l b (l !!! b)) by (apply list_lookup_lookup_total_lt; lia).
    rewrite drop_app_ge by (rewrite length_take; lia).
    rewrite length_take. replace (b - min b (length l))%nat with 0%nat by lia. reflexivity.
  Qed.
Lemma length_slice (l : list A) (a b : nat) :
    (b <= length l)%nat -> length (slice l a b) = (b - a)%nat.
  Proof. intros Hb. unfold slice. rewrite length_drop, length_take. lia. Qed.

Lemma slice_lookup (l : list A) (a b i : nat) :
    (a + i < b)%nat -> (b <= length l)%nat -> slice l a b !!! i = l !!! (a + i)%nat.
  Proof.
    intros Hi Hb. unfold slice. rewrite !list_lookup_total_alt, lookup_drop, lookup_take.
    rewrite decide_True by lia. reflexivity.
  Qed.
End Slices.

(** [store m o b] writes the elements of [b] at [m[o]], [m[o+1]], ...:
    a [memcpy] from a separate buffer, or a row of output written by a
    kernel. *)
Fixpoint store {A} (m : list A) (o : nat) (b : list A) : list A :=
  match b with
  | [] => m
  | x :: b' => store (<[o:=x]> m) (S o) b'
  end.

Section Stores.
  Context {A : Type} `{Inhabited A}.

Lemma length_store (m : list A) (o : nat) (b : list A) : length (store m o b) = length m.
  Proof.
    revert m o. induction b as [|x b IH]; intros m o; [reflexivity|].
    simpl. rewrite IH, length_insert. reflexivity.
  Qed.

Lemma store_outside (m : list A) (o : nat) (b : list A) (j : nat) :
    (j < o \/ o + length b <= j)%nat -> store m o b !!! j = m !!! j.
  Proof.
    revert m o. induction b as [|x b IH]; intros m o Hj; [reflexivity|].
    simpl in *. rewrite IH by lia. apply list_lookup_total_insert_ne. lia.
  Qed.

Lemma store_inside (m : list A) (o : nat) (b : list A) (i : nat) :
    (o + length b <= length m)%nat -> (i < length b)%nat -> store m o b !!! (o + i)%nat = b !!! i.
  Proof.
    revert m o i. induction b as [|x b IH]; intros m o i Hl Hi; [simpl in Hi; lia|].
    simpl in *. destruct i as [|i].
    - rewrite store_outside by lia. rewrite Nat.add_0_r.
      rewrite list_lookup_total_alt, list_lookup_insert, decide_True by (split; [reflexivity|lia]).
      reflexivity.
    - replace (o + S i)%nat with (S o + i)%nat by lia. apply IH; [rewrite length_insert|]; lia.
  Qed.

Lemma store_slice (m : list A) (o : nat) (b : list A) :
    (o + length b <= length m)%nat -> slice (store m o b) o (o + length b)%nat = b.
  Proof.
    intros Hl. apply list_eq_lookup_total.
    - unfold slice. rewrite length_drop, length_take, length_store. lia.
    - intros i Hi. unfold slice in *. rewrite length_drop, length_take, length_store in Hi.
      pose proof (store_inside m o b i ltac:(lia) ltac:(lia)) as E.
      rewrite !list_lookup_total_alt in E |- *. rewrite lookup_drop, lookup_take, decide_True by lia.
      exact E.
  Qed.
End Stores.

(** ** Generic lemmas on filters *)

Lemma filter_all_false {A} (f : A -> bool) (l : list A) :
  (forall t, In t l -> f t = false) -> List.filter f l = [].
Proof.
  induction l as [|a l IH]; intros H; [reflexivity|]. cbn. rewrite H by (left; reflexivity).
  apply IH. intros t Ht. apply H. right. exact Ht.
Qed.

(** Filtering [0..n) when only [s] may pass. *)
Lemma filter_seq_single (f : nat -> bool) (n s : nat) :
  (s < n)%nat -> (forall t, t <> s -> f t = false) ->
  List.filter f (seq 0 n) = if f s then [s] else [].
Proof.
  intros Hs Hf. replace n with (s + S (n - S s))%nat by lia.
  rewrite seq_app, List.filter_app, filter_all_false by (intros t Ht%in_seq; apply Hf; lia).
  cbn [seq List.filter]. rewrite filter_all_false by (intros t Ht%in_seq; apply Hf; lia).
  cbn [Nat.add app]. destruct (f s); reflexivity.
Qed.

#[export] Hint Resolve land_mask_bound u32_bound : vp8l.
#[export] Hint Rewrite @length_insert : vp8l_rw.

(** [head_cases] does the case analysis of a hypothesis [f x = r -> _]
    once [f] is unfolded: it destructs, from the outside in, the scrutinee
    of each pattern match or conditional at the head of the left side. *)
Ltac head_cases :=
  repeat (cbv beta iota zeta;
    lazymatch goal with
    | |- match ?e with pair _ _ => _ end = _ -> _ => destruct e
    | |- match ?e with Some _ => _ | None => _ end = _ -> _ => destruct e
    | |- (if ?b then _ else _) = _ -> _ => destruct b
    end).

(** [decide_by_eval] proves a decidable proposition on concrete data, by evaluation. *)
Ltac decide_by_eval :=
  match goal with |- ?P => apply (bool_decide_unpack P); vm_compute; reflexivity end.

(** [bounds] closes the goals on [Z] bounds that the lemmas above produce. *)
Ltac bounds :=
  repeat match goal with
  | |- 0 <= _ .& mask _ < 2 ^ _ => apply land_mask_bound; lia
  | |- 0 <= u32 _ < 2 ^ 32 => apply u32_bound
  | |- _ => progress (autorewrite with vp8l_rw in * )
  end; try lia.
