(* ===== verification/Memory.v ===== *)
(** * Memory and outcomes of calls

    What the entry points of [vp8l.cpp] need from their environment:
    the allocator ([tvg::malloc], [tvg::calloc]) as an oracle that may
    return [NULL], and the outcome of a call, which may also be a broken
    [assert] or a dereference of a freed pointer.  Used by
    [HuffmanCodes.v], [Stream.v], [Rescale.v] and [Image.v]. *)

From S2P Require Import Prelude.

Local Open Scope Z_scope.

(** [tvg::malloc]/[tvg::calloc]: the address of a block of the byte size,
    or [NULL]; [calloc] of the decoder and of the rescaler memory, whose
    sizes are [sizeof]s, succeed or not. *)
Record Allocator := mkAllocator {
  malloc : Z -> option Z;
  new_ok : bool;
  rescaler_ok : bool
}.

(** An allocator that never fails, and one whose [malloc] always fails. *)
Definition alloc_all : Allocator := mkAllocator (fun _ => Some 0) true true.
Definition alloc_none : Allocator := mkAllocator (fun _ => None) true true.

(** What a call returns: a result, no result within the fuel, or a
    broken [assert] / [NULL] dereference. *)
Inductive Outcome (A : Type) :=
  | Done (x : A)
  | OutOfFuel
  | Crash.
Arguments Done {A} x.
Arguments OutOfFuel {A}.
Arguments Crash {A}.

Definition outcome_of {A} (r : option A) : Outcome A :=
  match r with Some x => Done x | None => OutOfFuel end.

