(* ===== verification/BitReader.v ===== *)
(** * The VP8L bit reader (spec-modelled)

    The bit reader of [utils/bit_reader_utils.h] is outside [src/]; this
    file models it from the spec (section 4.1) and from the way
    [vp8l.cpp] uses it: [VP8LReadBits], [VP8LPrefetchBits],
    [VP8LSetBitPos], [VP8LFillBitWindow] and the [eos_] field.  The C
    reader caches a 64-bit window; the model reads the same bits directly
    from the buffer at an absolute bit position, which is what the window
    holds whenever the callers honour the "fill at least every second
    symbol" contract.  Bits past the end of the buffer read as zero. *)

From S2P Require Import Prelude.
From Stdlib Require Import Lia.

Local Open Scope Z_scope.
Local Open Scope vp8l_scope.

(** The most bits one [VP8LReadBits] may ask for ([VP8L_MAX_NUM_BIT_READ]). *)
Definition VP8L_MAX_NUM_BIT_READ : nat := 24.

Record VP8LBitReader := mkBitReader {
  buf_ : list Z;        (** the input bytes, least significant bit first *)
  bit_pos_ : nat;       (** absolute position of the next unread bit *)
  eos_ : bool           (** sticky end-of-stream flag *)
}.

(** The buffer as one little-endian integer. *)
Fixpoint le_value (buf : list Z) : Z :=
  match buf with
  | [] => 0
  | b :: t => b .| (le_value t << 8)
  end.

Definition VP8LInitBitReader (data : list Z) : VP8LBitReader :=
  mkBitReader data 0 false.

(** Reading past the last bit of the buffer is the end of the stream. *)
Definition VP8LIsEndOfStream (br : VP8LBitReader) : bool :=
  eos_ br || (8 * length (buf_ br) <? bit_pos_ br)%nat.

(** The next 32 bits, without advancing; zero once at end of stream. *)
Definition VP8LPrefetchBits (br : VP8LBitReader) : Z :=
  if eos_ br then 0
  else (le_value (buf_ br) >> Z.of_nat (bit_pos_ br)) .& mask 32.

Definition VP8LSetBitPos (br : VP8LBitReader) (val : nat) : VP8LBitReader :=
  let br' := mkBitReader (buf_ br) val (eos_ br) in
  mkBitReader (buf_ br) val (VP8LIsEndOfStream br').

Definition VP8LSetEndOfStream (br : VP8LBitReader) : VP8LBitReader :=
  mkBitReader (buf_ br) (bit_pos_ br) true.

(** [VP8LFillBitWindow] only refills the cached window: the abstract
    position model has no window, so it is the identity. *)
Definition VP8LFillBitWindow (br : VP8LBitReader) : VP8LBitReader := br.

(** [VP8LReadBits br n]: the next [n] bits and the advanced reader. *)
Definition VP8LReadBits (br : VP8LBitReader) (n_bits : nat) : Z * VP8LBitReader :=
  if negb (eos_ br) && (n_bits <=? VP8L_MAX_NUM_BIT_READ)%nat then
    let val := VP8LPrefetchBits br .& mask (Z.of_nat n_bits) in
    (val, VP8LSetBitPos br (bit_pos_ br + n_bits))
  else (0, VP8LSetEndOfStream br).

(** A buffer of bytes. *)
Definition bytes_ok (buf : list Z) : Prop := Forall (fun b => 0 <= b < 256) buf.

(** ** Lemmas *)

Lemma shiftr_mask_split (v : Z) (p n m : nat) :
  ((v >> Z.of_nat p) .& mask (Z.of_nat n))
    .| (((v >> Z.of_nat (p + n)) .& mask (Z.of_nat m)) << Z.of_nat n)
  = (v >> Z.of_nat p) .& mask (Z.of_nat (n + m)).
Proof.
  unfold mask. apply Z.bits_inj'. intros i Hi.
  rewrite Z.lor_spec, !Z.land_spec, !Z.shiftr_spec by lia.
  rewrite !Z.testbit_ones by lia.
  destruct (Z.ltb_spec i (Z.of_nat n)) as [Hlt|Hge].
  - rewrite Z.shiftl_spec_low by lia.
    destruct (Z.leb_spec 0 i); destruct (Z.ltb_spec i (Z.of_nat (n + m))); simpl;
      rewrite ?andb_true_r, ?andb_false_r, ?orb_false_r; try lia; reflexivity.
  - rewrite Z.shiftl_spec by lia.
    rewrite Z.land_spec, Z.shiftr_spec, Z.testbit_ones by lia.
    replace (i - Z.of_nat n + Z.of_nat (p + n)) with (i + Z.of_nat p) by lia.
    destruct (Z.leb_spec 0 i); destruct (Z.ltb_spec i (Z.of_nat n)); try lia.
    destruct (Z.leb_spec 0 (i - Z.of_nat n)); try lia.
    destruct (Z.ltb_spec (i - Z.of_nat n) (Z.of_nat m));
      destruct (Z.ltb_spec i (Z.of_nat (n + m))); simpl;
      rewrite ?andb_true_r, ?andb_false_r; try lia; reflexivity.
Qed.

Lemma land_mask_narrow (v : Z) (n k : nat) :
  (n <= k)%nat -> (v .& mask (Z.of_nat k)) .& mask (Z.of_nat n) = v .& mask (Z.of_nat n).
Proof.
  intros Hle. unfold mask. rewrite <- Z.land_assoc. f_equal.
  apply Z.bits_inj'. intros i Hi.
  rewrite Z.land_spec, !Z.testbit_ones by lia.
  destruct (Z.ltb_spec i (Z.of_nat n)); destruct (Z.ltb_spec i (Z.of_nat k));
    destruct (Z.leb_spec 0 i); simpl; try lia; reflexivity.
Qed.

(** The [n] bits at [p + k] are bits [k..k+n) of the [m] bits at [p]. *)
Lemma shiftr_mask_sub (v : Z) (p k n m : nat) :
  (k + n <= m)%nat ->
  (v >> Z.of_nat (p + k)) .& mask (Z.of_nat n)
  = (((v >> Z.of_nat p) .& mask (Z.of_nat m)) >> Z.of_nat k) .& mask (Z.of_nat n).
Proof.
  intros Hk. unfold mask. apply Z.bits_inj'. intros i Hi.
  rewrite !Z.land_spec, !Z.shiftr_spec, Z.land_spec, Z.shiftr_spec by lia.
  rewrite !Z.testbit_ones by lia.
  destruct (Z.ltb_spec i (Z.of_nat n)); cbn [andb]; [|rewrite !andb_false_r; reflexivity].
  rewrite !andb_true_r. replace (i + Z.of_nat (p + k)) with (i + Z.of_nat k + Z.of_nat p) by lia.
  replace (0 <=? i + Z.of_nat k) with true by (symmetry; apply Z.leb_le; lia).
  replace (i + Z.of_nat k <? Z.of_nat m) with true by (symmetry; apply Z.ltb_lt; lia).
  cbn [andb]. rewrite andb_true_r. reflexivity.
Qed.

Lemma read_bits_eos (br : VP8LBitReader) (n : nat) :
  eos_ br = true -> VP8LReadBits br n = (0, VP8LSetEndOfStream br).
Proof. intros H. unfold VP8LReadBits. rewrite H. reflexivity. Qed.

Lemma set_bit_pos_buf (br : VP8LBitReader) (v : nat) :
  buf_ (VP8LSetBitPos br v) = buf_ br.
Proof. reflexivity. Qed.

Lemma read_bits_buf (br : VP8LBitReader) (n : nat) :
  buf_ (snd (VP8LReadBits br n)) = buf_ br.
Proof. unfold VP8LReadBits. destruct (_ && _); reflexivity. Qed.

#[export] Hint Rewrite set_bit_pos_buf read_bits_buf : vp8l_rw.

(** The value of [n] bits read at the current position. *)
Lemma read_bits_value (br : VP8LBitReader) (n : nat) :
  eos_ br = false -> (n <= VP8L_MAX_NUM_BIT_READ)%nat ->
  fst (VP8LReadBits br n)
  = (le_value (buf_ br) >> Z.of_nat (bit_pos_ br)) .& mask (Z.of_nat n).
Proof.
  intros He Hn. unfold VP8LReadBits, VP8LPrefetchBits. rewrite He.
  destruct (Nat.leb_spec n VP8L_MAX_NUM_BIT_READ); [|lia]. simpl.
  apply (land_mask_narrow _ n 32). unfold VP8L_MAX_NUM_BIT_READ in *. lia.
Qed.

(** The reader after a successful read of [n] bits. *)
Lemma read_bits_state (br : VP8LBitReader) (n : nat) :
  eos_ br = false -> (n <= VP8L_MAX_NUM_BIT_READ)%nat ->
  snd (VP8LReadBits br n)
  = mkBitReader (buf_ br) (bit_pos_ br + n)
      (8 * length (buf_ br) <? bit_pos_ br + n)%nat.
Proof.
  intros He Hn. unfold VP8LReadBits, VP8LSetBitPos, VP8LIsEndOfStream.
  rewrite He. destruct (Nat.leb_spec n VP8L_MAX_NUM_BIT_READ); [|lia].
  reflexivity.
Qed.

(** A read of a live reader that stays inside the buffer: the next [n]
    bits, and the reader [n] bits further, still live. *)
Lemma read_bits_at (buf : list Z) (pos n : nat) :
  (n <= VP8L_MAX_NUM_BIT_READ)%nat -> (pos + n <= 8 * length buf)%nat ->
  VP8LReadBits (mkBitReader buf pos false) n
  = ((le_value buf >> Z.of_nat pos) .& mask (Z.of_nat n), mkBitReader buf (pos + n) false).
Proof.
  intros Hn Hp. rewrite (surjective_pairing (VP8LReadBits _ _)), read_bits_value, read_bits_state
    by (reflexivity || exact Hn). cbn [buf_ bit_pos_].
  replace (8 * length buf <? pos + n)%nat with false by (symmetry; apply Nat.ltb_ge; lia). reflexivity.
Qed.

(** ** Properties of the bit reader *)

(** [VP8LReadBits br n] returns a value below [2^n], whatever the state of
    the reader (at end of stream it returns 0). *)
Lemma read_bits_bound (br : VP8LBitReader) (n : nat) :
  0 <= fst (VP8LReadBits br n) < 2 ^ Z.of_nat n.
Proof.
  unfold VP8LReadBits. destruct (_ && _); simpl.
  - apply land_mask_bound. lia.
  - split; [lia|]. apply Z.pow_pos_nonneg; lia.
Qed.

(** Two consecutive reads of [n] and [m] bits that stay before the end
    of the stream return the [n + m] bits at the starting position, least
    significant first: [v1 | (v2 << n)]; the cursor moves by [n + m]. *)
Theorem VP8LReadBits_compose (br : VP8LBitReader) (n m : nat) :
  eos_ br = false ->
  (n <= VP8L_MAX_NUM_BIT_READ)%nat -> (m <= VP8L_MAX_NUM_BIT_READ)%nat ->
  (bit_pos_ br + n <= 8 * length (buf_ br))%nat ->
  let '(v1, br1) := VP8LReadBits br n in
  let '(v2, br2) := VP8LReadBits br1 m in
  v1 .| (v2 << Z.of_nat n)
    = (le_value (buf_ br) >> Z.of_nat (bit_pos_ br)) .& mask (Z.of_nat (n + m))
  /\ bit_pos_ br2 = (bit_pos_ br + n + m)%nat.
Proof.
  intros He Hn Hm Hlen.
  assert (He1 : (8 * length (buf_ br) <? bit_pos_ br + n)%nat = false)
    by (apply Nat.ltb_ge; lia).
  rewrite (surjective_pairing (VP8LReadBits br n)), read_bits_value,
    read_bits_state, He1 by assumption.
  set (br1 := mkBitReader (buf_ br) (bit_pos_ br + n) false).
  rewrite (surjective_pairing (VP8LReadBits br1 m)), (read_bits_value br1),
    (read_bits_state br1) by (reflexivity || assumption).
  split; [apply shiftr_mask_split | simpl; lia].
Qed.

(** End of stream is sticky: once set, no read clears it, and every
    later read returns 0. *)
Theorem VP8LReadBits_eos_sticky (br : VP8LBitReader) (n : nat) :
  eos_ br = true ->
  fst (VP8LReadBits br n) = 0 /\ eos_ (snd (VP8LReadBits br n)) = true.
Proof. intros H. rewrite read_bits_eos by exact H. split; reflexivity. Qed.

(** The position never moves backwards. *)
Lemma read_bits_pos_mono (br : VP8LBitReader) (n : nat) :
  (bit_pos_ br <= bit_pos_ (snd (VP8LReadBits br n)))%nat.
Proof. unfold VP8LReadBits. destruct (_ && _); simpl; lia. Qed.

(** ** Witnesses *)

Lemma VP8LReadBits_compose_witness :
  eos_ (VP8LInitBitReader [0xa5; 0x3c]) = false /\
  (let '(v1, br1) := VP8LReadBits (VP8LInitBitReader [0xa5; 0x3c]) 3 in
   let '(v2, br2) := VP8LReadBits br1 7 in
   v1 .| (v2 << Z.of_nat 3)
     = (le_value [0xa5; 0x3c] >> Z.of_nat 0) .& mask (Z.of_nat (3 + 7))
   /\ bit_pos_ br2 = (0 + 3 + 7)%nat).
Proof.
  split; [reflexivity|].
  apply (VP8LReadBits_compose (VP8LInitBitReader [0xa5; 0x3c]) 3 7); vm_compute;
    (reflexivity || lia).
Defined.

Lemma VP8LReadBits_eos_sticky_witness :
  eos_ (mkBitReader [1] 9 true) = true /\
  fst (VP8LReadBits (mkBitReader [1] 9 true) 4) = 0 /\
  eos_ (snd (VP8LReadBits (mkBitReader [1] 9 true) 4)) = true.
Proof. split; [reflexivity|]. apply VP8LReadBits_eos_sticky. reflexivity. Defined.

(** ** Little-endian bytes *)

(** The [n] little-endian bytes of [v] (the writer's side of [le_value]). *)
Fixpoint le_bytes (n : nat) (v : Z) : list Z :=
  match n with
  | O => []
  | S n' => (v .& 255) :: le_bytes n' (v >> 8)
  end.

(** Encode/decode round trip of the byte order the
    reader assumes: the [n] little-endian bytes of any [0 <= v < 2^(8n)]
    read back as [v]. *)
Theorem le_value_le_bytes (n : nat) (v : Z) :
  0 <= v < 2 ^ (8 * Z.of_nat n) -> le_value (le_bytes n v) = v.
Proof.
  revert v. induction n as [|n IH]; intros v Hv; simpl.
  - simpl in Hv. lia.
  - rewrite IH.
    + change 255 with (Z.ones 8). rewrite lor_shiftl_add by (try apply land_mask_bound; lia).
      rewrite Z.land_ones, Z.shiftr_div_pow2 by lia. pose proof (Z.div_mod v (2 ^ 8)). lia.
    + rewrite Z.shiftr_div_pow2 by lia. split; [apply Z.div_pos; lia|].
      apply Z.div_lt_upper_bound; [lia|]. rewrite <- Z.pow_add_r by lia.
      replace (8 + 8 * Z.of_nat n) with (8 * Z.of_nat (S n)) by lia. lia.
Qed.

Lemma length_le_bytes (n : nat) (v : Z) : length (le_bytes n v) = n.
Proof. revert v. induction n as [|n IH]; intros v; simpl; [done|]. rewrite IH. done. Qed.

Lemma byte_land (x : Z) : 0 <= x .& 255 < 256.
Proof. change 255 with (Z.ones 8). rewrite Z.land_ones by lia. apply Z.mod_pos_bound. lia. Qed.

(** One byte in front of a little-endian value. *)
Lemma le_value_cons (b : Z) (t : list Z) :
  0 <= b < 256 -> le_value (b :: t) = b + le_value t * 2 ^ 8.
Proof. intros Hb. simpl. apply lor_shiftl_add; [lia|exact Hb]. Qed.

Lemma le_value_bound (l : list Z) :
  bytes_ok l -> 0 <= le_value l < 2 ^ (8 * Z.of_nat (length l)).
Proof.
  induction l as [|b t IH]; intros Hl; [simpl; lia|].
  inversion Hl as [|? ? Hb Ht]; subst. rewrite le_value_cons by exact Hb.
  specialize (IH Ht). rewrite length_cons, Nat2Z.inj_succ, Z.mul_succ_r, Z.pow_add_r by lia.
  change (2 ^ 8) with 256 in *. nia.
Qed.

(** The other half of the round trip: a list of bytes is the
    little-endian encoding of its value. *)
Lemma le_bytes_le_value (l : list Z) :
  bytes_ok l -> le_bytes (length l) (le_value l) = l.
Proof.
  induction l as [|b t IH]; intros Hl; [done|].
  inversion Hl as [|? ? Hb Ht]; subst. simpl length. cbn [le_bytes].
  rewrite le_value_cons by exact Hb. pose proof (le_value_bound t Ht).
  change 255 with (Z.ones 8). rewrite Z.land_ones, Z.shiftr_div_pow2 by lia.
  rewrite Z.mod_add, Z.mod_small, Z.div_add, Z.div_small, Z.add_0_l by lia.
  rewrite IH by exact Ht. done.
Qed.
