(* ===== verification/Header.v ===== *)
(** * The stream header

    [VP8LCheckSignature], [ReadImageInfo] and [VP8LGetInfo] of [vp8l.cpp]:
    the 5-byte prefix [0x2f], then [width - 1] (14 bits), [height - 1]
    (14 bits), [has_alpha] (1 bit) and [version] (3 bits, must be 0), least
    significant bit first.  The header constants live in
    [format_constants.h] (outside [src/]) and are taken from the spec
    (sections 3 and 6).  The theorems: reading back the header the spec
    describes gives the dimensions it encodes (for every size the format
    allows), and whatever the input, an accepted header has dimensions in
    [1 .. 16384]. *)

From S2P Require Import Prelude BitReader.
From Stdlib Require Import Lia.

Local Open Scope Z_scope.
Local Open Scope vp8l_scope.

Definition VP8L_MAGIC_BYTE : Z := 0x2f.
Definition VP8L_IMAGE_SIZE_BITS : nat := 14.
Definition VP8L_VERSION_BITS : nat := 3.
Definition VP8L_FRAME_HEADER_SIZE : nat := 5.

(** [size >= VP8L_FRAME_HEADER_SIZE && data[0] == VP8L_MAGIC_BYTE &&
    (data[4] >> 5) == 0]. *)
Definition VP8LCheckSignature (data : list Z) (size : nat) : bool :=
  (VP8L_FRAME_HEADER_SIZE <=? size)%nat && (data !!! 0%nat =? VP8L_MAGIC_BYTE)
  && (data !!! 4%nat >> 5 =? 0).

(** [ReadImageInfo(br, &width, &height, &has_alpha)]: the three fields
    when the function returns 1, [None] when it returns 0. *)
Definition ReadImageInfo (br : VP8LBitReader) : option (Z * Z * Z) * VP8LBitReader :=
  let '(magic, br) := VP8LReadBits br 8 in
  if negb (magic =? VP8L_MAGIC_BYTE) then (None, br) else
  let '(w, br) := VP8LReadBits br VP8L_IMAGE_SIZE_BITS in
  let '(h, br) := VP8LReadBits br VP8L_IMAGE_SIZE_BITS in
  let '(a, br) := VP8LReadBits br 1 in
  let '(version, br) := VP8LReadBits br VP8L_VERSION_BITS in
  if negb (version =? 0) then (None, br)
  else ((if eos_ br then None else Some (w + 1, h + 1, a)), br).

(** [VP8LGetInfo(data, data_size, ...)] for a non-NULL [data]. *)
Definition VP8LGetInfo (data : list Z) (data_size : nat) : option (Z * Z * Z) :=
  if (data_size <? VP8L_FRAME_HEADER_SIZE)%nat then None
  else if negb (VP8LCheckSignature data data_size) then None
  else fst (ReadImageInfo (VP8LInitBitReader (take data_size data))).

(** The header the spec describes (section 6), as the encoder writes it. *)
Definition encode_header (w h a : Z) : list Z :=
  VP8L_MAGIC_BYTE :: le_bytes 4 ((w - 1) + 2 ^ 14 * (h - 1) + 2 ^ 28 * a).

(** ** Lemmas *)

(** A field of [n] bits at bit [k] of a word. *)
Lemma field_extract (lo x hi k n : Z) :
  0 <= k -> 0 <= n -> 0 <= lo < 2 ^ k -> 0 <= x < 2 ^ n -> 0 <= hi ->
  ((lo + x * 2 ^ k + hi * 2 ^ (k + n)) >> k) .& mask n = x.
Proof.
  intros Hk Hn Hlo Hx Hhi. rewrite Z.shiftr_div_pow2 by lia.
  replace (lo + x * 2 ^ k + hi * 2 ^ (k + n)) with (lo + (x + hi * 2 ^ n) * 2 ^ k)
    by (rewrite Z.pow_add_r by lia; ring).
  rewrite Z.div_add, (Z.div_small lo) by lia. unfold mask.
  rewrite Z.land_ones, Z.add_0_l, Z.mod_add, Z.mod_small by lia. reflexivity.
Qed.

Lemma read_bits_fst_snd (br : VP8LBitReader) (n : nat) :
  VP8LReadBits br n = (fst (VP8LReadBits br n), snd (VP8LReadBits br n)).
Proof. apply surjective_pairing. Qed.

(** Reading [n] bits at [k] from a reader that is not at end of stream. *)
Lemma read_field (buf : list Z) (k n : nat) (lo x hi : Z) :
  (n <= VP8L_MAX_NUM_BIT_READ)%nat ->
  le_value buf = lo + x * 2 ^ Z.of_nat k + hi * 2 ^ (Z.of_nat k + Z.of_nat n) ->
  0 <= lo < 2 ^ Z.of_nat k -> 0 <= x < 2 ^ Z.of_nat n -> 0 <= hi ->
  VP8LReadBits (mkBitReader buf k false) n
  = (x, mkBitReader buf (k + n) (8 * length buf <? k + n)%nat).
Proof.
  intros Hn Hv Hlo Hx Hhi. rewrite read_bits_fst_snd, read_bits_value, read_bits_state by auto.
  simpl. rewrite Hv, field_extract by lia. reflexivity.
Qed.

Lemma le_value_header (w h a : Z) :
  1 <= w <= 16384 -> 1 <= h <= 16384 -> 0 <= a <= 1 ->
  le_value (encode_header w h a) = 0x2f + ((w - 1) + 2 ^ 14 * (h - 1) + 2 ^ 28 * a) * 2 ^ 8.
Proof.
  intros Hw Hh Ha. unfold encode_header. cbn [le_value].
  rewrite le_value_le_bytes by (simpl; lia).
  unfold VP8L_MAGIC_BYTE. apply lor_shiftl_add; [lia|split; [lia|reflexivity]].
Qed.

Lemma header_signature (w h a : Z) :
  1 <= w <= 16384 -> 1 <= h <= 16384 -> 0 <= a <= 1 ->
  VP8LCheckSignature (encode_header w h a) 5 = true.
Proof.
  intros Hw Hh Ha. unfold VP8LCheckSignature, encode_header.
  set (v := (w - 1) + 2 ^ 14 * (h - 1) + 2 ^ 28 * a).
  change ((VP8L_MAGIC_BYTE :: le_bytes 4 v) !!! 4%nat) with ((((v >> 8) >> 8) >> 8) .& 255).
  change ((VP8L_MAGIC_BYTE :: le_bytes 4 v) !!! 0%nat) with VP8L_MAGIC_BYTE.
  rewrite Z.eqb_refl. change (VP8L_FRAME_HEADER_SIZE <=? 5)%nat with true. cbn [andb].
  assert (Hv : 0 <= v < 2 ^ 29) by (unfold v; change (2 ^ 29) with 536870912;
    change (2 ^ 28) with 268435456; change (2 ^ 14) with 16384; lia).
  rewrite !Z.shiftr_shiftr by lia. change (8 + (8 + 8)) with 24.
  assert (Hb : 0 <= v >> 24 < 2 ^ 5).
  { rewrite Z.shiftr_div_pow2 by lia. split; [apply Z.div_pos; lia|].
    apply Z.div_lt_upper_bound; [lia|]. rewrite <- Z.pow_add_r by lia. exact (proj2 Hv). }
  change 255 with (Z.ones 8). rewrite Z.land_ones by lia.
  rewrite Z.mod_small by (split; [lia|]; apply (Z.lt_trans _ (2 ^ 5)); [lia|reflexivity]).
  rewrite Z.shiftr_div_pow2, Z.div_small by lia. reflexivity.
Qed.

(** A read of [n] bits at [k] that stays inside the buffer. *)
Lemma read_field_in (buf : list Z) (k n : nat) (lo x hi : Z) :
  (n <= VP8L_MAX_NUM_BIT_READ)%nat -> (k + n <= 8 * length buf)%nat ->
  le_value buf = lo + x * 2 ^ Z.of_nat k + hi * 2 ^ (Z.of_nat k + Z.of_nat n) ->
  0 <= lo < 2 ^ Z.of_nat k -> 0 <= x < 2 ^ Z.of_nat n -> 0 <= hi ->
  VP8LReadBits (mkBitReader buf k false) n = (x, mkBitReader buf (k + n) false).
Proof.
  intros Hn Hk Hv Hlo Hx Hhi. rewrite (read_field buf k n lo x hi) by assumption.
  destruct (Nat.ltb_spec (8 * length buf) (k + n)); [lia|reflexivity].
Qed.

(** Replaces every constant power of two by its value, for [lia]. *)
Local Ltac pow_consts :=
  repeat match goal with
  | |- context [2 ^ ?n] => let m := eval vm_compute in (2 ^ n) in change (2 ^ n) with m
  | H : context [2 ^ ?n] |- _ =>
      let m := eval vm_compute in (2 ^ n) in change (2 ^ n) with m in H
  end.

Local Ltac field_side Hlen :=
  unfold VP8L_MAX_NUM_BIT_READ; rewrite ?Hlen; simpl Z.of_nat; simpl Z.add; pow_consts; lia.

Lemma ReadImageInfo_header (w h a : Z) :
  1 <= w <= 16384 -> 1 <= h <= 16384 -> 0 <= a <= 1 ->
  fst (ReadImageInfo (mkBitReader (encode_header w h a) 0 false)) = Some (w, h, a).
Proof.
  intros Hw Hh Ha. pose proof (le_value_header w h a Hw Hh Ha) as HL.
  assert (Hlen : length (encode_header w h a) = 5%nat) by reflexivity.
  set (buf := encode_header w h a) in *. clearbody buf. pow_consts.
  unfold ReadImageInfo, VP8L_IMAGE_SIZE_BITS, VP8L_VERSION_BITS.
  rewrite (read_field_in buf 0 8 0 0x2f ((w - 1) + 16384 * (h - 1) + 268435456 * a))
    by field_side Hlen.
  cbn [Nat.add]. change (negb (0x2f =? VP8L_MAGIC_BYTE)) with false. cbv iota.
  rewrite (read_field_in buf 8 14 0x2f (w - 1) ((h - 1) + 16384 * a)) by field_side Hlen.
  cbn [Nat.add].
  rewrite (read_field_in buf 22 14 (0x2f + (w - 1) * 256) (h - 1) a) by field_side Hlen.
  cbn [Nat.add].
  rewrite (read_field_in buf 36 1 (0x2f + (w - 1) * 256 + (h - 1) * 4194304) a 0)
    by field_side Hlen.
  cbn [Nat.add].
  rewrite (read_field_in buf 37 3 (0x2f + (w - 1) * 256 + (h - 1) * 4194304 + a * 68719476736)
             0 0) by field_side Hlen.
  cbn [Nat.add eos_ fst]. change (negb (0 =? 0)) with false. cbv iota.
  simpl fst. do 3 f_equal; lia.
Qed.

(** ** Properties of the header *)

(** C30: header round trip: for every size the
    format allows ([1 .. 16384] each way) and either alpha flag,
    [VP8LGetInfo] on the 5-byte header of section 6 returns exactly the
    width, height and alpha flag it encodes. *)
Theorem VP8LGetInfo_encode_header (w h a : Z) :
  1 <= w <= 16384 -> 1 <= h <= 16384 -> 0 <= a <= 1 ->
  VP8LGetInfo (encode_header w h a) 5 = Some (w, h, a).
Proof.
  intros Hw Hh Ha. unfold VP8LGetInfo.
  change (5 <? VP8L_FRAME_HEADER_SIZE)%nat with false. cbv iota.
  rewrite header_signature by assumption. cbn [negb]. cbv iota.
  assert (Hlen : length (encode_header w h a) = 5%nat) by reflexivity.
  rewrite firstn_all2 by lia. apply ReadImageInfo_header; assumption.
Qed.

(** Whatever the input, a header that
    [ReadImageInfo] accepts has a width and a height in [1 .. 2^14] and an
    alpha flag of one bit: the [+ 1] of the code cannot produce 0 and
    nothing exceeds 14 bits. *)
Theorem ReadImageInfo_bounds (br : VP8LBitReader) (w h a : Z) :
  fst (ReadImageInfo br) = Some (w, h, a) ->
  1 <= w <= 2 ^ 14 /\ 1 <= h <= 2 ^ 14 /\ 0 <= a <= 1.
Proof.
  unfold ReadImageInfo.
  destruct (VP8LReadBits br 8) as [m br1]. destruct (negb _); [discriminate|].
  pose proof (read_bits_bound br1 VP8L_IMAGE_SIZE_BITS) as B1.
  destruct (VP8LReadBits br1 _) as [w' br2].
  pose proof (read_bits_bound br2 VP8L_IMAGE_SIZE_BITS) as B2.
  destruct (VP8LReadBits br2 _) as [h' br3].
  pose proof (read_bits_bound br3 1) as B3.
  destruct (VP8LReadBits br3 _) as [a' br4].
  destruct (VP8LReadBits br4 _) as [v br5]. destruct (negb _); [discriminate|].
  destruct (eos_ br5); [discriminate|].
  intros [= <- <- <-]. cbn [fst] in *. unfold VP8L_IMAGE_SIZE_BITS in *. simpl Z.of_nat in *.
  pow_consts. lia.
Qed.

(** ** Witnesses *)

Lemma VP8LGetInfo_encode_header_witness :
  VP8LGetInfo (encode_header 16384 3 1) 5 = Some (16384, 3, 1).
Proof. apply VP8LGetInfo_encode_header; lia. Defined.

Lemma ReadImageInfo_bounds_witness :
  fst (ReadImageInfo (mkBitReader (encode_header 7 5 0) 0 false)) = Some (7, 5, 0) /\
  1 <= 7 <= 2 ^ 14 /\ 1 <= 5 <= 2 ^ 14 /\ 0 <= 0 <= 1.
Proof.
  assert (H : fst (ReadImageInfo (mkBitReader (encode_header 7 5 0) 0 false)) = Some (7, 5, 0))
    by (vm_compute; reflexivity).
  split; [exact H|]. exact (ReadImageInfo_bounds _ 7 5 0 H).
Defined.
