(* ===== verification/Prefix.v ===== *)
(** * Prefix-coded lengths and distances, the 2-D distance map, sizes

    Models [GetCopyDistance], [GetCopyLength], [kCodeToPlane],
    [PlaneCodeToDistance], [VP8LSubSampleSize], [kAlphabetSize] and
    [kTableSize] of [vp8l.cpp].  Symbols, lengths, distances and image sides
    are [nat] (the C [int]s involved stay far below [2^31]); the extra bits
    come from the bit reader as [Z].  The encoder side [prefix_encode] is the
    specification the round trip is stated against. *)

From S2P Require Import Prelude BitReader.
From Stdlib Require Import Lia.

Local Open Scope Z_scope.
Local Open Scope vp8l_scope.

Definition NUM_LITERAL_CODES : nat := 256.
Definition NUM_LENGTH_CODES : nat := 24.
Definition NUM_DISTANCE_CODES : nat := 40.
Definition HUFFMAN_CODES_PER_META_CODE : nat := 5.
Definition CODE_TO_PLANE_CODES : nat := 120.

(** [GetCopyDistance]: symbols below 4 stand for themselves plus one;
    symbol [k >= 4] reads [(k - 2) >> 1] extra bits on top of the offset
    [(2 + (k & 1)) << extra_bits]. *)
Definition GetCopyDistance (distance_symbol : nat) (br : VP8LBitReader)
  : nat * VP8LBitReader :=
  if (distance_symbol <? 4)%nat then (distance_symbol + 1, br)%nat
  else
    let extra_bits := Nat.shiftr (distance_symbol - 2) 1 in
    let offset := Nat.shiftl (2 + Nat.land distance_symbol 1) extra_bits in
    let '(v, br') := VP8LReadBits br extra_bits in
    (offset + Z.to_nat v + 1, br')%nat.

(** Length and distance prefixes are encoded the same way. *)
Definition GetCopyLength (length_symbol : nat) (br : VP8LBitReader)
  : nat * VP8LBitReader :=
  GetCopyDistance length_symbol br.

Definition kCodeToPlane : list Z := [
  0x18; 0x07; 0x17; 0x19; 0x28; 0x06; 0x27; 0x29; 0x16; 0x1a;
  0x26; 0x2a; 0x38; 0x05; 0x37; 0x39; 0x15; 0x1b; 0x36; 0x3a;
  0x25; 0x2b; 0x48; 0x04; 0x47; 0x49; 0x14; 0x1c; 0x35; 0x3b;
  0x46; 0x4a; 0x24; 0x2c; 0x58; 0x45; 0x4b; 0x34; 0x3c; 0x03;
  0x57; 0x59; 0x13; 0x1d; 0x56; 0x5a; 0x23; 0x2d; 0x44; 0x4c;
  0x55; 0x5b; 0x33; 0x3d; 0x68; 0x02; 0x67; 0x69; 0x12; 0x1e;
  0x66; 0x6a; 0x22; 0x2e; 0x54; 0x5c; 0x43; 0x4d; 0x65; 0x6b;
  0x32; 0x3e; 0x78; 0x01; 0x77; 0x79; 0x53; 0x5d; 0x11; 0x1f;
  0x64; 0x6c; 0x42; 0x4e; 0x76; 0x7a; 0x21; 0x2f; 0x75; 0x7b;
  0x31; 0x3f; 0x63; 0x6d; 0x52; 0x5e; 0x00; 0x74; 0x7c; 0x41;
  0x4f; 0x10; 0x20; 0x62; 0x6e; 0x30; 0x73; 0x7d; 0x51; 0x5f;
  0x40; 0x72; 0x7e; 0x61; 0x6f; 0x50; 0x71; 0x7f; 0x60; 0x70 ].

(** [PlaneCodeToDistance xsize plane_code]: codes above 120 are linear
    distances; smaller ones name a [(yoffset, xoffset)] neighbour through
    [kCodeToPlane], clamped to at least 1 on very narrow images. *)
Definition PlaneCodeToDistance (xsize plane_code : nat) : nat :=
  if (CODE_TO_PLANE_CODES <? plane_code)%nat then (plane_code - CODE_TO_PLANE_CODES)%nat
  else
    let dist_code := kCodeToPlane !!! (plane_code - 1)%nat in
    let yoffset := dist_code >> 4 in
    let xoffset := 8 - (dist_code .& 0xf) in
    let dist := yoffset * Z.of_nat xsize + xoffset in
    Z.to_nat (if dist >=? 1 then dist else 1).

(** [VP8LSubSampleSize size sampling_bits = (size + (1 << bits) - 1) >> bits]. *)
Definition VP8LSubSampleSize (size sampling_bits : nat) : nat :=
  Nat.shiftr (size + Nat.shiftl 1 sampling_bits - 1) sampling_bits.

Definition kAlphabetSize : list nat :=
  [NUM_LITERAL_CODES + NUM_LENGTH_CODES; NUM_LITERAL_CODES; NUM_LITERAL_CODES;
   NUM_LITERAL_CODES; NUM_DISTANCE_CODES]%nat.

Definition FIXED_TABLE_SIZE : nat := (630 * 3 + 410)%nat.

Definition kTableSize : list nat :=
  map (fun k => FIXED_TABLE_SIZE + k)%nat
    [654; 656; 658; 662; 670; 686; 718; 782; 912; 1168; 1680; 2704]%nat.

(** ** The encoder's prefix code, the specification of [GetCopyDistance] *)

(** [prefix_encode d] is [(symbol, number of extra bits, extra bits)] of a
    distance or length [d >= 1], as the VP8L encoder writes it. *)
Definition prefix_encode (d : nat) : nat * nat * nat :=
  let x := (d - 1)%nat in
  if (x <? 4)%nat then (x, 0%nat, 0%nat)
  else
    let h := Nat.log2 x in
    let second := Nat.land (Nat.shiftr x (h - 1)) 1 in
    ((2 * h + second)%nat, (h - 1)%nat, Nat.land x (Nat.ones (h - 1))).

(** ** Lemmas *)

(** The decomposition of [x >= 4] that the prefix code relies on: with
    [h = log2 x], [x = (2 + s) * 2^(h-1) + r] where [s] is the bit below the
    leading one and [r] the [h - 1] low bits. *)
Lemma prefix_split (x : nat) :
  (4 <= x)%nat ->
  let h := Nat.log2 x in
  (2 <= h)%nat /\
  x = ((2 + (x / 2 ^ (h - 1)) mod 2) * 2 ^ (h - 1) + x mod 2 ^ (h - 1))%nat.
Proof.
  intros Hx h.
  pose proof (Nat.log2_spec x ltac:(lia)) as [Hlo Hhi]. fold h in Hlo, Hhi.
  assert (Hh : (2 <= h)%nat).
  { subst h. change 2%nat with (Nat.log2 4). apply Nat.log2_le_mono. lia. }
  split; [exact Hh|].
  set (p := (2 ^ (h - 1))%nat).
  assert (Hp2 : (2 ^ h = 2 * p)%nat)
    by (subst p; replace h with (S (h - 1)) at 1 by lia; reflexivity).
  assert (Hp4 : (2 ^ S h = 4 * p)%nat) by (simpl; lia).
  assert (Hp : (0 < p)%nat) by (subst p; apply Nat.neq_0_lt_0, Nat.pow_nonzero; lia).
  pose proof (Nat.div_mod_eq x p) as Hdm.
  pose proof (Nat.mod_upper_bound x p ltac:(lia)) as Hr.
  assert (Hq : (2 <= x / p < 4)%nat) by nia.
  assert (Hq' : (x / p = 2 + (x / p) mod 2)%nat).
  { destruct (Nat.eq_dec (x / p) 2) as [E|E]; [rewrite E; reflexivity|].
    assert (x / p = 3)%nat as -> by lia. reflexivity. }
  rewrite <- Hq'. lia.
Qed.

(** [GetCopyDistance] never yields 0. *)
Lemma GetCopyDistance_pos (sym : nat) (br : VP8LBitReader) :
  (1 <= fst (GetCopyDistance sym br))%nat.
Proof.
  unfold GetCopyDistance. destruct (Nat.ltb_spec sym 4); [simpl; lia|].
  destruct (VP8LReadBits _ _). simpl. lia.
Qed.

(** Every entry of [kCodeToPlane] is a byte [yoffset * 16 + xoffset], and the
    entries on the current row ([yoffset = 0]) point strictly to the left. *)
Lemma kCodeToPlane_entries :
  Forall (fun dc => 0 <= dc < 256 /\ 0 <= dc >> 4 < 8 /\
                    (dc >> 4 = 0 -> dc .& 15 <= 7)) kCodeToPlane.
Proof. vm_compute. repeat constructor; discriminate. Qed.

Lemma length_kCodeToPlane : length kCodeToPlane = CODE_TO_PLANE_CODES.
Proof. reflexivity. Qed.

Lemma kCodeToPlane_NoDup : NoDup kCodeToPlane.
Proof. apply (bool_decide_unpack _). vm_compute. exact I. Qed.

(** A byte is [(b >> 4) * 16 + (b & 15)]. *)
Lemma byte_nibbles (b : Z) : 0 <= b -> b = (b >> 4) * 16 + b .& 15.
Proof.
  intros Hb. rewrite Z.shiftr_div_pow2 by lia.
  change (b .& 15) with (b .& Z.ones 4). rewrite Z.land_ones by lia.
  change (2 ^ 4) with 16. pose proof (Z.div_mod b 16). lia.
Qed.

Lemma nibble_bound (b : Z) : 0 <= b .& 15 <= 15.
Proof.
  change (b .& 15) with (b .& Z.ones 4). rewrite Z.land_ones by lia.
  pose proof (Z.mod_pos_bound b (2 ^ 4) eq_refl). change (2 ^ 4) with 16 in *. lia.
Qed.

Lemma kCodeToPlane_entry (c : nat) :
  (1 <= c <= CODE_TO_PLANE_CODES)%nat ->
  let dc := kCodeToPlane !!! (c - 1)%nat in
  0 <= dc < 256 /\ 0 <= dc >> 4 < 8 /\ (dc >> 4 = 0 -> dc .& 15 <= 7).
Proof.
  intros Hc dc. pose proof kCodeToPlane_entries as HF.
  rewrite Forall_lookup in HF. apply (HF (c - 1)%nat).
  apply list_lookup_lookup_total_lt. rewrite length_kCodeToPlane. lia.
Qed.

Lemma nat_land_1 (a : nat) : Nat.land a 1 = (a mod 2)%nat.
Proof. apply (Nat.land_ones a 1). Qed.

(** ** Properties of the prefix codes *)

(** C29: round trip of the prefix code.  For
    every length or distance [d >= 1], the symbol and extra bits that the
    encoder writes for [d] are decoded by [GetCopyDistance] back to [d],
    provided the extra bits are the next bits of the stream. *)
Theorem GetCopyDistance_prefix_encode (d : nat) (br : VP8LBitReader) :
  (1 <= d)%nat ->
  let '(sym, eb, ev) := prefix_encode d in
  eos_ br = false -> (eb <= VP8L_MAX_NUM_BIT_READ)%nat ->
  (le_value (buf_ br) >> Z.of_nat (bit_pos_ br)) .& mask (Z.of_nat eb) = Z.of_nat ev ->
  fst (GetCopyDistance sym br) = d.
Proof.
  intros Hd. unfold prefix_encode.
  destruct (Nat.ltb_spec (d - 1) 4) as [Hsmall|Hbig]; intros He Heb Hbits.
  - unfold GetCopyDistance. destruct (Nat.ltb_spec (d - 1) 4); simpl; lia.
  - destruct (prefix_split (d - 1) Hbig) as [Hh Hx].
    set (h := Nat.log2 (d - 1)) in *.
    rewrite Nat.shiftr_div_pow2, nat_land_1, Nat.land_ones in *.
    set (s := (((d - 1) / 2 ^ (h - 1)) mod 2)%nat) in *.
    assert (Hs : (s < 2)%nat) by (apply Nat.mod_upper_bound; lia).
    unfold GetCopyDistance.
    destruct (Nat.ltb_spec (2 * h + s) 4); [lia|].
    rewrite Nat.shiftr_div_pow2, nat_land_1, Nat.shiftl_mul_pow2.
    replace ((2 * h + s - 2) / 2 ^ 1)%nat with (h - 1)%nat.
    2:{ replace (2 * h + s - 2)%nat with (s + (h - 1) * 2)%nat by lia.
        rewrite Nat.div_add, Nat.div_small by (simpl; lia). reflexivity. }
    replace ((2 * h + s) mod 2)%nat with s.
    2:{ replace (2 * h + s)%nat with (s + h * 2)%nat by lia.
        rewrite Nat.Div0.mod_add, Nat.mod_small by lia. reflexivity. }
    rewrite (surjective_pairing (VP8LReadBits br (h - 1))), read_bits_value,
      Hbits, Nat2Z.id by assumption.
    simpl. lia.
Qed.

(** The distance of a back-reference is at least one pixel, for every
    image width and every code (the clamp of narrow images included). *)
Lemma PlaneCodeToDistance_pos (xsize plane_code : nat) :
  (1 <= PlaneCodeToDistance xsize plane_code)%nat.
Proof.
  unfold PlaneCodeToDistance.
  destruct (Nat.ltb_spec CODE_TO_PLANE_CODES plane_code); [lia|].
  match goal with |- context [if ?c then _ else _] => destruct c eqn:E end.
  - apply Z.geb_le in E. lia.
  - simpl. lia.
Qed.

(** On images at least 8 pixels wide the
    clamp never applies: code [c <= 120] names the pixel [yoffset] rows up
    and [xoffset - 8] columns to the right, at linear distance
    [yoffset * xsize + 8 - xoffset]. *)
Theorem PlaneCodeToDistance_exact (xsize c : nat) :
  (8 <= xsize)%nat -> (1 <= c <= CODE_TO_PLANE_CODES)%nat ->
  let dc := kCodeToPlane !!! (c - 1)%nat in
  Z.of_nat (PlaneCodeToDistance xsize c)
  = (dc >> 4) * Z.of_nat xsize + 8 - dc .& 15.
Proof.
  intros Hw Hc dc.
  destruct (kCodeToPlane_entry c Hc) as (Hdc & Hy & Hrow). fold dc in Hdc, Hy, Hrow.
  pose proof (nibble_bound dc).
  unfold PlaneCodeToDistance. destruct (Nat.ltb_spec CODE_TO_PLANE_CODES c); [lia|].
  fold dc.
  assert (Hge : (dc >> 4) * Z.of_nat xsize + (8 - dc .& 15) >= 1).
  { destruct (Z.eq_dec (dc >> 4) 0) as [E|E]; [specialize (Hrow E); rewrite E; lia|nia]. }
  apply Z.ge_le, Z.geb_le in Hge. rewrite Hge. apply Z.geb_le in Hge.
  rewrite Z2Nat.id; lia.
Qed.

(** C34: on images at least 16 pixels wide, distinct
    plane codes name distinct distances (the 120 short codes are a
    neighbourhood without repetition). *)
Theorem PlaneCodeToDistance_inj (xsize c1 c2 : nat) :
  (16 <= xsize)%nat ->
  (1 <= c1 <= CODE_TO_PLANE_CODES)%nat -> (1 <= c2 <= CODE_TO_PLANE_CODES)%nat ->
  PlaneCodeToDistance xsize c1 = PlaneCodeToDistance xsize c2 -> c1 = c2.
Proof.
  intros Hw Hc1 Hc2 Heq.
  pose proof (PlaneCodeToDistance_exact xsize c1 ltac:(lia) Hc1) as E1.
  pose proof (PlaneCodeToDistance_exact xsize c2 ltac:(lia) Hc2) as E2.
  simpl in E1, E2. rewrite Heq in E1. rewrite E1 in E2.
  set (d1 := kCodeToPlane !!! (c1 - 1)%nat) in *.
  set (d2 := kCodeToPlane !!! (c2 - 1)%nat) in *.
  destruct (kCodeToPlane_entry c1 Hc1) as (Hd1 & Hy1 & _).
  destruct (kCodeToPlane_entry c2 Hc2) as (Hd2 & Hy2 & _).
  fold d1 in Hd1, Hy1. fold d2 in Hd2, Hy2.
  pose proof (nibble_bound d1). pose proof (nibble_bound d2).
  assert (Hy : d1 >> 4 = d2 >> 4).
  { destruct (Z.lt_trichotomy (d1 >> 4) (d2 >> 4)) as [Hl|[Hl|Hl]]; [nia|exact Hl|nia]. }
  assert (Hdd : d1 = d2).
  { rewrite (byte_nibbles d1), (byte_nibbles d2) by lia. lia. }
  assert (Hl1 : kCodeToPlane !! (c1 - 1)%nat = Some d1)
    by (apply list_lookup_lookup_total_lt; rewrite length_kCodeToPlane; lia).
  assert (Hl2 : kCodeToPlane !! (c2 - 1)%nat = Some d1)
    by (rewrite Hdd; apply list_lookup_lookup_total_lt; rewrite length_kCodeToPlane; lia).
  pose proof (NoDup_lookup _ _ _ _ kCodeToPlane_NoDup Hl1 Hl2). lia.
Qed.

(** [VP8LSubSampleSize n b] is the number of
    [2^b]-wide tiles that cover [n] pixels: [s * 2^b] is at least [n] and
    less than [n + 2^b]. *)
Theorem VP8LSubSampleSize_tiles (n b : nat) :
  (n <= VP8LSubSampleSize n b * 2 ^ b < n + 2 ^ b)%nat.
Proof.
  unfold VP8LSubSampleSize. rewrite Nat.shiftr_div_pow2, Nat.shiftl_mul_pow2.
  rewrite Nat.mul_1_l.
  assert (Hp : (2 ^ b <> 0)%nat) by (apply Nat.pow_nonzero; lia).
  pose proof (Nat.div_mod_eq (n + 2 ^ b - 1) (2 ^ b)).
  pose proof (Nat.mod_upper_bound (n + 2 ^ b - 1) (2 ^ b) Hp).
  nia.
Qed.

(** Every pixel column [x < n] falls in a tile column [x >> b] below the
    subsampled width. *)
Lemma subsample_index_bound (n b x : nat) :
  (x < n)%nat -> (Nat.shiftr x b < VP8LSubSampleSize n b)%nat.
Proof.
  intros Hx. rewrite Nat.shiftr_div_pow2.
  pose proof (VP8LSubSampleSize_tiles n b).
  assert (Hp : (2 ^ b <> 0)%nat) by (apply Nat.pow_nonzero; lia).
  apply Nat.Div0.div_lt_upper_bound. nia.
Qed.

(** ** Witnesses *)

Lemma GetCopyDistance_prefix_encode_witness :
  prefix_encode 100 = (13%nat, 5%nat, 3%nat) /\
  (le_value [3] >> Z.of_nat 0) .& mask (Z.of_nat 5) = Z.of_nat 3 /\
  fst (GetCopyDistance 13 (VP8LInitBitReader [3])) = 100%nat.
Proof.
  split; [reflexivity|]. split; [reflexivity|].
  pose proof (GetCopyDistance_prefix_encode 100 (VP8LInitBitReader [3]) ltac:(lia)) as H.
  change (prefix_encode 100) with (13%nat, 5%nat, 3%nat) in H.
  apply H; [reflexivity|vm_compute; lia|reflexivity].
Defined.

Lemma PlaneCodeToDistance_exact_witness :
  (8 <= 10)%nat /\ (1 <= 40 <= CODE_TO_PLANE_CODES)%nat /\
  Z.of_nat (PlaneCodeToDistance 10 40)
  = (kCodeToPlane !!! 39%nat >> 4) * Z.of_nat 10 + 8 - kCodeToPlane !!! 39%nat .& 15.
Proof.
  split; [lia|]. split; [vm_compute; lia|].
  apply (PlaneCodeToDistance_exact 10 40); vm_compute; lia.
Defined.

Lemma PlaneCodeToDistance_inj_witness :
  (16 <= 16)%nat /\ (1 <= 5 <= CODE_TO_PLANE_CODES)%nat /\
  PlaneCodeToDistance 16 5 = PlaneCodeToDistance 16 5 /\ 5%nat = 5%nat.
Proof.
  split; [lia|]. split; [vm_compute; lia|]. split; [reflexivity|].
  apply (PlaneCodeToDistance_inj 16 5 5); [lia|vm_compute; lia|vm_compute; lia|reflexivity].
Defined.
