(* ===== verification/ColorCache.v ===== *)
(** * The color cache (spec-modelled)

    [utils/color_cache_utils.h] is outside [src/]; this file models it from
    the spec (section 3, "ColorCache") and from its uses in [vp8l.cpp]:
    [VP8LColorCacheInit], [VP8LColorCacheInsert], [VP8LColorCacheLookup],
    [VP8LColorCacheCopy].  The cache is [1 << hash_bits] slots of 32-bit
    colors addressed by the top [hash_bits] bits of [argb * 0x1e35a7bd]
    computed on [uint32_t]. *)

From S2P Require Import Prelude.
From Stdlib Require Import Lia.

Local Open Scope Z_scope.
Local Open Scope vp8l_scope.

(** The largest accepted [color_cache_bits] ([MAX_CACHE_BITS]). *)
Definition MAX_CACHE_BITS : Z := 11.

Definition kHashMul : Z := 0x1e35a7bd.

Record VP8LColorCache := mkColorCache {
  colors_ : list Z;
  hash_shift_ : Z;
  hash_bits_ : Z
}.

Definition VP8LHashPix (argb shift : Z) : Z := u32 (argb * kHashMul) >> shift.

Definition VP8LColorCacheInit (hash_bits : Z) : VP8LColorCache :=
  mkColorCache (replicate (Z.to_nat (1 << hash_bits)) 0) (32 - hash_bits) hash_bits.

Definition VP8LColorCacheLookup (cc : VP8LColorCache) (key : nat) : Z :=
  colors_ cc !!! key.

Definition VP8LColorCacheInsert (cc : VP8LColorCache) (argb : Z) : VP8LColorCache :=
  let key := VP8LHashPix argb (hash_shift_ cc) in
  mkColorCache (<[Z.to_nat key := argb]> (colors_ cc)) (hash_shift_ cc) (hash_bits_ cc).

(** [VP8LColorCacheCopy src dst] copies the colors of [src] into [dst]. *)
Definition VP8LColorCacheCopy (src dst : VP8LColorCache) : VP8LColorCache :=
  mkColorCache (colors_ src) (hash_shift_ dst) (hash_bits_ dst).

(** Insert every color of a list, in order (the [last_cached] loops). *)
Definition insert_all (cc : VP8LColorCache) (l : list Z) : VP8LColorCache :=
  fold_left VP8LColorCacheInsert l cc.

(** The well-formedness of a cache: its geometry is that of
    [VP8LColorCacheInit] with [1 <= hash_bits <= MAX_CACHE_BITS]. *)
Definition cache_wf (cc : VP8LColorCache) : Prop :=
  1 <= hash_bits_ cc <= MAX_CACHE_BITS /\ hash_shift_ cc = 32 - hash_bits_ cc /\
  length (colors_ cc) = Z.to_nat (2 ^ hash_bits_ cc).

(** ** Lemmas *)

Lemma hash_pix_bound (argb bits : Z) :
  0 <= bits <= 32 -> 0 <= VP8LHashPix argb (32 - bits) < 2 ^ bits.
Proof.
  intros Hb. unfold VP8LHashPix.
  apply shiftr_bound; [lia|lia|]. replace (32 - bits + bits) with 32 by lia.
  apply u32_bound.
Qed.

Lemma insert_hash_lt (cc : VP8LColorCache) (argb : Z) :
  cache_wf cc ->
  (Z.to_nat (VP8LHashPix argb (hash_shift_ cc)) < length (colors_ cc))%nat.
Proof.
  intros (Hb & Hs & Hl). rewrite Hl, Hs.
  pose proof (hash_pix_bound argb (hash_bits_ cc)).
  unfold MAX_CACHE_BITS in Hb. apply Z2Nat.inj_lt; lia.
Qed.

Lemma insert_wf (cc : VP8LColorCache) (argb : Z) :
  cache_wf cc -> cache_wf (VP8LColorCacheInsert cc argb).
Proof.
  intros (Hb & Hs & Hl). unfold VP8LColorCacheInsert, cache_wf. simpl.
  rewrite length_insert. auto.
Qed.

Lemma insert_all_wf (cc : VP8LColorCache) (l : list Z) :
  cache_wf cc -> cache_wf (insert_all cc l).
Proof.
  revert cc. induction l as [|c l IH]; intros cc Hwf; simpl; [exact Hwf|].
  apply IH, insert_wf, Hwf.
Qed.

Lemma insert_all_app (cc : VP8LColorCache) (l1 l2 : list Z) :
  insert_all cc (l1 ++ l2) = insert_all (insert_all cc l1) l2.
Proof. apply fold_left_app. Qed.

Lemma init_wf (bits : Z) :
  1 <= bits <= MAX_CACHE_BITS -> cache_wf (VP8LColorCacheInit bits).
Proof.
  intros Hb. unfold cache_wf, VP8LColorCacheInit. simpl.
  rewrite length_replicate, Z.shiftl_1_l. lia.
Qed.

#[export] Hint Resolve insert_wf insert_all_wf init_wf : vp8l.

(** ** Properties of the color cache *)

(** Insert/lookup round trip: right after
    [argb] is inserted into a well-formed cache, looking it up by its hash
    key returns [argb]. *)
Theorem VP8LColorCacheInsert_lookup (cc : VP8LColorCache) (argb : Z) :
  cache_wf cc ->
  VP8LColorCacheLookup (VP8LColorCacheInsert cc argb)
    (Z.to_nat (VP8LHashPix argb (hash_shift_ cc))) = argb.
Proof.
  intros Hwf. unfold VP8LColorCacheLookup, VP8LColorCacheInsert. simpl.
  apply lookup_total_insert_same, insert_hash_lt, Hwf.
Qed.

(** Inserting a color changes one slot only:
    every other key still maps to what it mapped to before. *)
Theorem VP8LColorCacheInsert_other (cc : VP8LColorCache) (argb : Z) (key : nat) :
  key <> Z.to_nat (VP8LHashPix argb (hash_shift_ cc)) ->
  VP8LColorCacheLookup (VP8LColorCacheInsert cc argb) key = VP8LColorCacheLookup cc key.
Proof.
  intros Hk. unfold VP8LColorCacheLookup, VP8LColorCacheInsert. simpl.
  apply lookup_total_insert_other. congruence.
Qed.

(** The key of any color in a cache of [bits] bits is a valid slot. *)
Theorem VP8LHashPix_in_range (cc : VP8LColorCache) (argb : Z) :
  cache_wf cc ->
  0 <= VP8LHashPix argb (hash_shift_ cc) < 2 ^ hash_bits_ cc.
Proof.
  intros (Hb & Hs & _). rewrite Hs. apply hash_pix_bound.
  unfold MAX_CACHE_BITS in Hb. lia.
Qed.

(** ** Witnesses *)

Lemma VP8LColorCacheInsert_lookup_witness :
  cache_wf (VP8LColorCacheInit 3) /\
  VP8LColorCacheLookup (VP8LColorCacheInsert (VP8LColorCacheInit 3) 0xff0000ff) 2 = 0xff0000ff.
Proof.
  assert (Hwf : cache_wf (VP8LColorCacheInit 3)) by (apply init_wf; unfold MAX_CACHE_BITS; lia).
  split; [exact Hwf|].
  exact (VP8LColorCacheInsert_lookup (VP8LColorCacheInit 3) 0xff0000ff Hwf).
Defined.

Lemma VP8LColorCacheInsert_other_witness :
  (5 <> Z.to_nat (VP8LHashPix 0xff0000ff (hash_shift_ (VP8LColorCacheInit 3))))%nat /\
  VP8LColorCacheLookup (VP8LColorCacheInsert (VP8LColorCacheInit 3) 0xff0000ff) 5
  = VP8LColorCacheLookup (VP8LColorCacheInit 3) 5.
Proof.
  assert (Hk : (5 <> Z.to_nat (VP8LHashPix 0xff0000ff (hash_shift_ (VP8LColorCacheInit 3))))%nat)
    by (vm_compute; lia).
  split; [exact Hk|]. exact (VP8LColorCacheInsert_other _ _ 5 Hk).
Defined.
