(* ===== verification/Transform.v ===== *)
(** * Reading the transforms

    [ReadTransform], [ExpandColorMap], [UpdateDecoder] and the first part
    of [DecodeImageStream] of [vp8l.cpp] (spec sections 3, 4.6 and 6): the
    loop [while (ok && VP8LReadBits(br, 1)) ok = ReadTransform(...)] and
    the color-cache descriptor.  The sub-stream decoder that reads a
    transform's metadata image ([DecodeImageStream] at level 1, which
    reads no transform) is a parameter [sub]: it receives the size of the
    image and the reader and returns [ok], the pixels and the reader.
    [ExpandColorMap] is modelled on bytes, as the code writes it (the
    palette is seen through a [uint8_t*]); [words_of_bytes] regroups the
    new color map, whose initial bytes (the [malloc]ed block is not
    initialised) are a parameter [fresh].  The theorems: the transform
    array is never written past its 4 slots and every kind is read at
    most once; the transform loop stops within 5 rounds; [ExpandColorMap]
    computes the running byte-wise sum of the palette followed by a black
    tail (spec 4.6) whatever [fresh] held, and its writes stay inside the
    new color map; a second expansion is the identity only on palettes
    whose colors but the last are 0. *)

From S2P Require Import Prelude BitReader Prefix ColorCache.
From Stdlib Require Import Lia.

Local Open Scope Z_scope.
Local Open Scope vp8l_scope.

Inductive VP8LImageTransformType :=
  | PREDICTOR_TRANSFORM
  | CROSS_COLOR_TRANSFORM
  | SUBTRACT_GREEN
  | COLOR_INDEXING_TRANSFORM.

#[export] Instance VP8LImageTransformType_eq_dec : EqDecision VP8LImageTransformType.
Proof. solve_decision. Defined.

(** The cast [(VP8LImageTransformType)VP8LReadBits(br, 2)]. *)
Definition transform_type_of (v : Z) : VP8LImageTransformType :=
  match v with
  | 0 => PREDICTOR_TRANSFORM
  | 1 => CROSS_COLOR_TRANSFORM
  | 2 => SUBTRACT_GREEN
  | _ => COLOR_INDEXING_TRANSFORM
  end.

Definition transform_index (t : VP8LImageTransformType) : Z :=
  match t with
  | PREDICTOR_TRANSFORM => 0
  | CROSS_COLOR_TRANSFORM => 1
  | SUBTRACT_GREEN => 2
  | COLOR_INDEXING_TRANSFORM => 3
  end.

Definition NUM_TRANSFORMS : nat := 4.

Record VP8LTransform := mkTransform {
  type_ : VP8LImageTransformType;
  bits_ : nat;
  xsize_ : nat;
  ysize_ : nat;
  data_ : list Z
}.

#[export] Instance VP8LTransform_inhabited : Inhabited VP8LTransform :=
  populate (mkTransform PREDICTOR_TRANSFORM 0 0 0 []).

(** The part of [VP8LDecoder] the transform reader uses. *)
Record TransformState := mkTransformState {
  transforms_ : list VP8LTransform;   (** [NUM_TRANSFORMS] slots *)
  next_transform_ : nat;
  transforms_seen_ : Z;
  tbr_ : VP8LBitReader
}.

(** The level-1 [DecodeImageStream], on the reader and the rest [D] of
    the decoder: [ok], the pixels, the reader and the rest of the decoder
    as the sub-stream leaves them. *)
Definition SubStreamFunc (D : Type) :=
  nat -> nat -> VP8LBitReader -> D -> bool * list Z * VP8LBitReader * D.

(** ** [ExpandColorMap] *)

(** The bytes of an array of [uint32_t] (little-endian), and back. *)
Definition bytes_of_words (l : list Z) : list Z := concat (map (le_bytes 4) l).

Fixpoint words_of_bytes (l : list Z) : list Z :=
  match l with
  | a :: b :: c :: d :: t => le_value [a; b; c; d] :: words_of_bytes t
  | _ => []
  end.

(** [for (i = 4; i < 4 * num_colors; ++i)
       new_data[i] = (data[i] + new_data[i - 4]) & 0xff;], from [i]. *)
Fixpoint expand_loop (data : list Z) (i fuel : nat) (new_data : list Z) : list Z :=
  match fuel with
  | O => new_data
  | S f => expand_loop data (S i) f
             (<[i := (data !!! i + new_data !!! (i - 4)%nat) .& 0xff]> new_data)
  end.

(** [for (; i < 4 * final_num_colors; ++i) new_data[i] = 0;], from [i]. *)
Fixpoint zero_loop (i fuel : nat) (new_data : list Z) : list Z :=
  match fuel with
  | O => new_data
  | S f => zero_loop (S i) f (<[i := 0]> new_data)
  end.

Definition final_num_colors (bits : nat) : nat := Nat.shiftl 1 (Nat.shiftr 8 bits).

(** [ExpandColorMap(num_colors, transform)], where [fresh] are the
    [4 * final_num_colors] bytes of the block [tvg::malloc] returns: they
    are uninitialised, so the model takes them as given.
    [new_color_map[0] = transform->data_[0]] overwrites the first four of
    them, and the two loops write the others.  The allocation is assumed
    to succeed. *)
Definition ExpandColorMap (num_colors : nat) (fresh : list Z) (t : VP8LTransform) : VP8LTransform :=
  let final := final_num_colors (bits_ t) in
  let data := bytes_of_words (data_ t) in
  let new_data := le_bytes 4 (data_ t !!! 0%nat) ++ drop 4 fresh in
  let new_data := expand_loop data 4 (4 * num_colors - 4) new_data in
  let new_data := zero_loop (Nat.max 4 (4 * num_colors)) (4 * final - Nat.max 4 (4 * num_colors))
                    new_data in
  mkTransform (type_ t) (bits_ t) (xsize_ t) (ysize_ t) (words_of_bytes new_data).

(** The palette as the spec describes it: entry [i] is the byte-wise sum,
    modulo 256, of entries [0 .. i]; then black up to [final] entries. *)
Definition add_pixels (a b : Z) : Z :=
  le_value (zip_with (fun x y => (x + y) .& 0xff) (le_bytes 4 a) (le_bytes 4 b)).

Fixpoint accumulate (prev : Z) (l : list Z) : list Z :=
  match l with
  | [] => []
  | x :: t => let y := add_pixels prev x in y :: accumulate y t
  end.

Definition palette_spec (pal : list Z) (final : nat) : list Z :=
  match pal with
  | [] => replicate final 0
  | p0 :: t => p0 :: accumulate p0 t ++ replicate (final - length pal) 0
  end.

(** ** [ReadTransform] *)

(** The pixel-packing [bits] of a palette of [num_colors] colors. *)
Definition color_indexing_bits (num_colors : nat) : nat :=
  if (16 <? num_colors)%nat then 0%nat
  else if (4 <? num_colors)%nat then 1%nat
  else if (2 <? num_colors)%nat then 2%nat
  else 3%nat.

(** [ReadTransform(&xsize, &ysize, dec)]: [ok], the new [xsize], the
    transform state and the rest [d] of the decoder. *)
Definition ReadTransform {D : Type} (sub : SubStreamFunc D) (xsize ysize : nat)
    (st : TransformState) (d : D) : bool * nat * TransformState * D :=
  let '(v, br) := VP8LReadBits (tbr_ st) 2 in
  let type := transform_type_of v in
  if Z.testbit (transforms_seen_ st) (transform_index type) then
    (false, xsize, mkTransformState (transforms_ st) (next_transform_ st) (transforms_seen_ st) br,
     d)
  else
    let seen := transforms_seen_ st .| (1 << transform_index type) in
    let slot := next_transform_ st in
    let old := transforms_ st !!! slot in
    let t := mkTransform type (bits_ old) xsize ysize [] in
    let st := mkTransformState (<[slot := t]> (transforms_ st)) (S slot) seen br in
    match type with
    | PREDICTOR_TRANSFORM | CROSS_COLOR_TRANSFORM =>
        let '(b, br) := VP8LReadBits br 3 in
        let bits := (Z.to_nat b + 2)%nat in
        let '(ok, data, br, d) :=
          sub (VP8LSubSampleSize xsize bits) (VP8LSubSampleSize ysize bits) br d in
        let t := mkTransform type bits xsize ysize (if ok then data else []) in
        (ok, xsize, mkTransformState (<[slot := t]> (transforms_ st)) (S slot) seen br, d)
    | COLOR_INDEXING_TRANSFORM =>
        let '(n, br) := VP8LReadBits br 8 in
        let num_colors := (Z.to_nat n + 1)%nat in
        let bits := color_indexing_bits num_colors in
        let xsize' := VP8LSubSampleSize xsize bits in
        let '(ok, data, br, d) := sub num_colors 1%nat br d in
        let t := mkTransform type bits xsize ysize (if ok then data else []) in
        (* The initial bytes of the new map do not matter ([ExpandColorMap_palette]). *)
        let fresh := replicate (4 * final_num_colors bits) 0 in
        let t := if ok then ExpandColorMap num_colors fresh t else t in
        (ok, xsize', mkTransformState (<[slot := t]> (transforms_ st)) (S slot) seen br, d)
    | SUBTRACT_GREEN => (true, xsize, st, d)
    end.

(** [while (ok && VP8LReadBits(br, 1)) ok = ReadTransform(...);], with
    fuel: [None] when the fuel runs out. *)
Fixpoint read_transforms {D : Type} (fuel : nat) (sub : SubStreamFunc D) (xsize ysize : nat)
    (st : TransformState) (d : D) : option (bool * nat * TransformState * D) :=
  match fuel with
  | O => None
  | S f =>
      let '(more, br) := VP8LReadBits (tbr_ st) 1 in
      let st := mkTransformState (transforms_ st) (next_transform_ st) (transforms_seen_ st) br in
      if more =? 0 then Some (true, xsize, st, d)
      else
        let '(ok, xsize, st, d) := ReadTransform sub xsize ysize st d in
        if ok then read_transforms f sub xsize ysize st d else Some (false, xsize, st, d)
  end.

(** The color-cache descriptor of [DecodeImageStream]: [ok] and
    [color_cache_bits]. *)
Definition read_color_cache_bits (br : VP8LBitReader) : bool * Z * VP8LBitReader :=
  let '(present, br) := VP8LReadBits br 1 in
  if present =? 0 then (true, 0, br)
  else
    let '(bits, br) := VP8LReadBits br 4 in
    ((1 <=? bits) && (bits <=? MAX_CACHE_BITS), bits, br).

(** [UpdateDecoder(dec, width, height)], on the fields it sets:
    [width_], [height_], [huffman_xsize_] and [huffman_mask_]. *)
Definition UpdateDecoder (num_bits width height : nat) : nat * nat * nat * Z :=
  (width, height, VP8LSubSampleSize width num_bits,
   if (num_bits =? 0)%nat then -1 else (1 << Z.of_nat num_bits) - 1).

(** ** Lemmas *)

(** The number of transform kinds recorded in [transforms_seen_]. *)
Definition seen_count (seen : Z) : nat :=
  length (filter (fun k => Z.testbit seen k) [0; 1; 2; 3]).

(** The transform reader's invariant: [next_transform_] counts the kinds
    already read, and the array has its [NUM_TRANSFORMS] slots. *)
Definition ts_inv (st : TransformState) : Prop :=
  0 <= transforms_seen_ st < 16 /\ next_transform_ st = seen_count (transforms_seen_ st) /\
  length (transforms_ st) = NUM_TRANSFORMS.

Lemma seen_count_le (seen : Z) : (seen_count seen <= 4)%nat.
Proof. unfold seen_count. etransitivity; [apply length_filter|]. simpl. lia. Qed.

Lemma transform_index_range (t : VP8LImageTransformType) : 0 <= transform_index t < 4.
Proof. destruct t; simpl; lia. Qed.

(** Recording a new kind: checked on the 16 values of [transforms_seen_]. *)
Lemma seen_count_add (seen i : Z) :
  0 <= seen < 16 -> 0 <= i < 4 -> Z.testbit seen i = false ->
  seen_count (seen .| (1 << i)) = S (seen_count seen) /\ 0 <= seen .| (1 << i) < 16.
Proof.
  intros Hs Hi Hb.
  assert (Hall : forallb (fun s => forallb (fun i =>
            implb (negb (Z.testbit s i))
              (Nat.eqb (seen_count (s .| (1 << i))) (S (seen_count s)) &&
               (0 <=? s .| (1 << i)) && (s .| (1 << i) <? 16))) [0; 1; 2; 3])
            (map Z.of_nat (seq 0 16)) = true) by (vm_compute; reflexivity).
  rewrite forallb_forall in Hall.
  assert (Hin : In seen (map Z.of_nat (seq 0 16))).
  { apply in_map_iff. exists (Z.to_nat seen). split; [lia|]. apply in_seq. lia. }
  specialize (Hall seen Hin). rewrite forallb_forall in Hall.
  assert (Hi' : In i [0; 1; 2; 3]) by (simpl; lia).
  specialize (Hall i Hi'). rewrite Hb in Hall. simpl in Hall.
  apply andb_prop in Hall as [Hall H3]. apply andb_prop in Hall as [H1 H2].
  apply Nat.eqb_eq in H1. apply Z.leb_le in H2. apply Z.ltb_lt in H3. split; [exact H1|lia].
Qed.

Lemma ts_inv_add (st : TransformState) (i : Z) (ts : list VP8LTransform) (br : VP8LBitReader) :
  ts_inv st -> 0 <= i < 4 -> Z.testbit (transforms_seen_ st) i = false ->
  length ts = NUM_TRANSFORMS ->
  ts_inv (mkTransformState ts (S (next_transform_ st)) (transforms_seen_ st .| (1 << i)) br) /\
  (next_transform_ st < NUM_TRANSFORMS)%nat.
Proof.
  intros (Hs & Hn & Hl) Hi Hb Hts. destruct (seen_count_add _ _ Hs Hi Hb) as [Hc Hr].
  pose proof (seen_count_le (transforms_seen_ st .| (1 << i))).
  unfold ts_inv; simpl. unfold NUM_TRANSFORMS in *. split_and!; lia.
Qed.

Lemma ts_inv_same (st : TransformState) (br : VP8LBitReader) :
  ts_inv st ->
  ts_inv (mkTransformState (transforms_ st) (next_transform_ st) (transforms_seen_ st) br).
Proof. intros H. exact H. Qed.

(** [ReadTransform] keeps the invariant and only writes a free slot. *)
Lemma ReadTransform_inv {D : Type} (sub : SubStreamFunc D) (xsize ysize : nat)
    (st : TransformState) (d : D) :
  ts_inv st ->
  let '(ok, xsize', st', _) := ReadTransform sub xsize ysize st d in
  ts_inv st' /\
  (ok = true -> next_transform_ st' = S (next_transform_ st) /\
                (next_transform_ st < NUM_TRANSFORMS)%nat).
Proof.
  intros Hinv. unfold ReadTransform.
  destruct (VP8LReadBits (tbr_ st) 2) as [v br].
  set (type := transform_type_of v).
  destruct (Z.testbit _ _) eqn:Hb; [split; [apply ts_inv_same, Hinv|discriminate]|].
  pose proof (transform_index_range type) as Hr.
  destruct Hinv as (Hs & Hn & Hl).
  assert (Hadd : forall ts br', length ts = NUM_TRANSFORMS ->
            ts_inv (mkTransformState ts (S (next_transform_ st))
                      (transforms_seen_ st .| (1 << transform_index type)) br') /\
            (next_transform_ st < NUM_TRANSFORMS)%nat)
    by (intros; apply ts_inv_add; [split; auto|lia|exact Hb|assumption]).
  assert (Hlt : (next_transform_ st < NUM_TRANSFORMS)%nat)
    by (apply (Hadd (transforms_ st) br); exact Hl).
  destruct type; repeat match goal with
    | |- context [VP8LReadBits ?b ?n] => destruct (VP8LReadBits b n)
    | |- context [sub ?a ?b ?c ?e] => destruct (sub a b c e) as [[[? ?] ?] ?]
    end.
  all: split; [apply Hadd; cbn [transforms_]; rewrite ?length_insert; exact Hl|].
  all: intros _; split; [reflexivity|exact Hlt].
Qed.

Lemma read_transforms_inv {D : Type} (fuel : nat) (sub : SubStreamFunc D) (xsize ysize : nat)
    (st : TransformState) (d : D) (ok : bool) (xsize' : nat) (st' : TransformState) (d' : D) :
  ts_inv st -> read_transforms fuel sub xsize ysize st d = Some (ok, xsize', st', d') ->
  ts_inv st'.
Proof.
  revert xsize st d. induction fuel as [|f IH]; intros xsize st d Hinv; simpl; [discriminate|].
  destruct (VP8LReadBits (tbr_ st) 1) as [more br].
  pose proof (ts_inv_same st br Hinv) as H1.
  destruct (more =? 0); [intros [= _ _ <- _]; exact H1|].
  pose proof (ReadTransform_inv sub xsize ysize _ d H1) as H2.
  destruct (ReadTransform _ _ _ _ _) as [[[[] xs1] st2] d2]; destruct H2 as [H2 _].
  - apply IH, H2.
  - intros [= _ _ <- _]. exact H2.
Qed.

Lemma read_transforms_total {D : Type} (fuel : nat) (sub : SubStreamFunc D) (xsize ysize : nat)
    (st : TransformState) (d : D) :
  ts_inv st -> (NUM_TRANSFORMS - next_transform_ st < fuel)%nat ->
  read_transforms fuel sub xsize ysize st d <> None.
Proof.
  revert xsize st d. induction fuel as [|f IH]; intros xsize st d Hinv Hf; simpl; [lia|].
  destruct (VP8LReadBits (tbr_ st) 1) as [more br].
  pose proof (ts_inv_same st br Hinv) as H1.
  destruct (more =? 0); [discriminate|].
  pose proof (ReadTransform_inv sub xsize ysize _ d H1) as H2.
  destruct (ReadTransform _ _ _ _ _) as [[[[] xs1] st2] d2]; destruct H2 as [H2 H3];
    [|discriminate].
  destruct (H3 eq_refl) as [H4 H5]. apply IH; [exact H2|]. simpl in *. lia.
Qed.

(** A property of the rest of the decoder that every sub-stream keeps is
    kept by the whole transform loop. *)
Section Preserve.
Context {D : Type} (P : D -> Prop) (sub : SubStreamFunc D).
Hypothesis HP : forall xs ys br d, P d -> P (snd (sub xs ys br d)).

Lemma ReadTransform_preserves (xsize ysize : nat) (st : TransformState) (d : D) :
  P d -> P (snd (ReadTransform sub xsize ysize st d)).
Proof.
  intros Hd. unfold ReadTransform.
  destruct (VP8LReadBits (tbr_ st) 2) as [v br].
  destruct (Z.testbit _ _); [exact Hd|].
  destruct (transform_type_of v); repeat match goal with
    | |- context [VP8LReadBits ?b ?n] => destruct (VP8LReadBits b n)
    | |- context [sub ?a ?b ?c ?e] =>
        pose proof (HP a b c e Hd); destruct (sub a b c e) as [[[? ?] ?] ?]
    end; assumption.
Qed.

Lemma read_transforms_preserves (fuel : nat) (xsize ysize : nat) (st : TransformState) (d : D)
    (ok : bool) (xsize' : nat) (st' : TransformState) (d' : D) :
  P d -> read_transforms fuel sub xsize ysize st d = Some (ok, xsize', st', d') -> P d'.
Proof.
  revert xsize st d. induction fuel as [|f IH]; intros xsize st d Hd; simpl; [discriminate|].
  destruct (VP8LReadBits (tbr_ st) 1) as [more br].
  destruct (more =? 0); [intros [= _ _ _ <-]; exact Hd|].
  pose proof (ReadTransform_preserves xsize ysize
                (mkTransformState (transforms_ st) (next_transform_ st) (transforms_seen_ st) br)
                d Hd) as H1.
  destruct (ReadTransform _ _ _ _ _) as [[[[] xs1] st2] d2]; simpl in H1.
  - apply IH, H1.
  - intros [= _ _ _ <-]. exact H1.
Qed.
End Preserve.

(** ** Properties of the transform reader *)

(** The state of a fresh decoder: no transform read, four empty slots. *)
Definition no_transforms (br : VP8LBitReader) : TransformState :=
  mkTransformState (replicate NUM_TRANSFORMS inhabitant) 0 0 br.

(** Whatever the stream and the metadata
    sub-streams, the transform loop of [DecodeImageStream] keeps
    [next_transform_] equal to the number of distinct kinds recorded in
    [transforms_seen_] and at most [NUM_TRANSFORMS] (the [assert] of
    [ReadTransform]): no kind is read twice and the 4-slot array is never
    written past its end. *)
Theorem read_transforms_bounded {D : Type} (fuel : nat) (sub : SubStreamFunc D)
    (xsize ysize : nat) (br : VP8LBitReader) (d : D) (ok : bool) (xsize' : nat)
    (st' : TransformState) (d' : D) :
  read_transforms fuel sub xsize ysize (no_transforms br) d = Some (ok, xsize', st', d') ->
  ts_inv st' /\ (next_transform_ st' <= NUM_TRANSFORMS)%nat.
Proof.
  intros H. apply read_transforms_inv in H; [|unfold ts_inv; simpl; split_and!; reflexivity || lia].
  split; [exact H|]. destruct H as (_ & -> & _). apply seen_count_le.
Qed.

(** The transform loop of
    [DecodeImageStream] stops within 5 rounds whatever the stream holds:
    each round that goes on records a new kind, and there are 4. *)
Theorem read_transforms_terminates {D : Type} (sub : SubStreamFunc D) (xsize ysize : nat)
    (br : VP8LBitReader) (d : D) :
  read_transforms 5 sub xsize ysize (no_transforms br) d <> None.
Proof.
  apply read_transforms_total; [unfold ts_inv; simpl; split_and!; reflexivity || lia|].
  unfold NUM_TRANSFORMS. simpl. lia.
Qed.

(** ** [ExpandColorMap] computes the accumulated palette *)

Lemma bytes_of_words_cons (w : Z) (l : list Z) :
  bytes_of_words (w :: l) = le_bytes 4 w ++ bytes_of_words l.
Proof. reflexivity. Qed.

Lemma length_bytes_of_words (l : list Z) : length (bytes_of_words l) = (4 * length l)%nat.
Proof.
  induction l as [|w l IH]; [done|].
  rewrite bytes_of_words_cons, length_app, length_le_bytes, IH. simpl. lia.
Qed.

Lemma bytes_of_words_app (l1 l2 : list Z) :
  bytes_of_words (l1 ++ l2) = bytes_of_words l1 ++ bytes_of_words l2.
Proof. unfold bytes_of_words. rewrite map_app, concat_app. done. Qed.

Lemma bytes_of_words_zeros (k : nat) : bytes_of_words (replicate k 0) = replicate (4 * k) 0.
Proof.
  induction k as [|k IH]; [done|]. rewrite replicate_S, bytes_of_words_cons, IH.
  replace (4 * S k)%nat with (4 + 4 * k)%nat by lia. rewrite replicate_add. done.
Qed.

Lemma bytes_of_words_lookup (l : list Z) (j c : nat) :
  (c < 4)%nat -> (j < length l)%nat ->
  bytes_of_words l !!! (4 * j + c)%nat = le_bytes 4 (l !!! j) !!! c.
Proof.
  revert j. induction l as [|w l IH]; intros j Hc Hj; simpl in Hj; [lia|].
  rewrite bytes_of_words_cons. destruct j as [|j].
  - rewrite lookup_total_app_l by (rewrite length_le_bytes; lia). done.
  - rewrite lookup_total_app_r by (rewrite length_le_bytes; lia). rewrite length_le_bytes.
    replace (4 * S j + c - 4)%nat with (4 * j + c)%nat by lia.
    rewrite IH by lia. done.
Qed.

Lemma words_of_bytes_bytes_of_words (l : list Z) :
  Forall (fun w => 0 <= w < 2 ^ 32) l -> words_of_bytes (bytes_of_words l) = l.
Proof.
  induction l as [|w l IH]; intros Hl; [done|]. inversion Hl as [|? ? Hw Ht]; subst.
  rewrite bytes_of_words_cons. cbn [le_bytes app words_of_bytes]. rewrite IH by exact Ht.
  f_equal. apply (le_value_le_bytes 4). exact Hw.
Qed.

Lemma le_bytes_add_pixels (a b : Z) (c : nat) :
  (c < 4)%nat ->
  le_bytes 4 (add_pixels a b) !!! c = (le_bytes 4 a !!! c + le_bytes 4 b !!! c) .& 255.
Proof.
  intros Hc. unfold add_pixels.
  set (L := zip_with _ (le_bytes 4 a) (le_bytes 4 b)).
  assert (HL : length L = 4%nat) by reflexivity.
  assert (Hb : bytes_ok L) by (repeat constructor; apply byte_land).
  rewrite <- HL, le_bytes_le_value by exact Hb.
  destruct c as [|[|[|[|c]]]]; [reflexivity..|lia].
Qed.

Lemma add_pixels_u32 (a b : Z) : 0 <= add_pixels a b < 2 ^ 32.
Proof.
  unfold add_pixels. set (L := zip_with _ (le_bytes 4 a) (le_bytes 4 b)).
  assert (HL : length L = 4%nat) by reflexivity.
  assert (Hb : bytes_ok L) by (repeat constructor; apply byte_land).
  pose proof (le_value_bound L Hb) as H. rewrite HL in H. exact H.
Qed.

Lemma accumulate_u32 (p : Z) (t : list Z) : Forall (fun w => 0 <= w < 2 ^ 32) (accumulate p t).
Proof.
  revert p. induction t as [|x t IH]; intros p; simpl; constructor; [apply add_pixels_u32|apply IH].
Qed.

Lemma length_accumulate (p : Z) (t : list Z) : length (accumulate p t) = length t.
Proof. revert p. induction t as [|x t IH]; intros p; simpl; [done|]. rewrite IH. done. Qed.

Lemma accumulate_lookup (p : Z) (t : list Z) (j : nat) :
  (1 <= j <= length t)%nat ->
  (p :: accumulate p t) !!! j = add_pixels ((p :: accumulate p t) !!! (j - 1)%nat) (t !!! (j - 1)%nat).
Proof.
  revert p j. induction t as [|x t IH]; intros p j Hj; simpl in Hj; [lia|].
  destruct j as [|[|j]]; [lia|reflexivity|].
  cbn [accumulate]. change ((p :: ?l) !!! S ?i) with (l !!! i).
  rewrite IH by lia. replace (S (S j) - 1)%nat with (S j) by lia.
  replace (S j - 1)%nat with j by lia. reflexivity.
Qed.

(** [expand_loop] fills [i .. i + k) with the byte recurrence: it reaches
    any list [T] that satisfies the recurrence there and agrees with the
    start elsewhere. *)
Lemma expand_loop_correct (data : list Z) (i k : nat) (nd T : list Z) :
  (4 <= i)%nat -> length nd = length T -> (i + k <= length T)%nat ->
  (forall m, (m < i \/ i + k <= m)%nat -> nd !!! m = T !!! m) ->
  (forall m, (i <= m < i + k)%nat -> T !!! m = (data !!! m + T !!! (m - 4)%nat) .& 0xff) ->
  expand_loop data i k nd = T.
Proof.
  revert i nd. induction k as [|k IH]; intros i nd Hi Hl Hk Hout Hrec; simpl.
  - apply list_eq_lookup_total; [exact Hl|]. intros m _. apply Hout. lia.
  - apply IH; [lia|rewrite length_insert; exact Hl|lia| |intros; apply Hrec; lia].
    intros m Hm. destruct (decide (m = i)) as [->|Hne].
    + rewrite list_lookup_total_insert_eq by lia. rewrite Hout by lia.
      symmetry. apply Hrec. lia.
    + rewrite list_lookup_total_insert_ne by done. apply Hout. lia.
Qed.

(** [zero_loop] clears [i .. i + k): it reaches any list [T] that is 0
    there and agrees with the start elsewhere. *)
Lemma zero_loop_correct (i k : nat) (nd T : list Z) :
  length nd = length T -> (i + k <= length T)%nat ->
  (forall m, (m < i \/ i + k <= m)%nat -> nd !!! m = T !!! m) ->
  (forall m, (i <= m < i + k)%nat -> T !!! m = 0) ->
  zero_loop i k nd = T.
Proof.
  revert i nd. induction k as [|k IH]; intros i nd Hl Hk Hout Hz; simpl.
  - apply list_eq_lookup_total; [exact Hl|]. intros m _. apply Hout. lia.
  - apply IH; [rewrite length_insert; exact Hl|lia| |intros; apply Hz; lia].
    intros m Hm. destruct (decide (m = i)) as [->|Hne].
    + rewrite list_lookup_total_insert_eq by lia. symmetry. apply Hz. lia.
    + rewrite list_lookup_total_insert_ne by done. apply Hout. lia.
Qed.

(** The bytes of the accumulated palette satisfy the recurrence of the
    first loop of [ExpandColorMap]. *)
Lemma palette_bytes_rec (p0 : Z) (t : list Z) (tail : list Z) (m : nat) :
  (4 <= m < 4 * S (length t))%nat ->
  bytes_of_words ((p0 :: accumulate p0 t) ++ tail) !!! m
  = (bytes_of_words (p0 :: t) !!! m
     + bytes_of_words ((p0 :: accumulate p0 t) ++ tail) !!! (m - 4)%nat) .& 0xff.
Proof.
  intros Hm. set (acc := p0 :: accumulate p0 t).
  assert (Hacc : length acc = S (length t)) by (simpl; rewrite length_accumulate; done).
  pose proof (Nat.div_mod_eq m 4) as Hdm. pose proof (Nat.mod_upper_bound m 4 ltac:(lia)) as Hc.
  set (j := (m / 4)%nat) in *. set (c := (m mod 4)%nat) in *.
  assert (Hj : (1 <= j <= length t)%nat) by lia.
  rewrite bytes_of_words_app, !lookup_total_app_l
    by (rewrite length_bytes_of_words; lia).
  replace m with (4 * j + c)%nat by lia.
  replace (4 * j + c - 4)%nat with (4 * (j - 1) + c)%nat by lia.
  rewrite !bytes_of_words_lookup by (simpl; rewrite ?length_accumulate; lia).
  unfold acc. rewrite accumulate_lookup by lia.
  rewrite le_bytes_add_pixels by lia.
  change ((p0 :: t) !!! j) with ((p0 :: t) !!! j).
  destruct j as [|j]; [lia|]. change ((p0 :: t) !!! S j) with (t !!! j).
  replace (S j - 1)%nat with j by lia. rewrite Z.add_comm. reflexivity.
Qed.

(** Two lists of the same length agree at [m] when their lookups do. *)
Lemma lookup_total_drop_fresh (fresh : list Z) (a : list Z) (k m : nat) :
  length a = k -> (k <= m)%nat ->
  (a ++ drop k fresh) !!! m = fresh !!! m.
Proof.
  intros Ha Hm. rewrite !list_lookup_total_alt, lookup_app_r, lookup_drop by lia.
  f_equal. f_equal. lia.
Qed.

(** The new color map: the running sums of the first [num_colors]
    words, then zeros. *)
Lemma ExpandColorMap_data (num_colors : nat) (fresh : list Z) (t : VP8LTransform) :
  (num_colors <= length (data_ t))%nat -> (1 <= num_colors <= final_num_colors (bits_ t))%nat ->
  length fresh = (4 * final_num_colors (bits_ t))%nat ->
  Forall (fun w => 0 <= w < 2 ^ 32) (data_ t) ->
  data_ (ExpandColorMap num_colors fresh t)
  = palette_spec (take num_colors (data_ t)) (final_num_colors (bits_ t)).
Proof.
  intros Hn Hf Hfr Hu. unfold ExpandColorMap. cbn [data_].
  set (F := final_num_colors (bits_ t)) in *.
  assert (Hdata : data_ t = take num_colors (data_ t) ++ drop num_colors (data_ t))
    by (symmetry; apply take_drop).
  assert (HD : length (take num_colors (data_ t)) = num_colors) by (rewrite length_take; lia).
  assert (Hw0 : data_ t !!! 0%nat = take num_colors (data_ t) !!! 0%nat)
    by (rewrite !list_lookup_total_alt, lookup_take, decide_True by lia; reflexivity).
  assert (Hbytes : forall m, (m < 4 * num_colors)%nat ->
            bytes_of_words (data_ t) !!! m = bytes_of_words (take num_colors (data_ t)) !!! m).
  { intros m Hm. rewrite Hdata at 1. rewrite bytes_of_words_app, lookup_total_app_l
      by (rewrite length_bytes_of_words; lia). reflexivity. }
  assert (Hu' : Forall (fun w => 0 <= w < 2 ^ 32) (take num_colors (data_ t)))
    by (apply Forall_take, Hu).
  rewrite Hw0. clear Hw0 Hdata.
  destruct (take num_colors (data_ t)) as [|p0 tl]; [simpl in HD; lia|]. simpl in HD.
  change ((p0 :: tl) !!! 0%nat) with p0.
  set (acc := p0 :: accumulate p0 tl).
  assert (Hacc : length acc = num_colors) by (unfold acc; simpl; rewrite length_accumulate; lia).
  set (T := bytes_of_words (acc ++ replicate (F - num_colors) 0)).
  assert (HT : length T = (4 * F)%nat)
    by (unfold T; rewrite length_bytes_of_words, length_app, length_replicate; lia).
  assert (Htail : forall m, (4 * num_colors <= m < 4 * F)%nat -> T !!! m = 0).
  { intros m Hm. unfold T. rewrite bytes_of_words_app, lookup_total_app_r
      by (rewrite length_bytes_of_words; lia).
    rewrite bytes_of_words_zeros, length_bytes_of_words.
    apply lookup_total_replicate_2. lia. }
  set (M := take (4 * num_colors) T ++ drop (4 * num_colors) fresh).
  assert (HM : length M = (4 * F)%nat) by (unfold M; rewrite length_app, length_take, length_drop; lia).
  assert (HMT : forall m, (m < 4 * num_colors)%nat -> M !!! m = T !!! m).
  { intros m Hm. unfold M. rewrite lookup_total_app_l by (rewrite length_take; lia).
    rewrite !list_lookup_total_alt, lookup_take, decide_True by lia. reflexivity. }
  assert (HMf : forall m, (4 * num_colors <= m)%nat -> M !!! m = fresh !!! m)
    by (intros m Hm; apply lookup_total_drop_fresh; [rewrite length_take|]; lia).
  assert (Hexp : expand_loop (bytes_of_words (data_ t)) 4 (4 * num_colors - 4)
                   (le_bytes 4 p0 ++ drop 4 fresh) = M).
  { apply expand_loop_correct; [lia| |lia| |].
    - rewrite length_app, length_le_bytes, length_drop, HM. lia.
    - intros m [Hm|Hm].
      + rewrite lookup_total_app_l by (rewrite length_le_bytes; lia).
        rewrite HMT by lia. unfold T. rewrite bytes_of_words_app, lookup_total_app_l
          by (rewrite length_bytes_of_words; lia).
        replace m with (4 * 0 + m)%nat at 2 by lia.
        rewrite bytes_of_words_lookup by lia. reflexivity.
      + rewrite HMf by lia. apply lookup_total_drop_fresh; [apply length_le_bytes|lia].
    - intros m Hm. rewrite !HMT, Hbytes by lia. unfold T, acc. apply palette_bytes_rec. lia. }
  rewrite Hexp. replace (Nat.max 4 (4 * num_colors)) with (4 * num_colors)%nat by lia.
  rewrite (zero_loop_correct _ _ M T); [| lia | lia | |].
  - unfold T. rewrite words_of_bytes_bytes_of_words.
    + unfold palette_spec, acc. simpl length. rewrite HD. reflexivity.
    + apply Forall_app. split; [constructor; [inversion Hu'; done|apply accumulate_u32]|].
      apply Forall_replicate. lia.
  - intros m [Hm|Hm]; [apply HMT; lia|].
    rewrite !list_lookup_total_alt, !lookup_ge_None_2 by lia. reflexivity.
  - intros m Hm. apply Htail. lia.
Qed.

(** C12: [ExpandColorMap] is the palette expansion the spec describes
    (section 4.6), whatever bytes the fresh block held: the new color map
    has [final_num_colors] entries, entry [i < num_colors] is the
    byte-wise sum modulo 256 of the palette entries [0 .. i], and the
    remaining entries are 0 (the black tail, which the second loop
    writes over the uninitialised bytes).  The byte loop of the code,
    which reads back its own writes 4 bytes earlier, computes exactly
    these running sums; only the first [num_colors] words of the palette
    are read. *)
Theorem ExpandColorMap_palette (num_colors : nat) (fresh : list Z) (t : VP8LTransform) :
  (num_colors <= length (data_ t))%nat -> (1 <= num_colors <= final_num_colors (bits_ t))%nat ->
  length fresh = (4 * final_num_colors (bits_ t))%nat ->
  Forall (fun w => 0 <= w < 2 ^ 32) (data_ t) ->
  data_ (ExpandColorMap num_colors fresh t)
  = palette_spec (take num_colors (data_ t)) (final_num_colors (bits_ t)).
Proof. apply ExpandColorMap_data. Qed.

(** The pixel-packing [bits] that [ReadTransform]
    derives from a palette of [num_colors] (1 .. 256) colors always leaves
    room for the whole palette in the expanded color map of
    [1 << (8 >> bits)] entries, so the first loop of [ExpandColorMap] never
    writes past the new buffer. *)
Theorem color_indexing_fits (num_colors : nat) :
  (1 <= num_colors <= 256)%nat ->
  (num_colors <= final_num_colors (color_indexing_bits num_colors))%nat.
Proof.
  intros Hn. unfold color_indexing_bits.
  destruct (Nat.ltb_spec 16 num_colors); [vm_compute; lia|].
  destruct (Nat.ltb_spec 4 num_colors); [vm_compute; lia|].
  destruct (Nat.ltb_spec 2 num_colors); vm_compute; lia.
Qed.

Lemma le_bytes_byte (n : nat) (v : Z) (c : nat) : (c < n)%nat -> 0 <= le_bytes n v !!! c < 256.
Proof.
  revert v c. induction n as [|n IH]; intros v c Hc; [lia|].
  destruct c as [|c]; [apply byte_land|]. apply IH. lia.
Qed.

(** A 32-bit word is determined by its four little-endian bytes. *)
Lemma le_bytes4_inj (a b : Z) :
  0 <= a < 2 ^ 32 -> 0 <= b < 2 ^ 32 ->
  (forall c, (c < 4)%nat -> le_bytes 4 a !!! c = le_bytes 4 b !!! c) -> a = b.
Proof.
  intros Ha Hb H. rewrite <- (le_value_le_bytes 4 a), <- (le_value_le_bytes 4 b) by exact Ha || exact Hb.
  f_equal. apply list_eq_lookup_total; [rewrite !length_le_bytes; reflexivity|].
  intros c Hc. rewrite length_le_bytes in Hc. apply H, Hc.
Qed.

(** Adding the zero pixel changes nothing. *)
Lemma add_pixels_0_l (x : Z) : 0 <= x < 2 ^ 32 -> add_pixels 0 x = x.
Proof.
  intros Hx. apply le_bytes4_inj; [apply add_pixels_u32|exact Hx|]. intros c Hc.
  rewrite le_bytes_add_pixels by exact Hc.
  replace (le_bytes 4 0 !!! c) with 0 by (destruct c as [|[|[|[|c]]]]; reflexivity || lia).
  pose proof (le_bytes_byte 4 x c Hc). change 255 with (Z.ones 8).
  rewrite Z.land_ones by lia. rewrite Z.mod_small by (change (2 ^ 8) with 256; lia). lia.
Qed.

Lemma byte_add_inv (a b : Z) : 0 <= a < 256 -> 0 <= b < 256 -> (a + b) mod 256 = b -> a = 0.
Proof.
  intros Ha Hb H. destruct (Z.lt_ge_cases (a + b) 256).
  - rewrite Z.mod_small in H by lia. lia.
  - rewrite <- (Z.mod_add (a + b) (-1) 256), Z.mod_small in H by lia. lia.
Qed.

(** Adding a pixel leaves a pixel unchanged only when it is zero. *)
Lemma add_pixels_id_inv (p y : Z) :
  0 <= p < 2 ^ 32 -> 0 <= y < 2 ^ 32 -> add_pixels p y = y -> p = 0.
Proof.
  intros Hp Hy H. apply le_bytes4_inj; [exact Hp|lia|]. intros c Hc.
  assert (E : le_bytes 4 (add_pixels p y) !!! c = le_bytes 4 y !!! c) by (rewrite H; reflexivity).
  rewrite le_bytes_add_pixels in E by exact Hc.
  pose proof (le_bytes_byte 4 p c Hc). pose proof (le_bytes_byte 4 y c Hc).
  change 255 with (Z.ones 8) in E. rewrite Z.land_ones in E by lia. change (2 ^ 8) with 256 in E.
  replace (le_bytes 4 0 !!! c) with 0 by (destruct c as [|[|[|[|c]]]]; reflexivity || lia).
  eapply byte_add_inv; eassumption.
Qed.

(** Accumulating an accumulated palette again gives the same words
    exactly when all but the last word of [p :: l] are zero. *)
Lemma accumulate_twice (p : Z) (l : list Z) :
  0 <= p < 2 ^ 32 -> Forall (fun w => 0 <= w < 2 ^ 32) l ->
  accumulate p (accumulate p l) = accumulate p l <-> Forall (fun w => w = 0) (take (length l) (p :: l)).
Proof.
  revert p. induction l as [|x l IH]; intros p Hp Hl; cbn [accumulate length take]; [split; constructor|].
  apply Forall_cons in Hl as [Hx Hl]. pose proof (add_pixels_u32 p x) as Hy.
  split.
  - intros [= E1 E2]. assert (Hp0 : p = 0) by exact (add_pixels_id_inv p _ Hp Hy E1). subst p.
    rewrite !(add_pixels_0_l x Hx) in E2.
    constructor; [reflexivity|]. apply IH; assumption.
  - intros Hf. apply Forall_cons in Hf as [-> Hf]. rewrite !(add_pixels_0_l x Hx).
    f_equal. apply IH; assumption.
Qed.

(** C36: expanding an expanded color map again is not a no-op (spec
    section 8, invariant 7, says it is): for every palette of
    [num_colors] colors and whatever bytes the two fresh blocks held,
    the second expansion gives back the first exactly when every color
    but the last is 0, since the second pass accumulates the running
    sums again. *)
Theorem ExpandColorMap_twice (num_colors : nat) (f1 f2 : list Z) (t : VP8LTransform) :
  (num_colors <= length (data_ t))%nat -> (1 <= num_colors <= final_num_colors (bits_ t))%nat ->
  length f1 = (4 * final_num_colors (bits_ t))%nat -> length f2 = (4 * final_num_colors (bits_ t))%nat ->
  Forall (fun w => 0 <= w < 2 ^ 32) (data_ t) ->
  data_ (ExpandColorMap num_colors f2 (ExpandColorMap num_colors f1 t))
  = data_ (ExpandColorMap num_colors f1 t)
  <-> Forall (fun w => w = 0) (take (num_colors - 1) (data_ t)).
Proof.
  intros Hn Hf H1 H2 Hu. set (t1 := ExpandColorMap num_colors f1 t).
  assert (Hb : bits_ t1 = bits_ t) by reflexivity.
  assert (E1 : data_ t1 = palette_spec (take num_colors (data_ t)) (final_num_colors (bits_ t)))
    by (apply ExpandColorMap_data; assumption).
  assert (Hu' : Forall (fun w => 0 <= w < 2 ^ 32) (take num_colors (data_ t))) by (apply Forall_take, Hu).
  assert (HD : length (take num_colors (data_ t)) = num_colors) by (rewrite length_take; lia).
  replace (take (num_colors - 1) (data_ t)) with (take (num_colors - 1) (take num_colors (data_ t)))
    by (rewrite take_take; f_equal; lia).
  destruct (take num_colors (data_ t)) as [|p0 tl]; [simpl in HD; lia|]. simpl in HD.
  apply Forall_cons in Hu' as [Hp0 Htl].
  set (F := final_num_colors (bits_ t)) in *.
  assert (Hpal : Forall (fun w => 0 <= w < 2 ^ 32) (data_ t1)).
  { rewrite E1. cbn [palette_spec]. constructor; [exact Hp0|].
    apply Forall_app. split; [apply accumulate_u32|apply Forall_replicate; lia]. }
  assert (Hlen1 : length (data_ t1) = F).
  { rewrite E1. cbn [palette_spec length]. rewrite length_app, length_accumulate, length_replicate. lia. }
  rewrite (ExpandColorMap_data num_colors f2 t1) by (rewrite ?Hb, ?Hlen1; assumption || lia).
  rewrite E1, Hb. fold F. cbn [palette_spec].
  assert (Htake : take num_colors (p0 :: accumulate p0 tl ++ replicate (F - length (p0 :: tl)) 0)
                  = p0 :: accumulate p0 tl).
  { replace num_colors with (S (length (accumulate p0 tl))) by (rewrite length_accumulate; lia).
    rewrite firstn_cons, take_app_length. reflexivity. }
  rewrite Htake. cbn [palette_spec length]. rewrite length_accumulate.
  replace (num_colors - 1)%nat with (length tl) by lia.
  rewrite <- (accumulate_twice p0 tl Hp0 Htl). split.
  - intros [= E]. apply app_inv_tail in E. exact E.
  - intros ->. reflexivity.
Qed.

(** ** Witnesses *)

Lemma ExpandColorMap_palette_witness :
  let t := mkTransform COLOR_INDEXING_TRANSFORM 2 4 4 [0xff000000; 0x00010203; 0x01ff0101] in
  let fresh := map Z.of_nat (seq 0 16) in
  (3 <= length (data_ t))%nat /\ (1 <= 3 <= final_num_colors (bits_ t))%nat /\
  length fresh = (4 * final_num_colors (bits_ t))%nat /\
  data_ (ExpandColorMap 3 fresh t) = palette_spec (take 3 (data_ t)) (final_num_colors (bits_ t)).
Proof.
  intros t fresh. assert (Hl : (3 <= length (data_ t))%nat) by (cbn; lia).
  assert (Hf : (1 <= 3 <= final_num_colors (bits_ t))%nat) by (vm_compute; lia).
  assert (Hfr : length fresh = (4 * final_num_colors (bits_ t))%nat) by reflexivity.
  split; [exact Hl|]. split; [exact Hf|]. split; [exact Hfr|].
  apply ExpandColorMap_palette; [exact Hl|exact Hf|exact Hfr|].
  repeat constructor; vm_compute; discriminate.
Defined.

Lemma ExpandColorMap_twice_witness :
  let t := mkTransform COLOR_INDEXING_TRANSFORM 3 2 2 [1; 1] in
  let f := [7; 7; 7; 7; 7; 7; 7; 7] in
  (2 <= length (data_ t))%nat /\ (1 <= 2 <= final_num_colors (bits_ t))%nat /\
  length f = (4 * final_num_colors (bits_ t))%nat /\
  data_ (ExpandColorMap 2 f (ExpandColorMap 2 f t)) <> data_ (ExpandColorMap 2 f t).
Proof.
  intros t f. assert (Hl : (2 <= length (data_ t))%nat) by (cbn; lia).
  assert (Hf : (1 <= 2 <= final_num_colors (bits_ t))%nat) by (vm_compute; lia).
  assert (Hfr : length f = (4 * final_num_colors (bits_ t))%nat) by reflexivity.
  split; [exact Hl|]. split; [exact Hf|]. split; [exact Hfr|].
  rewrite (ExpandColorMap_twice 2 f f t Hl Hf Hfr Hfr ltac:(repeat constructor; lia)).
  cbn. intros H. inversion H. discriminate.
Defined.

Lemma color_indexing_fits_witness :
  (1 <= 17 <= 256)%nat /\ (17 <= final_num_colors (color_indexing_bits 17))%nat.
Proof. split; [lia|]. apply color_indexing_fits. lia. Defined.

(** A stream with one transform, SUBTRACT_GREEN: the bits [1, 0 1, 0]. *)
Definition one_subtract_green : VP8LBitReader := VP8LInitBitReader [5].

Definition no_sub_stream : SubStreamFunc unit := fun _ _ br d => (true, [], br, d).

Lemma read_transforms_bounded_witness :
  match read_transforms 5 no_sub_stream 4 4 (no_transforms one_subtract_green) tt with
  | Some (ok, xs, st', d') =>
      read_transforms 5 no_sub_stream 4 4 (no_transforms one_subtract_green) tt
      = Some (ok, xs, st', d') /\
      ts_inv st' /\ (next_transform_ st' <= NUM_TRANSFORMS)%nat
  | None => False
  end.
Proof.
  destruct (read_transforms 5 no_sub_stream 4 4 (no_transforms one_subtract_green) tt)
    as [[[[ok xs] st'] d']|] eqn:E; [|vm_compute in E; discriminate].
  split; [reflexivity|]. exact (read_transforms_bounded _ _ _ _ _ _ _ _ _ _ E).
Defined.
