(* ===== verification/CopyBlock.v ===== *)
(** * Back-reference copies: [CopyBlock32b] and [CopyBlock8b]

    Models the LZ77 copy helpers of [vp8l.cpp]: [CopyBlock32b],
    [CopySmallPattern32b], [CopyBlock8b], [CopySmallPattern8b] and
    [Rotate8b].  Memory is a list of elements (32-bit pixels, or bytes for
    the alpha path) indexed by [nat]; the address of the destination is a
    separate [Z] argument [dst_addr], so that the alignment tests
    [(uintptr_t)dst & 3] and [& 4] take the branches the code takes.  Word
    stores are little-endian ([WORDS_BIGENDIAN] unset).  [memcpy] reads the
    original contents, [copy_loop] is the element loop
    [for (i = 0; i < length; ++i) dst[i] = src[i]].

    The theorems show that every path computes [rl_fill]: the [length]
    elements at [dst] become the periodic extension of the [dist] elements
    before it, and nothing else changes. *)

From S2P Require Import Prelude BitReader.
From Stdlib Require Import Lia.

Local Open Scope Z_scope.
Local Open Scope vp8l_scope.

(** ** Element-wise copies *)

(** [memcpy(dst, src, n)]: every element is read from the original memory. *)
Fixpoint memcpy_from (orig mem : list Z) (dst src n : nat) : list Z :=
  match n with
  | O => mem
  | S n' => memcpy_from orig (<[dst := orig !!! src]> mem) (S dst) (S src) n'
  end.

Definition memcpy (mem : list Z) (dst src n : nat) : list Z :=
  memcpy_from mem mem dst src n.

(** [for (i = 0; i < n; ++i) dst[i] = src[i];] reading its own writes. *)
Fixpoint copy_loop (mem : list Z) (dst src n : nat) : list Z :=
  match n with
  | O => mem
  | S n' => copy_loop (<[dst := mem !!! src]> mem) (S dst) (S src) n'
  end.

(** ** 32-bit pixels *)

(** A little-endian 64-bit store of two pixels. *)
Definition store64 (mem : list Z) (p : nat) (v : Z) : list Z :=
  <[S p := v >> 32]> (<[p := v .& mask 32]> mem).

(** [for (i = 0; i < n; ++i) ((uint64_t* )dst)[i] = pattern;] *)
Fixpoint store64_loop (mem : list Z) (dst : nat) (pattern : Z) (n : nat) : list Z :=
  match n with
  | O => mem
  | S n' => store64_loop (store64 mem dst pattern) (dst + 2) pattern n'
  end.

Definition CopySmallPattern32b (mem : list Z) (src dst : nat) (dst_addr : Z)
    (length : nat) (pattern : Z) : list Z :=
  let '(mem, src, dst, length, pattern) :=
    if dst_addr .& 4 =? 0 then (mem, src, dst, length, pattern)
    else (<[dst := mem !!! src]> mem, S src, S dst, (length - 1)%nat,
          u64 ((pattern >> 32) .| (pattern << 32))) in
  let half := Nat.shiftr length 1 in
  let mem := store64_loop mem dst pattern half in
  if Nat.odd length then <[(dst + 2 * half)%nat := mem !!! (src + 2 * half)%nat]> mem
  else mem.

Definition CopyBlock32b (mem : list Z) (dst : nat) (dst_addr : Z) (dist length : nat)
  : list Z :=
  let src := (dst - dist)%nat in
  if (dist <=? 2)%nat && (4 <=? length)%nat && (dst_addr .& 3 =? 0) then
    let pattern :=
      if (dist =? 1)%nat then
        let p := mem !!! src in p .| u64 (p << 32)
      else (mem !!! src) .| ((mem !!! S src) << 32) in
    CopySmallPattern32b mem src dst dst_addr length pattern
  else if (length <=? dist)%nat then memcpy mem dst src length
  else copy_loop mem dst src length.

(** ** Bytes *)

(** Cyclic rotation of the pattern word (little-endian variant). *)
Definition Rotate8b (V : Z) : Z := ((V .& 0xff) << 24) .| (V >> 8).

(** A little-endian 32-bit store of four bytes. *)
Definition store32 (mem : list Z) (p : nat) (v : Z) : list Z :=
  <[(p + 3)%nat := (v >> 24) .& 0xff]> (<[(p + 2)%nat := (v >> 16) .& 0xff]>
    (<[S p := (v >> 8) .& 0xff]> (<[p := v .& 0xff]> mem))).

(** [for (i = 0; i < n; ++i) ((uint32_t* )dst)[i] = pattern;] *)
Fixpoint store32_loop (mem : list Z) (dst : nat) (pattern : Z) (n : nat) : list Z :=
  match n with
  | O => mem
  | S n' => store32_loop (store32 mem dst pattern) (dst + 4) pattern n'
  end.

(** [while ((uintptr_t)dst & 3) { *dst++ = *src++; pattern = Rotate8b(pattern);
    --length; }]: at most three iterations, run with [fuel] 4. *)
Fixpoint align_loop (fuel : nat) (mem : list Z) (src dst : nat) (dst_addr : Z)
    (length : nat) (pattern : Z) : list Z * nat * nat * nat * Z :=
  match fuel with
  | O => (mem, src, dst, length, pattern)
  | S fuel' =>
      if dst_addr .& 3 =? 0 then (mem, src, dst, length, pattern)
      else align_loop fuel' (<[dst := mem !!! src]> mem) (S src) (S dst) (dst_addr + 1)
             (length - 1)%nat (Rotate8b pattern)
  end.

Definition CopySmallPattern8b (mem : list Z) (src dst : nat) (dst_addr : Z)
    (length : nat) (pattern : Z) : list Z :=
  let '(mem, src, dst, length, pattern) := align_loop 4 mem src dst dst_addr length pattern in
  let words := Nat.shiftr length 2 in
  let mem := store32_loop mem dst pattern words in
  copy_loop mem (dst + 4 * words) (src + 4 * words) (length - 4 * words).

(** [memcpy(&pattern, src, 2)] and [memcpy(&pattern, src, 4)], little-endian. *)
Definition load16 (mem : list Z) (p : nat) : Z := (mem !!! p) .| ((mem !!! S p) << 8).
Definition load32 (mem : list Z) (p : nat) : Z :=
  (mem !!! p) .| ((mem !!! S p) << 8) .| ((mem !!! (p + 2)%nat) << 16)
    .| ((mem !!! (p + 3)%nat) << 24).

Definition CopyBlock8b (mem : list Z) (dst : nat) (dst_addr : Z) (dist length : nat)
  : list Z :=
  let src := (dst - dist)%nat in
  let copy := if (length <=? dist)%nat then memcpy mem dst src length
              else copy_loop mem dst src length in
  if (8 <=? length)%nat then
    match dist with
    | 1%nat => CopySmallPattern8b mem src dst dst_addr length (u32 (0x01010101 * (mem !!! src)))
    | 2%nat => CopySmallPattern8b mem src dst dst_addr length (u32 (0x00010001 * load16 mem src))
    | 4%nat => CopySmallPattern8b mem src dst dst_addr length (load32 mem src)
    | _ => copy
    end
  else copy.

(** ** The specification: a periodic fill *)

(** [rl_fill mem dst dist n]: element [dst + i], for [i < n], becomes
    [mem[dst - dist + i mod dist]]; every other element is unchanged. *)
Definition rl_fill (mem : list Z) (dst dist n : nat) : list Z :=
  imap (fun j x => if (dst <=? j)%nat && (j <? dst + n)%nat
                   then mem !!! (dst - dist + (j - dst) mod dist)%nat else x) mem.

(** ** The fill invariant *)

Section Fill.
  Context (mem : list Z) (dst dist n : nat).
  Hypothesis Hdist : (1 <= dist <= dst)%nat.
  Hypothesis Hlen : (dst + n <= length mem)%nat.

  (** The value the fill puts at position [j] (a total function). *)
Definition rl_val (j : nat) : Z := mem !!! (dst - dist + (j - dst) mod dist)%nat.

Lemma rl_fill_lookup (j : nat) :
    rl_fill mem dst dist n !!! j
    = if (dst <=? j)%nat && (j <? dst + n)%nat then rl_val j else mem !!! j.
  Proof.
    unfold rl_fill, rl_val. rewrite (list_lookup_total_alt (imap _ mem)), list_lookup_imap.
    rewrite (list_lookup_total_alt mem j).
    destruct (mem !! j) eqn:E; simpl; [reflexivity|].
    apply lookup_ge_None in E.
    destruct (Nat.leb_spec dst j); destruct (Nat.ltb_spec j (dst + n)); simpl; lia.
  Qed.

Lemma length_rl_fill : length (rl_fill mem dst dist n) = length mem.
  Proof. apply length_imap. Qed.

Lemma rl_val_period (j : nat) : (dst + dist <= j)%nat -> rl_val j = rl_val (j - dist).
  Proof.
    intros Hj. unfold rl_val. f_equal. f_equal.
    replace (j - dst)%nat with ((j - dist - dst) + 1 * dist)%nat by lia.
    rewrite Nat.Div0.mod_add. reflexivity.
  Qed.

Lemma rl_val_first (j : nat) : (dst <= j < dst + dist)%nat -> rl_val j = mem !!! (j - dist)%nat.
  Proof.
    intros Hj. unfold rl_val. rewrite Nat.mod_small by lia. f_equal. lia.
  Qed.

  (** A period that [dist] divides is a period of the fill. *)
Lemma rl_val_shift (j q : nat) :
    (dst <= j)%nat -> (q mod dist = 0)%nat -> rl_val (j + q) = rl_val j.
  Proof.
    intros Hj Hq. unfold rl_val. f_equal. f_equal.
    replace (j + q - dst)%nat with ((j - dst) + q)%nat by lia.
    rewrite Nat.Div0.add_mod, Hq, Nat.add_0_r, Nat.Div0.mod_mod. reflexivity.
  Qed.

  (** [agrees L p]: [L] holds the fill below [p] and the original memory
      from [p] on. *)
Definition agrees (L : list Z) (p : nat) : Prop :=
    length L = length mem /\
    (forall j, (j < p)%nat -> L !!! j = rl_fill mem dst dist n !!! j) /\
    (forall j, (p <= j)%nat -> L !!! j = mem !!! j).

Lemma agrees_init : agrees mem dst.
  Proof.
    split; [reflexivity|split; [|auto]].
    intros j Hj. rewrite rl_fill_lookup.
    destruct (Nat.leb_spec dst j); [lia|reflexivity].
  Qed.

Lemma agrees_final (L : list Z) : agrees L (dst + n) -> L = rl_fill mem dst dist n.
  Proof.
    intros (HL & Hlo & Hhi). apply list_eq_lookup_total.
    { rewrite length_rl_fill. exact HL. }
    intros j Hj. destruct (Nat.ltb_spec j (dst + n)); [auto|].
    rewrite Hhi, rl_fill_lookup by lia.
    destruct (Nat.ltb_spec j (dst + n)); [lia|]. rewrite andb_false_r. reflexivity.
  Qed.

  (** One store of the right value extends the agreement by one element. *)
Lemma agrees_step (L : list Z) (p : nat) (v : Z) :
    agrees L p -> (dst <= p < dst + n)%nat -> v = rl_val p -> agrees (<[p := v]> L) (S p).
  Proof.
    intros (HL & Hlo & Hhi) Hp Hv. split; [rewrite length_insert; exact HL|split].
    - intros j Hj. destruct (Nat.eq_dec j p) as [->|Hne].
      + rewrite lookup_total_insert_same by lia. rewrite rl_fill_lookup, Hv.
        destruct (Nat.leb_spec dst p); destruct (Nat.ltb_spec p (dst + n)); simpl; lia || reflexivity.
      + rewrite lookup_total_insert_other by lia. apply Hlo. lia.
    - intros j Hj. rewrite lookup_total_insert_other by lia. apply Hhi. lia.
  Qed.

  (** One step of the element loop [dst[i] = src[i]] keeps the agreement:
      it reads an element that already holds the fill. *)
Lemma agrees_copy (L : list Z) (p : nat) :
    agrees L p -> (dst <= p < dst + n)%nat -> agrees (<[p := L !!! (p - dist)%nat]> L) (S p).
  Proof.
    intros HA Hp. apply agrees_step; [exact HA|exact Hp|].
    destruct HA as (_ & Hlo & _). rewrite Hlo by lia. rewrite rl_fill_lookup.
    destruct (Nat.leb_spec dst (p - dist)); simpl.
    - destruct (Nat.ltb_spec (p - dist) (dst + n)); [|lia].
      rewrite (rl_val_period p) by lia. reflexivity.
    - rewrite rl_val_first by lia. reflexivity.
  Qed.

Lemma copy_loop_agrees (k : nat) :
    forall L p, agrees L p -> (dst <= p)%nat -> (p + k <= dst + n)%nat ->
    agrees (copy_loop L p (p - dist) k) (p + k).
  Proof.
    induction k as [|k IH]; intros L p HA Hp Hk; simpl.
    - rewrite Nat.add_0_r. exact HA.
    - replace (S (p - dist)) with (S p - dist)%nat by lia.
      replace (p + S k)%nat with (S p + k)%nat by lia.
      apply IH; [apply agrees_copy|..]; auto; lia.
  Qed.

Lemma memcpy_agrees (k : nat) :
    (n <= dist)%nat ->
    forall L p, agrees L p -> (dst <= p)%nat -> (p + k <= dst + n)%nat ->
    agrees (memcpy_from mem L p (p - dist) k) (p + k).
  Proof.
    intros Hn. induction k as [|k IH]; intros L p HA Hp Hk; simpl.
    - rewrite Nat.add_0_r. exact HA.
    - replace (S (p - dist)) with (S p - dist)%nat by lia.
      replace (p + S k)%nat with (S p + k)%nat by lia.
      apply IH; [apply agrees_step|..]; auto; try lia.
      rewrite rl_val_first by lia. reflexivity.
  Qed.
End Fill.

Lemma agrees_rl_fill (mem : list Z) (dst dist n : nat) (L : list Z -> list Z) :
  (1 <= dist <= dst)%nat -> (dst + n <= length mem)%nat ->
  (forall L0, agrees mem dst dist n L0 dst -> agrees mem dst dist n (L L0) (dst + n)) ->
  L mem = rl_fill mem dst dist n.
Proof.
  intros Hd Hl HL. apply agrees_final; try assumption. apply HL, agrees_init; assumption.
Qed.

Lemma agrees_step' (mem : list Z) (dst dist n : nat) (L : list Z) (p q : nat) (v : Z) :
  (1 <= dist <= dst)%nat -> (dst + n <= length mem)%nat ->
  agrees mem dst dist n L p -> q = S p -> (dst <= p < dst + n)%nat ->
  v = rl_val mem dst dist p -> agrees mem dst dist n (<[p := v]> L) q.
Proof. intros Hd Hl HA -> Hp Hv. apply agrees_step; assumption. Qed.

(** C11: the run-length law of LZ77 copies.  The element
    loop [dst[i] = src[i]] with [src = dst - dist] turns the [n] elements
    at [dst] into the periodic extension of the [dist] elements before
    them, [mem[dst - dist + i mod dist]], also when [dist < n] and the
    copy reads its own output; nothing else changes. *)
Theorem copy_loop_rl_fill (mem : list Z) (dst dist n : nat) :
  (1 <= dist <= dst)%nat -> (dst + n <= length mem)%nat ->
  copy_loop mem dst (dst - dist) n = rl_fill mem dst dist n.
Proof.
  intros Hd Hl. apply (agrees_rl_fill mem dst dist n (fun L => copy_loop L dst (dst - dist) n));
    [exact Hd|exact Hl|]. intros L0 HA. apply copy_loop_agrees; auto; lia.
Qed.

Lemma memcpy_rl_fill (mem : list Z) (dst dist n : nat) :
  (1 <= dist <= dst)%nat -> (dst + n <= length mem)%nat -> (n <= dist)%nat ->
  memcpy mem dst (dst - dist) n = rl_fill mem dst dist n.
Proof.
  intros Hd Hl Hn. unfold memcpy.
  apply (agrees_rl_fill mem dst dist n (fun L => memcpy_from mem L dst (dst - dist) n));
    [exact Hd|exact Hl|]. intros L0 HA. apply memcpy_agrees; auto; lia.
Qed.

(** The element-wise fallback of both copy routines. *)
Lemma copy_fallback_rl_fill (mem : list Z) (dst dist n : nat) :
  (1 <= dist <= dst)%nat -> (dst + n <= length mem)%nat ->
  (if (n <=? dist)%nat then memcpy mem dst (dst - dist) n else copy_loop mem dst (dst - dist) n)
  = rl_fill mem dst dist n.
Proof.
  intros Hd Hl. destruct (Nat.leb_spec n dist).
  - apply memcpy_rl_fill; assumption.
  - apply copy_loop_rl_fill; assumption.
Qed.

(** ** Pattern words of two pixels *)

Lemma pat64_add (a b : Z) : 0 <= a < 2 ^ 32 -> a .| (b << 32) = a + b * 2 ^ 32.
Proof. intros Ha. apply lor_shiftl_add; lia. Qed.

Lemma pat64_lo (a b : Z) : 0 <= a < 2 ^ 32 -> (a .| (b << 32)) .& mask 32 = a.
Proof.
  intros Ha. rewrite pat64_add by exact Ha. unfold mask. rewrite Z.land_ones by lia.
  rewrite Z_mod_plus_full. apply Z.mod_small. exact Ha.
Qed.

Lemma pat64_hi (a b : Z) : 0 <= a < 2 ^ 32 -> (a .| (b << 32)) >> 32 = b.
Proof.
  intros Ha. rewrite pat64_add by exact Ha. rewrite Z.shiftr_div_pow2 by lia.
  rewrite Z.div_add by lia. rewrite Z.div_small by exact Ha. lia.
Qed.

Lemma pat64_swap (a b : Z) :
  0 <= a < 2 ^ 32 -> 0 <= b < 2 ^ 32 ->
  u64 (((a .| (b << 32)) >> 32) .| ((a .| (b << 32)) << 32)) = b .| (a << 32).
Proof.
  intros Ha Hb. rewrite pat64_hi by exact Ha.
  rewrite (pat64_add a b Ha), !(pat64_add b) by exact Hb. unfold u64.
  replace (b + (a + b * 2 ^ 32) * 2 ^ 32) with ((b + a * 2 ^ 32) + b * 2 ^ 64) by ring.
  rewrite Z_mod_plus_full. apply Z.mod_small. nia.
Qed.

Section Fill32.
  Context (mem : list Z) (dst dist n : nat).
  Hypothesis Hdist : (1 <= dist <= dst)%nat.
  Hypothesis Hlen : (dst + n <= length mem)%nat.
  Hypothesis H12 : dist = 1%nat \/ dist = 2%nat.
  Hypothesis Hpix : Forall (fun x => 0 <= x < 2 ^ 32) mem.

Let rv := rl_val mem dst dist.

  (** [P] is the pattern word whose low half is the fill at [p]. *)
Definition pattern64_at (P : Z) (p : nat) : Prop := P = rv p .| (rv (S p) << 32).

Lemma rv_u32 (j : nat) : 0 <= rv j < 2 ^ 32.
  Proof. apply (Forall_lookup_total (fun x => 0 <= x < 2 ^ 32)); [simpl; lia|exact Hpix]. Qed.

Lemma rv_period2 (j : nat) : (dst <= j)%nat -> rv (j + 2) = rv j.
  Proof.
    intros Hj. apply (rl_val_shift mem dst dist n); try assumption.
    destruct H12 as [->| ->]; reflexivity.
  Qed.

Lemma pattern64_next (P : Z) (p : nat) :
    (dst <= p)%nat -> pattern64_at P p -> pattern64_at P (p + 2).
  Proof.
    unfold pattern64_at. intros Hp ->. rewrite rv_period2 by lia.
    replace (S (p + 2)) with (S p + 2)%nat by lia. rewrite rv_period2 by lia. reflexivity.
  Qed.

Lemma pattern64_swap (P : Z) (p : nat) :
    (dst <= p)%nat -> pattern64_at P p ->
    pattern64_at (u64 ((P >> 32) .| (P << 32))) (S p).
  Proof.
    unfold pattern64_at. intros Hp ->. rewrite pat64_swap by apply rv_u32.
    replace (S (S p)) with (p + 2)%nat by lia. rewrite rv_period2 by lia. reflexivity.
  Qed.

Lemma store64_agrees (P : Z) (k : nat) :
    forall L p, agrees mem dst dist n L p -> (dst <= p)%nat -> (p + 2 * k <= dst + n)%nat ->
    pattern64_at P p -> agrees mem dst dist n (store64_loop L p P k) (p + 2 * k).
  Proof.
    induction k as [|k IH]; intros L p HA Hp Hk HP; simpl.
    - rewrite Nat.add_0_r. exact HA.
    - replace (p + S (k + S (k + 0)))%nat with (p + 2 + 2 * k)%nat by lia.
      apply IH; [|lia|lia|apply pattern64_next; assumption].
      unfold store64. replace (p + 2)%nat with (S (S p)) by lia.
      apply (agrees_step mem dst dist n Hdist Hlen);
        [apply (agrees_step mem dst dist n Hdist Hlen)|..]; try lia; try assumption;
        rewrite HP; first [apply pat64_lo | apply pat64_hi]; apply rv_u32.
  Qed.

  (** The part of [CopySmallPattern32b] after the alignment step. *)
Lemma small32_tail (L : list Z) (p len : nat) (P : Z) :
    agrees mem dst dist n L p -> (dst <= p)%nat -> (p + len = dst + n)%nat ->
    pattern64_at P p ->
    let half := Nat.shiftr len 1 in
    let L' := store64_loop L p P half in
    agrees mem dst dist n
      (if Nat.odd len then <[(p + 2 * half)%nat := L' !!! (p - dist + 2 * half)%nat]> L' else L')
      (dst + n).
  Proof.
    intros HA Hp Hpl HP half L'. subst half L'. rewrite Nat.shiftr_div_pow2. simpl (2 ^ 1)%nat.
    destruct (Nat.odd len) eqn:Ho.
    - apply Nat.odd_spec in Ho as [m ->].
      replace ((2 * m + 1) / 2)%nat with m
        by (rewrite Nat.add_comm, Nat.mul_comm, Nat.div_add by lia; reflexivity).
      replace (p - dist + 2 * m)%nat with (p + 2 * m - dist)%nat by lia.
      replace (dst + n)%nat with (S (p + 2 * m)) by lia.
      apply (agrees_copy mem dst dist n Hdist Hlen); [apply store64_agrees|]; auto; lia.
    - assert (He : Nat.even len = true) by (rewrite <- Nat.negb_odd, Ho; reflexivity).
      apply Nat.even_spec in He as [m ->].
      replace ((2 * m) / 2)%nat with m
        by (rewrite Nat.mul_comm, Nat.div_mul by lia; reflexivity).
      rewrite <- Hpl. apply store64_agrees; auto; lia.
  Qed.
End Fill32.

Lemma u64_shiftl32 (m : Z) : 0 <= m < 2 ^ 32 -> u64 (m << 32) = m << 32.
Proof.
  intros Hm. unfold u64. rewrite Z.shiftl_mul_pow2 by lia. apply Z.mod_small. nia.
Qed.

(** The pattern word [CopyBlock32b] builds for [dist] 1 and 2. *)
Lemma CopyBlock32b_pattern (mem : list Z) (dst dist : nat) :
  (dist = 1 \/ dist = 2)%nat -> (dist <= dst)%nat ->
  Forall (fun x => 0 <= x < 2 ^ 32) mem ->
  pattern64_at mem dst dist
    (if (dist =? 1)%nat then let p := mem !!! (dst - dist)%nat in p .| u64 (p << 32)
     else (mem !!! (dst - dist)%nat) .| ((mem !!! S (dst - dist)) << 32)) dst.
Proof.
  intros H12 Hd Hpix. unfold pattern64_at, rl_val.
  replace (dst - dst)%nat with 0%nat by lia. replace (S dst - dst)%nat with 1%nat by lia.
  destruct H12 as [->| ->]; simpl.
  - rewrite u64_shiftl32 by (apply (Forall_lookup_total (fun x => 0 <= x < 2 ^ 32));
                             [simpl; lia|exact Hpix]).
    rewrite !Nat.add_0_r. reflexivity.
  - rewrite Nat.add_0_r. do 3 f_equal. lia.
Qed.

Lemma CopyBlock32b_copy_loop (mem : list Z) (dst : nat) (dst_addr : Z) (dist len : nat) :
  (1 <= dist <= dst)%nat -> (dst + len <= length mem)%nat ->
  Forall (fun x => 0 <= x < 2 ^ 32) mem ->
  CopyBlock32b mem dst dst_addr dist len = copy_loop mem dst (dst - dist) len.
Proof.
  intros Hd Hl Hpix. rewrite copy_loop_rl_fill by assumption.
  unfold CopyBlock32b.
  destruct ((dist <=? 2)%nat && (4 <=? len)%nat && (dst_addr .& 3 =? 0)) eqn:Hc;
    [|apply copy_fallback_rl_fill; assumption].
  apply andb_true_iff in Hc as [Hc _]. apply andb_true_iff in Hc as [H2 H4].
  apply Nat.leb_le in H2, H4.
  assert (H12 : (dist = 1 \/ dist = 2)%nat) by lia.
  pose proof (CopyBlock32b_pattern mem dst dist H12 ltac:(lia) Hpix) as HP.
  set (P := if (dist =? 1)%nat then _ else _) in *.
  apply agrees_final; [assumption|assumption|].
  unfold CopySmallPattern32b. destruct (dst_addr .& 4 =? 0).
  - apply (small32_tail mem dst dist len Hd Hl H12 Hpix mem dst len P);
      [apply agrees_init; assumption|lia|lia|exact HP].
  - replace (S (dst - dist)) with (S dst - dist)%nat by lia.
    apply (small32_tail mem dst dist len Hd Hl H12 Hpix _ (S dst) (len - 1));
      [apply agrees_copy; [..|apply agrees_init|]; auto; lia|lia|lia|].
    eapply (pattern64_swap mem dst dist len); eauto; lia.
Qed.

(** C4: the optimised copy of the 32-bit decoder equals
    the reference element loop.  For every destination address (aligned
    or not), distance [1 <= dist <= dst] and length that fits, the
    pattern path (64-bit stores of a 1- or 2-pixel pattern), the [memcpy]
    path and the overlapping loop of [CopyBlock32b] all leave memory as
    [for (i = 0; i < length; ++i) dst[i] = src[i]] does. *)
Theorem CopyBlock32b_equiv (mem : list Z) (dst : nat) (dst_addr : Z) (dist len : nat) :
  (1 <= dist <= dst)%nat -> (dst + len <= length mem)%nat ->
  Forall (fun x => 0 <= x < 2 ^ 32) mem ->
  CopyBlock32b mem dst dst_addr dist len = copy_loop mem dst (dst - dist) len.
Proof. apply CopyBlock32b_copy_loop. Qed.

(** ** Pattern words of four bytes *)

(** The little-endian word of the bytes [a b c d]. *)
Definition bytes4 (a b c d : Z) : Z := a + 256 * (b + 256 * (c + 256 * d)).

Definition is_byte (x : Z) : Prop := 0 <= x < 256.

Lemma byte_split (a r : Z) :
  is_byte a -> 0 <= r -> (a + 256 * r) .& 0xff = a /\ (a + 256 * r) >> 8 = r.
Proof.
  intros Ha Hr. split.
  - change 0xff with (Z.ones 8). rewrite Z.land_ones by lia.
    rewrite (Z.mul_comm 256 r). rewrite Z_mod_plus_full. apply Z.mod_small. exact Ha.
  - rewrite Z.shiftr_div_pow2 by lia. rewrite (Z.mul_comm 256 r).
    change (2 ^ 8) with 256. rewrite Z.div_add by lia. rewrite Z.div_small by exact Ha. lia.
Qed.

Lemma bytes4_bytes (a b c d : Z) :
  is_byte a -> is_byte b -> is_byte c -> is_byte d ->
  let P := bytes4 a b c d in
  P .& 0xff = a /\ (P >> 8) .& 0xff = b /\ (P >> 16) .& 0xff = c /\ (P >> 24) .& 0xff = d.
Proof.
  intros Ha Hb Hc Hd. cbv zeta. unfold is_byte, bytes4 in *.
  destruct (byte_split a (b + 256 * (c + 256 * d))) as [E0 S0]; [exact Ha|nia|].
  destruct (byte_split b (c + 256 * d)) as [E1 S1]; [exact Hb|nia|].
  destruct (byte_split c d) as [E2 S2]; [exact Hc|lia|].
  destruct (byte_split d 0) as [E3 _]; [exact Hd|lia|].
  rewrite Z.add_0_r in E3.
  replace 16 with (8 + 8) by reflexivity. replace 24 with (8 + 8 + 8) by reflexivity.
  rewrite <- !Z.shiftr_shiftr by lia. rewrite S0, S1, S2. auto.
Qed.

Lemma Rotate8b_bytes4 (a b c d : Z) :
  is_byte a -> is_byte b -> is_byte c -> is_byte d ->
  Rotate8b (bytes4 a b c d) = bytes4 b c d a.
Proof.
  unfold is_byte. intros Ha Hb Hc Hd. unfold Rotate8b, bytes4.
  destruct (byte_split a (b + 256 * (c + 256 * d))) as [-> ->]; [exact Ha|nia|].
  rewrite Z.lor_comm, lor_shiftl_add by nia. ring.
Qed.

Lemma load32_bytes4 (mem : list Z) (p : nat) :
  Forall is_byte mem ->
  load32 mem p = bytes4 (mem !!! p) (mem !!! S p) (mem !!! (p + 2)%nat) (mem !!! (p + 3)%nat).
Proof.
  intros Hb. unfold load32, bytes4.
  assert (B : forall i, 0 <= mem !!! i < 256)
    by (intros i; apply (Forall_lookup_total is_byte); [unfold is_byte; simpl; lia|exact Hb]).
  pose proof (B p). pose proof (B (S p)). pose proof (B (p + 2)%nat).
  rewrite (lor_shiftl_add (mem !!! p)) by lia.
  rewrite (lor_shiftl_add (_ + _)) by nia.
  rewrite (lor_shiftl_add (_ + _ + _)) by nia. ring.
Qed.

Lemma load16_pattern (mem : list Z) (p : nat) :
  Forall is_byte mem ->
  u32 (0x00010001 * load16 mem p) = bytes4 (mem !!! p) (mem !!! S p) (mem !!! p) (mem !!! S p).
Proof.
  intros Hb. unfold load16, bytes4.
  assert (B : forall i, 0 <= mem !!! i < 256)
    by (intros i; apply (Forall_lookup_total is_byte); [unfold is_byte; simpl; lia|exact Hb]).
  pose proof (B p). pose proof (B (S p)).
  rewrite lor_shiftl_add by lia. rewrite u32_small by nia. ring.
Qed.

Lemma splat_pattern (a : Z) : is_byte a -> u32 (0x01010101 * a) = bytes4 a a a a.
Proof. unfold is_byte, bytes4. intros Ha. rewrite u32_small by nia. ring. Qed.

(** [addr & 3] is [addr mod 4]; one more byte brings the address one step
    closer to alignment. *)
Lemma land3_mod (addr : Z) : addr .& 3 = addr mod 4.
Proof. change 3 with (Z.ones 2). apply Z.land_ones. lia. Qed.

Lemma align_step (addr : Z) :
  addr mod 4 <> 0 ->
  1 <= (- addr) mod 4 /\ (- (addr + 1)) mod 4 = (- addr) mod 4 - 1.
Proof.
  intros Hr. pose proof (Z.div_mod addr 4 ltac:(lia)) as Hd.
  pose proof (Z.mod_pos_bound addr 4 ltac:(lia)) as Hb.
  set (q := addr / 4) in *. set (r := addr mod 4) in *.
  rewrite <- (Z.mod_unique (- addr) 4 (- q - 1) (4 - r)) by lia.
  rewrite <- (Z.mod_unique (- (addr + 1)) 4 (- q - 1) (3 - r)) by lia. lia.
Qed.

Section Fill8.
  Context (mem : list Z) (dst dist n : nat).
  Hypothesis Hdist : (1 <= dist <= dst)%nat.
  Hypothesis Hlen : (dst + n <= length mem)%nat.
  Hypothesis H124 : dist = 1%nat \/ dist = 2%nat \/ dist = 4%nat.
  Hypothesis Hbytes : Forall is_byte mem.

Let rv := rl_val mem dst dist.

  (** [P] is the pattern word whose first byte is the fill at [p]. *)
Definition pattern32_at (P : Z) (p : nat) : Prop :=
    P = bytes4 (rv p) (rv (S p)) (rv (p + 2)%nat) (rv (p + 3)%nat).

Lemma rv_byte (j : nat) : is_byte (rv j).
  Proof. apply (Forall_lookup_total is_byte); [unfold is_byte; simpl; lia|exact Hbytes]. Qed.

Lemma rv_period4 (j : nat) : (dst <= j)%nat -> rv (j + 4) = rv j.
  Proof.
    intros Hj. apply (rl_val_shift mem dst dist n); try assumption.
    destruct H124 as [->|[->| ->]]; reflexivity.
  Qed.

Lemma pattern32_rotate (P : Z) (p : nat) :
    (dst <= p)%nat -> pattern32_at P p -> pattern32_at (Rotate8b P) (S p).
  Proof.
    unfold pattern32_at. intros Hp ->. rewrite Rotate8b_bytes4 by apply rv_byte.
    replace (S p + 3)%nat with (p + 4)%nat by lia. rewrite rv_period4 by lia.
    f_equal; f_equal; lia.
  Qed.

Lemma pattern32_next (P : Z) (p : nat) :
    (dst <= p)%nat -> pattern32_at P p -> pattern32_at P (p + 4).
  Proof.
    unfold pattern32_at. intros Hp ->.
    rewrite (rv_period4 p), <- (rv_period4 (S p)), <- (rv_period4 (p + 2)),
      <- (rv_period4 (p + 3)) by lia.
    f_equal; f_equal; lia.
  Qed.

Lemma store32_agrees (P : Z) (k : nat) :
    forall L p, agrees mem dst dist n L p -> (dst <= p)%nat -> (p + 4 * k <= dst + n)%nat ->
    pattern32_at P p -> agrees mem dst dist n (store32_loop L p P k) (p + 4 * k).
  Proof.
    induction k as [|k IH]; intros L p HA Hp Hk HP; simpl.
    - rewrite Nat.add_0_r. exact HA.
    - replace (p + S (k + S (k + S (k + S (k + 0)))))%nat with (p + 4 + 4 * k)%nat by lia.
      apply IH; [|lia|lia|apply pattern32_next; assumption].
      pose proof (bytes4_bytes _ _ _ _ (rv_byte p) (rv_byte (S p)) (rv_byte (p + 2))
                    (rv_byte (p + 3))) as (B0 & B1 & B2 & B3).
      rewrite <- HP in B0, B1, B2, B3. unfold store32.
      set (A := agrees_step' mem dst dist n).
      eapply A; [| |eapply A; [| |eapply A; [| |eapply A; [| |exact HA| | | ]| | | ]| | | ]| | | ];
        try assumption; try lia; first [exact B0|exact B1|exact B2|exact B3].
  Qed.

  (** The alignment loop of [CopySmallPattern8b]: each iteration is one
      element copy and one rotation, and it stops within the fuel. *)
Lemma align_loop_agrees (fuel : nat) :
    forall L src p addr len P,
    agrees mem dst dist n L p -> (dst <= p)%nat -> (p + len = dst + n)%nat ->
    src = (p - dist)%nat -> pattern32_at P p ->
    (Z.to_nat ((- addr) mod 4) < fuel)%nat -> (Z.to_nat ((- addr) mod 4) <= len)%nat ->
    let '(L', src', p', len', P') := align_loop fuel L src p addr len P in
    agrees mem dst dist n L' p' /\ (dst <= p')%nat /\ (p' + len' = dst + n)%nat /\
    src' = (p' - dist)%nat /\ pattern32_at P' p'.
  Proof.
    induction fuel as [|fuel IH]; intros L src p addr len P HA Hp Hl Hs HP Hf Hk; [lia|].
    simpl. destruct (Z.eqb_spec (addr .& 3) 0) as [E|E]; [auto 6|].
    rewrite land3_mod in E. destruct (align_step addr E) as [H1 H2].
    apply IH.
    - subst src. apply (agrees_copy mem dst dist n Hdist Hlen); [exact HA|].
      split; [exact Hp|]. lia.
    - lia.
    - lia.
    - lia.
    - apply pattern32_rotate; assumption.
    - rewrite H2. lia.
    - rewrite H2. lia.
  Qed.

Lemma small8_agrees (addr : Z) (P : Z) :
    agrees mem dst dist n mem dst -> (8 <= n)%nat -> pattern32_at P dst ->
    agrees mem dst dist n (CopySmallPattern8b mem (dst - dist) dst addr n P) (dst + n).
  Proof.
    intros HA Hn HP. unfold CopySmallPattern8b.
    assert (Hk : (Z.to_nat ((- addr) mod 4) < 4)%nat).
    { pose proof (Z.mod_pos_bound (- addr) 4 ltac:(lia)). lia. }
    pose proof (align_loop_agrees 4 mem (dst - dist) dst addr n P HA ltac:(lia) eq_refl
                  eq_refl HP Hk ltac:(lia)) as Ha.
    destruct (align_loop 4 mem (dst - dist) dst addr n P) as [[[[L' src'] p'] len'] P'].
    destruct Ha as (HA' & Hp' & Hl' & -> & HP').
    rewrite Nat.shiftr_div_pow2. simpl (2 ^ 2)%nat.
    pose proof (Nat.div_mod_eq len' 4) as Hdm.
    replace (p' - dist + 4 * (len' / 4))%nat with (p' + 4 * (len' / 4) - dist)%nat by lia.
    replace (dst + n)%nat with (p' + 4 * (len' / 4) + (len' - 4 * (len' / 4)))%nat by lia.
    apply (copy_loop_agrees mem dst dist n Hdist Hlen); [apply store32_agrees|..];
      auto; lia.
  Qed.
End Fill8.

Lemma CopyBlock8b_copy_loop (mem : list Z) (dst : nat) (dst_addr : Z) (dist len : nat) :
  (1 <= dist <= dst)%nat -> (dst + len <= length mem)%nat -> Forall is_byte mem ->
  CopyBlock8b mem dst dst_addr dist len = copy_loop mem dst (dst - dist) len.
Proof.
  intros Hd Hl Hb. rewrite copy_loop_rl_fill by assumption.
  assert (B : forall i, is_byte (mem !!! i))
    by (intros i; apply (Forall_lookup_total is_byte); [unfold is_byte; simpl; lia|exact Hb]).
  unfold CopyBlock8b. destruct (Nat.leb_spec 8 len) as [H8|H8];
    [|apply copy_fallback_rl_fill; assumption].
  assert (Hpat : forall P, (dist = 1 \/ dist = 2 \/ dist = 4)%nat -> pattern32_at mem dst dist P dst ->
            CopySmallPattern8b mem (dst - dist) dst dst_addr len P = rl_fill mem dst dist len).
  { intros P H124 HP. apply agrees_final; [assumption|assumption|].
    apply small8_agrees; auto; try apply agrees_init; assumption. }
  assert (Hrl : forall P, P = bytes4 (mem !!! (dst - dist + 0 mod dist)%nat)
                  (mem !!! (dst - dist + 1 mod dist)%nat) (mem !!! (dst - dist + 2 mod dist)%nat)
                  (mem !!! (dst - dist + 3 mod dist)%nat) -> pattern32_at mem dst dist P dst).
  { intros P ->. unfold pattern32_at, rl_val.
    replace (dst - dst)%nat with 0%nat by lia. replace (S dst - dst)%nat with 1%nat by lia.
    replace (dst + 2 - dst)%nat with 2%nat by lia. replace (dst + 3 - dst)%nat with 3%nat by lia.
    reflexivity. }
  destruct dist as [|[|[|[|[|d]]]]]; try lia;
    try (apply copy_fallback_rl_fill; assumption);
    (apply Hpat; [lia|]); apply Hrl; simpl; rewrite ?Nat.add_0_r.
  - apply splat_pattern, B.
  - rewrite load16_pattern by exact Hb. f_equal; f_equal; lia.
  - rewrite load32_bytes4 by exact Hb. f_equal; f_equal; lia.
Qed.

(** C5: the optimised copy of the alpha (byte) decoder
    equals the reference element loop: for every destination address, the
    pattern path of [CopyBlock8b] for distances 1, 2 and 4 (alignment
    loop with [Rotate8b], 32-bit stores, byte tail), the [memcpy] path and
    the overlapping loop all leave memory as
    [for (i = 0; i < length; ++i) dst[i] = src[i]] does. *)
Theorem CopyBlock8b_equiv (mem : list Z) (dst : nat) (dst_addr : Z) (dist len : nat) :
  (1 <= dist <= dst)%nat -> (dst + len <= length mem)%nat -> Forall is_byte mem ->
  CopyBlock8b mem dst dst_addr dist len = copy_loop mem dst (dst - dist) len.
Proof. apply CopyBlock8b_copy_loop. Qed.

(** ** Frame: the copies write at [dst] and after, and keep the length *)

(** [frame_from p L L']: [L'] has the length of [L] and the same elements
    below [p]. *)
Definition frame_from (p : nat) (L L' : list Z) : Prop :=
  length L' = length L /\ forall j, (j < p)%nat -> L' !!! j = L !!! j.

Lemma frame_refl (p : nat) (L : list Z) : frame_from p L L.
Proof. split; auto. Qed.

Lemma frame_trans (p : nat) (L1 L2 L3 : list Z) :
  frame_from p L1 L2 -> frame_from p L2 L3 -> frame_from p L1 L3.
Proof. intros [H1 H2] [H3 H4]. split; [congruence|]. intros j Hj. rewrite H4, H2 by lia. done. Qed.

Lemma frame_mono (p q : nat) (L L' : list Z) :
  (q <= p)%nat -> frame_from p L L' -> frame_from q L L'.
Proof. intros Hq [H1 H2]. split; [done|]. intros j Hj. apply H2. lia. Qed.

Lemma frame_insert (p i : nat) (v : Z) (L : list Z) :
  (p <= i)%nat -> frame_from p L (<[i := v]> L).
Proof.
  intros Hi. split; [apply length_insert|]. intros j Hj.
  apply lookup_total_insert_other. lia.
Qed.

#[export] Hint Resolve frame_refl frame_insert : vp8l.

Lemma copy_loop_frame (k : nat) :
  forall L p s, frame_from p L (copy_loop L p s k).
Proof.
  induction k as [|k IH]; intros L p s; simpl; [apply frame_refl|].
  eapply frame_trans; [|apply (frame_mono (S p)); [lia|apply IH]]. apply frame_insert; lia.
Qed.

Lemma memcpy_from_frame (orig : list Z) (k : nat) :
  forall L p s, frame_from p L (memcpy_from orig L p s k).
Proof.
  induction k as [|k IH]; intros L p s; simpl; [apply frame_refl|].
  eapply frame_trans; [|apply (frame_mono (S p)); [lia|apply IH]]. apply frame_insert; lia.
Qed.

Lemma store64_loop_frame (P : Z) (k : nat) :
  forall L p, frame_from p L (store64_loop L p P k).
Proof.
  induction k as [|k IH]; intros L p; simpl; [apply frame_refl|].
  unfold store64. eapply frame_trans; [|apply (frame_mono (p + 2)); [lia|apply IH]].
  eapply frame_trans; [|apply frame_insert; lia]. apply frame_insert; lia.
Qed.

(** [CopyBlock32b] writes nothing before its
    destination and keeps the size of the buffer, whichever path it
    takes and whatever its arguments: the pixels already decoded stay as
    they are. *)
Theorem CopyBlock32b_frame (mem : list Z) (dst : nat) (dst_addr : Z) (dist len : nat) :
  frame_from dst mem (CopyBlock32b mem dst dst_addr dist len).
Proof.
  unfold CopyBlock32b. destruct (_ && _ && _).
  - unfold CopySmallPattern32b.
    assert (Hs : forall L p P k, (dst <= p)%nat -> frame_from dst L (store64_loop L p P k))
      by (intros; eapply frame_mono; [|apply store64_loop_frame]; lia).
    destruct (dst_addr .& 4 =? 0); simpl; generalize (Nat.div2 len) (Nat.div2 (len - 1));
      intros h1 h2.
    + destruct (Nat.odd _); [eapply frame_trans; [|apply frame_insert; lia]; apply Hs; lia|].
      apply Hs; lia.
    + eapply frame_trans; [apply (frame_insert dst dst); lia|].
      destruct (Nat.odd _); [eapply frame_trans; [|apply frame_insert; lia]; apply Hs; lia|].
      apply Hs; lia.
  - destruct (_ <=? _)%nat; [apply memcpy_from_frame|apply copy_loop_frame].
Qed.

(** ** Witnesses *)

Lemma copy_loop_rl_fill_witness :
  copy_loop [1; 2; 3; 0; 0; 0] 3 (3 - 2) 3 = rl_fill [1; 2; 3; 0; 0; 0] 3 2 3.
Proof. apply copy_loop_rl_fill; simpl; lia. Defined.

Lemma CopyBlock32b_equiv_witness :
  Forall (fun x => 0 <= x < 2 ^ 32) [7; 9; 0; 0; 0; 0; 0] /\
  CopyBlock32b [7; 9; 0; 0; 0; 0; 0] 2 8 2 5 = copy_loop [7; 9; 0; 0; 0; 0; 0] 2 (2 - 2) 5.
Proof.
  assert (Hf : Forall (fun x => 0 <= x < 2 ^ 32) [7; 9; 0; 0; 0; 0; 0])
    by (repeat constructor; vm_compute; discriminate).
  split; [exact Hf|]. apply CopyBlock32b_equiv; [simpl; lia|simpl; lia|exact Hf].
Defined.

Lemma CopyBlock8b_equiv_witness :
  Forall is_byte [1; 2; 0; 0; 0; 0; 0; 0; 0; 0] /\
  CopyBlock8b [1; 2; 0; 0; 0; 0; 0; 0; 0; 0] 2 2 2 8
  = copy_loop [1; 2; 0; 0; 0; 0; 0; 0; 0; 0] 2 (2 - 2) 8.
Proof.
  assert (Hf : Forall is_byte [1; 2; 0; 0; 0; 0; 0; 0; 0; 0])
    by (repeat constructor; vm_compute; discriminate).
  split; [exact Hf|]. apply CopyBlock8b_equiv; [simpl; lia|simpl; lia|exact Hf].
Defined.
