(* ===== verification/Huffman.v ===== *)
(** * Huffman lookup tables and [ReadSymbol]

    Models [HuffmanCode] (an entry [{bits, value}] of a two-level lookup
    table, [utils/huffman_utils.h]), [HTreeGroup] (the five trees of a
    group with the [is_trivial_literal] / [literal_arb] fast path) and
    [ReadSymbol] of [vp8l.cpp].  A tree is the list of entries that starts
    at its root table: [ReadSymbol] indexes the root by the low 8 bits of
    the prefetched window and, for codes longer than 8 bits, follows the
    relative offset [value] into a second-level table stored after it. *)

From S2P Require Import Prelude BitReader.
From Stdlib Require Import Lia.

Local Open Scope Z_scope.
Local Open Scope vp8l_scope.

Definition HUFFMAN_TABLE_BITS : nat := 8.
Definition HUFFMAN_TABLE_MASK : Z := 0xff.

Record HuffmanCode := mkHuffmanCode {
  hc_bits : nat;     (** [bits]: code length, or [8 + subtable bits] at a root link *)
  hc_value : nat     (** [value]: the symbol, or the offset of a subtable *)
}.

#[export] Instance HuffmanCode_inhabited : Inhabited HuffmanCode := populate (mkHuffmanCode 0 0).

#[export] Instance HuffmanCode_eq_dec : EqDecision HuffmanCode.
Proof. solve_decision. Defined.

Abbreviation HuffmanTable := (list HuffmanCode).

(** Indices of the five trees of a group ([HuffIndex]). *)
Definition GREEN : nat := 0.
Definition RED : nat := 1.
Definition BLUE : nat := 2.
Definition ALPHA : nat := 3.
Definition DIST : nat := 4.

Record HTreeGroup := mkHTreeGroup {
  htrees : list HuffmanTable;       (** GREEN, RED, BLUE, ALPHA, DIST *)
  is_trivial_literal : bool;        (** red, blue and alpha have one symbol *)
  literal_arb : Z                   (** [(alpha << 24) | (red << 16) | blue] *)
}.

#[export] Instance HTreeGroup_inhabited : Inhabited HTreeGroup :=
  populate (mkHTreeGroup [] false 0).

Definition htree (g : HTreeGroup) (i : nat) : HuffmanTable := htrees g !!! i.

(** [ReadSymbol(table, br)]. *)
Definition ReadSymbol (table : HuffmanTable) (br : VP8LBitReader) : nat * VP8LBitReader :=
  let val := VP8LPrefetchBits br in
  let idx := Z.to_nat (val .& HUFFMAN_TABLE_MASK) in
  let e := table !!! idx in
  if (HUFFMAN_TABLE_BITS <? hc_bits e)%nat then
    let nbits := (hc_bits e - HUFFMAN_TABLE_BITS)%nat in
    let br := VP8LSetBitPos br (bit_pos_ br + HUFFMAN_TABLE_BITS) in
    let val := VP8LPrefetchBits br in
    let e2 := table !!! (idx + hc_value e + Z.to_nat (val .& mask (Z.of_nat nbits)))%nat in
    (hc_value e2, VP8LSetBitPos br (bit_pos_ br + hc_bits e2))
  else (hc_value e, VP8LSetBitPos br (bit_pos_ br + hc_bits e)).

(** A table whose root maps every 8-bit window to [{0, v}]: what the
    table builder produces for a one-symbol alphabet. *)
Definition trivial_table (v : nat) : HuffmanTable :=
  replicate (2 ^ HUFFMAN_TABLE_BITS) (mkHuffmanCode 0 v).

(** ** Lemmas *)

Lemma root_index_bound (br : VP8LBitReader) :
  (Z.to_nat (VP8LPrefetchBits br .& HUFFMAN_TABLE_MASK) < 2 ^ HUFFMAN_TABLE_BITS)%nat.
Proof.
  change HUFFMAN_TABLE_MASK with (mask 8).
  pose proof (land_mask_bound (VP8LPrefetchBits br) 8 ltac:(lia)).
  change (2 ^ HUFFMAN_TABLE_BITS)%nat with (Z.to_nat (2 ^ 8)). apply Z2Nat.inj_lt; lia.
Qed.

Lemma set_bit_pos_same (br : VP8LBitReader) :
  VP8LIsEndOfStream br = eos_ br -> VP8LSetBitPos br (bit_pos_ br) = br.
Proof. destruct br as [b p e]. unfold VP8LSetBitPos. simpl. intros ->. reflexivity. Qed.

(** A tree whose root table repeats one entry (what the table builder
    writes for a one-symbol code). *)
Definition root_uniform (t : HuffmanTable) : Prop :=
  forall i, (i < 2 ^ HUFFMAN_TABLE_BITS)%nat -> t !!! i = t !!! 0%nat.

(** A uniform tree with a zero-length entry decodes its value and reads
    no bit. *)
Lemma ReadSymbol_uniform (t : HuffmanTable) (br : VP8LBitReader) :
  root_uniform t -> hc_bits (t !!! 0%nat) = 0%nat -> VP8LIsEndOfStream br = eos_ br ->
  ReadSymbol t br = (hc_value (t !!! 0%nat), br).
Proof.
  intros Hu Hb He. unfold ReadSymbol. rewrite Hu by apply root_index_bound.
  rewrite Hb. simpl. rewrite Nat.add_0_r, set_bit_pos_same by exact He. reflexivity.
Qed.

(** ** Properties *)

(** A code of at most 8 bits is resolved in the root
    table: [ReadSymbol] returns the value of the entry the next 8 bits
    select and advances the cursor by that entry's length only. *)
Theorem ReadSymbol_root (table : HuffmanTable) (br : VP8LBitReader) :
  let e := table !!! Z.to_nat (VP8LPrefetchBits br .& HUFFMAN_TABLE_MASK) in
  (hc_bits e <= HUFFMAN_TABLE_BITS)%nat ->
  ReadSymbol table br = (hc_value e, VP8LSetBitPos br (bit_pos_ br + hc_bits e)).
Proof.
  intros e He. unfold ReadSymbol. fold e.
  destruct (Nat.ltb_spec HUFFMAN_TABLE_BITS (hc_bits e)); [lia|reflexivity].
Qed.

(** A one-symbol tree decodes its symbol without
    consuming any bit, whatever the stream holds (the [bits = 0] special
    case of the table builder that [is_trivial_literal] relies on). *)
Theorem ReadSymbol_trivial (v : nat) (br : VP8LBitReader) :
  VP8LIsEndOfStream br = eos_ br ->
  ReadSymbol (trivial_table v) br = (v, br).
Proof.
  intros He. unfold ReadSymbol, trivial_table.
  rewrite lookup_total_replicate_2 by apply root_index_bound. simpl.
  rewrite Nat.add_0_r, set_bit_pos_same by exact He. reflexivity.
Qed.

(** ** Witnesses *)

(** A one-bit code: every even window decodes 0, every odd window 1. *)
Definition one_bit_table : HuffmanTable :=
  map (fun i => mkHuffmanCode 1 (i mod 2)) (seq 0 256).

Lemma ReadSymbol_root_witness :
  (hc_bits (one_bit_table !!! Z.to_nat (VP8LPrefetchBits (VP8LInitBitReader [3%Z])
                                          .& HUFFMAN_TABLE_MASK)) <= HUFFMAN_TABLE_BITS)%nat /\
  ReadSymbol one_bit_table (VP8LInitBitReader [3%Z])
  = (1%nat, VP8LSetBitPos (VP8LInitBitReader [3%Z]) 1).
Proof.
  split; [vm_compute; lia|].
  apply (ReadSymbol_root one_bit_table (VP8LInitBitReader [3%Z])). vm_compute. lia.
Defined.

Lemma ReadSymbol_trivial_witness :
  VP8LIsEndOfStream (VP8LInitBitReader [3%Z]) = eos_ (VP8LInitBitReader [3%Z]) /\
  ReadSymbol (trivial_table 4) (VP8LInitBitReader [3%Z]) = (4%nat, VP8LInitBitReader [3%Z]).
Proof. split; [reflexivity|]. apply ReadSymbol_trivial. reflexivity. Defined.
