(* ===== verification/BitWindow.v ===== *)
(** * The windowed bit reader and its refinement of the cursor model

    [utils/bit_reader_utils.h] (outside [src/]) keeps, per spec 4.1, a
    64-bit value buffer [val_] filled from the input byte by byte, a
    byte position [pos_] of the next byte to load, a bit offset
    [bit_pos_] into the buffer and a sticky [eos_] flag; [ShiftBytes]
    moves whole bytes into the buffer, [VP8LFillBitWindow] calls it once
    32 bits are used, and [VP8LReadBits] calls it after every read.  The
    decoder of [vp8l.cpp] relies on a contract: it calls
    [VP8LFillBitWindow] often enough that no read runs past the 64 bits
    of the window.  This file models that
    reader ([VP8LBitReaderW] and the [_w] operations, the generic
    [ShiftBytes] path of [VP8LDoFillBitWindow]) and [ReadSymbol] of
    [vp8l.cpp] over it ([ReadSymbol_w]), and proves that under the
    contract it returns the same values as the absolute-cursor reader of
    [BitReader.v], which the rest of the development uses:

    - the window invariant [wf_w] (the buffer holds the bytes between
      [start_w] and [pos_]) holds after every operation;
    - [shift_bytes_loop] stops within [len_ - pos_] rounds with the
      window refilled: fewer than 8 bits used, or the input exhausted;
    - the low [k] bits of the prefetched window are those at the
      absolute cursor [cursor_w] whenever the window holds them;
    - [read_run_w] and [read_run] agree on every sequence of
      [VP8LReadBits], [ReadSymbol] and [VP8LFillBitWindow] that honours
      the contract and stays inside the input;
    - the reads of one iteration of the loop of [DecodeImageData]
      ([pixel_ops]) honour the contract from any state, since each starts
      with a fill, on groups whose trees are [table_ok]. *)

From S2P Require Import Prelude BitReader Prefix Huffman.
From Stdlib Require Import Lia.

Local Open Scope Z_scope.
Local Open Scope vp8l_scope.

(** ** The reader *)

(** [LBITS], the width of [vp8l_val_t], and [VP8L_WBITS], the bits the
    window must keep before a refill. *)
Definition LBITS : nat := 64.
Definition VP8L_WBITS : nat := 32.

Record VP8LBitReaderW := mkBitReaderW {
  val_w : Z;           (** [val_]: the 64-bit window *)
  buf_w : list Z;      (** [buf_]: the input bytes *)
  len_w : nat;         (** [len_]: the input length *)
  pos_w : nat;         (** [pos_]: the next byte to load *)
  bit_pos_w : nat;     (** [bit_pos_]: bits of [val_] already consumed *)
  eos_w : bool         (** [eos_] *)
}.

(** [VP8LInitBitReader(br, start, length)]: the first [min(length, 8)]
    bytes loaded, little-endian. *)
Definition VP8LInitBitReader_w (start : list Z) : VP8LBitReaderW :=
  let n := Nat.min (length start) 8 in
  mkBitReaderW (le_value (take n start)) start (length start) n 0 false.

(** [VP8LIsEndOfStream]: [eos_ || (pos_ == len_ && bit_pos_ > LBITS)]. *)
Definition VP8LIsEndOfStream_w (br : VP8LBitReaderW) : bool :=
  eos_w br || ((pos_w br =? len_w br)%nat && (LBITS <? bit_pos_w br)%nat).

(** [VP8LSetEndOfStream]: [eos_ = 1; bit_pos_ = 0]. *)
Definition VP8LSetEndOfStream_w (br : VP8LBitReaderW) : VP8LBitReaderW :=
  mkBitReaderW (val_w br) (buf_w br) (len_w br) (pos_w br) 0 true.

Definition set_bit_pos_w (br : VP8LBitReaderW) (v : nat) : VP8LBitReaderW :=
  mkBitReaderW (val_w br) (buf_w br) (len_w br) (pos_w br) v (eos_w br).

(** The loop of [ShiftBytes]:
    [while (bit_pos_ >= 8 && pos_ < len_) { val_ >>= 8;
       val_ |= (vp8l_val_t)buf_[pos_] << (LBITS - 8); ++pos_; bit_pos_ -= 8; }]. *)
Fixpoint shift_bytes_loop (fuel : nat) (br : VP8LBitReaderW) : VP8LBitReaderW :=
  match fuel with
  | O => br
  | S fuel' =>
      if (8 <=? bit_pos_w br)%nat && (pos_w br <? len_w br)%nat then
        shift_bytes_loop fuel'
          (mkBitReaderW ((val_w br >> 8) .| (nth (pos_w br) (buf_w br) 0 << Z.of_nat (LBITS - 8)))
             (buf_w br) (len_w br) (S (pos_w br)) (bit_pos_w br - 8) (eos_w br))
      else br
  end.

(** [ShiftBytes]: the loop (each round loads a byte, so [len_ - pos_]
    rounds suffice), then [if (VP8LIsEndOfStream(br)) VP8LSetEndOfStream(br)]. *)
Definition ShiftBytes_w (br : VP8LBitReaderW) : VP8LBitReaderW :=
  let br := shift_bytes_loop (len_w br - pos_w br) br in
  if VP8LIsEndOfStream_w br then VP8LSetEndOfStream_w br else br.

(** [VP8LPrefetchBits]: [(uint32_t)(val_ >> (bit_pos_ & (LBITS - 1)))]. *)
Definition VP8LPrefetchBits_w (br : VP8LBitReaderW) : Z :=
  u32 (val_w br >> Z.of_nat (Nat.land (bit_pos_w br) (LBITS - 1))).

(** [VP8LSetBitPos]: [bit_pos_ = val]. *)
Definition VP8LSetBitPos_w (br : VP8LBitReaderW) (v : nat) : VP8LBitReaderW :=
  set_bit_pos_w br v.

(** [VP8LDoFillBitWindow], generic path: [ShiftBytes]. *)
Definition VP8LDoFillBitWindow_w (br : VP8LBitReaderW) : VP8LBitReaderW := ShiftBytes_w br.

(** [VP8LFillBitWindow]: [if (bit_pos_ >= VP8L_WBITS) VP8LDoFillBitWindow(br)]. *)
Definition VP8LFillBitWindow_w (br : VP8LBitReaderW) : VP8LBitReaderW :=
  if (VP8L_WBITS <=? bit_pos_w br)%nat then VP8LDoFillBitWindow_w br else br.

(** [VP8LReadBits(br, n_bits)]. *)
Definition VP8LReadBits_w (br : VP8LBitReaderW) (n_bits : nat) : Z * VP8LBitReaderW :=
  if negb (eos_w br) && (n_bits <=? VP8L_MAX_NUM_BIT_READ)%nat then
    let val := VP8LPrefetchBits_w br .& mask (Z.of_nat n_bits) in
    let br := set_bit_pos_w br (bit_pos_w br + n_bits) in
    (val, ShiftBytes_w br)
  else (0, VP8LSetEndOfStream_w br).

(** [ReadSymbol(table, br)] of [vp8l.cpp] over the windowed reader. *)
Definition ReadSymbol_w (table : HuffmanTable) (br : VP8LBitReaderW) : nat * VP8LBitReaderW :=
  let val := VP8LPrefetchBits_w br in
  let idx := Z.to_nat (val .& HUFFMAN_TABLE_MASK) in
  let e := table !!! idx in
  if (HUFFMAN_TABLE_BITS <? hc_bits e)%nat then
    let nbits := (hc_bits e - HUFFMAN_TABLE_BITS)%nat in
    let br := VP8LSetBitPos_w br (bit_pos_w br + HUFFMAN_TABLE_BITS) in
    let val := VP8LPrefetchBits_w br in
    let e2 := table !!! (idx + hc_value e + Z.to_nat (val .& mask (Z.of_nat nbits)))%nat in
    (hc_value e2, VP8LSetBitPos_w br (bit_pos_w br + hc_bits e2))
  else (hc_value e, VP8LSetBitPos_w br (bit_pos_w br + hc_bits e)).

(** ** The abstraction *)

(** The first input byte the window holds: the window holds the bytes
    [start_w .. pos_ - 1], at most 8 of them. *)
Definition start_w (br : VP8LBitReaderW) : nat := (pos_w br - Nat.min (pos_w br) 8)%nat.

(** The absolute position of the next bit. *)
Definition cursor_w (br : VP8LBitReaderW) : nat := (8 * start_w br + bit_pos_w br)%nat.

(** The cursor reader a windowed reader stands for. *)
Definition abs_w (br : VP8LBitReaderW) : VP8LBitReader :=
  mkBitReader (buf_w br) (cursor_w br) (eos_w br).

(** The window invariant: the length is the input's, the input is
    bytes, at least [min(len, 8)] bytes are loaded, and the window is
    the little-endian value of the loaded bytes [start_w .. pos_ - 1]. *)
Definition wf_w (br : VP8LBitReaderW) : Prop :=
  len_w br = length (buf_w br) /\ bytes_ok (buf_w br) /\
  (pos_w br <= len_w br)%nat /\ (Nat.min (len_w br) 8 <= pos_w br)%nat /\
  val_w br = le_value (take (pos_w br - start_w br) (drop (start_w br) (buf_w br))).

(** ** Bits of little-endian values *)

(** Bit [j] of a little-endian value is bit [j mod 8] of byte [j / 8]
    (0 past the end). *)
Lemma le_value_testbit (l : list Z) (j : nat) :
  bytes_ok l ->
  Z.testbit (le_value l) (Z.of_nat j) = Z.testbit (nth (j / 8) l 0) (Z.of_nat (j mod 8)).
Proof.
  induction l as [|b t IH] in j |- *; intros Hl.
  - cbn [le_value]. rewrite Z.testbit_0_l. destruct (j / 8)%nat; cbn [nth]; symmetry; apply Z.testbit_0_l.
  - inversion Hl as [|? ? Hb Ht]; subst. cbn [le_value]. rewrite Z.lor_spec.
    destruct (Nat.lt_ge_cases j 8) as [Hj|Hj].
    + rewrite Z.shiftl_spec_low by lia. rewrite Nat.div_small, Nat.mod_small by exact Hj.
      cbn [nth]. apply orb_false_r.
    + replace j with (8 + (j - 8))%nat at 1 2 by lia.
      rewrite Nat2Z.inj_add, Z.shiftl_spec by lia.
      replace (Z.of_nat 8 + Z.of_nat (j - 8) - 8) with (Z.of_nat (j - 8)) by lia.
      rewrite IH by exact Ht.
      assert (Hhi : Z.testbit b (Z.of_nat j) = false).
      { rewrite <- (Z.mod_small b (2 ^ 8)) by lia. apply Z.mod_pow2_bits_high. lia. }
      replace (Z.of_nat 8 + Z.of_nat (j - 8)) with (Z.of_nat j) by lia. rewrite Hhi. cbn [orb].
      assert (Hd : ((j - 8 + 1 * 8) / 8 = S ((j - 8) / 8))%nat) by (rewrite Nat.div_add; lia).
      assert (Hm : ((j - 8 + 1 * 8) mod 8 = (j - 8) mod 8)%nat) by apply Nat.Div0.mod_add.
      replace (j - 8 + 1 * 8)%nat with j in Hd, Hm by lia. rewrite Hd, Hm. reflexivity.
Qed.

(** Bit [j] of the window. *)
Lemma window_testbit (br : VP8LBitReaderW) (j : nat) :
  wf_w br ->
  Z.testbit (val_w br) (Z.of_nat j) =
  if (j / 8 <? pos_w br - start_w br)%nat
  then Z.testbit (nth (start_w br + j / 8) (buf_w br) 0) (Z.of_nat (j mod 8)) else false.
Proof.
  intros (Hlen & Hbytes & Hpos & Hmin & Hval). rewrite Hval, le_value_testbit.
  - rewrite nth_firstn. destruct (j / 8 <? _)%nat; [|destruct (Z.of_nat (j mod 8)); reflexivity].
    rewrite nth_skipn. reflexivity.
  - apply Forall_take, Forall_drop, Hbytes.
Qed.

(** The window holds the bit [cursor_w + j] as its bit [bit_pos_ + j]
    when that bit is loaded, or when the input is exhausted (both are 0
    past its end). *)
Lemma window_bit_cursor (br : VP8LBitReaderW) (j : nat) :
  wf_w br ->
  (bit_pos_w br + j < 8 * (pos_w br - start_w br) \/ pos_w br = len_w br)%nat ->
  Z.testbit (val_w br) (Z.of_nat (bit_pos_w br + j)) =
  Z.testbit (le_value (buf_w br)) (Z.of_nat (cursor_w br + j)).
Proof.
  intros Hwf Hin. pose proof Hwf as (Hlen & Hbytes & Hpos & _).
  rewrite window_testbit, le_value_testbit by assumption. unfold cursor_w.
  set (q := (bit_pos_w br + j)%nat).
  replace (8 * start_w br + bit_pos_w br + j)%nat with (q + start_w br * 8)%nat by lia.
  rewrite Nat.div_add, Nat.Div0.mod_add by lia.
  destruct (Nat.ltb_spec (q / 8) (pos_w br - start_w br)) as [Hq|Hq].
  - f_equal. f_equal. lia.
  - rewrite nth_overflow; [symmetry; apply Z.testbit_0_l|].
    destruct Hin as [Hin|Hin].
    + exfalso. assert (q < 8 * (pos_w br - start_w br))%nat by lia.
      assert (q / 8 < pos_w br - start_w br)%nat by (apply Nat.Div0.div_lt_upper_bound; lia). lia.
    + lia.
Qed.

(** The low [k] bits of [VP8LPrefetchBits] are the [k] bits at the
    cursor, whenever the window holds them and [bit_pos_ & (LBITS - 1)]
    does not wrap. *)
Lemma prefetch_low (br : VP8LBitReaderW) (k : nat) :
  wf_w br -> eos_w br = false -> (bit_pos_w br < LBITS)%nat -> (k <= 32)%nat ->
  (bit_pos_w br + k <= 8 * (pos_w br - start_w br) \/ pos_w br = len_w br)%nat ->
  VP8LPrefetchBits_w br .& mask (Z.of_nat k) = VP8LPrefetchBits (abs_w br) .& mask (Z.of_nat k).
Proof.
  intros Hwf He Hk H32 Hin. destruct k as [|k]; [unfold mask; cbn; rewrite !Z.land_0_r; reflexivity|].
  unfold VP8LPrefetchBits_w, VP8LPrefetchBits, abs_w. cbn [eos_w eos_ buf_ bit_pos_]. rewrite He.
  assert (Hv : 0 <= val_w br).
  { destruct Hwf as (_ & Hb & _ & _ & ->). apply le_value_bound, Forall_take, Forall_drop, Hb. }
  unfold u32. rewrite <- Z.land_ones by lia. change (Z.ones 32) with (mask (Z.of_nat 32)).
  change 32 with (Z.of_nat 32). rewrite !land_mask_narrow by lia.
  change (LBITS - 1)%nat with (Nat.ones 6). rewrite Nat.land_ones, Nat.mod_small
    by (unfold LBITS in Hk; cbn; lia).
  apply Z.bits_inj'. intros i Hi. rewrite !Z.land_spec, !Z.shiftr_spec by lia.
  unfold mask. rewrite Z.testbit_ones by lia. destruct (Z.ltb_spec i (Z.of_nat (S k))); [|cbn; rewrite !andb_false_r; reflexivity].
  rewrite !andb_true_r.
  replace (i + Z.of_nat (bit_pos_w br)) with (Z.of_nat (bit_pos_w br + Z.to_nat i)) by lia.
  replace (i + Z.of_nat (cursor_w br)) with (Z.of_nat (cursor_w br + Z.to_nat i)) by lia.
  rewrite window_bit_cursor; [reflexivity|exact Hwf|lia].
Qed.

(** ** Loading a byte *)

Lemma le_value_app (l1 l2 : list Z) :
  le_value (l1 ++ l2) = le_value l1 .| (le_value l2 << Z.of_nat (8 * length l1)).
Proof.
  induction l1 as [|b l1 IH]; cbn [app le_value length].
  - rewrite Z.lor_0_l, Z.shiftl_0_r. reflexivity.
  - rewrite IH, Z.shiftl_lor, Z.shiftl_shiftl, Z.lor_assoc by lia. do 3 f_equal. lia.
Qed.

Lemma drop_nth_cons (l : list Z) (s : nat) :
  (s < length l)%nat -> drop s l = nth s l 0 :: drop (S s) l.
Proof.
  induction l as [|x l IH] in s |- *; cbn [length]; intros Hs; [lia|].
  destruct s as [|s]; [reflexivity|]. cbn [drop nth]. apply IH. lia.
Qed.

Lemma take_nth_snoc (l : list Z) (n : nat) :
  (n < length l)%nat -> take (S n) l = take n l ++ [nth n l 0].
Proof.
  induction l as [|x l IH] in n |- *; cbn [length]; intros Hn; [lia|].
  destruct n as [|n]; [reflexivity|]. cbn [take nth app]. f_equal. apply IH. lia.
Qed.

(** One round of [ShiftBytes] on a full window: drop the low byte, load
    [buf_[pos_]] on top. *)
Lemma shift_window (l : list Z) (s : nat) :
  bytes_ok l -> (s + 8 < length l)%nat ->
  (le_value (take 8 (drop s l)) >> 8) .| (nth (s + 8) l 0 << Z.of_nat (LBITS - 8))
  = le_value (take 8 (drop (S s) l)).
Proof.
  intros Hb Hs. rewrite (drop_nth_cons l s) by lia. cbn [take le_value].
  rewrite (take_nth_snoc (drop (S s) l) 7) by (rewrite length_drop; lia).
  rewrite le_value_app, nth_skipn, length_take, length_drop.
  assert (Hx : 0 <= nth s l 0 < 2 ^ 8).
  { assert (Hin : In (nth s l 0) l) by (apply nth_In; lia).
    unfold bytes_ok in Hb. rewrite List.Forall_forall in Hb. specialize (Hb _ Hin). lia. }
  rewrite Z.shiftr_lor, Z.shiftr_shiftl_l, Z.shiftr_div_pow2 by lia.
  rewrite Z.div_small by exact Hx. rewrite Z.lor_0_l, Z.sub_diag, Z.shiftl_0_r.
  replace (S s + 7)%nat with (s + 8)%nat by lia. cbn [le_value]. rewrite Z.shiftl_0_l, Z.lor_0_r.
  f_equal. f_equal. unfold LBITS. lia.
Qed.

(** ** [ShiftBytes] *)

(** What [ShiftBytes] keeps: the input, the length and the flag. *)
Definition same_input_w (br br' : VP8LBitReaderW) : Prop :=
  buf_w br' = buf_w br /\ len_w br' = len_w br /\ eos_w br' = eos_w br.

(** A round of the loop keeps the invariant and the cursor. *)
Lemma shift_step_wf (br : VP8LBitReaderW) :
  wf_w br -> (8 <= bit_pos_w br)%nat -> (pos_w br < len_w br)%nat ->
  let br' := mkBitReaderW ((val_w br >> 8) .| (nth (pos_w br) (buf_w br) 0 << Z.of_nat (LBITS - 8)))
               (buf_w br) (len_w br) (S (pos_w br)) (bit_pos_w br - 8) (eos_w br) in
  wf_w br' /\ cursor_w br' = cursor_w br.
Proof.
  intros (Hlen & Hb & Hpos & Hmin & Hval) H8 Hlt br'. subst br'.
  assert (H8p : (8 <= pos_w br)%nat) by lia.
  assert (Hs : start_w br = (pos_w br - 8)%nat) by (unfold start_w; lia).
  unfold wf_w, cursor_w, start_w in *; cbn [val_w buf_w len_w pos_w bit_pos_w] in *.
  replace (S (pos_w br) - Nat.min (S (pos_w br)) 8)%nat with (S (pos_w br - 8)) by lia.
  replace (S (pos_w br) - S (pos_w br - 8))%nat with 8%nat by lia.
  rewrite Hs in Hval. replace (pos_w br - (pos_w br - 8))%nat with 8%nat in Hval by lia.
  split; [|lia]. split_and!; try lia; [exact Hb|].
  rewrite Hval. replace (pos_w br) with (pos_w br - 8 + 8)%nat at 2 by lia.
  apply shift_window; [exact Hb|lia].
Qed.

(** The loop, with at least [len_ - pos_] rounds of fuel, keeps the
    invariant and the cursor and stops with the window refilled: fewer
    than 8 bits used, or every byte loaded. *)
Lemma shift_bytes_loop_spec (fuel : nat) (br : VP8LBitReaderW) :
  wf_w br -> (len_w br - pos_w br <= fuel)%nat ->
  let br' := shift_bytes_loop fuel br in
  wf_w br' /\ cursor_w br' = cursor_w br /\ same_input_w br br' /\
  (bit_pos_w br' < 8 \/ pos_w br' = len_w br')%nat /\ (pos_w br <= pos_w br')%nat.
Proof.
  induction fuel as [|fuel IH] in br |- *; intros Hwf Hf; cbn [shift_bytes_loop].
  - pose proof Hwf as (_ & _ & Hpos & _). split_and!; try done; try (right; lia); lia.
  - destruct (Nat.leb_spec 8 (bit_pos_w br)) as [H8|H8];
      destruct (Nat.ltb_spec (pos_w br) (len_w br)) as [Hlt|Hge]; cbn [andb];
      try (pose proof Hwf as (_ & _ & Hpos & _); split_and!; try done; lia).
    destruct (shift_step_wf br Hwf H8 Hlt) as [Hwf' Hc].
    destruct (IH _ Hwf') as (Hw & Hc' & (Hb & Hl & He) & Hx & Hp); [cbn; lia|].
    cbn [buf_w len_w eos_w pos_w] in Hb, Hl, He, Hp. split_and!; try assumption; try congruence; try lia.
    unfold same_input_w. split_and!; assumption.
Qed.

(** Inside the input the end-of-stream test is the flag. *)
Lemma is_eos_inside (br : VP8LBitReaderW) :
  wf_w br -> (cursor_w br <= 8 * len_w br)%nat -> VP8LIsEndOfStream_w br = eos_w br.
Proof.
  intros (Hlen & _ & Hpos & Hmin & _) Hc. unfold VP8LIsEndOfStream_w, cursor_w, start_w, LBITS in *.
  destruct (eos_w br); [reflexivity|]. cbn [orb].
  destruct (Nat.eqb_spec (pos_w br) (len_w br)); [|reflexivity]. cbn [andb].
  apply Nat.ltb_ge. lia.
Qed.

(** [ShiftBytes] inside the input, before the end of the stream: the
    invariant, the cursor and the flag are kept and the window is
    refilled. *)
Lemma ShiftBytes_inside (br : VP8LBitReaderW) :
  wf_w br -> eos_w br = false -> (cursor_w br <= 8 * len_w br)%nat ->
  let br' := ShiftBytes_w br in
  wf_w br' /\ cursor_w br' = cursor_w br /\ same_input_w br br' /\
  (bit_pos_w br' < 8 \/ pos_w br' = len_w br')%nat /\ (pos_w br <= pos_w br')%nat.
Proof.
  intros Hwf He Hc. unfold ShiftBytes_w.
  destruct (shift_bytes_loop_spec (len_w br - pos_w br) br Hwf (le_n _)) as (Hw & Hc' & (Hb & Hl & He') & Hx & Hp).
  rewrite is_eos_inside by (try exact Hw; lia). rewrite He', He.
  split_and!; try assumption. unfold same_input_w. split_and!; congruence.
Qed.

(** ** One operation at a time *)

Lemma wf_set_bit_pos (br : VP8LBitReaderW) (v : nat) : wf_w br -> wf_w (set_bit_pos_w br v).
Proof. intros (? & ? & ? & ? & ?). split_and!; assumption. Qed.

Lemma cursor_set_bit_pos (br : VP8LBitReaderW) (d : nat) :
  cursor_w (set_bit_pos_w br (bit_pos_w br + d)) = (cursor_w br + d)%nat.
Proof. unfold cursor_w, start_w. cbn. lia. Qed.

(** Moving the cursor of a live reader inside the input is
    [VP8LSetBitPos] of the cursor model. *)
Lemma abs_set_bit_pos (br : VP8LBitReaderW) (d : nat) :
  wf_w br -> eos_w br = false -> (cursor_w br + d <= 8 * len_w br)%nat ->
  VP8LSetBitPos (abs_w br) (cursor_w br + d) = abs_w (set_bit_pos_w br (bit_pos_w br + d)).
Proof.
  intros (Hlen & _) He Hc. unfold VP8LSetBitPos, VP8LIsEndOfStream, abs_w.
  rewrite cursor_set_bit_pos. cbn [buf_ bit_pos_ eos_]. rewrite He, <- Hlen.
  destruct (Nat.ltb_spec (8 * len_w br) (cursor_w br + d)); [lia|cbn [set_bit_pos_w buf_w eos_w]; rewrite He; reflexivity].
Qed.

(** A reader with at most [b] bits of its window consumed, or with every
    byte loaded. *)
Definition filled_w (b : nat) (br : VP8LBitReaderW) : Prop :=
  pos_w br = len_w br \/ (bit_pos_w br <= b)%nat.

(** A window with at most [b] bits consumed, [b + c <= 64], holds the
    next [c] bits without wrapping, when the cursor is inside the input. *)
Lemma window_holds (br : VP8LBitReaderW) (b c : nat) :
  wf_w br -> filled_w b br -> (1 <= c)%nat -> (b + c <= LBITS)%nat ->
  (cursor_w br < 8 * len_w br)%nat ->
  (bit_pos_w br < LBITS)%nat /\
  (bit_pos_w br + c <= 8 * (pos_w br - start_w br) \/ pos_w br = len_w br)%nat.
Proof.
  intros (Hlen & _ & Hpos & Hmin & _) Hf H1 Hu Hc. unfold filled_w, cursor_w, start_w, LBITS in *.
  destruct (Nat.eq_dec (pos_w br) (len_w br)) as [E|E]; [split; [lia|right; exact E]|].
  destruct Hf as [Hf|Hf]; [contradiction|]. split; [lia|left; lia].
Qed.

(** [VP8LReadBits] of at most 24 bits from a refilled window, inside the
    input: the value and the cursor of the cursor model, the window
    refilled again. *)
Lemma ReadBits_refines (br : VP8LBitReaderW) (b n : nat) :
  wf_w br -> eos_w br = false -> filled_w b br ->
  (n <= VP8L_MAX_NUM_BIT_READ)%nat -> (b + n <= LBITS)%nat ->
  (cursor_w br + n <= 8 * len_w br)%nat ->
  let '(v, br') := VP8LReadBits_w br n in
  (v, abs_w br') = VP8LReadBits (abs_w br) n /\
  wf_w br' /\ eos_w br' = false /\ filled_w 7 br' /\ len_w br' = len_w br.
Proof.
  intros Hwf He Hf Hn Hu Hc. unfold VP8LReadBits_w. rewrite He.
  destruct (Nat.leb_spec n VP8L_MAX_NUM_BIT_READ); [|lia]. cbn [negb andb].
  pose proof (cursor_set_bit_pos br n) as Hcur.
  destruct (ShiftBytes_inside (set_bit_pos_w br (bit_pos_w br + n)) (wf_set_bit_pos _ _ Hwf) He
              ltac:(rewrite Hcur; exact Hc)) as (Hw & Hc' & (Hb & Hl & He') & Hx & _).
  split; [|split_and!; [exact Hw|cbn in He'; congruence|unfold filled_w; lia|exact Hl]].
  unfold VP8LReadBits. cbn [abs_w eos_ abs_w]. rewrite He.
  destruct (Nat.leb_spec n VP8L_MAX_NUM_BIT_READ); [|lia]. cbn [negb andb]. f_equal.
  - destruct n as [|n]; [unfold mask; cbn; rewrite !Z.land_0_r; reflexivity|].
    destruct (window_holds br b (S n) Hwf Hf ltac:(lia) Hu ltac:(lia)) as [H64 Hin].
    apply prefetch_low; try assumption. unfold VP8L_MAX_NUM_BIT_READ in *. lia.
  - change (bit_pos_ (abs_w br)) with (cursor_w br). rewrite abs_set_bit_pos by assumption.
    unfold abs_w at 1. rewrite Hb, Hc', He'. reflexivity.
Qed.

(** The tables [ReadSymbol] may read under the fill contract: a root
    entry consumes at most 15 bits, and a root entry that links to a
    second-level table of [bits - 8] index bits links to entries of at
    most [bits - 8] bits, so that a symbol never consumes more than 15
    bits (the longest code). *)
Definition table_ok (t : HuffmanTable) : Prop :=
  Forall (fun i =>
    (hc_bits (t !!! i) <= 15)%nat /\
    ((HUFFMAN_TABLE_BITS < hc_bits (t !!! i))%nat ->
     Forall (fun j => hc_bits (t !!! (i + hc_value (t !!! i) + j)) <= hc_bits (t !!! i) - HUFFMAN_TABLE_BITS)%nat
       (seq 0 (2 ^ (hc_bits (t !!! i) - HUFFMAN_TABLE_BITS)))))
    (seq 0 (2 ^ HUFFMAN_TABLE_BITS)).

#[global] Instance table_ok_dec (t : HuffmanTable) : Decision (table_ok t).
Proof. unfold table_ok. apply _. Defined.

Lemma table_ok_at (t : HuffmanTable) (i : nat) :
  table_ok t -> (i < 2 ^ HUFFMAN_TABLE_BITS)%nat ->
  (hc_bits (t !!! i) <= 15)%nat /\
  ((HUFFMAN_TABLE_BITS < hc_bits (t !!! i))%nat ->
   forall j, (j < 2 ^ (hc_bits (t !!! i) - HUFFMAN_TABLE_BITS))%nat ->
   (hc_bits (t !!! (i + hc_value (t !!! i) + j)) <= hc_bits (t !!! i) - HUFFMAN_TABLE_BITS)%nat).
Proof.
  intros Ht Hi. unfold table_ok in Ht. rewrite List.Forall_forall in Ht.
  destruct (Ht i ltac:(apply in_seq; lia)) as [H1 H2]. split; [exact H1|].
  intros Hl j Hj. specialize (H2 Hl). rewrite List.Forall_forall in H2. apply H2, in_seq. lia.
Qed.

Lemma to_nat_land_mask_lt (v : Z) (n : nat) : (Z.to_nat (v .& mask (Z.of_nat n)) < 2 ^ n)%nat.
Proof.
  pose proof (land_mask_bound v (Z.of_nat n) ltac:(lia)) as [H0 H1].
  apply Nat2Z.inj_lt. rewrite Z2Nat.id, Nat2Z.inj_pow by exact H0. exact H1.
Qed.

(** On a [table_ok] table [ReadSymbol] consumes at most 15 bits, from
    any reader. *)
Lemma ReadSymbol_consumes (t : HuffmanTable) (br : VP8LBitReader) :
  table_ok t -> (bit_pos_ br <= bit_pos_ (snd (ReadSymbol t br)) <= bit_pos_ br + 15)%nat.
Proof.
  intros Ht. unfold ReadSymbol. cbv zeta.
  destruct (table_ok_at t _ Ht (root_index_bound br)) as [H15 Hsub].
  destruct (Nat.ltb_spec HUFFMAN_TABLE_BITS (hc_bits (t !!! Z.to_nat (VP8LPrefetchBits br .& HUFFMAN_TABLE_MASK))))
    as [Hl|Hl]; cbn [snd VP8LSetBitPos bit_pos_].
  - match goal with |- context [Z.to_nat (?v .& mask (Z.of_nat ?n))] =>
      specialize (Hsub Hl _ (to_nat_land_mask_lt v n)) end.
    unfold HUFFMAN_TABLE_BITS in *. lia.
  - lia.
Qed.

(** The root index [ReadSymbol] computes from a reader of the cursor model. *)
Definition root_index (br : VP8LBitReader) : nat := Z.to_nat (VP8LPrefetchBits br .& HUFFMAN_TABLE_MASK).

(** A symbol read whose lookups start before the end of the input: the
    root lookup, and the second-level lookup 8 bits further when the
    root entry links to one. *)
Definition lookup_inside (t : HuffmanTable) (br : VP8LBitReader) : Prop :=
  (bit_pos_ br < 8 * length (buf_ br))%nat /\
  ((HUFFMAN_TABLE_BITS < hc_bits (t !!! root_index br))%nat ->
   (bit_pos_ br + 8 < 8 * length (buf_ br))%nat).

(** [ReadSymbol] from a window with at most [b <= 49] bits consumed,
    with lookups inside the input: the symbol and the cursor of the
    cursor model; at most 15 more bits of the window consumed. *)
Lemma ReadSymbol_refines (t : HuffmanTable) (br : VP8LBitReaderW) (b : nat) :
  wf_w br -> eos_w br = false -> filled_w b br -> (b + 15 <= LBITS)%nat ->
  table_ok t -> lookup_inside t (abs_w br) ->
  (bit_pos_ (snd (ReadSymbol t (abs_w br))) <= 8 * len_w br)%nat ->
  let '(s, br') := ReadSymbol_w t br in
  (s, abs_w br') = ReadSymbol t (abs_w br) /\
  wf_w br' /\ eos_w br' = false /\ filled_w (b + 15) br' /\ len_w br' = len_w br.
Proof.
  intros Hwf He Hf Hu Ht [Hin1 Hin2] Hend. pose proof Hwf as (Hlen & _).
  cbn [abs_w buf_ bit_pos_] in Hin1, Hin2. rewrite <- Hlen in Hin1, Hin2.
  destruct (window_holds br b 8 Hwf Hf ltac:(lia) ltac:(unfold LBITS in *; lia) Hin1) as [H64 Hwin].
  assert (Hidx : VP8LPrefetchBits_w br .& HUFFMAN_TABLE_MASK
                 = VP8LPrefetchBits (abs_w br) .& HUFFMAN_TABLE_MASK).
  { change HUFFMAN_TABLE_MASK with (mask (Z.of_nat 8)). apply prefetch_low; (assumption || lia). }
  destruct (table_ok_at t _ Ht (root_index_bound (abs_w br))) as [He1 Hsub].
  unfold ReadSymbol_w, ReadSymbol in *. cbv zeta in *. rewrite Hidx.
  fold (root_index (abs_w br)) in *. set (e := t !!! root_index (abs_w br)) in *.
  change (bit_pos_ (abs_w br)) with (cursor_w br) in *.
  destruct (Nat.ltb_spec HUFFMAN_TABLE_BITS (hc_bits e)) as [Hlong|Hshort].
  - specialize (Hin2 Hlong). specialize (Hsub Hlong). unfold VP8LSetBitPos_w. cbn [snd] in Hend.
    rewrite abs_set_bit_pos in Hend |- * by (assumption || (unfold HUFFMAN_TABLE_BITS; lia)).
    set (br1 := set_bit_pos_w br (bit_pos_w br + HUFFMAN_TABLE_BITS)) in *.
    assert (Hw1 : wf_w br1) by apply wf_set_bit_pos, Hwf.
    assert (Hc1 : cursor_w br1 = (cursor_w br + 8)%nat) by apply cursor_set_bit_pos.
    assert (Hl1 : len_w br1 = len_w br) by reflexivity.
    assert (Hf1 : filled_w (b + 8) br1)
      by (unfold filled_w, br1 in *; cbn [pos_w len_w bit_pos_w set_bit_pos_w]; unfold HUFFMAN_TABLE_BITS; lia).
    destruct (window_holds br1 (b + 8) (hc_bits e - HUFFMAN_TABLE_BITS) Hw1 Hf1
                ltac:(unfold HUFFMAN_TABLE_BITS in *; lia) ltac:(unfold HUFFMAN_TABLE_BITS, LBITS in *; lia)
                ltac:(rewrite Hc1, Hl1; lia)) as [H64' Hwin'].
    rewrite (prefetch_low br1 (hc_bits e - HUFFMAN_TABLE_BITS)) by
      (try assumption; unfold HUFFMAN_TABLE_BITS in *; lia).
    change (bit_pos_ (abs_w br1)) with (cursor_w br1) in *.
    pose proof (Hsub _ (to_nat_land_mask_lt (VP8LPrefetchBits (abs_w br1)) (hc_bits e - HUFFMAN_TABLE_BITS)))
      as He2.
    change (bit_pos_w (set_bit_pos_w br (bit_pos_w br + HUFFMAN_TABLE_BITS))) with (bit_pos_w br1).
    rewrite abs_set_bit_pos by (assumption || (rewrite Hl1; exact Hend)).
    split; [reflexivity|]. split_and!; [apply wf_set_bit_pos, Hw1|exact He| |reflexivity].
    unfold filled_w, br1 in *. cbn [pos_w len_w bit_pos_w set_bit_pos_w]. unfold HUFFMAN_TABLE_BITS in *. lia.
  - cbn [snd] in Hend. rewrite abs_set_bit_pos by (assumption || lia).
    split; [reflexivity|]. split_and!; [apply wf_set_bit_pos, Hwf|exact He| |reflexivity].
    unfold filled_w in *. cbn. lia.
Qed.

(** [VP8LFillBitWindow] inside the input: the cursor model's reader is
    unchanged (its fill is the identity), and at most 31 bits of the
    window are consumed afterwards. *)
Lemma FillBitWindow_refines (br : VP8LBitReaderW) (b : nat) :
  wf_w br -> eos_w br = false -> filled_w b br -> (cursor_w br <= 8 * len_w br)%nat ->
  let br' := VP8LFillBitWindow_w br in
  abs_w br' = VP8LFillBitWindow (abs_w br) /\ wf_w br' /\ eos_w br' = false /\
  filled_w (Nat.min b 31) br' /\ len_w br' = len_w br.
Proof.
  intros Hwf He Hf Hc. unfold VP8LFillBitWindow_w, VP8LFillBitWindow, VP8LDoFillBitWindow_w.
  destruct (Nat.leb_spec VP8L_WBITS (bit_pos_w br)) as [H32|H32].
  - destruct (ShiftBytes_inside br Hwf He Hc) as (Hw & Hc' & (Hb & Hl & He') & Hx & Hp).
    pose proof Hw as (_ & _ & Hp' & _). unfold abs_w. rewrite Hb, Hc', He'.
    split; [reflexivity|]. split_and!; try assumption; try congruence.
    unfold filled_w, VP8L_WBITS in *. lia.
  - split; [reflexivity|]. split_and!; try assumption; [|reflexivity].
    unfold filled_w, VP8L_WBITS in *. lia.
Qed.

(** ** Sequences of reads *)

(** The reader operations the decoder issues. *)
Inductive ReadOp :=
  | ReadBitsOp (n : nat)
  | ReadSymbolOp (t : HuffmanTable)
  | FillOp.

(** One operation on the cursor model: the value read (a symbol as a
    number, 0 for a fill) and the reader after it. *)
Definition read_step (o : ReadOp) (br : VP8LBitReader) : Z * VP8LBitReader :=
  match o with
  | ReadBitsOp n => VP8LReadBits br n
  | ReadSymbolOp t => let '(s, br) := ReadSymbol t br in (Z.of_nat s, br)
  | FillOp => (0, VP8LFillBitWindow br)
  end.

(** The same operation on the windowed reader. *)
Definition read_step_w (o : ReadOp) (br : VP8LBitReaderW) : Z * VP8LBitReaderW :=
  match o with
  | ReadBitsOp n => VP8LReadBits_w br n
  | ReadSymbolOp t => let '(s, br) := ReadSymbol_w t br in (Z.of_nat s, br)
  | FillOp => (0, VP8LFillBitWindow_w br)
  end.

Fixpoint read_run (ops : list ReadOp) (br : VP8LBitReader) : list Z * VP8LBitReader :=
  match ops with
  | [] => ([], br)
  | o :: ops =>
      let '(v, br) := read_step o br in
      let '(vs, br) := read_run ops br in (v :: vs, br)
  end.

Fixpoint read_run_w (ops : list ReadOp) (br : VP8LBitReaderW) : list Z * VP8LBitReaderW :=
  match ops with
  | [] => ([], br)
  | o :: ops =>
      let '(v, br) := read_step_w o br in
      let '(vs, br) := read_run_w ops br in (v :: vs, br)
  end.

(** The fill contract for one operation, with at most [b] bits of the
    window consumed: a read of [n <= 24] bits needs [b + n <= 64]; a
    symbol read needs a [table_ok] table and [b + 15 <= 64]. *)
Definition op_ok (b : nat) (o : ReadOp) : Prop :=
  match o with
  | ReadBitsOp n => (n <= VP8L_MAX_NUM_BIT_READ)%nat /\ (b + n <= LBITS)%nat
  | ReadSymbolOp t => table_ok t /\ (b + 15 <= LBITS)%nat
  | FillOp => True
  end.

(** The bound after the operation: [VP8LReadBits] ends with [ShiftBytes]
    (at most 7 consumed), a symbol consumes at most 15 more, a fill
    leaves at most 31. *)
Definition next_bound (b : nat) (o : ReadOp) : nat :=
  match o with
  | ReadBitsOp _ => 7
  | ReadSymbolOp _ => b + 15
  | FillOp => Nat.min b 31
  end.

(** The contract along a sequence. *)
Fixpoint honours (b : nat) (ops : list ReadOp) : Prop :=
  match ops with
  | [] => True
  | o :: ops => op_ok b o /\ honours (next_bound b o) ops
  end.

(** A run of the cursor model that stays inside the input: no read ends
    past its last bit, and every symbol lookup starts before it. *)
Definition op_inside (o : ReadOp) (br : VP8LBitReader) : Prop :=
  match o with
  | ReadBitsOp n => (bit_pos_ br + n <= 8 * length (buf_ br))%nat
  | ReadSymbolOp t =>
      lookup_inside t br /\ (bit_pos_ (snd (ReadSymbol t br)) <= 8 * length (buf_ br))%nat
  | FillOp => True
  end.

Fixpoint run_inside (ops : list ReadOp) (br : VP8LBitReader) : Prop :=
  match ops with
  | [] => True
  | o :: ops => op_inside o br /\ run_inside ops (snd (read_step o br))
  end.

#[global] Instance wf_w_dec br : Decision (wf_w br).
Proof. unfold wf_w. apply _. Defined.

#[global] Instance lookup_inside_dec t br : Decision (lookup_inside t br).
Proof. unfold lookup_inside. apply _. Defined.

#[global] Instance honours_dec b ops : Decision (honours b ops).
Proof.
  revert b; induction ops as [|o ops IH]; intros b; cbn [honours]; [apply _|].
  destruct o; cbn [op_ok]; apply _.
Defined.

#[global] Instance run_inside_dec ops br : Decision (run_inside ops br).
Proof.
  revert br; induction ops as [|o ops IH]; intros br; cbn [run_inside]; [apply _|].
  destruct o; cbn [op_inside]; apply _.
Defined.

(** ** Refinement *)

(** One operation under the contract and inside the input. *)
Lemma read_step_refines (o : ReadOp) (br : VP8LBitReaderW) (b : nat) :
  wf_w br -> eos_w br = false -> filled_w b br -> (cursor_w br <= 8 * len_w br)%nat ->
  op_ok b o -> op_inside o (abs_w br) ->
  let '(v, br') := read_step_w o br in
  (v, abs_w br') = read_step o (abs_w br) /\ wf_w br' /\ eos_w br' = false /\
  filled_w (next_bound b o) br' /\ (cursor_w br' <= 8 * len_w br')%nat.
Proof.
  intros Hwf He Hf Hc Hok Hin. pose proof Hwf as (Hlen & _).
  destruct o as [n|t|]; cbn [read_step_w read_step op_ok op_inside next_bound] in *.
  - destruct Hok as [Hn Hb]. cbn [abs_w buf_ bit_pos_] in Hin. rewrite <- Hlen in Hin.
    pose proof (ReadBits_refines br b n Hwf He Hf Hn Hb Hin) as H.
    destruct (VP8LReadBits_w br n) as [v br'].
    destruct H as (Heq & Hw & He' & Hf' & Hl). split_and!; try assumption.
    apply (f_equal snd) in Heq. cbn [snd] in Heq.
    rewrite read_bits_state in Heq by assumption. injection Heq as _ Hp _. lia.
  - destruct Hok as [Ht Hb]. destruct Hin as [Hl1 Hend]. cbn [abs_w buf_] in Hend. rewrite <- Hlen in Hend.
    pose proof (ReadSymbol_refines t br b Hwf He Hf Hb Ht Hl1 Hend) as H.
    destruct (ReadSymbol_w t br) as [s br']. destruct H as (Heq & Hw & He' & Hf' & Hl).
    rewrite <- Heq. split_and!; try assumption; [reflexivity|].
    apply (f_equal snd) in Heq. cbn [snd] in Heq. rewrite <- Heq in Hend.
    change (bit_pos_ (abs_w br')) with (cursor_w br') in Hend. lia.
  - destruct (FillBitWindow_refines br b Hwf He Hf Hc) as (Heq & Hw & He' & Hf' & Hl).
    rewrite Heq. split_and!; try assumption; [reflexivity|].
    apply (f_equal bit_pos_) in Heq. change (cursor_w (VP8LFillBitWindow_w br) = cursor_w br) in Heq. lia.
Qed.

(** A sequence of operations under the contract and inside the input
    reads what the cursor model reads. *)
Lemma read_run_refines (ops : list ReadOp) (br : VP8LBitReaderW) (b : nat) :
  wf_w br -> eos_w br = false -> filled_w b br -> (cursor_w br <= 8 * len_w br)%nat ->
  honours b ops -> run_inside ops (abs_w br) ->
  let '(vs, br') := read_run_w ops br in
  (vs, abs_w br') = read_run ops (abs_w br) /\ wf_w br' /\ eos_w br' = false.
Proof.
  induction ops as [|o ops IH] in br, b |- *; intros Hwf He Hf Hc Hh Hin; cbn [read_run_w read_run].
  - auto.
  - destruct Hin as [Hin Hrest]. destruct Hh as [Hok Hh].
    pose proof (read_step_refines o br b Hwf He Hf Hc Hok Hin) as H.
    destruct (read_step_w o br) as [v br1]. destruct H as (Heq & Hw1 & He1 & Hf1 & Hc1).
    rewrite <- Heq. rewrite <- Heq in Hrest. cbn [snd] in Hrest.
    pose proof (IH br1 _ Hw1 He1 Hf1 Hc1 ltac:(assumption) Hrest) as H.
    destruct (read_run_w ops br1) as [vs br']. destruct H as (Heq2 & Hw2 & He2).
    rewrite <- Heq2. auto.
Qed.

(** The windowed reader starts where the cursor model starts. *)
Lemma InitBitReader_refines (buf : list Z) :
  bytes_ok buf ->
  wf_w (VP8LInitBitReader_w buf) /\ abs_w (VP8LInitBitReader_w buf) = VP8LInitBitReader buf.
Proof.
  intros Hb. unfold VP8LInitBitReader_w, VP8LInitBitReader, wf_w, abs_w, cursor_w, start_w.
  cbn [val_w buf_w len_w pos_w bit_pos_w eos_w].
  replace (Nat.min (length buf) 8 - Nat.min (Nat.min (length buf) 8) 8)%nat with 0%nat by lia.
  split; [|reflexivity]. split_and!; try lia; [exact Hb|].
  rewrite Nat.sub_0_r. reflexivity.
Qed.

(** C26: the windowed bit reader of spec 4.1 (a 64-bit window refilled
    byte by byte by [ShiftBytes]) refines the absolute-cursor reader the
    development decodes with: from [VP8LInitBitReader] on any byte
    buffer, every sequence of [VP8LReadBits], [ReadSymbol] and
    [VP8LFillBitWindow] calls that honours the fill contract (a symbol
    read at most 49 bits after a refill, tables whose symbols take at
    most 15 bits) and reads inside the input returns the same values,
    and ends at the same cursor with [eos_] clear. *)
Theorem VP8LBitReaderW_refines (buf : list Z) (ops : list ReadOp) :
  bytes_ok buf -> honours 0 ops -> run_inside ops (VP8LInitBitReader buf) ->
  let '(vs, br') := read_run_w ops (VP8LInitBitReader_w buf) in
  (vs, abs_w br') = read_run ops (VP8LInitBitReader buf) /\ eos_w br' = false.
Proof.
  intros Hb Hh Hin. destruct (InitBitReader_refines buf Hb) as [Hwf Habs]. rewrite <- Habs in Hin |- *.
  pose proof (read_run_refines ops _ 0 Hwf eq_refl ltac:(right; reflexivity)
                ltac:(unfold cursor_w, start_w; cbn; lia) Hh Hin) as H.
  destruct (read_run_w ops _) as [vs br']. destruct H as (Heq & _ & He). auto.
Qed.

(** ** The reads of the decoding loop *)

(** The reads of [GetCopyDistance(sym, br)] (and of [GetCopyLength]):
    none below symbol 4, else one [VP8LReadBits] of [(sym - 2) >> 1] bits. *)
Definition copy_ops (sym : nat) : list ReadOp :=
  if (sym <? 4)%nat then [] else [ReadBitsOp (Nat.shiftr (sym - 2) 1)].

(** The reads one iteration of the loop of [DecodeImageData] makes with
    the group [grp], the green symbol [code] and, for a backward
    reference, the distance symbol [dist_symbol]: fill, green; for a
    literal of a group that is not trivial red, fill, blue, alpha; for a
    backward reference the length's extra bits, the distance symbol, a
    fill and the distance's extra bits; nothing more for a cache code. *)
Definition pixel_ops (grp : HTreeGroup) (code dist_symbol : nat) : list ReadOp :=
  FillOp :: ReadSymbolOp (htree grp GREEN) ::
  if (code <? NUM_LITERAL_CODES)%nat then
    if is_trivial_literal grp then []
    else [ReadSymbolOp (htree grp RED); FillOp; ReadSymbolOp (htree grp BLUE);
          ReadSymbolOp (htree grp ALPHA)]
  else if (code <? NUM_LITERAL_CODES + NUM_LENGTH_CODES)%nat then
    copy_ops (code - NUM_LITERAL_CODES) ++
    ReadSymbolOp (htree grp DIST) :: FillOp :: copy_ops dist_symbol
  else [].

(** The reads of a sequence of iterations. *)
Definition decode_ops (ps : list (HTreeGroup * nat * nat)) : list ReadOp :=
  flat_map (fun '(grp, code, ds) => pixel_ops grp code ds) ps.

(** The five trees of a group are [table_ok]. *)
Definition group_tables_ok (grp : HTreeGroup) : Prop :=
  Forall (fun i => table_ok (htree grp i)) (seq 0 5).

#[global] Instance group_tables_ok_dec grp : Decision (group_tables_ok grp).
Proof. unfold group_tables_ok. apply _. Defined.

Definition pixels_ok (ps : list (HTreeGroup * nat * nat)) : Prop :=
  Forall (fun '(grp, _, ds) => group_tables_ok grp /\ (ds < NUM_DISTANCE_CODES)%nat) ps.

#[global] Instance pixels_ok_dec ps : Decision (pixels_ok ps).
Proof. unfold pixels_ok. apply Forall_dec. intros [[g c] d]. apply _. Defined.

(** [copy_ops] makes the reads [GetCopyDistance] makes. *)
Lemma GetCopyDistance_reads (sym : nat) (br : VP8LBitReader) :
  snd (GetCopyDistance sym br) = snd (read_run (copy_ops sym) br).
Proof.
  unfold GetCopyDistance, copy_ops. destruct (sym <? 4)%nat; [reflexivity|].
  cbn [read_run read_step]. destruct (VP8LReadBits br _); reflexivity.
Qed.

Lemma honours_app (b : nat) (xs ys : list ReadOp) :
  honours b xs -> honours (fold_left next_bound xs b) ys -> honours b (xs ++ ys).
Proof.
  revert b; induction xs as [|o xs IH]; intros b; cbn [honours fold_left app]; [auto|].
  intros [Ho Hx] Hy. split; [exact Ho|]. apply IH; assumption.
Qed.

Lemma group_tables_ok_at (grp : HTreeGroup) (i : nat) :
  group_tables_ok grp -> (i < 5)%nat -> table_ok (htree grp i).
Proof.
  unfold group_tables_ok. rewrite List.Forall_forall. intros H Hi. apply H, in_seq. lia.
Qed.

(** The extra bits of a length or distance symbol: at most 18 bits,
    after which [b] or 7 bits of the window are consumed. *)
Lemma copy_ops_honours (sym b : nat) :
  (sym < NUM_DISTANCE_CODES)%nat -> (b + 18 <= LBITS)%nat ->
  honours b (copy_ops sym) /\
  (fold_left next_bound (copy_ops sym) b = b \/ fold_left next_bound (copy_ops sym) b = 7)%nat.
Proof.
  unfold copy_ops, NUM_DISTANCE_CODES, VP8L_MAX_NUM_BIT_READ. intros Hs Hb.
  destruct (sym <? 4)%nat; cbn [honours fold_left next_bound op_ok]; [split; [done | left; reflexivity]|].
  rewrite Nat.shiftr_div_pow2. change (2 ^ 1)%nat with 2%nat.
  assert ((sym - 2) / 2 < 19)%nat by (apply Nat.Div0.div_lt_upper_bound; lia).
  unfold LBITS, VP8L_MAX_NUM_BIT_READ in *. split_and!; [lia | lia | done | right; reflexivity].
Qed.

(** Every iteration of the loop of [DecodeImageData] honours the fill
    contract, from any number of bits consumed: it starts with a fill. *)
Lemma pixel_ops_honours (b : nat) (grp : HTreeGroup) (code ds : nat) :
  group_tables_ok grp -> (ds < NUM_DISTANCE_CODES)%nat -> honours b (pixel_ops grp code ds).
Proof.
  intros Hg Hd. assert (Ht : forall i, (i < 5)%nat -> table_ok (htree grp i))
    by (intros; apply group_tables_ok_at; assumption).
  unfold pixel_ops, GREEN, RED, BLUE, ALPHA, DIST in *.
  cbn [honours op_ok next_bound]. split; [done|]. split; [split; [apply Ht; lia|]; unfold LBITS; lia|].
  destruct (code <? NUM_LITERAL_CODES)%nat; [destruct (is_trivial_literal grp)|].
  - done.
  - cbn [honours op_ok next_bound]. split_and!; try done; try (apply Ht; lia); unfold LBITS; lia.
  - destruct (Nat.ltb_spec code (NUM_LITERAL_CODES + NUM_LENGTH_CODES)); [|done].
    unfold NUM_LITERAL_CODES, NUM_LENGTH_CODES in *.
    destruct (copy_ops_honours (code - 256) (Nat.min b 31 + 15) ltac:(unfold NUM_DISTANCE_CODES; lia)
                ltac:(unfold LBITS; lia)) as [Hl Hle].
    apply honours_app; [exact Hl|]. cbn [honours op_ok next_bound].
    split; [split; [apply Ht; lia|]; unfold LBITS; lia|]. split; [done|].
    apply copy_ops_honours; [exact Hd | unfold LBITS; lia].
Qed.

Lemma decode_ops_honours (b : nat) (ps : list (HTreeGroup * nat * nat)) :
  pixels_ok ps -> honours b (decode_ops ps).
Proof.
  unfold pixels_ok, decode_ops. revert b; induction ps as [|[[grp code] ds] ps IH]; intros b Hp;
    [done|]. apply Forall_cons in Hp as [[Hg Hd] Hp']. cbn [flat_map].
  apply honours_app; [apply pixel_ops_honours; assumption | apply IH; exact Hp'].
Qed.

(** The reads of a sequence of iterations, from any windowed reader
    that holds a window of its input: the same values as the cursor model. *)
Lemma decode_ops_refine (br : VP8LBitReaderW) (ps : list (HTreeGroup * nat * nat)) :
  wf_w br -> eos_w br = false -> (cursor_w br <= 8 * len_w br)%nat ->
  pixels_ok ps -> run_inside (decode_ops ps) (abs_w br) ->
  let '(vs, br') := read_run_w (decode_ops ps) br in
  (vs, abs_w br') = read_run (decode_ops ps) (abs_w br) /\ eos_w br' = false.
Proof.
  intros Hwf He Hc Hp Hin.
  pose proof (read_run_refines (decode_ops ps) br (bit_pos_w br) Hwf He ltac:(right; reflexivity)
                Hc (decode_ops_honours _ ps Hp) Hin) as H.
  destruct (read_run_w _ _) as [vs br']. destruct H as (Heq & _ & He'). auto.
Qed.

Module BitWindowExamples.
(** Twelve bytes read by a literal-like sequence: a 14-bit header read,
    two one-bit symbols after a refill, a refill, a 24-bit read and a
    last symbol. *)
Definition ex_buf : list Z := [90; 195; 23; 255; 0; 129; 46; 155; 68; 208; 111; 19].
Definition ex_ops : list ReadOp :=
  [ReadBitsOp 14; FillOp; ReadSymbolOp one_bit_table; ReadSymbolOp one_bit_table;
   FillOp; ReadBitsOp 24; ReadSymbolOp one_bit_table].

(** A table whose every symbol takes 15 bits: each root entry links to
    one second-level table of 7 bits whose entry [j] decodes to [j]. *)
Definition wide_table : HuffmanTable :=
  map (fun i => mkHuffmanCode 15 (256 - i)) (seq 0 256) ++ map (fun j => mkHuffmanCode 7 j) (seq 0 128).
Definition wide_buf : list Z := [90; 195; 23; 255; 0; 129; 46; 155; 68; 208; 111; 19; 7; 77; 201; 33].
Definition wide_ops : list ReadOp := repeat (ReadSymbolOp wide_table) 5.
End BitWindowExamples.

Import BitWindowExamples.

Lemma VP8LBitReaderW_refines_witness :
  bytes_ok ex_buf /\ honours 0 ex_ops /\ run_inside ex_ops (VP8LInitBitReader ex_buf) /\
  let '(vs, br') := read_run_w ex_ops (VP8LInitBitReader_w ex_buf) in
  (vs, abs_w br') = read_run ex_ops (VP8LInitBitReader ex_buf) /\ eos_w br' = false.
Proof.
  assert (Hb : bytes_ok ex_buf) by decide_by_eval.
  assert (Hh : honours 0 ex_ops) by decide_by_eval.
  assert (Hi : run_inside ex_ops (VP8LInitBitReader ex_buf)) by decide_by_eval.
  split; [exact Hb|]. split; [exact Hh|]. split; [exact Hi|].
  exact (VP8LBitReaderW_refines ex_buf ex_ops Hb Hh Hi).
Defined.

(** The contract cannot be dropped: five 15-bit symbols read after one
    fill run past the 64-bit window.  The fifth lookup of the windowed
    reader indexes its second-level table with stale low bits of [val_]
    (through [bit_pos_ & 63]) and returns 53 where the input holds 4;
    with a fill before it the two readers agree again. *)
Lemma fill_contract_needed :
  table_ok wide_table /\ ~ honours 0 wide_ops /\ run_inside wide_ops (VP8LInitBitReader wide_buf) /\
  fst (read_run_w wide_ops (VP8LInitBitReader_w wide_buf)) = [67; 126; 4; 89; 53] /\
  fst (read_run wide_ops (VP8LInitBitReader wide_buf)) = [67; 126; 4; 89; 4] /\
  fst (read_run_w (repeat (ReadSymbolOp wide_table) 4 ++ [FillOp; ReadSymbolOp wide_table])
         (VP8LInitBitReader_w wide_buf)) = [67; 126; 4; 89; 0; 4].
Proof.
  split_and!; [decide_by_eval| |decide_by_eval|vm_compute; reflexivity ..].
  cbn [wide_ops repeat honours op_ok next_bound]. unfold LBITS. intuition lia.
Qed.
