(* ===== verification/HuffmanBuild.v ===== *)
(** * Huffman table construction (spec-modelled)

    [VP8LBuildHuffmanTable] lives in [utils/huffman_utils.c], outside
    [src/]; this file models it from the spec (section 4.2): the symbols
    get canonical codes in the order (length, symbol), the codes of at
    most [root_bits] bits are looked up in a [2^root_bits]-entry root
    table, and each longer code goes to a second-level table, one per
    [root_bits]-bit prefix, sized by the longest code under the prefix
    and reached through a root entry [{root_bits + table_bits, offset}],
    the layout [ReadSymbol] of [vp8l.cpp] reads.  The bits of a code are
    read most significant first from the least significant end of the
    bit window, so tables are indexed by the bit-reversed code.  A code
    with one symbol gives the table [{0, symbol}] that reads no bit; an
    over-subscribed or incomplete code, or a length above 15, gives
    [None] (the C function's 0).

    The theorems show that the canonical codes of a complete code are
    prefix-free, so that at most one symbol matches a bit window, and
    that [ReadSymbol] on a table built for a complete code returns, for
    every symbol, that symbol when the window starts with its code, and
    advances the reader by the code's length: the table builder and the
    two-level lookup of [vp8l.cpp] agree. *)

From S2P Require Import Prelude BitReader Huffman.
From Stdlib Require Import Arith Lia.

Local Open Scope vp8l_scope.

Definition MAX_ALLOWED_CODE_LENGTH : nat := 15.

(** ** Canonical codes *)

Section Canonical.
Context (cl : list nat).

Definition len_of (s : nat) : nat := cl !!! s.

(** [count[len]]: the symbols of length [len >= 1]. *)
Definition count (len : nat) : nat :=
  match len with
  | O => 0
  | _ => length (List.filter (fun t => len_of t =? len) (seq 0 (length cl)))
  end.

(** The first code of each length: [code = (code + count[len - 1]) << 1]. *)
Fixpoint next_code (len : nat) : nat :=
  match len with
  | O => 0
  | S l => (next_code l + count l) * 2
  end.

(** The symbols before [s] of the same length. *)
Definition rank (s : nat) : nat :=
  length (List.filter (fun t => len_of t =? len_of s) (seq 0 s)).

Definition code (s : nat) : nat := next_code (len_of s) + rank s.

(** The symbols with a code, sorted by (length, symbol). *)
Definition sorted_symbols : list nat :=
  flat_map (fun len => List.filter (fun s => len_of s =? len) (seq 0 (length cl)))
    (seq 1 MAX_ALLOWED_CODE_LENGTH).

(** [sum count[len] * 2^(15 - len)] over the lengths up to [l]: the
    Kraft sum in units of [2^-15]. *)
Fixpoint kraft_upto (l : nat) : nat :=
  match l with
  | O => 0
  | S l' => kraft_upto l' + count (S l') * 2 ^ (MAX_ALLOWED_CODE_LENGTH - S l')
  end.

Definition kraft : nat := kraft_upto MAX_ALLOWED_CODE_LENGTH.
End Canonical.

(** The low [len] bits of [c] in reverse order. *)
Fixpoint rev_bits (c len : nat) : nat :=
  match len with
  | O => 0
  | S l => (c mod 2) * 2 ^ l + rev_bits (c / 2) l
  end.

(** The symbols in canonical order with their length and reversed code:
    the key a table is indexed by. *)
Definition sym_codes (cl : list nat) : list (nat * nat * nat) :=
  map (fun s => (s, len_of cl s, rev_bits (code cl s) (len_of cl s))) (sorted_symbols cl).

(** ** Tables *)

(** The elements of [l] in the order of their first occurrence. *)
Fixpoint dedup_from (seen : list nat) (l : list nat) : list nat :=
  match l with
  | [] => []
  | x :: t => if existsb (Nat.eqb x) seen then dedup_from seen t else x :: dedup_from (x :: seen) t
  end.

Section Table.
Context (rb : nat) (codes : list (nat * nat * nat)).

Definition long_codes : list (nat * nat * nat) := List.filter (fun '(_, l, _) => rb <? l) codes.

(** The second-level tables, one per root index of a long code, in the
    order of the codes. *)
Definition prefixes : list nat := dedup_from [] (map (fun '(_, _, k) => k mod 2 ^ rb) long_codes).

(** The bits of the table under prefix [p]: the longest residual. *)
Definition sub_bits (p : nat) : nat :=
  fold_right (fun '(_, l, k) acc => if k mod 2 ^ rb =? p then Nat.max (l - rb) acc else acc)
    0 long_codes.

(** The position of the table of [p] among the second-level tables. *)
Fixpoint offset_in (ps : list nat) (p : nat) : nat :=
  match ps with
  | [] => 0
  | q :: ps' => if q =? p then 0 else 2 ^ sub_bits q + offset_in ps' p
  end.

Definition sub_offset (p : nat) : nat := 2 ^ rb + offset_in prefixes p.

(** Root entry [i]: the code of at most [rb] bits that the window [i]
    starts with, or the link [{rb + table_bits, offset - i}] to the
    second-level table of [i]. *)
Definition root_entry (i : nat) : HuffmanCode :=
  match List.find (fun '(_, l, k) => (l <=? rb) && (i mod 2 ^ l =? k)) codes with
  | Some (s, l, _) => mkHuffmanCode l s
  | None =>
      if existsb (Nat.eqb i) prefixes then mkHuffmanCode (rb + sub_bits i) (sub_offset i - i)
      else mkHuffmanCode 0 0
  end.

(** Entry [j] of the second-level table of [p]: the long code under [p]
    whose residual bits the window [j] starts with. *)
Definition sub_entry (p j : nat) : HuffmanCode :=
  match List.find (fun '(_, l, k) => (rb <? l) && (k mod 2 ^ rb =? p) &&
                                     (j mod 2 ^ (l - rb) =? k / 2 ^ rb)) codes with
  | Some (s, l, _) => mkHuffmanCode (l - rb) s
  | None => mkHuffmanCode 0 0
  end.

Definition sub_table (p : nat) : HuffmanTable := map (sub_entry p) (seq 0 (2 ^ sub_bits p)).

Definition build_table : HuffmanTable :=
  map root_entry (seq 0 (2 ^ rb)) ++ flat_map sub_table prefixes.
End Table.

(** [VP8LBuildHuffmanTable(root_table, root_bits, code_lengths,
    code_lengths_size)]: the table, [None] for the C function's 0. *)
Definition VP8LBuildHuffmanTable (root_bits : nat) (code_lengths : list nat)
    (code_lengths_size : nat) : option HuffmanTable :=
  let cl := take code_lengths_size code_lengths in
  if existsb (fun l => MAX_ALLOWED_CODE_LENGTH <? l) cl then None else
  match sorted_symbols cl with
  | [s] => Some (replicate (2 ^ root_bits) (mkHuffmanCode 0 s))
  | _ =>
      if kraft cl =? 2 ^ MAX_ALLOWED_CODE_LENGTH
      then Some (build_table root_bits (sym_codes cl))
      else None
  end.

(** ** Bits of natural numbers *)

(** Bit [i] of [x] below [2^n]: [testbit]s through [mod] and [/] by
    powers of two. *)
Ltac nbits :=
  repeat first
    [ rewrite Nat.mod_pow2_bits_low by lia
    | rewrite Nat.mod_pow2_bits_high by lia
    | rewrite Nat.div_pow2_bits ].

Lemma mod_pow2_mod (a b c : nat) : (c <= b)%nat -> a mod 2 ^ b mod 2 ^ c = a mod 2 ^ c.
Proof.
  intros Hcb. apply Nat.bits_inj. intros i.
  destruct (Nat.ltb_spec i c); nbits; reflexivity.
Qed.

(** [a mod 2^(m + n)] splits into its low [m] bits and the next [n]. *)
Lemma mod_pow2_split (a m n : nat) :
  a mod 2 ^ (m + n) = a mod 2 ^ m + 2 ^ m * ((a / 2 ^ m) mod 2 ^ n).
Proof. rewrite Nat.pow_add_r. apply Nat.Div0.mod_mul_r. Qed.

Lemma div_pow2_mod (a m n : nat) : (a mod 2 ^ (m + n)) / 2 ^ m = (a / 2 ^ m) mod 2 ^ n.
Proof.
  apply Nat.bits_inj. intros i. nbits.
  destruct (Nat.ltb_spec i n); nbits; reflexivity.
Qed.

(** ** Reversed codes *)

Lemma rev_bits_lt (c len : nat) : (rev_bits c len < 2 ^ len)%nat.
Proof.
  revert c. induction len as [|l IH]; intros c; cbn [rev_bits]; [simpl; lia|].
  pose proof (Nat.mod_upper_bound c 2 ltac:(lia)). specialize (IH (c / 2)).
  assert (c mod 2 <= 1)%nat by lia. rewrite Nat.pow_succ_r'. nia.
Qed.

(** The low [l1] bits of a reversed [l2]-bit code are the reversed top
    [l1] bits of the code. *)
Lemma rev_bits_prefix (c l1 l2 : nat) :
  (l1 <= l2)%nat -> rev_bits c l2 mod 2 ^ l1 = rev_bits (c / 2 ^ (l2 - l1)) l1.
Proof.
  revert c. induction l2 as [|l IH]; intros c Hl.
  - replace l1 with 0%nat by lia. reflexivity.
  - destruct (Nat.eq_dec l1 (S l)) as [->|Hne].
    + rewrite Nat.sub_diag, Nat.pow_0_r, Nat.div_1_r. apply Nat.mod_small, rev_bits_lt.
    + cbn [rev_bits].
      assert (E : c mod 2 * 2 ^ l = c mod 2 * 2 ^ (l - l1) * 2 ^ l1)
        by (rewrite <- Nat.mul_assoc, <- Nat.pow_add_r; do 2 f_equal; lia).
      rewrite E, Nat.add_comm, Nat.Div0.mod_add, IH by lia.
      rewrite Nat.Div0.div_div, <- Nat.pow_succ_r'. do 3 f_equal. lia.
Qed.

Lemma rev_bits_inj (c1 c2 len : nat) :
  (c1 < 2 ^ len)%nat -> (c2 < 2 ^ len)%nat -> rev_bits c1 len = rev_bits c2 len -> c1 = c2.
Proof.
  revert c1 c2. induction len as [|l IH]; intros c1 c2 H1 H2 Heq; cbn [rev_bits] in *;
    [rewrite Nat.pow_0_r in *; lia|].
  rewrite Nat.pow_succ_r' in H1, H2.
  pose proof (rev_bits_lt (c1 / 2) l). pose proof (rev_bits_lt (c2 / 2) l).
  assert (Hm : c1 mod 2 = c2 mod 2).
  { apply (f_equal (fun x => x / 2 ^ l)) in Heq.
    rewrite !(Nat.div_add_l _ (2 ^ l)), !Nat.div_small in Heq by (try apply Nat.pow_nonzero; lia).
    lia. }
  rewrite Hm in Heq. apply Nat.add_cancel_l in Heq.
  assert (c1 / 2 = c2 / 2) by (apply IH; [apply Nat.Div0.div_lt_upper_bound..|]; lia).
  rewrite (Nat.div_mod_eq c1 2), (Nat.div_mod_eq c2 2). lia.
Qed.

(** ** Canonical codes of a code that is not over-subscribed *)

Lemma filter_seq_split (f : nat -> bool) (s n : nat) :
  (s < n)%nat ->
  length (List.filter f (seq 0 n)) =
  (length (List.filter f (seq 0 s)) + (if f s then 1 else 0) +
   length (List.filter f (seq (S s) (n - S s))))%nat.
Proof.
  intros Hs. replace n with (s + (1 + (n - S s)))%nat at 1 by lia.
  rewrite seq_app, List.filter_app, length_app. simpl. destruct (f s); simpl; lia.
Qed.

Section Codes.
Context (cl : list nat).
(** The lengths are at most 15 and the Kraft sum at most 1. *)
Hypothesis Hmax : Forall (fun l => l <= MAX_ALLOWED_CODE_LENGTH)%nat cl.
Hypothesis Hkraft : (kraft cl <= 2 ^ MAX_ALLOWED_CODE_LENGTH)%nat.

(** A symbol with a code. *)
Definition coded (s : nat) : Prop := (s < length cl)%nat /\ (1 <= len_of cl s)%nat.

Lemma coded_max (s : nat) : coded s -> (len_of cl s <= MAX_ALLOWED_CODE_LENGTH)%nat.
Proof.
  intros [Hs _]. unfold len_of. rewrite list_lookup_total_alt.
  destruct (lookup_lt_is_Some_2 cl s Hs) as [l Hl]. rewrite Hl. simpl.
  exact (Forall_lookup_1 _ _ _ _ Hmax Hl).
Qed.

Lemma rank_lt_count (s : nat) : coded s -> (rank cl s < count cl (len_of cl s))%nat.
Proof.
  intros [Hs Hl]. unfold rank, count. destruct (len_of cl s) as [|L] eqn:E; [lia|].
  rewrite (filter_seq_split _ s (length cl)) by exact Hs. rewrite E, Nat.eqb_refl. lia.
Qed.

Lemma rank_lt_rank (s1 s2 : nat) :
  (s1 < s2)%nat -> len_of cl s1 = len_of cl s2 -> (rank cl s1 < rank cl s2)%nat.
Proof.
  intros Hs Hl. unfold rank. rewrite (filter_seq_split _ s1 s2) by exact Hs.
  rewrite Hl, Nat.eqb_refl. lia.
Qed.

Lemma next_code_kraft (l : nat) :
  (l <= MAX_ALLOWED_CODE_LENGTH)%nat ->
  ((next_code cl l + count cl l) * 2 ^ (MAX_ALLOWED_CODE_LENGTH - l) = kraft_upto cl l)%nat.
Proof.
  unfold MAX_ALLOWED_CODE_LENGTH. induction l as [|l IH]; intros Hl; [reflexivity|].
  cbn [next_code kraft_upto]. rewrite <- IH by lia.
  unfold MAX_ALLOWED_CODE_LENGTH. replace (15 - l)%nat with (S (15 - S l)) by lia.
  rewrite Nat.pow_succ_r'. ring.
Qed.

Lemma kraft_upto_mono (l l' : nat) : (l <= l')%nat -> (kraft_upto cl l <= kraft_upto cl l')%nat.
Proof. induction 1 as [|l' _ IH]; [lia|]. cbn [kraft_upto]. lia. Qed.

Lemma next_code_bound (l : nat) :
  (l <= MAX_ALLOWED_CODE_LENGTH)%nat -> (next_code cl l + count cl l <= 2 ^ l)%nat.
Proof.
  intros Hl. pose proof (next_code_kraft l Hl) as E.
  pose proof (kraft_upto_mono l MAX_ALLOWED_CODE_LENGTH Hl) as M. unfold kraft in Hkraft.
  replace (2 ^ MAX_ALLOWED_CODE_LENGTH)%nat with (2 ^ l * 2 ^ (MAX_ALLOWED_CODE_LENGTH - l))%nat
    in Hkraft by (rewrite <- Nat.pow_add_r; f_equal; lia).
  apply (Nat.mul_le_mono_pos_r _ _ (2 ^ (MAX_ALLOWED_CODE_LENGTH - l))%nat);
    [apply Nat.neq_0_lt_0, Nat.pow_nonzero; lia|lia].
Qed.

Lemma code_lt (s : nat) : coded s -> (code cl s < 2 ^ len_of cl s)%nat.
Proof.
  intros Hc. pose proof (rank_lt_count s Hc). pose proof (next_code_bound _ (coded_max s Hc)).
  unfold code. lia.
Qed.

Lemma next_code_ge (l1 l2 : nat) :
  (l1 < l2)%nat -> ((next_code cl l1 + count cl l1) * 2 ^ (l2 - l1) <= next_code cl l2)%nat.
Proof.
  induction l2 as [|l IH]; intros Hl; [lia|]. cbn [next_code].
  destruct (Nat.eq_dec l1 l) as [E|Hne].
  - subst. rewrite Nat.sub_succ_l, Nat.sub_diag, Nat.pow_1_r by lia. lia.
  - replace (S l - l1)%nat with (S (l - l1)) by lia. rewrite Nat.pow_succ_r'.
    specialize (IH ltac:(lia)). nia.
Qed.

(** Canonical codes are prefix-free. *)
Lemma code_prefix_free (s1 s2 : nat) :
  coded s1 -> coded s2 -> s1 <> s2 -> (len_of cl s1 <= len_of cl s2)%nat ->
  code cl s2 / 2 ^ (len_of cl s2 - len_of cl s1) <> code cl s1.
Proof.
  intros H1 H2 Hne Hl. destruct (Nat.eq_dec (len_of cl s1) (len_of cl s2)) as [E|E].
  - rewrite E, Nat.sub_diag, Nat.pow_0_r, Nat.div_1_r. unfold code. rewrite E.
    destruct (Nat.lt_total s1 s2) as [Hlt|[Heq|Hgt]]; [|contradiction|].
    + pose proof (rank_lt_rank s1 s2 Hlt E). lia.
    + pose proof (rank_lt_rank s2 s1 Hgt (eq_sym E)). lia.
  - pose proof (next_code_ge (len_of cl s1) (len_of cl s2) ltac:(lia)) as G.
    pose proof (rank_lt_count s1 H1).
    assert (Hd : (next_code cl (len_of cl s1) + count cl (len_of cl s1)
                  <= code cl s2 / 2 ^ (len_of cl s2 - len_of cl s1))%nat).
    { apply Nat.div_le_lower_bound; [apply Nat.pow_nonzero; lia|]. unfold code. nia. }
    unfold code at 2. lia.
Qed.

(** At most one symbol's code starts a bit window [w]. *)
Lemma code_match_unique (w s1 s2 : nat) :
  coded s1 -> coded s2 ->
  w mod 2 ^ len_of cl s1 = rev_bits (code cl s1) (len_of cl s1) ->
  w mod 2 ^ len_of cl s2 = rev_bits (code cl s2) (len_of cl s2) -> s1 = s2.
Proof.
  revert s1 s2.
  assert (K : forall s1 s2, coded s1 -> coded s2 -> (len_of cl s1 <= len_of cl s2)%nat ->
            w mod 2 ^ len_of cl s1 = rev_bits (code cl s1) (len_of cl s1) ->
            w mod 2 ^ len_of cl s2 = rev_bits (code cl s2) (len_of cl s2) -> s1 = s2).
  { intros s1 s2 H1 H2 Hl E1 E2. destruct (Nat.eq_dec s1 s2) as [|Hne]; [assumption|].
    exfalso. apply (code_prefix_free s1 s2 H1 H2 Hne Hl).
    rewrite <- (mod_pow2_mod w _ _ Hl), E2, rev_bits_prefix in E1 by exact Hl.
    apply (rev_bits_inj _ _ (len_of cl s1)); [|apply code_lt, H1|exact E1].
    apply Nat.Div0.div_lt_upper_bound. rewrite <- Nat.pow_add_r.
    replace (len_of cl s2 - len_of cl s1 + len_of cl s1)%nat with (len_of cl s2) by lia.
    apply code_lt, H2. }
  intros s1 s2 H1 H2 E1 E2. destruct (Nat.le_ge_cases (len_of cl s1) (len_of cl s2)).
  - apply (K s1 s2); assumption.
  - symmetry. apply (K s2 s1); assumption.
Qed.
End Codes.

(** ** The table of a complete code *)

Lemma map_seq_lookup {A} `{Inhabited A} (f : nat -> A) (a n i : nat) :
  (i < n)%nat -> map f (seq a n) !!! i = f (a + i)%nat.
Proof.
  revert a i. induction n as [|n IH]; intros a i Hi; [lia|].
  destruct i as [|i]; simpl; [f_equal; lia|]. rewrite IH by lia. f_equal. lia.
Qed.

Lemma sorted_symbols_in (cl : list nat) (s : nat) :
  In s (sorted_symbols cl) <->
  (s < length cl)%nat /\ (1 <= len_of cl s <= MAX_ALLOWED_CODE_LENGTH)%nat.
Proof.
  unfold sorted_symbols. rewrite in_flat_map. split.
  - intros (len & Hlen & Hs). apply List.filter_In in Hs as [Hs E].
    apply in_seq in Hlen. apply in_seq in Hs. apply Nat.eqb_eq in E. lia.
  - intros (Hs & Hl). exists (len_of cl s). split; [apply in_seq; unfold MAX_ALLOWED_CODE_LENGTH in *; lia|].
    apply List.filter_In. split; [apply in_seq; lia|apply Nat.eqb_refl].
Qed.

Lemma sym_codes_in (cl : list nat) (s l k : nat) :
  In (s, l, k) (sym_codes cl) <->
  In s (sorted_symbols cl) /\ l = len_of cl s /\ k = rev_bits (code cl s) (len_of cl s).
Proof.
  unfold sym_codes. rewrite in_map_iff. split.
  - intros (s' & [= <- <- <-] & Hs). auto.
  - intros (Hs & -> & ->). eauto.
Qed.

Lemma In_dedup_from (seen l : list nat) (x : nat) :
  In x l -> In x seen \/ In x (dedup_from seen l).
Proof.
  revert seen. induction l as [|y l IH]; intros seen Hx; [destruct Hx|]. simpl.
  destruct Hx as [->|Hx].
  - destruct (existsb (Nat.eqb x) seen) eqn:E; [left|right; left; reflexivity].
    apply existsb_exists in E as (z & Hz & Ez). apply Nat.eqb_eq in Ez. subst. exact Hz.
  - destruct (existsb (Nat.eqb y) seen); [apply IH, Hx|].
    destruct (IH (y :: seen) Hx) as [[<-|H]|H]; simpl; auto.
Qed.

Lemma sym_codes_coded (cl : list nat) (s l k : nat) :
  In (s, l, k) (sym_codes cl) ->
  coded cl s /\ l = len_of cl s /\ k = rev_bits (code cl s) (len_of cl s).
Proof.
  intros (Hs & -> & ->)%sym_codes_in. apply sorted_symbols_in in Hs. split; [split|]; [lia..|auto].
Qed.

Lemma coded_in_codes (cl : list nat) (Hmax : Forall (fun l => l <= MAX_ALLOWED_CODE_LENGTH)%nat cl)
    (s : nat) :
  coded cl s -> In (s, len_of cl s, rev_bits (code cl s) (len_of cl s)) (sym_codes cl).
Proof.
  intros [Hs Hl]. apply sym_codes_in. split_and!; [|reflexivity..].
  apply sorted_symbols_in. split; [exact Hs|]. split; [exact Hl|].
  apply (coded_max cl Hmax); split; assumption.
Qed.

Section Entries.
Context (cl : list nat).
Hypothesis Hmax : Forall (fun l => l <= MAX_ALLOWED_CODE_LENGTH)%nat cl.
Hypothesis Hkraft : (kraft cl <= 2 ^ MAX_ALLOWED_CODE_LENGTH)%nat.
Context (rb : nat).

Local Notation codes := (sym_codes cl).

(** The root entry of a window that starts with a code of at most [rb]
    bits is that code. *)
Lemma root_entry_short (s i : nat) :
  coded cl s -> (len_of cl s <= rb)%nat ->
  i mod 2 ^ len_of cl s = rev_bits (code cl s) (len_of cl s) ->
  root_entry rb codes i = mkHuffmanCode (len_of cl s) s.
Proof.
  intros Hc Hl Hm. unfold root_entry.
  destruct (List.find _ codes) as [[[s' l'] k']|] eqn:F.
  - apply List.find_some in F as [Hin HP]. apply andb_prop in HP as [_ Hk].
    apply Nat.eqb_eq in Hk. apply sym_codes_coded in Hin as (Hc' & -> & ->).
    assert (s' = s) as -> by exact (code_match_unique cl Hmax Hkraft i s' s Hc' Hc Hk Hm).
    reflexivity.
  - exfalso. pose proof (List.find_none _ _ F _ (coded_in_codes cl Hmax s Hc)) as E. simpl in E.
    rewrite Hm, Nat.eqb_refl in E. apply Nat.leb_le in Hl. rewrite Hl in E. discriminate.
Qed.
End Entries.

Lemma sub_bits_fold_ge (rb p : nat) (lc : list (nat * nat * nat)) (s l k : nat) :
  In (s, l, k) lc -> k mod 2 ^ rb = p ->
  (l - rb <= fold_right (fun '(_, l, k) acc => if k mod 2 ^ rb =? p then Nat.max (l - rb) acc else acc)
               0 lc)%nat.
Proof.
  intros Hin Hp. induction lc as [|[[s' l'] k'] lc IH]; [destruct Hin|]. simpl.
  destruct Hin as [[= -> -> ->]|Hin].
  - rewrite Hp, Nat.eqb_refl. lia.
  - specialize (IH Hin). destruct (k' mod 2 ^ rb =? p); lia.
Qed.

Lemma sub_bits_fold_le (rb p : nat) (lc : list (nat * nat * nat)) :
  Forall (fun '(_, l, _) => l <= MAX_ALLOWED_CODE_LENGTH)%nat lc ->
  (fold_right (fun '(_, l, k) acc => if k mod 2 ^ rb =? p then Nat.max (l - rb) acc else acc) 0 lc
   <= MAX_ALLOWED_CODE_LENGTH - rb)%nat.
Proof.
  induction lc as [|[[s' l'] k'] lc IH]; intros Hf; simpl; [lia|].
  apply Forall_cons in Hf as [Hl Hf]. specialize (IH Hf). destruct (k' mod 2 ^ rb =? p); lia.
Qed.

Section Layout.
Context (rb : nat) (codes : list (nat * nat * nat)).

Lemma length_sub_table (p : nat) : length (sub_table rb codes p) = (2 ^ sub_bits rb codes p)%nat.
Proof. unfold sub_table. rewrite length_map, length_seq. reflexivity. Qed.

Lemma offset_lookup (ps : list nat) (p j : nat) :
  In p ps -> (j < 2 ^ sub_bits rb codes p)%nat ->
  flat_map (sub_table rb codes) ps !!! (offset_in rb codes ps p + j)%nat = sub_entry rb codes p j.
Proof.
  induction ps as [|q ps IH]; intros Hp Hj; [destruct Hp|]. cbn [flat_map offset_in].
  destruct (Nat.eqb_spec q p) as [->|Hne].
  - rewrite lookup_total_app_l by (rewrite length_sub_table; lia).
    unfold sub_table. rewrite map_seq_lookup by lia. reflexivity.
  - rewrite lookup_total_app_r by (rewrite length_sub_table; lia). rewrite length_sub_table.
    replace (2 ^ sub_bits rb codes q + offset_in rb codes ps p + j - 2 ^ sub_bits rb codes q)%nat
      with (offset_in rb codes ps p + j)%nat by lia.
    apply IH; [destruct Hp as [->|Hp]; [contradiction|exact Hp]|exact Hj].
Qed.

(** The second-level table of a prefix lies inside the block. *)
Lemma offset_in_bound (ps : list nat) (p : nat) :
  In p ps ->
  (offset_in rb codes ps p + 2 ^ sub_bits rb codes p <= length (flat_map (sub_table rb codes) ps))%nat.
Proof.
  induction ps as [|q ps IH]; intros Hp; [destruct Hp|]. cbn [flat_map offset_in].
  rewrite length_app, length_sub_table.
  destruct (Nat.eqb_spec q p) as [->|Hne]; [lia|].
  destruct Hp as [->|Hp]; [contradiction|]. specialize (IH Hp). lia.
Qed.

(** The length of the block: the root table and the second-level tables. *)
Lemma length_build_table :
  length (build_table rb codes) = (2 ^ rb + length (flat_map (sub_table rb codes) (prefixes rb codes)))%nat.
Proof. unfold build_table. rewrite length_app, length_map, length_seq. reflexivity. Qed.

Lemma build_table_root (i : nat) :
  (i < 2 ^ rb)%nat -> build_table rb codes !!! i = root_entry rb codes i.
Proof.
  intros Hi. unfold build_table. rewrite lookup_total_app_l by (rewrite length_map, length_seq; lia).
  apply map_seq_lookup, Hi.
Qed.

Lemma build_table_sub (p j : nat) :
  In p (prefixes rb codes) -> (j < 2 ^ sub_bits rb codes p)%nat ->
  build_table rb codes !!! (sub_offset rb codes p + j)%nat = sub_entry rb codes p j.
Proof.
  intros Hp Hj. unfold build_table, sub_offset.
  rewrite lookup_total_app_r by (rewrite length_map, length_seq; lia). rewrite length_map, length_seq.
  replace (2 ^ rb + offset_in rb codes (prefixes rb codes) p + j - 2 ^ rb)%nat
    with (offset_in rb codes (prefixes rb codes) p + j)%nat by lia.
  apply offset_lookup; assumption.
Qed.
End Layout.

Section Long.
Context (cl : list nat).
Hypothesis Hmax : Forall (fun l => l <= MAX_ALLOWED_CODE_LENGTH)%nat cl.
Hypothesis Hkraft : (kraft cl <= 2 ^ MAX_ALLOWED_CODE_LENGTH)%nat.
Context (rb : nat).

Local Notation codes := (sym_codes cl).

Lemma long_in (s : nat) :
  coded cl s -> (rb < len_of cl s)%nat ->
  In (s, len_of cl s, rev_bits (code cl s) (len_of cl s)) (long_codes rb codes).
Proof.
  intros Hc Hl. apply List.filter_In. split; [apply (coded_in_codes cl Hmax); assumption|].
  apply Nat.ltb_lt, Hl.
Qed.

Lemma sub_bits_ge (s : nat) (w : nat) :
  coded cl s -> (rb < len_of cl s)%nat ->
  w mod 2 ^ len_of cl s = rev_bits (code cl s) (len_of cl s) ->
  (len_of cl s - rb <= sub_bits rb codes (w mod 2 ^ rb))%nat.
Proof.
  intros Hc Hl Hm. apply (sub_bits_fold_ge rb _ _ s _ _ (long_in s Hc Hl)).
  rewrite <- Hm. apply mod_pow2_mod. lia.
Qed.

Lemma sub_bits_le (p : nat) : (sub_bits rb codes p <= MAX_ALLOWED_CODE_LENGTH - rb)%nat.
Proof.
  apply sub_bits_fold_le. apply List.Forall_forall. intros [[s l] k] Hin.
  apply List.filter_In in Hin as [Hin _]. apply sym_codes_coded in Hin as (Hc & -> & _).
  exact (coded_max cl Hmax s Hc).
Qed.

(** A window that starts with a code longer than [rb] bits: its root
    entry links to the second-level table of its first [rb] bits. *)
Lemma root_entry_long (s w : nat) :
  coded cl s -> (rb < len_of cl s)%nat ->
  w mod 2 ^ len_of cl s = rev_bits (code cl s) (len_of cl s) ->
  In (w mod 2 ^ rb) (prefixes rb codes) /\
  root_entry rb codes (w mod 2 ^ rb) =
  mkHuffmanCode (rb + sub_bits rb codes (w mod 2 ^ rb)) (sub_offset rb codes (w mod 2 ^ rb) - w mod 2 ^ rb).
Proof.
  intros Hc Hl Hm.
  assert (Hp : In (w mod 2 ^ rb) (prefixes rb codes)).
  { unfold prefixes. destruct (In_dedup_from [] (map (fun '(_, _, k) => k mod 2 ^ rb) (long_codes rb codes))
                                (w mod 2 ^ rb)) as [[]|H]; [|exact H].
    apply in_map_iff. exists (s, len_of cl s, rev_bits (code cl s) (len_of cl s)).
    split; [rewrite <- Hm; apply mod_pow2_mod; lia|apply long_in; assumption]. }
  split; [exact Hp|]. unfold root_entry.
  destruct (List.find _ codes) as [[[s' l'] k']|] eqn:F.
  - exfalso. apply List.find_some in F as [Hin HP]. apply andb_prop in HP as [Hl' Hk].
    apply Nat.leb_le in Hl'. apply Nat.eqb_eq in Hk. rewrite mod_pow2_mod in Hk by exact Hl'.
    apply sym_codes_coded in Hin as (Hc' & -> & ->).
    assert (s' = s) as -> by exact (code_match_unique cl Hmax Hkraft w s' s Hc' Hc Hk Hm). lia.
  - replace (existsb (Nat.eqb (w mod 2 ^ rb)) (prefixes rb codes)) with true; [reflexivity|].
    symmetry. apply existsb_exists. exists (w mod 2 ^ rb). split; [exact Hp|apply Nat.eqb_refl].
Qed.

(** Its second-level entry, at the next [sub_bits] bits of the window,
    is the code. *)
Lemma sub_entry_long (s w : nat) :
  coded cl s -> (rb < len_of cl s)%nat ->
  w mod 2 ^ len_of cl s = rev_bits (code cl s) (len_of cl s) ->
  sub_entry rb codes (w mod 2 ^ rb) ((w / 2 ^ rb) mod 2 ^ sub_bits rb codes (w mod 2 ^ rb))
  = mkHuffmanCode (len_of cl s - rb) s.
Proof.
  intros Hc Hl Hm. pose proof (sub_bits_ge s w Hc Hl Hm) as Hsb.
  set (sb := sub_bits rb codes (w mod 2 ^ rb)) in *. unfold sub_entry.
  destruct (List.find _ codes) as [[[s' l'] k']|] eqn:F.
  - apply List.find_some in F as [Hin HP].
    apply andb_prop in HP as [HP Hj]. apply andb_prop in HP as [Hl' Hp].
    apply Nat.ltb_lt in Hl'. apply Nat.eqb_eq in Hp. apply Nat.eqb_eq in Hj.
    apply sym_codes_coded in Hin as (Hc' & -> & ->).
    assert (Hm' : w mod 2 ^ len_of cl s' = rev_bits (code cl s') (len_of cl s')).
    { pose proof (sub_bits_fold_ge rb (w mod 2 ^ rb) _ s' _ _ (long_in s' Hc' Hl') Hp) as Hsb'.
      fold (sub_bits rb codes (w mod 2 ^ rb)) in Hsb'. fold sb in Hsb'.
      rewrite mod_pow2_mod in Hj by lia.
      replace (len_of cl s') with (rb + (len_of cl s' - rb))%nat by lia.
      rewrite mod_pow2_split, Hj, <- Hp.
      replace (rb + (len_of cl s' - rb))%nat with (len_of cl s') by lia.
      rewrite Nat.add_comm, <- Nat.div_mod_eq. reflexivity. }
    assert (s' = s) as -> by exact (code_match_unique cl Hmax Hkraft w s' s Hc' Hc Hm' Hm).
    reflexivity.
  - exfalso. pose proof (List.find_none _ _ F _ (coded_in_codes cl Hmax s Hc)) as E. simpl in E.
    assert (Hb : (rb <? len_of cl s) = true) by (apply Nat.ltb_lt; exact Hl). rewrite Hb in E.
    rewrite <- Hm, mod_pow2_mod, Nat.eqb_refl in E by lia.
    rewrite mod_pow2_mod in E by lia.
    assert (D : w mod 2 ^ len_of cl s / 2 ^ rb = (w / 2 ^ rb) mod 2 ^ (len_of cl s - rb)).
    { rewrite <- div_pow2_mod. replace (rb + (len_of cl s - rb))%nat with (len_of cl s) by lia.
      reflexivity. }
    rewrite D, Nat.eqb_refl in E. discriminate.
Qed.
End Long.

(** ** The bit window of [ReadSymbol] *)

Lemma z2n_mod_pow2 (x : Z) (n : nat) :
  (0 <= x)%Z -> Z.to_nat (x mod 2 ^ Z.of_nat n) = (Z.to_nat x mod 2 ^ n)%nat.
Proof.
  intros Hx. rewrite Z2Nat.inj_mod by (try apply Z.pow_nonneg; lia).
  rewrite Z2Nat.inj_pow by lia. rewrite Nat2Z.id. reflexivity.
Qed.

Lemma z2n_div_pow2 (x : Z) (n : nat) :
  (0 <= x)%Z -> Z.to_nat (x / 2 ^ Z.of_nat n) = (Z.to_nat x / 2 ^ n)%nat.
Proof.
  intros Hx. rewrite Z2Nat.inj_div by (try apply Z.pow_nonneg; lia).
  rewrite Z2Nat.inj_pow by lia. rewrite Nat2Z.id. reflexivity.
Qed.

Lemma zmod_div_pow2 (a : Z) (k n m : Z) :
  (0 <= k)%Z -> (0 <= n)%Z -> (k + n <= m)%Z ->
  (((a mod 2 ^ m) / 2 ^ k) mod 2 ^ n = (a / 2 ^ k) mod 2 ^ n)%Z.
Proof.
  intros Hk Hn Hm. apply Z.bits_inj'. intros i Hi.
  destruct (Z.ltb_spec i n).
  - rewrite !Z.mod_pow2_bits_low, !Z.div_pow2_bits, Z.mod_pow2_bits_low by lia. reflexivity.
  - rewrite !Z.mod_pow2_bits_high by lia. reflexivity.
Qed.

Lemma zmod_mod_pow2 (a : Z) (n m : Z) :
  (0 <= n <= m)%Z -> ((a mod 2 ^ m) mod 2 ^ n = a mod 2 ^ n)%Z.
Proof.
  intros Hn. apply Z.bits_inj'. intros i Hi.
  destruct (Z.ltb_spec i n).
  - rewrite !Z.mod_pow2_bits_low by lia. reflexivity.
  - rewrite !Z.mod_pow2_bits_high by lia. reflexivity.
Qed.

(** The window the reader prefetches, as a natural number. *)
Definition window (br : VP8LBitReader) : nat := Z.to_nat (VP8LPrefetchBits br).

Lemma prefetch_mod (br : VP8LBitReader) :
  eos_ br = false ->
  VP8LPrefetchBits br = ((le_value (buf_ br) >> Z.of_nat (bit_pos_ br)) mod 2 ^ 32)%Z.
Proof. intros He. unfold VP8LPrefetchBits. rewrite He. apply Z.land_ones. lia. Qed.

Lemma window_low (br : VP8LBitReader) (n : nat) :
  (n <= 32)%nat ->
  Z.to_nat (VP8LPrefetchBits br .& mask (Z.of_nat n)) = (window br mod 2 ^ n)%nat.
Proof.
  intros Hn. unfold window. assert (H0 : (0 <= VP8LPrefetchBits br)%Z).
  { unfold VP8LPrefetchBits. destruct (eos_ br); [lia|]. apply Z.land_nonneg. right. unfold mask.
    rewrite Z.ones_equiv. pose proof (Z.pow_pos_nonneg 2 32). lia. }
  unfold mask. rewrite Z.land_ones by lia. apply z2n_mod_pow2, H0.
Qed.

(** After [k] bits, the next [nb] bits are bits [k .. k + nb) of the
    window. *)
Lemma window_advance (br : VP8LBitReader) (k nb : nat) :
  eos_ br = false -> (k + nb <= 32)%nat ->
  Z.to_nat (VP8LPrefetchBits (mkBitReader (buf_ br) (bit_pos_ br + k) false) .& mask (Z.of_nat nb))
  = ((window br / 2 ^ k) mod 2 ^ nb)%nat.
Proof.
  intros He Hk. unfold window. rewrite (prefetch_mod br He).
  rewrite (prefetch_mod (mkBitReader _ _ _)) by reflexivity. cbn [buf_ bit_pos_].
  set (x := (le_value (buf_ br) >> Z.of_nat (bit_pos_ br))%Z).
  assert (Hx : (le_value (buf_ br) >> Z.of_nat (bit_pos_ br + k) = x / 2 ^ Z.of_nat k)%Z).
  { unfold x. rewrite Nat2Z.inj_add, <- Z.shiftr_shiftr by lia. apply Z.shiftr_div_pow2. lia. }
  rewrite Hx. unfold mask. rewrite Z.land_ones by lia.
  rewrite zmod_mod_pow2 by lia.
  rewrite <- (zmod_div_pow2 x (Z.of_nat k) (Z.of_nat nb) 32) by lia.
  rewrite z2n_mod_pow2 by (apply Z.div_pos; [apply Z.mod_pos_bound|]; lia).
  rewrite z2n_div_pow2 by (apply Z.mod_pos_bound; lia). reflexivity.
Qed.

(** ** The table of [VP8LBuildHuffmanTable] *)

(** ** Entry widths *)

(** A root entry holds a code of at most [rb] bits, an empty entry, or
    the link to the second-level table of a prefix of [prefixes]. *)
Lemma root_entry_shape (rb : nat) (codes : list (nat * nat * nat)) (i : nat) :
  (hc_bits (root_entry rb codes i) <= rb)%nat \/
  (In i (prefixes rb codes) /\
   root_entry rb codes i = mkHuffmanCode (rb + sub_bits rb codes i) (sub_offset rb codes i - i)).
Proof.
  unfold root_entry. destruct (List.find _ codes) as [[[s l] k]|] eqn:F.
  - left. apply List.find_some in F as [_ HP]. apply andb_prop in HP as [Hl _].
    apply Nat.leb_le in Hl. exact Hl.
  - destruct (existsb (Nat.eqb i) (prefixes rb codes)) eqn:E; [right|left; cbn; lia].
    split; [|reflexivity]. apply existsb_exists in E as (x & Hx & Hq).
    apply Nat.eqb_eq in Hq. subst x. exact Hx.
Qed.

(** An entry of the second-level table of [p] is no wider than the table. *)
Lemma sub_entry_bits (rb : nat) (codes : list (nat * nat * nat)) (p j : nat) :
  (hc_bits (sub_entry rb codes p j) <= sub_bits rb codes p)%nat.
Proof.
  unfold sub_entry. destruct (List.find _ codes) as [[[s l] k]|] eqn:F; [|cbn; lia].
  apply List.find_some in F as [Hin HP]. apply andb_prop in HP as [HP _].
  apply andb_prop in HP as [Hl Hp]. apply Nat.eqb_eq in Hp. cbn [hc_bits].
  apply (sub_bits_fold_ge rb p _ s l k); [|exact Hp].
  apply List.filter_In. split; [exact Hin|exact Hl].
Qed.

(** ** Entry values *)

Lemma dedup_from_in (seen l : list nat) (x : nat) : In x (dedup_from seen l) -> In x l.
Proof.
  revert seen. induction l as [|y l IH]; intros seen; [intros []|]. cbn [dedup_from].
  destruct (existsb (Nat.eqb y) seen); [intros H; right; exact (IH _ H)|].
  intros [->|H]; [left; reflexivity|right; exact (IH _ H)].
Qed.

(** A prefix with a second-level table is the root part of a code
    longer than [rb] bits, so its table has at least one index bit and
    its link entry is wider than [rb]. *)
Lemma sub_bits_pos (rb : nat) (codes : list (nat * nat * nat)) (p : nat) :
  In p (prefixes rb codes) -> (1 <= sub_bits rb codes p)%nat.
Proof.
  unfold prefixes. intros Hp. apply dedup_from_in, in_map_iff in Hp as ([[s l] k] & Hk & Hin).
  pose proof (sub_bits_fold_ge rb p (long_codes rb codes) s l k Hin Hk) as H.
  apply List.filter_In in Hin as [_ Hl]. apply Nat.ltb_lt in Hl. unfold sub_bits. lia.
Qed.

(** The value of a root entry of at most [rb] bits is a coded symbol,
    or 0 for an empty entry. *)
Lemma root_entry_value (cl : list nat) (rb i : nat) :
  (hc_bits (root_entry rb (sym_codes cl) i) <= rb)%nat ->
  (hc_value (root_entry rb (sym_codes cl) i) < length cl \/ hc_value (root_entry rb (sym_codes cl) i) = 0)%nat.
Proof.
  unfold root_entry. destruct (List.find _ (sym_codes cl)) as [[[s l] k]|] eqn:F.
  - intros _. apply List.find_some in F as [Hin _]. apply sym_codes_coded in Hin as ([Hs _] & _).
    left. exact Hs.
  - destruct (existsb (Nat.eqb i) (prefixes rb (sym_codes cl))) eqn:E; [|right; reflexivity].
    apply existsb_exists in E as (x & Hx & Hq). apply Nat.eqb_eq in Hq. subst x.
    pose proof (sub_bits_pos rb (sym_codes cl) i Hx). cbn [hc_bits]. lia.
Qed.

(** The value of a second-level entry is a coded symbol, or 0. *)
Lemma sub_entry_value (cl : list nat) (rb p j : nat) :
  (hc_value (sub_entry rb (sym_codes cl) p j) < length cl \/ hc_value (sub_entry rb (sym_codes cl) p j) = 0)%nat.
Proof.
  unfold sub_entry. destruct (List.find _ (sym_codes cl)) as [[[s l] k]|] eqn:F; [|right; reflexivity].
  apply List.find_some in F as [Hin _]. apply sym_codes_coded in Hin as ([Hs _] & _). left. exact Hs.
Qed.

(** A table built for at least two symbols comes from a complete code
    of lengths at most 15. *)
Lemma VP8LBuildHuffmanTable_complete (rb : nat) (code_lengths : list nat) (n : nat) (t : HuffmanTable) :
  VP8LBuildHuffmanTable rb code_lengths n = Some t ->
  (2 <= length (sorted_symbols (take n code_lengths)))%nat ->
  Forall (fun l => l <= MAX_ALLOWED_CODE_LENGTH)%nat (take n code_lengths) /\
  kraft (take n code_lengths) = (2 ^ MAX_ALLOWED_CODE_LENGTH)%nat /\
  t = build_table rb (sym_codes (take n code_lengths)).
Proof.
  unfold VP8LBuildHuffmanTable. set (cl := take n code_lengths).
  destruct (existsb _ cl) eqn:E; [discriminate|].
  assert (Hmax : Forall (fun l => l <= MAX_ALLOWED_CODE_LENGTH)%nat cl).
  { apply List.Forall_forall. intros x Hx. destruct (Nat.ltb_spec MAX_ALLOWED_CODE_LENGTH x) as [Hlt|]; [|lia].
    exfalso. assert (existsb (fun l => MAX_ALLOWED_CODE_LENGTH <? l) cl = true) as E'
      by (apply existsb_exists; exists x; split; [exact Hx|apply Nat.ltb_lt, Hlt]).
    congruence. }
  intros Hb Hs. destruct (sorted_symbols cl) as [|a [|b l]]; simpl in Hs; [lia|lia|].
  destruct (Nat.eqb_spec (kraft cl) (2 ^ MAX_ALLOWED_CODE_LENGTH)); [|discriminate].
  injection Hb as <-. auto.
Qed.

(** A code with one coded symbol [s] (and no length above 15) is the
    zero-length table of [s]: every root entry is [{0, s}], so
    [ReadSymbol] returns [s] and reads no bit. *)
Lemma VP8LBuildHuffmanTable_single (code_lengths : list nat) (n s : nat) :
  Forall (fun l => l <= MAX_ALLOWED_CODE_LENGTH)%nat (take n code_lengths) ->
  sorted_symbols (take n code_lengths) = [s] ->
  VP8LBuildHuffmanTable HUFFMAN_TABLE_BITS code_lengths n = Some (trivial_table s).
Proof.
  intros Hmax Hs. unfold VP8LBuildHuffmanTable. rewrite Hs.
  destruct (existsb _ _) eqn:E; [|reflexivity].
  apply existsb_exists in E as (x & Hx & Hlt). apply Nat.ltb_lt in Hlt.
  rewrite List.Forall_forall in Hmax. specialize (Hmax x Hx). lia.
Qed.

(** Without a coded symbol the Kraft sum is 0, so the builder rejects
    an empty code. *)
Lemma kraft_no_symbols (cl : list nat) : sorted_symbols cl = [] -> kraft cl = 0%nat.
Proof.
  intros H. unfold kraft. generalize (le_n MAX_ALLOWED_CODE_LENGTH).
  generalize MAX_ALLOWED_CODE_LENGTH at 1 3 as l. intros l Hl.
  induction l as [|l IH]; cbn [kraft_upto]; [reflexivity|]. rewrite IH by lia.
  unfold count. destruct (List.filter _ (seq 0 (length cl))) as [|x xs] eqn:E; [reflexivity|].
  exfalso. assert (Hx : In x (sorted_symbols cl)).
  { apply in_flat_map. exists (S l). split; [apply in_seq; unfold MAX_ALLOWED_CODE_LENGTH in *; lia|].
    rewrite E. left. reflexivity. }
  rewrite H in Hx. exact Hx.
Qed.

(** A table the builder returns at the decoder's 8 root bits is the
    zero-length table of a one-symbol code, or comes from a code of at
    least two symbols. *)
Lemma VP8LBuildHuffmanTable_cases (code_lengths : list nat) (n : nat) (t : HuffmanTable) :
  VP8LBuildHuffmanTable HUFFMAN_TABLE_BITS code_lengths n = Some t ->
  (exists s, sorted_symbols (take n code_lengths) = [s] /\ t = trivial_table s) \/
  (2 <= length (sorted_symbols (take n code_lengths)))%nat.
Proof.
  unfold VP8LBuildHuffmanTable. destruct (existsb _ _); [discriminate|].
  destruct (sorted_symbols _) as [|s [|s' l]] eqn:E.
  - rewrite (kraft_no_symbols _ E). discriminate.
  - intros [= <-]. left. exists s. split; reflexivity.
  - intros _. right. cbn. lia.
Qed.

(** ** One-symbol code lengths *)

Lemma lookup_total_insert_zeros (n s t : nat) (x : nat) :
  t <> s -> <[s := x]> (replicate n 0%nat) !!! t = 0%nat.
Proof.
  intros Hts. rewrite list_lookup_total_insert_ne by congruence.
  rewrite list_lookup_total_alt. destruct (replicate n 0%nat !! t) eqn:E; [|reflexivity].
  apply lookup_replicate in E. cbn. lia.
Qed.

(** The lengths of a one-symbol code: [1] at [s], [0] elsewhere. *)
Lemma sorted_symbols_single (n s : nat) :
  (s < n)%nat -> sorted_symbols (<[s := 1%nat]> (replicate n 0%nat)) = [s].
Proof.
  intros Hs. unfold sorted_symbols. rewrite length_insert, length_replicate.
  unfold MAX_ALLOWED_CODE_LENGTH. cbn [seq flat_map].
  rewrite !(filter_seq_single _ n s Hs)
    by (intros t Hts; unfold len_of; rewrite lookup_total_insert_zeros by exact Hts; reflexivity).
  unfold len_of. rewrite list_lookup_total_insert_eq by (rewrite length_replicate; exact Hs).
  reflexivity.
Qed.

Lemma existsb_long_single (n s : nat) :
  existsb (fun l => MAX_ALLOWED_CODE_LENGTH <? l)%nat (<[s := 1%nat]> (replicate n 0%nat)) = false.
Proof.
  apply Bool.not_true_iff_false. rewrite existsb_exists. intros (x & Hx & Hlt).
  apply list_elem_of_In, list_elem_of_lookup in Hx as [i Hi].
  destruct (decide (i = s)) as [->|Hne].
  - rewrite list_lookup_insert_eq in Hi by (apply lookup_lt_Some in Hi; rewrite length_insert in Hi; exact Hi).
    injection Hi as <-. discriminate.
  - rewrite list_lookup_insert_ne in Hi by congruence. apply lookup_replicate in Hi as [-> _]. discriminate.
Qed.

(** The builder on the lengths a simple code leaves when its first symbol
    [s0] lies in the alphabet and its second [s1] does not: the table of
    the one-symbol code [s0]. *)
Lemma VP8LBuildHuffmanTable_simple_out (a s0 s1 : nat) (cl : list nat) :
  (s0 < a <= s1)%nat ->
  VP8LBuildHuffmanTable HUFFMAN_TABLE_BITS
    (<[s1 := 1%nat]> (<[s0 := 1%nat]> (replicate a 0%nat ++ drop a cl))) a = Some (trivial_table s0).
Proof.
  intros Hs. unfold VP8LBuildHuffmanTable.
  rewrite take_insert_ge, take_insert_lt, take_app_length' by (rewrite ?length_replicate; lia).
  rewrite existsb_long_single, sorted_symbols_single by lia. reflexivity.
Qed.

(** Moving the position of a live reader inside its buffer keeps it live. *)
Lemma SetBitPos_live (br : VP8LBitReader) (v : nat) :
  eos_ br = false -> (v <= 8 * length (buf_ br))%nat ->
  VP8LSetBitPos br v = mkBitReader (buf_ br) v false.
Proof.
  intros He Hv. unfold VP8LSetBitPos, VP8LIsEndOfStream. cbn [eos_ buf_ bit_pos_].
  rewrite He, orb_false_l. destruct (Nat.ltb_spec (8 * length (buf_ br)) v); [lia|reflexivity].
Qed.

(** ** [ReadSymbol] decodes the canonical code *)

(** [ReadSymbol] on a table built by [VP8LBuildHuffmanTable] with the
    8 root bits of the decoder: when the next bits of the stream (least
    significant first) are the bit-reversed canonical code of a coded
    symbol [s], it returns [s] and consumes exactly the code length of
    [s], through the root table for a short code and through the
    second-level table for a code longer than 8 bits. *)
Theorem VP8LBuildHuffmanTable_decodes (code_lengths : list nat) (n : nat) (t : HuffmanTable)
    (s : nat) (br : VP8LBitReader) :
  VP8LBuildHuffmanTable HUFFMAN_TABLE_BITS code_lengths n = Some t ->
  (2 <= length (sorted_symbols (take n code_lengths)))%nat ->
  coded (take n code_lengths) s ->
  eos_ br = false ->
  (bit_pos_ br + len_of (take n code_lengths) s <= 8 * length (buf_ br))%nat ->
  window br mod 2 ^ len_of (take n code_lengths) s
    = rev_bits (code (take n code_lengths) s) (len_of (take n code_lengths) s) ->
  ReadSymbol t br = (s, mkBitReader (buf_ br) (bit_pos_ br + len_of (take n code_lengths) s) false).
Proof.
  intros Hb H2 Hc He Hpos Hw.
  destruct (VP8LBuildHuffmanTable_complete _ _ _ _ Hb H2) as (Hmax & Hk & ->).
  set (cl := take n code_lengths) in *.
  assert (Hk' : (kraft cl <= 2 ^ MAX_ALLOWED_CODE_LENGTH)%nat) by lia.
  pose proof (coded_max cl Hmax s Hc) as HL. unfold MAX_ALLOWED_CODE_LENGTH in HL.
  unfold ReadSymbol. change HUFFMAN_TABLE_MASK with (mask (Z.of_nat 8)).
  change HUFFMAN_TABLE_BITS with 8%nat. rewrite window_low by lia.
  rewrite build_table_root by (apply Nat.mod_upper_bound; apply Nat.pow_nonzero; lia).
  destruct (Nat.le_gt_cases (len_of cl s) 8) as [Hle|Hlt].
  - rewrite (root_entry_short cl Hmax Hk' 8 s _ Hc Hle) by (rewrite mod_pow2_mod by lia; exact Hw).
    cbn [hc_bits hc_value]. destruct (Nat.ltb_spec 8 (len_of cl s)); [lia|].
    rewrite SetBitPos_live by (assumption || lia). reflexivity.
  - pose proof (sub_bits_ge cl Hmax Hk' 8 s (window br) Hc Hlt Hw) as Hge.
    pose proof (sub_bits_le cl Hmax 8 (window br mod 2 ^ 8)) as Hle.
    unfold MAX_ALLOWED_CODE_LENGTH in Hle.
    destruct (root_entry_long cl Hmax Hk' 8 s (window br) Hc Hlt Hw) as [Hp ->].
    set (p := (window br mod 2 ^ 8)%nat) in *.
    set (sb := sub_bits 8 (sym_codes cl) p) in *. cbn [hc_bits hc_value].
    destruct (Nat.ltb_spec 8 (8 + sb)); [|lia].
    rewrite SetBitPos_live by (assumption || lia). cbn [bit_pos_ buf_].
    replace (8 + sb - 8)%nat with sb by lia.
    rewrite (window_advance br 8 sb He) by lia.
    assert (Hpo : (p <= sub_offset 8 (sym_codes cl) p)%nat).
    { unfold sub_offset. assert (p < 2 ^ 8)%nat by (apply Nat.mod_upper_bound; apply Nat.pow_nonzero; lia). lia. }
    replace (p + (sub_offset 8 (sym_codes cl) p - p) + (window br / 2 ^ 8) mod 2 ^ sb)%nat
      with (sub_offset 8 (sym_codes cl) p + (window br / 2 ^ 8) mod 2 ^ sb)%nat by lia.
    rewrite build_table_sub by (try apply Nat.mod_upper_bound; try apply Nat.pow_nonzero; (assumption || lia)).
    unfold sb, p. rewrite (sub_entry_long cl Hmax Hk' 8 s (window br) Hc Hlt Hw). cbn [hc_bits hc_value].
    rewrite SetBitPos_live by (reflexivity || cbn; lia). do 2 f_equal. cbn. lia.
Qed.

Module HuffmanBuildExamples.
(** The complete code of lengths 1, 2, ..., 9, 10, 10: symbol 10 has
    the 10-bit code 1111111111 and goes through a second-level table. *)
Definition long_lengths : list nat := [1; 2; 3; 4; 5; 6; 7; 8; 9; 10; 10]%nat.
Definition ones_reader : VP8LBitReader := mkBitReader [0xff; 0x03]%Z 0 false.
End HuffmanBuildExamples.

Lemma VP8LBuildHuffmanTable_decodes_witness :
  VP8LBuildHuffmanTable HUFFMAN_TABLE_BITS HuffmanBuildExamples.long_lengths 11
    = Some (build_table 8 (sym_codes HuffmanBuildExamples.long_lengths)) /\
  ReadSymbol (build_table 8 (sym_codes HuffmanBuildExamples.long_lengths)) HuffmanBuildExamples.ones_reader
    = (10%nat, mkBitReader [0xff; 0x03]%Z 10 false).
Proof.
  split; [vm_compute; reflexivity|].
  apply (VP8LBuildHuffmanTable_decodes HuffmanBuildExamples.long_lengths 11%nat _ 10%nat
           HuffmanBuildExamples.ones_reader);
    [vm_compute; reflexivity | vm_compute; lia | split; vm_compute; lia | reflexivity
    | vm_compute; lia | vm_compute; reflexivity].
Defined.
