(* ===== verification/CodeLengths.v ===== *)
(** * Reading the code lengths of a normal Huffman code

    [ReadHuffmanCodeLengths] of [vp8l.cpp] (spec section 4.3): with the
    table of the code-length code (built by [VP8LBuildHuffmanTable], which
    is outside [src/] and is a parameter here), read an optional
    [max_symbol] limit, then code lengths: [0..15] literally, [16] repeats
    the previous non-zero length [3 + read(2)] times, [17] writes
    [3 + read(3)] zeros, [18] writes [11 + read(7)] zeros.  The loop is a
    [Fixpoint] with fuel that returns [None] when the fuel runs out; the
    theorems show that [num_symbols + 1] iterations always suffice, that no
    write lands at or past [num_symbols] (the buffer is shared by all five
    alphabets and is longer than most of them), and that every length
    written is below 16. *)

From S2P Require Import Prelude BitReader Huffman.
From Stdlib Require Import Lia.

Local Open Scope Z_scope.
Local Open Scope vp8l_scope.

Definition NUM_CODE_LENGTH_CODES : nat := 19.
Definition kCodeLengthLiterals : nat := 16.
Definition kCodeLengthRepeatCode : nat := 16.
Definition kCodeLengthExtraBits : list nat := [2; 3; 7]%nat.
Definition kCodeLengthRepeatOffsets : list nat := [3; 3; 11]%nat.
Definition kCodeLengthCodeOrder : list nat :=
  [17; 18; 0; 1; 2; 3; 4; 5; 16; 6; 7; 8; 9; 10; 11; 12; 13; 14; 15]%nat.

(** From the library headers: the previous length before any non-zero one,
    and the root size of the code-length table. *)
Definition DEFAULT_CODE_LENGTH : nat := 8.
Definition LENGTHS_TABLE_BITS : nat := 7.
Definition LENGTHS_TABLE_MASK : Z := 0x7f.

(** [while (repeat-- > 0) code_lengths[symbol++] = length;] *)
Fixpoint fill_repeat (cl : list nat) (symbol repeat length : nat) : list nat :=
  match repeat with
  | O => cl
  | S r => fill_repeat (<[symbol := length]> cl) (S symbol) r length
  end.

(** The body of [while (symbol < num_symbols)], with fuel: [Some (ok,
    code_lengths, br)], or [None] when the fuel runs out. *)
Fixpoint code_lengths_loop (fuel : nat) (table : HuffmanTable) (num_symbols : nat)
    (symbol max_symbol prev_code_len : nat) (cl : list nat) (br : VP8LBitReader)
    : option (bool * list nat * VP8LBitReader) :=
  match fuel with
  | O => None
  | S fuel' =>
      if (symbol <? num_symbols)%nat then
        if (max_symbol =? 0)%nat then Some (true, cl, br)
        else
          let max_symbol := (max_symbol - 1)%nat in
          let br := VP8LFillBitWindow br in
          let p := table !!! Z.to_nat (VP8LPrefetchBits br .& LENGTHS_TABLE_MASK) in
          let br := VP8LSetBitPos br (bit_pos_ br + hc_bits p) in
          let code_len := hc_value p in
          if (code_len <? kCodeLengthLiterals)%nat then
            code_lengths_loop fuel' table num_symbols (S symbol) max_symbol
              (if (code_len =? 0)%nat then prev_code_len else code_len)
              (<[symbol := code_len]> cl) br
          else
            let use_prev := (code_len =? kCodeLengthRepeatCode)%nat in
            let slot := (code_len - kCodeLengthLiterals)%nat in
            let extra_bits := kCodeLengthExtraBits !!! slot in
            let repeat_offset := kCodeLengthRepeatOffsets !!! slot in
            let '(v, br) := VP8LReadBits br extra_bits in
            let repeat := (Z.to_nat v + repeat_offset)%nat in
            if (num_symbols <? symbol + repeat)%nat then Some (false, cl, br)
            else
              let length := if use_prev then prev_code_len else 0%nat in
              code_lengths_loop fuel' table num_symbols (symbol + repeat) max_symbol
                prev_code_len (fill_repeat cl symbol repeat length) br
      else Some (true, cl, br)
  end.

(** [for (i = 0; i < num_codes; ++i)
       code_length_code_lengths[kCodeLengthCodeOrder[i]] = VP8LReadBits(br, 3);] *)
Fixpoint read_code_length_code_lengths (k i : nat) (ccl : list nat) (br : VP8LBitReader)
    : list nat * VP8LBitReader :=
  match k with
  | O => (ccl, br)
  | S k' =>
      let '(v, br) := VP8LReadBits br 3 in
      read_code_length_code_lengths k' (S i) (<[kCodeLengthCodeOrder !!! i := Z.to_nat v]> ccl) br
  end.

(** [ReadHuffmanCodeLengths(dec, code_length_code_lengths, num_symbols,
    code_lengths)]: the [ok] result, the code lengths and the reader.
    [build] is [VP8LBuildHuffmanTable] at [LENGTHS_TABLE_BITS] ([None] for
    its failure). *)
Definition ReadHuffmanCodeLengths (build : list nat -> option HuffmanTable)
    (code_length_code_lengths : list nat) (num_symbols : nat) (cl : list nat)
    (br : VP8LBitReader) : bool * list nat * VP8LBitReader :=
  match build code_length_code_lengths with
  | None => (false, cl, br)
  | Some table =>
      let '(use_length, br) := VP8LReadBits br 1 in
      let '(ok, max_symbol, br) :=
        if negb (use_length =? 0) then
          let '(v, br) := VP8LReadBits br 3 in
          let length_nbits := (2 + 2 * Z.to_nat v)%nat in
          let '(m, br) := VP8LReadBits br length_nbits in
          let max_symbol := (2 + Z.to_nat m)%nat in
          (negb (num_symbols <? max_symbol)%nat, max_symbol, br)
        else (true, num_symbols, br) in
      if negb ok then (false, cl, br)
      else
        match code_lengths_loop (S num_symbols) table num_symbols 0 max_symbol
                DEFAULT_CODE_LENGTH cl br with
        | Some r => r
        | None => (false, cl, br)
        end
  end.

(** [ReadHuffmanCode(alphabet_size, dec, code_lengths, table)]: the size of
    the table built (0 on failure, when the C code also sets
    [dec->status_ = VP8_STATUS_BITSTREAM_ERROR]), the table, the code
    lengths buffer and the reader.  [build bits lengths size] is
    [VP8LBuildHuffmanTable], [None] for its 0. *)
Definition ReadHuffmanCode (build : nat -> list nat -> nat -> option HuffmanTable)
    (alphabet_size : nat) (cl : list nat) (br : VP8LBitReader)
    : nat * HuffmanTable * list nat * VP8LBitReader :=
  let '(simple_code, br) := VP8LReadBits br 1 in
  let cl := replicate alphabet_size 0%nat ++ drop alphabet_size cl in
  let '(ok, cl, br) :=
    if negb (simple_code =? 0) then
      let '(n, br) := VP8LReadBits br 1 in
      let num_symbols := (Z.to_nat n + 1)%nat in
      let '(first_symbol_len_code, br) := VP8LReadBits br 1 in
      let '(symbol, br) := VP8LReadBits br (if first_symbol_len_code =? 0 then 1%nat else 8%nat) in
      let cl := <[Z.to_nat symbol := 1%nat]> cl in
      if (num_symbols =? 2)%nat then
        let '(symbol, br) := VP8LReadBits br 8 in
        (true, <[Z.to_nat symbol := 1%nat]> cl, br)
      else (true, cl, br)
    else
      let '(n, br) := VP8LReadBits br 4 in
      let num_codes := (Z.to_nat n + 4)%nat in
      if (NUM_CODE_LENGTH_CODES <? num_codes)%nat then (false, cl, br)
      else
        let '(ccl, br) := read_code_length_code_lengths num_codes 0
                            (replicate NUM_CODE_LENGTH_CODES 0%nat) br in
        ReadHuffmanCodeLengths (fun l => build LENGTHS_TABLE_BITS l NUM_CODE_LENGTH_CODES)
          ccl alphabet_size cl br in
  let ok := ok && negb (eos_ br) in
  match (if ok then build HUFFMAN_TABLE_BITS cl alphabet_size else None) with
  | Some table => (length table, table, cl, br)
  | None => (0%nat, [], cl, br)
  end.

(** ** Lemmas *)

Lemma length_fill_repeat (cl : list nat) (symbol repeat len : nat) :
  length (fill_repeat cl symbol repeat len) = length cl.
Proof.
  revert cl symbol. induction repeat as [|r IH]; intros cl symbol; simpl; [done|].
  rewrite IH. apply length_insert.
Qed.

(** [fill_repeat] writes [len] at [symbol .. symbol + repeat) only. *)
Lemma fill_repeat_lookup (cl : list nat) (symbol repeat len i : nat) :
  fill_repeat cl symbol repeat len !!! i
  = if decide (symbol <= i < symbol + repeat)%nat then
      (if decide (i < length cl)%nat then len else cl !!! i)
    else cl !!! i.
Proof.
  revert cl symbol. induction repeat as [|r IH]; intros cl symbol; simpl.
  - destruct (decide _); [lia|done].
  - rewrite IH, length_insert.
    destruct (decide (i = symbol)) as [->|Hne].
    + destruct (decide (S symbol <= symbol < _)%nat); [lia|].
      destruct (decide (symbol <= symbol < _)%nat); [|lia].
      destruct (decide (symbol < length cl)%nat).
      * apply lookup_total_insert_same. done.
      * rewrite list_insert_ge by lia. done.
    + rewrite (lookup_total_insert_other cl symbol i) by done.
      destruct (decide (S symbol <= i < S symbol + r)%nat);
        destruct (decide (symbol <= i < symbol + S r)%nat); try lia; done.
Qed.

Lemma fill_repeat_frame (cl : list nat) (symbol repeat len num : nat) :
  (symbol + repeat <= num)%nat ->
  forall i, (num <= i)%nat -> fill_repeat cl symbol repeat len !!! i = cl !!! i.
Proof.
  intros H i Hi. rewrite fill_repeat_lookup. destruct (decide _); [lia|done].
Qed.

Lemma fill_repeat_bound (P : nat -> Prop) (cl : list nat) (symbol repeat len : nat) :
  P len -> Forall P cl -> Forall P (fill_repeat cl symbol repeat len).
Proof.
  revert cl symbol. induction repeat as [|r IH]; intros cl symbol Hl Hcl; simpl; [done|].
  apply IH; [done|]. apply Forall_insert; done.
Qed.

(** The three repeat codes: at least 3 repetitions each. *)
Lemma repeat_offset_pos (code_len : nat) :
  (kCodeLengthLiterals <= code_len < NUM_CODE_LENGTH_CODES)%nat ->
  (3 <= kCodeLengthRepeatOffsets !!! (code_len - kCodeLengthLiterals))%nat.
Proof.
  unfold kCodeLengthLiterals, NUM_CODE_LENGTH_CODES. intros H.
  destruct (code_len - 16)%nat as [|[|[|k]]] eqn:E; simpl; lia.
Qed.

Section Loop.
  Context (table : HuffmanTable) (num_symbols : nat).

  (** One [case_eq] on each branch of an iteration of the loop. *)
Local Ltac loop_cases :=
    match goal with
    | |- context [if (?a <? ?b)%nat then _ else _] => destruct (Nat.ltb_spec a b)
    | |- context [if (?a =? ?b)%nat then _ else _] => destruct (Nat.eqb_spec a b)
    | |- context [VP8LReadBits ?br ?n] => destruct (VP8LReadBits br n) as [? ?]
    end.

Lemma loop_frame (fuel symbol max_symbol prev : nat) (cl : list nat) (br : VP8LBitReader)
      (ok : bool) (cl' : list nat) (br' : VP8LBitReader) :
    code_lengths_loop fuel table num_symbols symbol max_symbol prev cl br = Some (ok, cl', br') ->
    length cl' = length cl /\ forall i, (num_symbols <= i)%nat -> cl' !!! i = cl !!! i.
  Proof.
    revert symbol max_symbol prev cl br. induction fuel as [|f IH]; intros symbol m prev cl br;
      simpl; [discriminate|].
    repeat (loop_cases; cbv zeta; try (intros [= <- <- <-]; split; done)).
    all: intros Hr; apply IH in Hr as [Hlen Hfr].
    all: rewrite Hlen, ?length_insert, ?length_fill_repeat; split; [done|].
    all: intros i Hi; rewrite Hfr by done.
    all: first [apply lookup_total_insert_other; lia
               |apply (fill_repeat_frame _ _ _ _ num_symbols); lia].
  Qed.

Lemma loop_lengths (fuel symbol max_symbol prev : nat) (cl : list nat) (br : VP8LBitReader)
      (ok : bool) (cl' : list nat) (br' : VP8LBitReader) :
    code_lengths_loop fuel table num_symbols symbol max_symbol prev cl br = Some (ok, cl', br') ->
    (prev < 16)%nat -> Forall (fun l => l < 16)%nat cl -> Forall (fun l => l < 16)%nat cl'.
  Proof.
    revert symbol max_symbol prev cl br. induction fuel as [|f IH]; intros symbol m prev cl br;
      simpl; [discriminate|].
    repeat (loop_cases; cbv zeta; try (intros [= <- <- <-]; intros; done)).
    all: intros Hr Hp Hcl; apply IH in Hr; [done| |].
    all: try (apply Forall_insert; [done|]; unfold kCodeLengthLiterals in *; lia).
    all: try (apply fill_repeat_bound; [lia|done]).
    all: unfold kCodeLengthLiterals in *; lia.
  Qed.

  (** Every iteration either leaves the loop or writes at least one symbol,
      as long as the table only holds code-length symbols ([0 .. 18]). *)
Lemma loop_total (fuel symbol max_symbol prev : nat) (cl : list nat) (br : VP8LBitReader) :
    Forall (fun e => hc_value e < NUM_CODE_LENGTH_CODES)%nat table ->
    (num_symbols - symbol < fuel)%nat ->
    code_lengths_loop fuel table num_symbols symbol max_symbol prev cl br <> None.
  Proof.
    intros Htab. revert symbol max_symbol prev cl br.
    induction fuel as [|f IH]; intros symbol m prev cl br Hf; simpl; [lia|].
    set (p := table !!! _).
    assert (Hp : (hc_value p < NUM_CODE_LENGTH_CODES)%nat)
      by (apply (Forall_lookup_total (fun e => hc_value e < NUM_CODE_LENGTH_CODES)%nat);
          [unfold NUM_CODE_LENGTH_CODES; simpl; lia|done]).
    clearbody p.
    repeat (loop_cases; cbv zeta; try discriminate); apply IH; try lia.
    all: pose proof (repeat_offset_pos (hc_value p) ltac:(unfold kCodeLengthLiterals in *; lia)).
    all: lia.
  Qed.
End Loop.

(** ** Properties of [ReadHuffmanCodeLengths] *)

(** Whatever the stream and the
    outcome, [ReadHuffmanCodeLengths] writes [code_lengths] only below
    [num_symbols]: the buffer keeps its length and every entry from
    [num_symbols] on is untouched (the repeat codes are checked against
    [num_symbols] before they write). *)
Theorem ReadHuffmanCodeLengths_in_bounds (build : list nat -> option HuffmanTable)
    (ccl : list nat) (num_symbols : nat) (cl : list nat) (br : VP8LBitReader) :
  let '(ok, cl', br') := ReadHuffmanCodeLengths build ccl num_symbols cl br in
  length cl' = length cl /\ forall i, (num_symbols <= i)%nat -> cl' !!! i = cl !!! i.
Proof.
  unfold ReadHuffmanCodeLengths. destruct (build ccl) as [table|]; [|split; done].
  destruct (VP8LReadBits br 1) as [u br1].
  destruct (negb (u =? 0)).
  - destruct (VP8LReadBits br1 3) as [v br2]. destruct (VP8LReadBits br2 _) as [m br3].
    destruct (negb (negb _)); [split; done|].
    destruct (code_lengths_loop _ _ _ _ _ _ _ _) as [[[ok cl'] br']|] eqn:E; [|split; done].
    exact (loop_frame _ _ _ _ _ _ _ _ _ _ _ E).
  - cbv iota. destruct (negb true); [split; done|].
    destruct (code_lengths_loop _ _ _ _ _ _ _ _) as [[[ok cl'] br']|] eqn:E; [|split; done].
    exact (loop_frame _ _ _ _ _ _ _ _ _ _ _ E).
Qed.

(** Every code length [ReadHuffmanCodeLengths] leaves is below 16 when the
    buffer starts so: literals are [0 .. 15] and code 16 repeats a previous
    literal. *)
Lemma code_lengths_bound (build : list nat -> option HuffmanTable)
    (ccl : list nat) (num_symbols : nat) (cl : list nat) (br : VP8LBitReader) :
  Forall (fun l => l < 16)%nat cl ->
  Forall (fun l => l < 16)%nat (snd (fst (ReadHuffmanCodeLengths build ccl num_symbols cl br))).
Proof.
  intros Hcl. unfold ReadHuffmanCodeLengths. destruct (build ccl) as [table|]; [|done].
  destruct (VP8LReadBits br 1) as [u br1].
  assert (Hloop : forall m br', Forall (fun l => l < 16)%nat
            (snd (fst (match code_lengths_loop (S num_symbols) table num_symbols 0 m
                              DEFAULT_CODE_LENGTH cl br' with
                       | Some r => r | None => (false, cl, br') end)))).
  { intros m br'. destruct (code_lengths_loop _ _ _ _ _ _ _ _) as [[[ok cl'] br'']|] eqn:E;
      [|done]. apply (loop_lengths _ _ _ _ _ _ _ _ _ _ _ E); [unfold DEFAULT_CODE_LENGTH; lia|done]. }
  destruct (negb (u =? 0)).
  - destruct (VP8LReadBits br1 3) as [v br2]. destruct (VP8LReadBits br2 _) as [m br3].
    destruct (negb (negb _)); [done|apply Hloop].
  - apply Hloop.
Qed.

(** The loop of
    [ReadHuffmanCodeLengths] ends within [num_symbols + 1] iterations
    whatever the stream holds, provided the code-length table only yields
    the 19 code-length symbols: each iteration writes one literal or at
    least 3 repeated lengths, or leaves. *)
Theorem ReadHuffmanCodeLengths_terminates (table : HuffmanTable) (num_symbols max_symbol : nat)
    (cl : list nat) (br : VP8LBitReader) :
  Forall (fun e => hc_value e < NUM_CODE_LENGTH_CODES)%nat table ->
  code_lengths_loop (S num_symbols) table num_symbols 0 max_symbol DEFAULT_CODE_LENGTH cl br
  <> None.
Proof. intros Htab. apply loop_total; [done|lia]. Qed.

(** ** Witnesses and a concrete decode *)

(** A code-length code of one bit: [0] is the literal length 8, [1] the
    repeat code 16. *)
Definition lit8_or_rep16 : HuffmanTable :=
  map (fun i => if Nat.even i then mkHuffmanCode 1 8 else mkHuffmanCode 1 16)
    (seq 0 (2 ^ LENGTHS_TABLE_BITS)).

(** The stream [0b001100]: no [max_symbol], the literal 8, code 16 with
    the extra bits [01] (four repetitions of 8), the literal 8. *)
Example ReadHuffmanCodeLengths_repeat :
  ReadHuffmanCodeLengths (fun _ => Some lit8_or_rep16) [] 6 (replicate 6 0%nat)
    (VP8LInitBitReader [12])
  = (true, replicate 6 8%nat, mkBitReader [12] 6 false).
Proof. vm_compute. reflexivity. Qed.

Lemma ReadHuffmanCodeLengths_terminates_witness :
  Forall (fun e => hc_value e < NUM_CODE_LENGTH_CODES)%nat lit8_or_rep16 /\
  code_lengths_loop 7 lit8_or_rep16 6 0 6 DEFAULT_CODE_LENGTH (replicate 6 0%nat)
    (VP8LInitBitReader [12]) <> None.
Proof.
  assert (Ht : Forall (fun e => hc_value e < NUM_CODE_LENGTH_CODES)%nat lit8_or_rep16).
  { apply List.Forall_map, List.Forall_forall. intros i _.
    destruct (Nat.even i); cbn; unfold NUM_CODE_LENGTH_CODES; lia. }
  split; [exact Ht|]. apply (ReadHuffmanCodeLengths_terminates lit8_or_rep16 6 6); exact Ht.
Defined.

Lemma code_lengths_bound_example :
  Forall (fun l => l < 16)%nat (replicate 6 0%nat) /\
  Forall (fun l => l < 16)%nat
    (snd (fst (ReadHuffmanCodeLengths (fun _ => Some lit8_or_rep16) [] 6 (replicate 6 0%nat)
                 (VP8LInitBitReader [12])))).
Proof.
  assert (H : Forall (fun l => l < 16)%nat (replicate 6 0%nat))
    by (apply Forall_replicate; lia).
  split; [exact H|]. apply code_lengths_bound, H.
Defined.

(** Whichever encoding the stream uses, the
    code lengths [ReadHuffmanCode] leaves in the buffer (and hands to the
    table builder) are all below 16, the bound of the table builder: a
    simple code writes 1 at its one or two symbols over a cleared
    alphabet, a normal code writes what [ReadHuffmanCodeLengths] decodes.
    The buffer is shared by the five codes of a group, so it is assumed to
    hold lengths below 16 on entry, as every earlier call leaves it. *)
Theorem ReadHuffmanCode_lengths (build : nat -> list nat -> nat -> option HuffmanTable)
    (alphabet_size : nat) (cl : list nat) (br : VP8LBitReader) :
  Forall (fun l => l < 16)%nat cl ->
  Forall (fun l => l < 16)%nat (snd (fst (ReadHuffmanCode build alphabet_size cl br))).
Proof.
  intros Hcl. unfold ReadHuffmanCode.
  assert (H0 : Forall (fun l => l < 16)%nat (replicate alphabet_size 0%nat ++ drop alphabet_size cl))
    by (apply Forall_app; split; [apply Forall_replicate; lia|apply Forall_drop, Hcl]).
  set (cl0 := replicate alphabet_size 0%nat ++ drop alphabet_size cl) in *. clearbody cl0.
  destruct (VP8LReadBits br 1) as [simple br1].
  assert (Hfin : forall ok cl' br', Forall (fun l => l < 16)%nat cl' ->
            Forall (fun l => l < 16)%nat
              (snd (fst (match (if ok && negb (eos_ br') then
                                  build HUFFMAN_TABLE_BITS cl' alphabet_size else None) with
                         | Some table => (length table, table, cl', br')
                         | None => (0%nat, ([] : HuffmanTable), cl', br') end))))
    by (intros ok cl' br' H; destruct (ok && negb (eos_ br')); [destruct (build _ _ _)|]; exact H).
  destruct (negb (simple =? 0)).
  - destruct (VP8LReadBits br1 1) as [n br2]. destruct (VP8LReadBits br2 1) as [f br3].
    destruct (VP8LReadBits br3 _) as [s1 br4].
    destruct (_ =? 2)%nat.
    + destruct (VP8LReadBits br4 8) as [s2 br5]. apply Hfin.
      do 2 (apply Forall_insert; [|lia]). exact H0.
    + apply Hfin. apply Forall_insert; [exact H0|lia].
  - destruct (VP8LReadBits br1 4) as [n br2]. destruct (_ <? _)%nat; [apply Hfin, H0|].
    destruct (read_code_length_code_lengths _ _ _ _) as [ccl br3].
    pose proof (code_lengths_bound (fun l => build LENGTHS_TABLE_BITS l NUM_CODE_LENGTH_CODES)
                  ccl alphabet_size cl0 br3 H0) as Hb.
    destruct (ReadHuffmanCodeLengths _ _ _ _ _) as [[ok cl'] br']. apply Hfin, Hb.
Qed.

Lemma ReadHuffmanCode_lengths_witness :
  Forall (fun l => l < 16)%nat (replicate 280 0%nat) /\
  Forall (fun l => l < 16)%nat
    (snd (fst (ReadHuffmanCode (fun _ _ _ => Some (trivial_table 0)) 40 (replicate 280 0%nat)
                 (VP8LInitBitReader (le_bytes 3 92207))))).
Proof.
  assert (H : Forall (fun l => l < 16)%nat (replicate 280 0%nat))
    by (apply Forall_replicate; lia).
  split; [exact H|]. apply ReadHuffmanCode_lengths, H.
Defined.

(** A table of positive size returned by [ReadHuffmanCode] is the one the
    builder made from the code lengths it hands back. *)
Lemma ReadHuffmanCode_built (build : nat -> list nat -> nat -> option HuffmanTable)
    (alphabet_size : nat) (cl : list nat) (br : VP8LBitReader)
    (size : nat) (t : HuffmanTable) (cl' : list nat) (br' : VP8LBitReader) :
  ReadHuffmanCode build alphabet_size cl br = (size, t, cl', br') -> (0 < size)%nat ->
  build HUFFMAN_TABLE_BITS cl' alphabet_size = Some t.
Proof.
  unfold ReadHuffmanCode. destruct (VP8LReadBits br 1) as [simple br1].
  destruct (if negb (simple =? 0) then _ else _) as [[ok cl1] br2].
  destruct (ok && negb (eos_ br2)); [|intros [= <- _ _ _]; lia].
  destruct (build _ cl1 _) as [t1|] eqn:E; intros [= <- <- <- <-]; [intros _; exact E|lia].
Qed.
