(* ===== verification/CodeTables.v ===== *)
(** * Code reading and table building together

    [ReadHuffmanCode] of [vp8l.cpp] (CodeLengths.v) with the table builder
    [VP8LBuildHuffmanTable] (HuffmanBuild.v) as its [build] parameter:
    every table it accepts decodes the code it read, through
    [ReadSymbol] of [vp8l.cpp], meets the table condition of the fill
    contract (BitWindow.v): a symbol takes at most 15 bits, and decodes
    only symbols of the alphabet.  A simple code whose second symbol
    lies past the alphabet is accepted as the one-symbol code of its
    first. *)

From S2P Require Import Prelude BitReader Huffman BitWindow HuffmanBuild CodeLengths.
From Stdlib Require Import Lia.

Local Open Scope vp8l_scope.

(** The zero-length table of a one-symbol code meets the fill contract,
    whatever follows it in memory. *)
Lemma trivial_table_ok (s : nat) (rest : HuffmanTable) : table_ok (trivial_table s ++ rest).
Proof.
  unfold table_ok, trivial_table. apply List.Forall_forall. intros i Hi. apply in_seq in Hi.
  rewrite lookup_total_app_l by (rewrite length_replicate; lia).
  rewrite list_lookup_total_alt, lookup_replicate_2 by lia. cbn. split; lia.
Qed.

(** A two-level table built at 8 root bits from lengths of at most 15
    meets the fill contract, whatever follows it in memory: a root entry
    takes at most 8 bits or links to a table of at most 7 index bits,
    inside the block, whose entries fit in it. *)
Lemma build_table_ok (cl : list nat) (rest : HuffmanTable) :
  Forall (fun l => l <= MAX_ALLOWED_CODE_LENGTH)%nat cl ->
  table_ok (build_table HUFFMAN_TABLE_BITS (sym_codes cl) ++ rest).
Proof.
  intros Hmax. unfold table_ok. apply List.Forall_forall. intros i Hi. apply in_seq in Hi.
  pose proof (length_build_table HUFFMAN_TABLE_BITS (sym_codes cl)) as Hlen.
  rewrite lookup_total_app_l, build_table_root by lia.
  pose proof (sub_bits_le cl Hmax HUFFMAN_TABLE_BITS i) as Hsb.
  unfold MAX_ALLOWED_CODE_LENGTH, HUFFMAN_TABLE_BITS in *.
  destruct (root_entry_shape 8 (sym_codes cl) i) as [Hs|[Hp ->]]; [split; lia|].
  cbn [hc_bits hc_value]. split; [lia|]. intros _. apply List.Forall_forall. intros j Hj.
  apply in_seq in Hj. replace (8 + sub_bits 8 (sym_codes cl) i - 8)%nat with (sub_bits 8 (sym_codes cl) i) in * by lia.
  pose proof (offset_in_bound 8 (sym_codes cl) _ i Hp) as Hin.
  assert (Ho : (i <= sub_offset 8 (sym_codes cl) i)%nat) by (unfold sub_offset; lia).
  replace (i + (sub_offset 8 (sym_codes cl) i - i) + j)%nat with (sub_offset 8 (sym_codes cl) i + j)%nat by lia.
  rewrite lookup_total_app_l by (unfold sub_offset; lia).
  rewrite build_table_sub by (assumption || lia). apply sub_entry_bits.
Qed.

(** Every table the builder returns at the decoder's 8 root bits meets
    the fill contract, wherever it is placed in a block. *)
Lemma VP8LBuildHuffmanTable_table_ok_app (code_lengths : list nat) (n : nat) (t : HuffmanTable) :
  VP8LBuildHuffmanTable HUFFMAN_TABLE_BITS code_lengths n = Some t ->
  forall rest, table_ok (t ++ rest).
Proof.
  intros Hb rest. destruct (VP8LBuildHuffmanTable_cases _ _ _ Hb) as [(s & _ & ->)|H2];
    [apply trivial_table_ok|].
  destruct (VP8LBuildHuffmanTable_complete _ _ _ _ Hb H2) as (Hmax & _ & ->). apply build_table_ok, Hmax.
Qed.

Lemma VP8LBuildHuffmanTable_table_ok (code_lengths : list nat) (n : nat) (t : HuffmanTable) :
  VP8LBuildHuffmanTable HUFFMAN_TABLE_BITS code_lengths n = Some t -> table_ok t.
Proof.
  intros Hb. rewrite <- (app_nil_r t). exact (VP8LBuildHuffmanTable_table_ok_app _ _ _ Hb []).
Qed.

(** ** The symbols a built table decodes *)

Lemma trivial_table_symbol (s : nat) (rest : HuffmanTable) (br : VP8LBitReader) :
  fst (ReadSymbol (trivial_table s ++ rest) br) = s.
Proof.
  unfold ReadSymbol, trivial_table. cbv zeta. pose proof (root_index_bound br) as Hi.
  rewrite lookup_total_app_l by (rewrite length_replicate; exact Hi).
  rewrite list_lookup_total_alt, lookup_replicate_2 by exact Hi. reflexivity.
Qed.

(** [ReadSymbol] on a two-level table built from lengths of at most 15,
    wherever it sits in the block, returns a symbol of the alphabet: the
    value of a short root entry or of a second-level entry. *)
Lemma build_table_symbol_lt (cl : list nat) (n : nat) (rest : HuffmanTable) (br : VP8LBitReader) :
  Forall (fun l => l <= MAX_ALLOWED_CODE_LENGTH)%nat cl -> (length cl <= n)%nat -> (0 < n)%nat ->
  (fst (ReadSymbol (build_table HUFFMAN_TABLE_BITS (sym_codes cl) ++ rest) br) < n)%nat.
Proof.
  intros Hmax Hl Hn. unfold ReadSymbol. cbv zeta.
  pose proof (root_index_bound br) as Hi.
  set (i := Z.to_nat (VP8LPrefetchBits br .& HUFFMAN_TABLE_MASK)) in *.
  pose proof (length_build_table HUFFMAN_TABLE_BITS (sym_codes cl)) as Hlen.
  rewrite lookup_total_app_l, build_table_root by lia.
  destruct (Nat.ltb_spec HUFFMAN_TABLE_BITS (hc_bits (root_entry HUFFMAN_TABLE_BITS (sym_codes cl) i)))
    as [Hlt|Hle]; cbn [fst]; [|destruct (root_entry_value cl _ i Hle); lia].
  destruct (root_entry_shape HUFFMAN_TABLE_BITS (sym_codes cl) i) as [Hs|[Hp ->]]; [lia|].
  cbn [hc_bits hc_value] in *.
  set (sb := sub_bits HUFFMAN_TABLE_BITS (sym_codes cl) i) in *.
  set (j := Z.to_nat (_ .& mask (Z.of_nat (HUFFMAN_TABLE_BITS + sb - HUFFMAN_TABLE_BITS)))).
  assert (Hj : (j < 2 ^ (HUFFMAN_TABLE_BITS + sb - HUFFMAN_TABLE_BITS))%nat) by apply to_nat_land_mask_lt.
  replace (HUFFMAN_TABLE_BITS + sb - HUFFMAN_TABLE_BITS)%nat with sb in Hj by lia.
  pose proof (offset_in_bound HUFFMAN_TABLE_BITS (sym_codes cl) _ i Hp) as Hin. fold sb in Hin.
  assert (Ho : (i <= sub_offset HUFFMAN_TABLE_BITS (sym_codes cl) i)%nat) by (unfold sub_offset; lia).
  replace (i + (sub_offset HUFFMAN_TABLE_BITS (sym_codes cl) i - i) + j)%nat
    with (sub_offset HUFFMAN_TABLE_BITS (sym_codes cl) i + j)%nat by lia.
  rewrite lookup_total_app_l by (unfold sub_offset; lia).
  rewrite build_table_sub by assumption.
  destruct (sub_entry_value cl HUFFMAN_TABLE_BITS i j); lia.
Qed.

(** Every table the builder returns for an alphabet of [n] symbols makes
    [ReadSymbol] return a symbol below [n], wherever it is placed. *)
Lemma VP8LBuildHuffmanTable_symbol_lt (code_lengths : list nat) (n : nat) (t : HuffmanTable) :
  VP8LBuildHuffmanTable HUFFMAN_TABLE_BITS code_lengths n = Some t ->
  forall rest br, (fst (ReadSymbol (t ++ rest) br) < n)%nat.
Proof.
  intros Hb rest br.
  assert (Hl : (length (take n code_lengths) <= n)%nat) by (rewrite length_take; lia).
  destruct (VP8LBuildHuffmanTable_cases _ _ _ Hb) as [(s & Hs & ->)|H2].
  - rewrite trivial_table_symbol.
    assert (Hin : In s (sorted_symbols (take n code_lengths))) by (rewrite Hs; left; reflexivity).
    apply sorted_symbols_in in Hin. lia.
  - destruct (sorted_symbols (take n code_lengths)) as [|s ss] eqn:Hs; [cbn in H2; lia|].
    assert (Hin : In s (sorted_symbols (take n code_lengths))) by (rewrite Hs; left; reflexivity).
    apply sorted_symbols_in in Hin.
    destruct (VP8LBuildHuffmanTable_complete _ _ _ _ Hb ltac:(rewrite Hs; exact H2)) as (Hmax & _ & ->).
    apply build_table_symbol_lt; [exact Hmax|exact Hl|lia].
Qed.

(** C13: every table of positive size that [ReadHuffmanCode] returns with
    [VP8LBuildHuffmanTable] as its builder decodes the code lengths it
    hands back: a one-symbol code gives its symbol without reading a bit;
    otherwise, when the next bits of a live reader are the bit-reversed
    canonical code of a coded symbol [s], [ReadSymbol] returns [s] and
    advances by exactly the length of [s] (through the root table for
    codes of at most 8 bits, through a second-level table for longer
    ones). *)
Theorem ReadHuffmanCode_decodes (alphabet_size : nat) (cl : list nat) (br : VP8LBitReader)
    (size : nat) (t : HuffmanTable) (cl' : list nat) (br' : VP8LBitReader) :
  ReadHuffmanCode VP8LBuildHuffmanTable alphabet_size cl br = (size, t, cl', br') ->
  (0 < size)%nat ->
  let lens := take alphabet_size cl' in
  (exists s, sorted_symbols lens = [s] /\
     forall br0, VP8LIsEndOfStream br0 = eos_ br0 -> ReadSymbol t br0 = (s, br0)) \/
  (forall s br0, coded lens s -> eos_ br0 = false ->
     (bit_pos_ br0 + len_of lens s <= 8 * length (buf_ br0))%nat ->
     window br0 mod 2 ^ len_of lens s = rev_bits (code lens s) (len_of lens s) ->
     ReadSymbol t br0 = (s, mkBitReader (buf_ br0) (bit_pos_ br0 + len_of lens s) false)).
Proof.
  intros Hr Hsize lens. pose proof (ReadHuffmanCode_built _ _ _ _ _ _ _ _ Hr Hsize) as Hb.
  destruct (VP8LBuildHuffmanTable_cases _ _ _ Hb) as [(s & Hs & ->)|H2].
  - left. exists s. split; [exact Hs|]. intros br0. apply ReadSymbol_trivial.
  - right. intros s br0. apply (VP8LBuildHuffmanTable_decodes cl' alphabet_size t s br0 Hb H2).
Qed.

(** C28: every table of positive size that [ReadHuffmanCode] returns with
    [VP8LBuildHuffmanTable] as its builder is one [ReadSymbol] reads
    within bounds: it meets the table condition of the fill contract of
    the windowed reader ([table_ok]), so that [ReadSymbol] consumes at
    most 15 bits from any reader (the bound that lets [DecodeImageData]
    read up to four symbols between two calls of [VP8LFillBitWindow]),
    and every symbol [ReadSymbol] returns from it lies inside the
    alphabet, even when a simple code named a symbol outside it. *)
Theorem ReadHuffmanCode_symbol_bounds (alphabet_size : nat) (cl : list nat) (br : VP8LBitReader)
    (size : nat) (t : HuffmanTable) (cl' : list nat) (br' : VP8LBitReader) :
  ReadHuffmanCode VP8LBuildHuffmanTable alphabet_size cl br = (size, t, cl', br') ->
  (0 < size)%nat ->
  table_ok t /\
  forall br0, (bit_pos_ br0 <= bit_pos_ (snd (ReadSymbol t br0)) <= bit_pos_ br0 + 15)%nat /\
              (fst (ReadSymbol t br0) < alphabet_size)%nat.
Proof.
  intros Hr Hsize. pose proof (ReadHuffmanCode_built _ _ _ _ _ _ _ _ Hr Hsize) as Hb.
  pose proof (VP8LBuildHuffmanTable_table_ok _ _ _ Hb) as Ht.
  split; [exact Ht|]. intros br0. split; [apply ReadSymbol_consumes, Ht|].
  rewrite <- (app_nil_r t). exact (VP8LBuildHuffmanTable_symbol_lt _ _ _ Hb [] br0).
Qed.

Section SimpleOut.
Local Open Scope Z_scope.

(** C37: a simple code (spec 4.3) of two 8-bit symbols whose first
    symbol [s0] lies inside the alphabet and whose second [s1] lies past
    it: the 19 bits [1] (simple), [1] (two symbols), [1] (8-bit first
    symbol), [s0], [s1] make [ReadHuffmanCode] clear the first
    [alphabet_size] code lengths, write the length 1 at [s0] and at [s1]
    (the latter outside the alphabet, where [VP8LBuildHuffmanTable] does
    not look), and accept the code as the one-symbol code of [s0]: the
    table of 256 zero-length entries of [s0], with the reader 19 bits
    further.  The two-symbol code the stream names is silently read as a
    one-symbol code, where the spec asks for symbols inside the
    alphabet. *)
Theorem ReadHuffmanCode_simple_out_of_alphabet (alphabet_size : nat) (cl : list nat)
    (br : VP8LBitReader) (s0 s1 : nat) :
  (s0 < alphabet_size <= s1)%nat -> (s1 < 256)%nat ->
  eos_ br = false -> (bit_pos_ br + 19 <= 8 * length (buf_ br))%nat ->
  (le_value (buf_ br) >> Z.of_nat (bit_pos_ br)) .& mask 19 = 7 + 8 * Z.of_nat s0 + 2048 * Z.of_nat s1 ->
  ReadHuffmanCode VP8LBuildHuffmanTable alphabet_size cl br =
    (256%nat, trivial_table s0,
     <[s1 := 1%nat]> (<[s0 := 1%nat]> (replicate alphabet_size 0%nat ++ drop alphabet_size cl)),
     mkBitReader (buf_ br) (bit_pos_ br + 19) false).
Proof.
  intros Hs Hs1 Heos Hlen Hv. destruct br as [buf pos eos]; cbn [buf_ bit_pos_ eos_] in *; subst eos.
  assert (Hf : forall j k, (j + k <= 19)%nat ->
    (le_value buf >> Z.of_nat (pos + j)) .& mask (Z.of_nat k)
    = ((7 + 8 * Z.of_nat s0 + 2048 * Z.of_nat s1) / 2 ^ Z.of_nat j) mod 2 ^ Z.of_nat k).
  { intros j k Hjk. rewrite (shiftr_mask_sub _ pos j k 19 Hjk). change (Z.of_nat 19) with 19.
    rewrite Hv. unfold mask. rewrite Z.land_ones, Z.shiftr_div_pow2 by lia. reflexivity. }
  assert (F0 : (le_value buf >> Z.of_nat pos) .& mask (Z.of_nat 1) = 1).
  { rewrite <- (Nat.add_0_r pos) at 1. rewrite Hf by lia. change (2 ^ Z.of_nat 0) with 1.
    change (2 ^ Z.of_nat 1) with 2. Z.div_mod_to_equations; lia. }
  assert (F1 : (le_value buf >> Z.of_nat (pos + 1)) .& mask (Z.of_nat 1) = 1).
  { rewrite Hf by lia. change (2 ^ Z.of_nat 1) with 2. Z.div_mod_to_equations; lia. }
  assert (F2 : (le_value buf >> Z.of_nat (pos + 2)) .& mask (Z.of_nat 1) = 1).
  { rewrite Hf by lia. change (2 ^ Z.of_nat 2) with 4. change (2 ^ Z.of_nat 1) with 2.
    Z.div_mod_to_equations; lia. }
  assert (F3 : (le_value buf >> Z.of_nat (pos + 3)) .& mask (Z.of_nat 8) = Z.of_nat s0).
  { rewrite Hf by lia. change (2 ^ Z.of_nat 3) with 8. change (2 ^ Z.of_nat 8) with 256.
    Z.div_mod_to_equations; lia. }
  assert (F4 : (le_value buf >> Z.of_nat (pos + 11)) .& mask (Z.of_nat 8) = Z.of_nat s1).
  { rewrite Hf by lia. change (2 ^ Z.of_nat 11) with 2048. change (2 ^ Z.of_nat 8) with 256.
    Z.div_mod_to_equations; lia. }
  clear Hf Hv.
  unfold ReadHuffmanCode.
  rewrite read_bits_at, F0 by (unfold VP8L_MAX_NUM_BIT_READ; lia).
  change (negb (1 =? 0)) with true. cbv beta iota zeta.
  rewrite read_bits_at, F1 by (unfold VP8L_MAX_NUM_BIT_READ; lia). cbv beta iota zeta.
  replace (pos + 1 + 1)%nat with (pos + 2)%nat by lia.
  rewrite read_bits_at, F2 by (unfold VP8L_MAX_NUM_BIT_READ; lia). cbv beta iota zeta.
  change (1 =? 0) with false. cbv iota.
  replace (pos + 2 + 1)%nat with (pos + 3)%nat by lia.
  rewrite read_bits_at, F3 by (unfold VP8L_MAX_NUM_BIT_READ; lia). cbv beta iota zeta.
  change (Z.to_nat 1 + 1 =? 2)%nat with true. cbv iota.
  replace (pos + 3 + 8)%nat with (pos + 11)%nat by lia.
  rewrite read_bits_at, F4 by (unfold VP8L_MAX_NUM_BIT_READ; lia). cbv beta iota zeta.
  rewrite !Nat2Z.id. replace (pos + 11 + 8)%nat with (pos + 19)%nat by lia.
  cbn [andb negb eos_].
  rewrite VP8LBuildHuffmanTable_simple_out by lia. reflexivity.
Qed.
End SimpleOut.


Module CodeTablesExamples.
(** A simple code of two 8-bit symbols, 3 and 200 (spec 4.3): bits
    [1] (simple), [1] (two symbols), [1] (8-bit first symbol), then the
    symbols; the next byte holds a 1 bit, the code of symbol 200. *)
Definition simple_reader : VP8LBitReader :=
  VP8LInitBitReader [0x1f; 0x40; 0x0e; 0x01]%Z.
End CodeTablesExamples.

Import CodeTablesExamples.

Lemma ReadHuffmanCode_decodes_witness :
  exists size t cl' br',
    ReadHuffmanCode VP8LBuildHuffmanTable 256 (replicate 256 0%nat) simple_reader = (size, t, cl', br') /\
    (0 < size)%nat /\
    ReadSymbol t br' = (200%nat, mkBitReader (buf_ br') (bit_pos_ br' + 1) false).
Proof.
  let v := eval vm_compute in
    (ReadHuffmanCode VP8LBuildHuffmanTable 256 (replicate 256 0%nat) simple_reader) in
  assert (E : ReadHuffmanCode VP8LBuildHuffmanTable 256 (replicate 256 0%nat) simple_reader = v)
    by (vm_compute; reflexivity);
  match v with (?size, ?t, ?cl', ?br') => exists size, t, cl', br' end.
  split; [exact E|]. split; [lia|].
  destruct (ReadHuffmanCode_decodes 256 (replicate 256 0%nat) simple_reader _ _ _ _ E
              ltac:(lia)) as [(s & Hs & _)|Hdec].
  - vm_compute in Hs. discriminate.
  - apply (Hdec 200%nat); [split; vm_compute; lia|reflexivity|vm_compute; lia|vm_compute; reflexivity].
Defined.

Lemma ReadHuffmanCode_symbol_bounds_witness :
  exists size t cl' br',
    ReadHuffmanCode VP8LBuildHuffmanTable 256 (replicate 256 0%nat) simple_reader = (size, t, cl', br') /\
    (0 < size)%nat /\ table_ok t /\
    (bit_pos_ (snd (ReadSymbol t br')) <= bit_pos_ br' + 15)%nat /\ (fst (ReadSymbol t br') < 256)%nat.
Proof.
  let v := eval vm_compute in
    (ReadHuffmanCode VP8LBuildHuffmanTable 256 (replicate 256 0%nat) simple_reader) in
  assert (E : ReadHuffmanCode VP8LBuildHuffmanTable 256 (replicate 256 0%nat) simple_reader = v)
    by (vm_compute; reflexivity);
  match v with (?size, ?t, ?cl', ?br') => exists size, t, cl', br' end.
  split; [exact E|]. split; [lia|].
  destruct (ReadHuffmanCode_symbol_bounds 256 (replicate 256 0%nat) simple_reader _ _ _ _ E ltac:(lia))
    as [Ht Hc].
  split; [exact Ht|]. split; [eapply proj2, proj1, Hc | eapply proj2, Hc].
Defined.

Lemma ReadHuffmanCode_simple_out_of_alphabet_witness :
  ReadHuffmanCode VP8LBuildHuffmanTable 40 (replicate 280 0%nat) (VP8LInitBitReader (le_bytes 3 92207)) =
    (256%nat, trivial_table 5,
     <[45%nat := 1%nat]> (<[5%nat := 1%nat]> (replicate 40 0%nat ++ drop 40 (replicate 280 0%nat))),
     mkBitReader (le_bytes 3 92207) 19 false).
Proof.
  apply ReadHuffmanCode_simple_out_of_alphabet; [lia | lia | reflexivity | vm_compute; lia | vm_compute; reflexivity].
Defined.
