(* ===== verification/Entropy.v ===== *)
(** * The entropy decoder: [DecodeImageData]

    Models the decoder state ([VP8LDecoder], [VP8LMetadata],
    [VP8StatusCode]), [GetMetaIndex], [GetHtreeGroupForPos], [SaveState],
    [RestoreState] and the main LZ77 / prefix-code / color-cache loop
    [DecodeImageData] of [vp8l.cpp].  The loop body is [decode_step], one
    iteration of the C [while (src < src_last)] loop, returning
    [Continue], [Break] (the [break]s on end of stream) or [Fail] (the
    [goto Error]s); [decode_loop] runs it with fuel and
    [DecodeImageData] adds the epilogue (restore on suspension, final row
    hook, status).  The pixel raster [data] is threaded explicitly; the
    row hook [process_func] receives the decoder and the raster (in
    [VP8LDecodeImage] the raster is [dec->pixels_] itself) and returns the
    updated decoder; it never writes the raster ([ProcessRows] writes to
    [argb_cache_], which lies after the raster in the same allocation). *)

From S2P Require Import Prelude BitReader Prefix ColorCache CopyBlock Huffman.
From Stdlib Require Import Lia.

Local Open Scope Z_scope.
Local Open Scope vp8l_scope.

Inductive VP8StatusCode :=
  | VP8_STATUS_OK
  | VP8_STATUS_OUT_OF_MEMORY
  | VP8_STATUS_INVALID_PARAM
  | VP8_STATUS_BITSTREAM_ERROR
  | VP8_STATUS_UNSUPPORTED_FEATURE
  | VP8_STATUS_SUSPENDED
  | VP8_STATUS_USER_ABORT
  | VP8_STATUS_NOT_ENOUGH_DATA.

#[export] Instance VP8StatusCode_eq_dec : EqDecision VP8StatusCode.
Proof. solve_decision. Defined.

Record VP8LMetadata := mkMetadata {
  color_cache_size_ : nat;
  color_cache_ : VP8LColorCache;
  saved_color_cache_ : VP8LColorCache;
  huffman_mask_ : Z;
  huffman_subsample_bits_ : nat;
  huffman_xsize_ : nat;
  huffman_image_ : list Z;
  num_htree_groups_ : nat;
  htree_groups_ : list HTreeGroup
}.

Record VP8LDecoder := mkDecoder {
  status_ : VP8StatusCode;
  br_ : VP8LBitReader;
  saved_br_ : VP8LBitReader;
  saved_last_pixel_ : nat;
  last_pixel_ : nat;
  incremental_ : bool;
  hdr_ : VP8LMetadata;
  width_ : nat;
  height_ : nat;
  last_row_ : nat;
  last_out_row_ : nat
}.

(** ** Field updates *)

Definition set_color_cache (h : VP8LMetadata) (cc : VP8LColorCache) : VP8LMetadata :=
  mkMetadata (color_cache_size_ h) cc (saved_color_cache_ h) (huffman_mask_ h)
    (huffman_subsample_bits_ h) (huffman_xsize_ h) (huffman_image_ h)
    (num_htree_groups_ h) (htree_groups_ h).

Definition set_saved_color_cache (h : VP8LMetadata) (cc : VP8LColorCache) : VP8LMetadata :=
  mkMetadata (color_cache_size_ h) (color_cache_ h) cc (huffman_mask_ h)
    (huffman_subsample_bits_ h) (huffman_xsize_ h) (huffman_image_ h)
    (num_htree_groups_ h) (htree_groups_ h).

Definition set_hdr (d : VP8LDecoder) (h : VP8LMetadata) : VP8LDecoder :=
  mkDecoder (status_ d) (br_ d) (saved_br_ d) (saved_last_pixel_ d) (last_pixel_ d)
    (incremental_ d) h (width_ d) (height_ d) (last_row_ d) (last_out_row_ d).

Definition set_br (d : VP8LDecoder) (br : VP8LBitReader) : VP8LDecoder :=
  mkDecoder (status_ d) br (saved_br_ d) (saved_last_pixel_ d) (last_pixel_ d)
    (incremental_ d) (hdr_ d) (width_ d) (height_ d) (last_row_ d) (last_out_row_ d).

Definition set_status (d : VP8LDecoder) (s : VP8StatusCode) : VP8LDecoder :=
  mkDecoder s (br_ d) (saved_br_ d) (saved_last_pixel_ d) (last_pixel_ d)
    (incremental_ d) (hdr_ d) (width_ d) (height_ d) (last_row_ d) (last_out_row_ d).

Definition set_last_pixel (d : VP8LDecoder) (p : nat) : VP8LDecoder :=
  mkDecoder (status_ d) (br_ d) (saved_br_ d) (saved_last_pixel_ d) p
    (incremental_ d) (hdr_ d) (width_ d) (height_ d) (last_row_ d) (last_out_row_ d).

Definition set_snapshot (d : VP8LDecoder) (br : VP8LBitReader) (p : nat) : VP8LDecoder :=
  mkDecoder (status_ d) (br_ d) br p (last_pixel_ d)
    (incremental_ d) (hdr_ d) (width_ d) (height_ d) (last_row_ d) (last_out_row_ d).

(** ** Meta-Huffman lookup *)

Definition GetMetaIndex (image : list Z) (xsize bits x y : nat) : nat :=
  if (bits =? 0)%nat then 0%nat
  else Z.to_nat (image !!! (xsize * Nat.shiftr y bits + Nat.shiftr x bits))%nat.

Definition GetHtreeGroupForPos (hdr : VP8LMetadata) (x y : nat) : HTreeGroup :=
  htree_groups_ hdr !!! GetMetaIndex (huffman_image_ hdr) (huffman_xsize_ hdr)
                          (huffman_subsample_bits_ hdr) x y.

(** ** Snapshots *)

Definition SaveState (dec : VP8LDecoder) (last_pixel : nat) : VP8LDecoder :=
  let dec := set_snapshot dec (br_ dec) last_pixel in
  if (0 <? color_cache_size_ (hdr_ dec))%nat then
    set_hdr dec (set_saved_color_cache (hdr_ dec)
      (VP8LColorCacheCopy (color_cache_ (hdr_ dec)) (saved_color_cache_ (hdr_ dec))))
  else dec.

Definition RestoreState (dec : VP8LDecoder) : VP8LDecoder :=
  let dec := set_status dec VP8_STATUS_SUSPENDED in
  let dec := set_last_pixel (set_br dec (saved_br_ dec)) (saved_last_pixel_ dec) in
  if (0 <? color_cache_size_ (hdr_ dec))%nat then
    set_hdr dec (set_color_cache (hdr_ dec)
      (VP8LColorCacheCopy (saved_color_cache_ (hdr_ dec)) (color_cache_ (hdr_ dec))))
  else dec.

(** ** The loop *)

Definition NUM_ARGB_CACHE_ROWS : nat := 16.
Definition SYNC_EVERY_N_ROWS : nat := 8.

(** The row hook [process_func] ([ProcessRows], [ExtractAlphaRows], or
    [NULL] for the recursive sub-images). *)
Definition ProcessRowsFunc := VP8LDecoder -> list Z -> nat -> VP8LDecoder.

(** The arguments of [DecodeImageData] that stay fixed during the loop;
    [data_addr] is the address of [data], for the alignment tests of
    [CopyBlock32b]. *)
Record LoopParams := mkLoopParams {
  lp_width : nat;
  lp_height : nat;
  lp_last_row : nat;
  lp_process : option ProcessRowsFunc;
  lp_data_addr : Z
}.

(** The local variables of [DecodeImageData]. *)
Record LoopState := mkLoopState {
  ls_dec : VP8LDecoder;
  ls_data : list Z;
  ls_src : nat;            (** [src - data] *)
  ls_col : nat;
  ls_row : nat;
  ls_last_cached : nat;    (** [last_cached - data] *)
  ls_next_sync_row : nat;
  ls_group : HTreeGroup
}.

Inductive StepResult :=
  | Continue (s : LoopState)
  | Break (s : LoopState)
  | Fail (s : LoopState).

Definition color_cache_on (dec : VP8LDecoder) : bool := (0 <? color_cache_size_ (hdr_ dec))%nat.

(** [while (last_cached < src) VP8LColorCacheInsert(color_cache, *last_cached++);] *)
Definition flush_cache (dec : VP8LDecoder) (data : list Z) (last_cached src : nat) : VP8LDecoder :=
  if color_cache_on dec then
    set_hdr dec (set_color_cache (hdr_ dec)
      (insert_all (color_cache_ (hdr_ dec)) (slice data last_cached src)))
  else dec.

Definition call_process (lp : LoopParams) (dec : VP8LDecoder) (data : list Z) (row : nat)
  : VP8LDecoder :=
  if (row mod NUM_ARGB_CACHE_ROWS =? 0)%nat then
    match lp_process lp with Some f => f dec data row | None => dec end
  else dec.

(** [while (col >= width) { col -= width; ++row; hook }], with fuel. *)
Fixpoint wrap_rows (fuel : nat) (lp : LoopParams) (dec : VP8LDecoder) (data : list Z)
    (col row : nat) : VP8LDecoder * nat * nat :=
  match fuel with
  | O => (dec, col, row)
  | S fuel' =>
      if (lp_width lp <=? col)%nat then
        wrap_rows fuel' lp (call_process lp dec data (S row)) data (col - lp_width lp) (S row)
      else (dec, col, row)
  end.

(** The label [AdvanceByOne]: one pixel was written at [src]. *)
Definition advance_by_one (lp : LoopParams) (s : LoopState) : StepResult :=
  let src := S (ls_src s) in
  let col := S (ls_col s) in
  if (lp_width lp <=? col)%nat then
    let row := S (ls_row s) in
    let dec := call_process lp (ls_dec s) (ls_data s) row in
    let dec := flush_cache dec (ls_data s) (ls_last_cached s) src in
    Continue (mkLoopState dec (ls_data s) src 0 row
                (if color_cache_on dec then src else ls_last_cached s)
                (ls_next_sync_row s) (ls_group s))
  else
    Continue (mkLoopState (ls_dec s) (ls_data s) src col (ls_row s) (ls_last_cached s)
                (ls_next_sync_row s) (ls_group s)).

Definition with_br (s : LoopState) (br : VP8LBitReader) : LoopState :=
  mkLoopState (set_br (ls_dec s) br) (ls_data s) (ls_src s) (ls_col s) (ls_row s)
    (ls_last_cached s) (ls_next_sync_row s) (ls_group s).

Definition with_pixel (s : LoopState) (br : VP8LBitReader) (pix : Z) : LoopState :=
  mkLoopState (set_br (ls_dec s) br) (<[ls_src s := pix]> (ls_data s)) (ls_src s) (ls_col s)
    (ls_row s) (ls_last_cached s) (ls_next_sync_row s) (ls_group s).

(** [if (row >= next_sync_row) { SaveState(dec, src); next_sync_row = row + 8; }] *)
Definition sync_point (s : LoopState) : LoopState :=
  if (ls_next_sync_row s <=? ls_row s)%nat then
    mkLoopState (SaveState (ls_dec s) (ls_src s)) (ls_data s) (ls_src s) (ls_col s)
      (ls_row s) (ls_last_cached s) (ls_row s + SYNC_EVERY_N_ROWS)%nat (ls_group s)
  else s.

(** [if ((col & mask) == 0) htree_group = GetHtreeGroupForPos(hdr, col, row);] *)
Definition refresh_group (s : LoopState) : LoopState :=
  let hdr := hdr_ (ls_dec s) in
  let grp := if Z.of_nat (ls_col s) .& huffman_mask_ hdr =? 0
             then GetHtreeGroupForPos hdr (ls_col s) (ls_row s) else ls_group s in
  mkLoopState (ls_dec s) (ls_data s) (ls_src s) (ls_col s) (ls_row s) (ls_last_cached s)
    (ls_next_sync_row s) grp.

(** A literal [code < NUM_LITERAL_CODES]: compose the pixel and advance. *)
Definition literal_case (lp : LoopParams) (s : LoopState) (br : VP8LBitReader) (code : nat)
  : StepResult :=
  let grp := ls_group s in
  if is_trivial_literal grp then
    advance_by_one lp (with_pixel s br (literal_arb grp .| (Z.of_nat code << 8)))
  else
    let '(red, br) := ReadSymbol (htree grp RED) br in
    let br := VP8LFillBitWindow br in
    let '(blue, br) := ReadSymbol (htree grp BLUE) br in
    let '(alpha, br) := ReadSymbol (htree grp ALPHA) br in
    if eos_ br then Break (with_br s br)
    else advance_by_one lp (with_pixel s br
           (u32 (Z.of_nat alpha << 24) .| (Z.of_nat red << 16) .| (Z.of_nat code << 8)
              .| Z.of_nat blue)).

(** A backward reference [code < NUM_LITERAL_CODES + NUM_LENGTH_CODES]. *)
Definition backref_case (lp : LoopParams) (s : LoopState) (br : VP8LBitReader) (code : nat)
  : StepResult :=
  let width := lp_width lp in
  let src_end := (width * lp_height lp)%nat in
  let grp := ls_group s in
  let hdr := hdr_ (ls_dec s) in
  let '(length, br) := GetCopyLength (code - NUM_LITERAL_CODES) br in
  let '(dist_symbol, br) := ReadSymbol (htree grp DIST) br in
  let br := VP8LFillBitWindow br in
  let '(dist_code, br) := GetCopyDistance dist_symbol br in
  let dist := PlaneCodeToDistance width dist_code in
  if eos_ br then Break (with_br s br)
  else if (ls_src s <? dist)%nat || (src_end - ls_src s <? length)%nat then Fail (with_br s br)
  else
    let data := CopyBlock32b (ls_data s) (ls_src s) (lp_data_addr lp + 4 * Z.of_nat (ls_src s))
                  dist length in
    let src := (ls_src s + length)%nat in
    let '(dec, col, row) :=
      wrap_rows (S (ls_col s + length)) lp (set_br (ls_dec s) br) data (ls_col s + length)
        (ls_row s) in
    let grp := if Z.of_nat col .& huffman_mask_ hdr =? 0 then grp
               else GetHtreeGroupForPos hdr col row in
    Continue (mkLoopState (flush_cache dec data (ls_last_cached s) src) data src col row
                (if color_cache_on dec then src else ls_last_cached s)
                (ls_next_sync_row s) grp).

(** A color-cache reference [code < color_cache_limit]. *)
Definition cache_case (lp : LoopParams) (s : LoopState) (br : VP8LBitReader) (code : nat)
  : StepResult :=
  let key := (code - (NUM_LITERAL_CODES + NUM_LENGTH_CODES))%nat in
  let dec := flush_cache (set_br (ls_dec s) br) (ls_data s) (ls_last_cached s) (ls_src s) in
  let lc := if color_cache_on dec then ls_src s else ls_last_cached s in
  let pix := VP8LColorCacheLookup (color_cache_ (hdr_ dec)) key in
  advance_by_one lp (mkLoopState dec (<[ls_src s := pix]> (ls_data s)) (ls_src s) (ls_col s)
                       (ls_row s) lc (ls_next_sync_row s) (ls_group s)).

(** One iteration of the body of [while (src < src_last)]. *)
Definition decode_step (lp : LoopParams) (s : LoopState) : StepResult :=
  let s := refresh_group (sync_point s) in
  let len_code_limit := (NUM_LITERAL_CODES + NUM_LENGTH_CODES)%nat in
  let color_cache_limit := (len_code_limit + color_cache_size_ (hdr_ (ls_dec s)))%nat in
  let '(code, br) := ReadSymbol (htree (ls_group s) GREEN) (VP8LFillBitWindow (br_ (ls_dec s))) in
  if eos_ br then Break (with_br s br)
  else if (code <? NUM_LITERAL_CODES)%nat then literal_case lp s br code
  else if (code <? len_code_limit)%nat then backref_case lp s br code
  else if (code <? color_cache_limit)%nat then cache_case lp s br code
  else Fail (with_br s br).

Fixpoint decode_loop (fuel : nat) (lp : LoopParams) (s : LoopState) : option StepResult :=
  match fuel with
  | O => None
  | S fuel' =>
      if (ls_src s <? lp_width lp * lp_last_row lp)%nat then
        match decode_step lp s with
        | Continue s' => decode_loop fuel' lp s'
        | r => Some r
        end
      else Some (Continue s)
  end.

(** [DecodeImageData(dec, data, width, height, last_row, process_func)]:
    [Some (ok, dec, data)], or [None] when the fuel runs out. *)
Definition DecodeImageData (fuel : nat) (lp : LoopParams) (dec : VP8LDecoder) (data : list Z)
  : option (bool * VP8LDecoder * list Z) :=
  let width := lp_width lp in
  let row := (last_pixel_ dec / width)%nat in
  let col := (last_pixel_ dec mod width)%nat in
  let s0 := mkLoopState dec data (last_pixel_ dec) col row (last_pixel_ dec)
              (if incremental_ dec then row else 2 ^ 24)%nat
              (GetHtreeGroupForPos (hdr_ dec) col row) in
  let error s := Some (false, set_status (ls_dec s) VP8_STATUS_BITSTREAM_ERROR, ls_data s) in
  match decode_loop fuel lp s0 with
  | None => None
  | Some (Fail s) => error s
  | Some (Continue s) | Some (Break s) =>
      let dec := ls_dec s in
      if incremental_ dec && eos_ (br_ dec) && (ls_src s <? width * lp_height lp)%nat then
        Some (true, RestoreState dec, ls_data s)
      else if negb (eos_ (br_ dec)) then
        let dec := match lp_process lp with Some f => f dec (ls_data s) (ls_row s) | None => dec end in
        Some (true, set_last_pixel (set_status dec VP8_STATUS_OK) (ls_src s), ls_data s)
      else error s
  end.

(** ** Lemmas on one iteration *)

Lemma GetCopyLength_pos (sym : nat) (br : VP8LBitReader) :
  (1 <= fst (GetCopyLength sym br))%nat.
Proof. apply GetCopyDistance_pos. Qed.

Lemma advance_by_one_src (lp : LoopParams) (s s' : LoopState) :
  advance_by_one lp s = Continue s' -> ls_src s' = S (ls_src s).
Proof. unfold advance_by_one. destruct (_ <=? _)%nat; intros [= <-]; reflexivity. Qed.

Lemma wrap_rows_data_free (fuel : nat) (lp : LoopParams) (dec : VP8LDecoder) (data : list Z)
    (col row : nat) :
  (lp_width lp <> 0)%nat ->
  let '(_, col', row') := wrap_rows fuel lp dec data col row in
  (row' * lp_width lp + col' = row * lp_width lp + col)%nat.
Proof.
  intros Hw. revert dec col row. induction fuel as [|f IH]; intros dec col row; simpl; [lia|].
  destruct (Nat.leb_spec (lp_width lp) col); [|lia].
  specialize (IH (call_process lp dec data (S row)) (col - lp_width lp)%nat (S row)).
  destruct (wrap_rows f lp _ data _ _) as [[d c] r]. lia.
Qed.

Lemma literal_case_progress (lp : LoopParams) (s s' : LoopState) br code :
  literal_case lp s br code = Continue s' -> ls_src s' = S (ls_src s).
Proof.
  unfold literal_case. destruct (is_trivial_literal _).
  - intros H. apply advance_by_one_src in H. exact H.
  - repeat (destruct (ReadSymbol _ _)). destruct (eos_ _); [discriminate|].
    intros H. apply advance_by_one_src in H. exact H.
Qed.

Lemma cache_case_progress (lp : LoopParams) (s s' : LoopState) br code :
  cache_case lp s br code = Continue s' -> ls_src s' = S (ls_src s).
Proof. intros H. apply advance_by_one_src in H. exact H. Qed.

Lemma backref_case_progress (lp : LoopParams) (s s' : LoopState) br code :
  backref_case lp s br code = Continue s' -> (ls_src s < ls_src s')%nat.
Proof.
  unfold backref_case.
  pose proof (GetCopyLength_pos (code - NUM_LITERAL_CODES) br) as HL.
  destruct (GetCopyLength _ br) as [len br1]. simpl in HL.
  destruct (ReadSymbol _ br1) as [ds br2]. destruct (GetCopyDistance _ _) as [dc br3].
  destruct (eos_ br3); [discriminate|]. destruct (_ || _); [discriminate|].
  destruct (wrap_rows _ _ _ _ _ _) as [[d c] r]. intros [= <-]. simpl. lia.
Qed.

Lemma sync_refresh_src (s : LoopState) : ls_src (refresh_group (sync_point s)) = ls_src s.
Proof. unfold refresh_group, sync_point. destruct (_ <=? _)%nat; reflexivity. Qed.

(** Every iteration that goes on decodes at least one pixel. *)
Lemma decode_step_progress (lp : LoopParams) (s s' : LoopState) :
  decode_step lp s = Continue s' -> (ls_src s < ls_src s')%nat.
Proof.
  unfold decode_step. rewrite <- (sync_refresh_src s). generalize (refresh_group (sync_point s)).
  intros s1. destruct (ReadSymbol _ _) as [code br].
  destruct (eos_ br); [discriminate|].
  destruct (code <? _)%nat; [intros H; apply literal_case_progress in H; lia|].
  destruct (code <? _)%nat; [apply backref_case_progress|].
  destruct (code <? _)%nat; [intros H; apply cache_case_progress in H; lia|discriminate].
Qed.

Lemma decode_loop_some (fuel : nat) (lp : LoopParams) (s : LoopState) :
  (lp_width lp * lp_last_row lp - ls_src s < fuel)%nat -> decode_loop fuel lp s <> None.
Proof.
  revert s. induction fuel as [|f IH]; intros s Hf; [lia|]. simpl.
  destruct (Nat.ltb_spec (ls_src s) (lp_width lp * lp_last_row lp)); [|discriminate].
  destruct (decode_step lp s) as [s'|s'|s'] eqn:E; try discriminate.
  apply IH. apply decode_step_progress in E. lia.
Qed.

(** ** The raster keeps its size *)

(** The state an iteration ends in, whatever its outcome. *)
Definition step_state (r : StepResult) : LoopState :=
  match r with Continue s | Break s | Fail s => s end.

Lemma advance_by_one_data (lp : LoopParams) (s : LoopState) :
  ls_data (step_state (advance_by_one lp s)) = ls_data s.
Proof. unfold advance_by_one. destruct (_ <=? _)%nat; reflexivity. Qed.

(** Every iteration writes inside the raster: [insert] and [CopyBlock32b]
    keep its length. *)
Lemma decode_step_length (lp : LoopParams) (s : LoopState) :
  length (ls_data (step_state (decode_step lp s))) = length (ls_data s).
Proof.
  assert (Hsr : ls_data (refresh_group (sync_point s)) = ls_data s)
    by (unfold refresh_group, sync_point; destruct (_ <=? _)%nat; reflexivity).
  unfold decode_step. set (t := refresh_group (sync_point s)) in *.
  destruct (ReadSymbol _ _) as [code br].
  destruct (eos_ br); [cbn [step_state with_br ls_data]; congruence|].
  destruct (code <? _)%nat; [|destruct (code <? _)%nat; [|destruct (code <? _)%nat]].
  - unfold literal_case. destruct (is_trivial_literal _).
    + rewrite advance_by_one_data. cbn [with_pixel ls_data]. rewrite length_insert. congruence.
    + destruct (ReadSymbol _ br) as [red br1]. destruct (ReadSymbol _ _) as [blue br2].
      destruct (ReadSymbol _ br2) as [alpha br3]. destruct (eos_ br3); [cbn [step_state with_br ls_data]; congruence|].
      rewrite advance_by_one_data. cbn [with_pixel ls_data]. rewrite length_insert. congruence.
  - unfold backref_case. destruct (GetCopyLength _ _) as [len br1].
    destruct (ReadSymbol _ _) as [ds br2]. destruct (GetCopyDistance _ _) as [dc br3].
    destruct (eos_ br3); [cbn [step_state with_br ls_data]; congruence|]. destruct (_ || _); [cbn [step_state with_br ls_data]; congruence|].
    destruct (CopyBlock32b_frame (ls_data t) (ls_src t) (lp_data_addr lp + 4 * Z.of_nat (ls_src t))
                (PlaneCodeToDistance (lp_width lp) dc) len) as [Hl _].
    destruct (wrap_rows _ _ _ _ _ _) as [[d c] r]. cbn [step_state ls_data]. congruence.
  - unfold cache_case. rewrite advance_by_one_data. cbn [with_pixel ls_data]. rewrite length_insert. congruence.
  - cbn [step_state with_br ls_data]. congruence.
Qed.

Lemma decode_loop_length (fuel : nat) (lp : LoopParams) (s : LoopState) (r : StepResult) :
  decode_loop fuel lp s = Some r -> length (ls_data (step_state r)) = length (ls_data s).
Proof.
  revert s. induction fuel as [|f IH]; intros s; simpl; [discriminate|].
  destruct (_ <? _)%nat; [|intros [= <-]; reflexivity].
  pose proof (decode_step_length lp s) as Hs.
  destruct (decode_step lp s) as [s'|s'|s']; intros H;
    [rewrite (IH _ H); exact Hs|injection H as <-; exact Hs|injection H as <-; exact Hs].
Qed.

(** [DecodeImageData] returns a raster of the length it was given. *)
Lemma DecodeImageData_length (fuel : nat) (lp : LoopParams) (dec dec' : VP8LDecoder)
    (data data' : list Z) (ok : bool) :
  DecodeImageData fuel lp dec data = Some (ok, dec', data') -> length data' = length data.
Proof.
  unfold DecodeImageData. destruct (decode_loop _ _ _) as [r|] eqn:E; [|discriminate].
  apply decode_loop_length in E.
  destruct r as [s|s|s]; simpl in E;
    [destruct (_ && _ && _); [|destruct (negb _)]|destruct (_ && _ && _); [|destruct (negb _)]|];
    intros [= _ _ <-]; exact E.
Qed.

(** ** Properties of [DecodeImageData] *)

(** C7: the decoding loop terminates: every
    iteration that does not leave the loop decodes at least one pixel, so
    [src_last - last_pixel + 1] iterations of fuel always suffice and
    [DecodeImageData] returns a result. *)
Theorem DecodeImageData_terminates (fuel : nat) (lp : LoopParams) (dec : VP8LDecoder)
    (data : list Z) :
  (lp_width lp * lp_last_row lp - last_pixel_ dec < fuel)%nat ->
  DecodeImageData fuel lp dec data <> None.
Proof.
  intros Hf. unfold DecodeImageData.
  match goal with |- match ?e with _ => _ end <> None => destruct e as [r|] eqn:E end.
  - destruct r as [s|s|s]; [destruct (_ && _ && _)|destruct (_ && _ && _)|]; try discriminate;
      destruct (negb _); discriminate.
  - exfalso. revert E. apply decode_loop_some. simpl. exact Hf.
Qed.

(** The status [DecodeImageData] leaves, by outcome. *)
Lemma DecodeImageData_status_cases (fuel : nat) (lp : LoopParams) (dec dec' : VP8LDecoder)
    (data data' : list Z) (ok : bool) :
  DecodeImageData fuel lp dec data = Some (ok, dec', data') ->
  if ok then status_ dec' = VP8_STATUS_OK \/ status_ dec' = VP8_STATUS_SUSPENDED
  else status_ dec' = VP8_STATUS_BITSTREAM_ERROR.
Proof.
  unfold DecodeImageData. destruct (decode_loop _ _ _) as [[s|s|s]|]; try discriminate.
  1,2: destruct (_ && _ && _);
    [intros H; injection H as <- <- _; right; unfold RestoreState;
     destruct (_ <? _)%nat; reflexivity|];
    destruct (negb _); intros H; injection H as <- <- _; [left|]; reflexivity.
  intros H; injection H as <- <- _; reflexivity.
Qed.

(** C8: the error contract of [DecodeImageData]: it
    returns 0 exactly with status [BITSTREAM_ERROR], and 1 with status
    [OK] (raster complete up to [last_row]) or [SUSPENDED] (incremental
    decoding ran out of input); no failure is silent. *)
Theorem DecodeImageData_status (fuel : nat) (lp : LoopParams) (dec dec' : VP8LDecoder)
    (data data' : list Z) (ok : bool) :
  DecodeImageData fuel lp dec data = Some (ok, dec', data') ->
  if ok then status_ dec' = VP8_STATUS_OK \/ status_ dec' = VP8_STATUS_SUSPENDED
  else status_ dec' = VP8_STATUS_BITSTREAM_ERROR.
Proof. apply DecodeImageData_status_cases. Qed.

(** ** Distance codes 1 and 2 *)

Lemma PlaneCodeToDistance_1 (xsize : nat) : (1 <= xsize)%nat -> PlaneCodeToDistance xsize 1 = xsize.
Proof.
  intros Hx. unfold PlaneCodeToDistance. change (CODE_TO_PLANE_CODES <? 1)%nat with false. cbv iota.
  change (kCodeToPlane !!! (1 - 1)%nat) with 0x18. change (0x18 >> 4) with 1.
  change (8 - 0x18 .& 0xf) with 0. rewrite Z.add_0_r, Z.mul_1_l.
  destruct (Z.geb_spec (Z.of_nat xsize) 1); [apply Nat2Z.id|lia].
Qed.

Lemma PlaneCodeToDistance_2 (xsize : nat) : PlaneCodeToDistance xsize 2 = 1%nat.
Proof.
  unfold PlaneCodeToDistance. change (CODE_TO_PLANE_CODES <? 2)%nat with false. cbv iota.
  change (kCodeToPlane !!! (2 - 1)%nat) with 0x07. change (0x07 >> 4) with 0.
  change (8 - 0x07 .& 0xf) with 1. rewrite Z.mul_0_l, Z.add_0_l. reflexivity.
Qed.

(** C35: distance symbol 0 is plane code 1 ([GetCopyDistance(0) = 1]),
    which [kCodeToPlane[0] = 0x18] maps to the pixel one row up (distance
    [xsize]); plane code 2 is the previous pixel.  So on the first row of
    the image every back-reference whose distance symbol is 0 ends the
    loop: with [BITSTREAM_ERROR] ([Fail]), or at the end of the stream
    ([Break]).  The spec (section 8) reads distance code 1 as the
    previous pixel. *)
Theorem plane_code_1_is_row_above (lp : LoopParams) (s : LoopState) (br : VP8LBitReader) (code : nat) :
  (1 <= lp_width lp)%nat -> (ls_src s < lp_width lp)%nat ->
  fst (ReadSymbol (htree (ls_group s) DIST) (snd (GetCopyLength (code - NUM_LITERAL_CODES) br))) = 0%nat ->
  PlaneCodeToDistance (lp_width lp) 1 = lp_width lp /\ PlaneCodeToDistance (lp_width lp) 2 = 1%nat /\
  exists s', backref_case lp s br code = Fail s' \/ backref_case lp s br code = Break s'.
Proof.
  intros Hw Hs Hd. pose proof (PlaneCodeToDistance_1 _ Hw) as P1.
  split; [exact P1|]. split; [apply PlaneCodeToDistance_2|].
  unfold backref_case. destruct (GetCopyLength _ br) as [len br1]. cbn [snd] in Hd.
  destruct (ReadSymbol _ br1) as [ds br2]. cbn [fst] in Hd. subst ds.
  change (GetCopyDistance 0 (VP8LFillBitWindow br2)) with (1%nat, VP8LFillBitWindow br2).
  cbv beta iota zeta. rewrite P1. destruct (eos_ (VP8LFillBitWindow br2)); [eexists; right; reflexivity|].
  destruct (Nat.ltb_spec (ls_src s) (lp_width lp)) as [_|]; [|lia].
  cbn [orb]. eexists; left; reflexivity.
Qed.

(** ** Concrete decodes

    A 4x1 image whose green code is one bit: [0] is the literal green 0,
    [1] the length symbol 2 (a copy of 3 pixels); red, blue and alpha are
    trivial with [literal_arb = 0xff000000], so a literal is opaque black.
    The stream [0x02] reads: a literal, then a copy whose distance symbol
    is [dist_sym] (a one-symbol distance code). *)
Module Examples.
Definition green_lit_or_copy3 : HuffmanTable :=
  map (fun i => if Nat.even i then mkHuffmanCode 1 0 else mkHuffmanCode 1 258) (seq 0 256).

Definition group (dist_sym : nat) : HTreeGroup :=
  mkHTreeGroup [green_lit_or_copy3; trivial_table 0; trivial_table 0; trivial_table 0;
                trivial_table dist_sym] true 0xff000000.

Definition hdr (cache_size : nat) (dist_sym : nat) : VP8LMetadata :=
  mkMetadata cache_size (VP8LColorCacheInit 1) (VP8LColorCacheInit 1) (-1) 0 1 [] 1
    [group dist_sym].

Definition dec (cache_size : nat) (dist_sym : nat) : VP8LDecoder :=
  mkDecoder VP8_STATUS_OK (VP8LInitBitReader [2]) (VP8LInitBitReader [2]) 0 0 false
    (hdr cache_size dist_sym) 4 1 0 0.

Definition lp : LoopParams := mkLoopParams 4 1 1 None 0.

Definition black : Z := 0xff000000.
End Examples.

(** On the 4x1 image: distance symbol 0 fails after the first pixel. *)
Example plane_code_1_decode_fails :
  DecodeImageData 10 Examples.lp (Examples.dec 0 0) (replicate 4 0)
  = Some (false, set_status (set_br (Examples.dec 0 0) (mkBitReader [2] 2 false))
                   VP8_STATUS_BITSTREAM_ERROR, [Examples.black; 0; 0; 0]).
Proof. vm_compute. reflexivity. Qed.

(** Distance symbol 1 is plane code 2, [kCodeToPlane[1] = 0x07]: the pixel
    just before.  The copy repeats the black pixel over the row. *)
Example plane_code_2_is_previous_pixel :
  DecodeImageData 10 Examples.lp (Examples.dec 0 1) (replicate 4 0)
  = Some (true, set_last_pixel (set_status (set_br (Examples.dec 0 1) (mkBitReader [2] 2 false))
                                  VP8_STATUS_OK) 4, replicate 4 Examples.black).
Proof. vm_compute. reflexivity. Qed.

Lemma DecodeImageData_terminates_witness :
  (lp_width Examples.lp * lp_last_row Examples.lp - last_pixel_ (Examples.dec 0 1) < 10)%nat /\
  DecodeImageData 10 Examples.lp (Examples.dec 0 1) (replicate 4 0) <> None.
Proof. split; [vm_compute; lia|apply DecodeImageData_terminates; vm_compute; lia]. Defined.

Lemma DecodeImageData_status_witness :
  match DecodeImageData 10 Examples.lp (Examples.dec 0 0) (replicate 4 0) with
  | Some (ok, d', data') =>
      DecodeImageData 10 Examples.lp (Examples.dec 0 0) (replicate 4 0) = Some (ok, d', data') /\
      (if ok then status_ d' = VP8_STATUS_OK \/ status_ d' = VP8_STATUS_SUSPENDED
       else status_ d' = VP8_STATUS_BITSTREAM_ERROR)
  | None => False
  end.
Proof.
  destruct (DecodeImageData 10 Examples.lp (Examples.dec 0 0) (replicate 4 0))
    as [[[ok d'] data']|] eqn:E; [|vm_compute in E; discriminate].
  split; [reflexivity|]. apply (DecodeImageData_status _ _ _ _ _ _ _ E).
Defined.

Lemma plane_code_1_is_row_above_witness :
  let s := mkLoopState (Examples.dec 0 0) [Examples.black; 0; 0; 0] 1 1 0 1 100 (Examples.group 0) in
  (1 <= lp_width Examples.lp)%nat /\ (ls_src s < lp_width Examples.lp)%nat /\
  exists s', backref_case Examples.lp s (mkBitReader [2] 1 false) 258 = Fail s' \/
             backref_case Examples.lp s (mkBitReader [2] 1 false) 258 = Break s'.
Proof.
  intros s. split; [vm_compute; lia|]. split; [vm_compute; lia|].
  apply (plane_code_1_is_row_above Examples.lp s (mkBitReader [2] 1 false) 258);
    [vm_compute; lia | vm_compute; lia | vm_compute; reflexivity].
Defined.
