(* ===== verification/EntropyCache.v ===== *)
(** * The color-cache invariant of [DecodeImageData]

    The spec (section 3, "ColorCache") requires that the pixels already
    written enter the cache in raster order before a cache reference is
    resolved, and (section 4.5) that a suspended decode restarts from a
    snapshot.  This file proves that [DecodeImageData] keeps the invariant
    [loop_inv]: the live cache is the initial cache with the pixels
    [p0 .. last_cached) inserted in order; [last_cached] lags behind [src]
    only in the middle of a row (never at a sync row, where [SaveState]
    runs); the snapshot holds the cache of its own [saved_last_pixel].
    It concludes that after a successful call, completed or suspended,
    the cache is the initial one with the pixels [p0 .. last_pixel)
    inserted in raster order. *)

From S2P Require Import Prelude BitReader Prefix ColorCache CopyBlock Huffman Entropy.
From Stdlib Require Import Lia.

Local Open Scope Z_scope.
Local Open Scope vp8l_scope.

(** The row hook touches neither the metadata (caches, trees) nor the bit
    reader, the snapshot or the mode: [ProcessRows] only moves
    [last_row_], [last_out_row_] and the output. *)
Definition hook_preserves (f : ProcessRowsFunc) : Prop :=
  forall d data row,
    hdr_ (f d data row) = hdr_ d /\ br_ (f d data row) = br_ d /\
    saved_last_pixel_ (f d data row) = saved_last_pixel_ d /\
    incremental_ (f d data row) = incremental_ d.

Lemma insert_all_geometry (cc : VP8LColorCache) (l : list Z) :
  hash_shift_ (insert_all cc l) = hash_shift_ cc /\ hash_bits_ (insert_all cc l) = hash_bits_ cc.
Proof.
  revert cc. induction l as [|x l IH]; intros cc; simpl; [auto|].
  destruct (IH (VP8LColorCacheInsert cc x)) as [-> ->]. auto.
Qed.

Lemma SaveState_spec (d : VP8LDecoder) (p : nat) :
  let d' := SaveState d p in
  color_cache_size_ (hdr_ d') = color_cache_size_ (hdr_ d) /\
  color_cache_ (hdr_ d') = color_cache_ (hdr_ d) /\ incremental_ d' = incremental_ d /\
  saved_last_pixel_ d' = p /\
  ((0 < color_cache_size_ (hdr_ d))%nat ->
   colors_ (saved_color_cache_ (hdr_ d')) = colors_ (color_cache_ (hdr_ d))).
Proof.
  unfold SaveState. simpl. destruct (Nat.ltb_spec 0 (color_cache_size_ (hdr_ d)));
    simpl; split_and!; auto; lia.
Qed.

(** Every [break] of the loop is an end of stream. *)
Lemma decode_step_break (lp : LoopParams) (s s' : LoopState) :
  decode_step lp s = Break s' -> eos_ (br_ (ls_dec s')) = true.
Proof.
  assert (Hadv : forall t, advance_by_one lp t <> Break s')
    by (intros t; unfold advance_by_one; destruct (_ <=? _)%nat; discriminate).
  unfold decode_step. destruct (ReadSymbol _ _) as [code br].
  destruct (eos_ br) eqn:E; [intros [= <-]; exact E|].
  destruct (code <? _)%nat.
  { unfold literal_case. destruct (is_trivial_literal _); [intros H; contradict H; apply Hadv|].
    destruct (ReadSymbol _ br) as [red br1]. destruct (ReadSymbol _ _) as [blue br2].
    destruct (ReadSymbol _ br2) as [alpha br3].
    destruct (eos_ br3) eqn:E3; [intros [= <-]; exact E3|intros H; contradict H; apply Hadv]. }
  destruct (code <? _)%nat.
  { unfold backref_case. destruct (GetCopyLength _ br) as [len br1].
    destruct (ReadSymbol _ br1) as [ds br2]. destruct (GetCopyDistance _ _) as [dc br3].
    destruct (eos_ br3) eqn:E3; [intros [= <-]; exact E3|].
    destruct (_ || _); [discriminate|]. destruct (wrap_rows _ _ _ _ _ _) as [[? ?] ?].
    discriminate. }
  destruct (code <? _)%nat; [intros H; contradict H; apply Hadv|discriminate].
Qed.

Section CacheInvariant.
  Context (lp : LoopParams) (p0 : nat) (c0 : VP8LColorCache) (size0 : nat) (inc0 : bool).
  Hypothesis HW : (1 <= lp_width lp)%nat.
  Hypothesis HLR : (lp_last_row lp <= lp_height lp)%nat.
  Hypothesis Hhook : forall f, lp_process lp = Some f -> hook_preserves f.

  Local Abbreviation W := (lp_width lp).
  Local Abbreviation N := (lp_width lp * lp_height lp)%nat.
  Local Abbreviation LAST := (lp_width lp * lp_last_row lp)%nat.

  (** The part of the decoder the loop must not disturb. *)
Definition dec_frame (d : VP8LDecoder) : Prop :=
    color_cache_size_ (hdr_ d) = size0 /\ incremental_ d = inc0.

Definition snapshot_ok (d : VP8LDecoder) (data : list Z) (src lc : nat) : Prop :=
    inc0 = true ->
    (p0 <= saved_last_pixel_ d <= src)%nat /\
    ((0 < size0)%nat -> (saved_last_pixel_ d <= lc)%nat /\
       colors_ (saved_color_cache_ (hdr_ d))
       = colors_ (insert_all c0 (slice data p0 (saved_last_pixel_ d)))).

Definition cache_ok (d : VP8LDecoder) (data : list Z) (src col row lc next_sync : nat) : Prop :=
    (0 < size0)%nat ->
    color_cache_ (hdr_ d) = insert_all c0 (slice data p0 lc) /\
    ((lc < src)%nat -> (0 < col)%nat /\ (row < next_sync)%nat /\ (src <= LAST)%nat).

Definition loop_inv (s : LoopState) : Prop :=
    length (ls_data s) = N /\
    (p0 <= ls_last_cached s <= ls_src s)%nat /\ (ls_src s <= N)%nat /\
    (ls_row s * W + ls_col s = ls_src s)%nat /\ (ls_col s < W)%nat /\
    dec_frame (ls_dec s) /\
    cache_ok (ls_dec s) (ls_data s) (ls_src s) (ls_col s) (ls_row s) (ls_last_cached s)
      (ls_next_sync_row s) /\
    snapshot_ok (ls_dec s) (ls_data s) (ls_src s) (ls_last_cached s).

  (** ** The hook and the row wrap-around *)

Lemma call_process_frame (d : VP8LDecoder) (data : list Z) (row : nat) :
    let d' := call_process lp d data row in
    hdr_ d' = hdr_ d /\ br_ d' = br_ d /\ saved_last_pixel_ d' = saved_last_pixel_ d /\
    incremental_ d' = incremental_ d.
  Proof.
    unfold call_process. destruct (_ =? _)%nat; [|auto].
    destruct (lp_process lp) as [f|] eqn:E; [|auto]. apply (Hhook f eq_refl).
  Qed.

Lemma wrap_rows_frame (fuel : nat) (d : VP8LDecoder) (data : list Z) (col row : nat) :
    let '(d', col', row') := wrap_rows fuel lp d data col row in
    hdr_ d' = hdr_ d /\ br_ d' = br_ d /\ saved_last_pixel_ d' = saved_last_pixel_ d /\
    incremental_ d' = incremental_ d /\
    (row' * W + col' = row * W + col)%nat /\ ((col < fuel)%nat -> (col' < W)%nat).
  Proof.
    revert d col row. induction fuel as [|f IH]; intros d col row; simpl; [repeat split; lia|].
    destruct (Nat.leb_spec (lp_width lp) col) as [Hc|Hc]; [|repeat split; auto; lia].
    specialize (IH (call_process lp d data (S row)) (col - lp_width lp)%nat (S row)).
    destruct (wrap_rows f lp _ data _ _) as [[d' c'] r'].
    destruct (call_process_frame d data (S row)) as (E1 & E2 & E3 & E4).
    destruct IH as (F1 & F2 & F3 & F4 & F5 & F6).
    rewrite F1, F2, F3, F4, E1, E2, E3, E4. repeat split; try lia; intros Hf; apply F6; lia.
  Qed.

Lemma flush_cache_frame (d : VP8LDecoder) (data : list Z) (lc src : nat) :
    let d' := flush_cache d data lc src in
    color_cache_size_ (hdr_ d') = color_cache_size_ (hdr_ d) /\ incremental_ d' = incremental_ d /\
    saved_last_pixel_ d' = saved_last_pixel_ d /\
    saved_color_cache_ (hdr_ d') = saved_color_cache_ (hdr_ d) /\ br_ d' = br_ d /\
    color_cache_ (hdr_ d') = if color_cache_on d then insert_all (color_cache_ (hdr_ d))
                               (slice data lc src) else color_cache_ (hdr_ d).
  Proof. unfold flush_cache. destruct (color_cache_on d); repeat split. Qed.

Lemma color_cache_on_size (d : VP8LDecoder) :
    dec_frame d -> color_cache_on d = (0 <? size0)%nat.
  Proof. intros [H _]. unfold color_cache_on. rewrite H. reflexivity. Qed.

  (** Extending the replayed prefix by the pixels [lc .. src). *)
Lemma replay_extend (data : list Z) (lc src : nat) :
    (p0 <= lc <= src)%nat -> (src <= length data)%nat ->
    insert_all (insert_all c0 (slice data p0 lc)) (slice data lc src)
    = insert_all c0 (slice data p0 src).
  Proof. intros H1 H2. rewrite <- insert_all_app, slice_app by lia. reflexivity. Qed.

  (** Writes at [src] and after leave every replayed prefix alone. *)
Lemma replay_frame (data data' : list Z) (src b : nat) :
    frame_from src data data' -> (b <= src)%nat ->
    slice data' p0 b = slice data p0 b.
  Proof. intros [Hl Hj] Hb. apply slice_ext; [exact Hl|]. intros j Hj'. apply Hj. lia. Qed.

  (** The snapshot survives every step that leaves it alone and writes at
      [src] or after. *)
Lemma snapshot_step (d d' : VP8LDecoder) (data data' : list Z) (src src' lc lc' : nat) :
    snapshot_ok d data src lc ->
    saved_last_pixel_ d' = saved_last_pixel_ d ->
    saved_color_cache_ (hdr_ d') = saved_color_cache_ (hdr_ d) ->
    frame_from src data data' -> (src <= src')%nat -> (lc <= lc')%nat ->
    snapshot_ok d' data' src' lc'.
  Proof.
    intros Hs E1 E2 Hf Hsrc Hlc Hi. rewrite E1, E2. destruct (Hs Hi) as [Hs1 Hs2].
    split; [lia|]. intros Hpos. destruct (Hs2 Hpos) as [Hs3 Hs4]. split; [lia|].
    rewrite (replay_frame data data' src) by (assumption || lia). exact Hs4.
  Qed.

  (** ** The loop head *)

Lemma sync_point_inv (s : LoopState) :
    loop_inv s ->
    let s' := sync_point s in
    loop_inv s' /\ (ls_row s' < ls_next_sync_row s')%nat /\ ls_src s' = ls_src s /\
    ls_data s' = ls_data s.
  Proof.
    intros Hinv. unfold sync_point.
    destruct (Nat.leb_spec (ls_next_sync_row s) (ls_row s)) as [Hsync|Hsync];
      [|split_and!; auto].
    destruct Hinv as (Hl & Hlc & Hsrc & Hrc & Hc & [Hsz Hinc] & Hcache & Hsnap).
    assert (Hflushed : (0 < size0)%nat -> ls_last_cached s = ls_src s).
    { intros Hpos. destruct (Hcache Hpos) as [_ Hlt].
      destruct (Nat.eq_dec (ls_last_cached s) (ls_src s)); [assumption|].
      destruct Hlt as (_ & Hr & _); lia. }
    destruct (SaveState_spec (ls_dec s) (ls_src s)) as (S1 & S2 & S3 & S4 & S5).
    split_and!; simpl; try reflexivity; [|unfold SYNC_EVERY_N_ROWS; lia].
    unfold loop_inv, dec_frame, cache_ok, snapshot_ok; simpl.
    rewrite S1, S2, S3, S4, Hsz. split_and!; try assumption; try lia.
    - intros Hpos. rewrite (Hflushed Hpos). split; [|lia].
      rewrite <- (Hflushed Hpos). apply Hcache, Hpos.
    - intros _. split; [lia|]. intros Hpos. rewrite (S5 ltac:(lia)).
      rewrite <- (Hflushed Hpos). split; [lia|]. destruct (Hcache Hpos) as [-> _]. reflexivity.
  Qed.

Lemma refresh_group_inv (s : LoopState) :
    loop_inv s -> loop_inv (refresh_group s).
  Proof. intros H. exact H. Qed.

Lemma with_br_inv (s : LoopState) (br : VP8LBitReader) :
    loop_inv s -> loop_inv (with_br s br).
  Proof. intros H. exact H. Qed.

  (** ** One pixel *)

Lemma LAST_le_N : (LAST <= N)%nat.
  Proof. apply Nat.mul_le_mono_l, HLR. Qed.

  (** Writing the pixel at [src] (literal or cache hit). *)
Lemma with_pixel_inv (s : LoopState) (br : VP8LBitReader) (v : Z) :
    loop_inv s -> (ls_src s < N)%nat -> loop_inv (with_pixel s br v).
  Proof.
    intros (Hl & Hlc & Hsrc & Hrc & Hc & Hfr & Hcache & Hsnap) Hlt.
    pose proof (frame_insert (ls_src s) (ls_src s) v (ls_data s) (le_n _)) as Hf.
    unfold loop_inv, cache_ok, snapshot_ok in *; simpl. rewrite length_insert.
    split_and!; try assumption; try lia.
    - intros Hpos. rewrite (replay_frame (ls_data s) _ (ls_src s)) by (assumption || lia). auto.
    - intros Hinc. destruct (Hsnap Hinc) as [Hs1 Hs2]. split; [exact Hs1|].
      intros Hpos. rewrite (replay_frame (ls_data s) _ (ls_src s)) by (assumption || lia). auto.
  Qed.

  (** The label [AdvanceByOne], reached with the pixel at [src] written. *)
Lemma advance_inv (t : LoopState) :
    loop_inv t -> (ls_src t < LAST)%nat -> (ls_row t < ls_next_sync_row t)%nat ->
    loop_inv (step_state (advance_by_one lp t)).
  Proof.
    intros (Hl & Hlc & Hsrc & Hrc & Hc & [Hsz Hinc] & Hcache & Hsnap) Hlast Hns.
    pose proof LAST_le_N.
    unfold advance_by_one. destruct (Nat.leb_spec (lp_width lp) (S (ls_col t))) as [Hw|Hw];
      unfold loop_inv, dec_frame, cache_ok, snapshot_ok in *; simpl.
    - destruct (call_process_frame (ls_dec t) (ls_data t) (S (ls_row t)))
        as (E1 & _ & E3 & E4).
      set (d1 := call_process lp (ls_dec t) (ls_data t) (S (ls_row t))) in *.
      destruct (flush_cache_frame d1 (ls_data t) (ls_last_cached t) (S (ls_src t)))
        as (F1 & F2 & F3 & F4 & _ & F6).
      set (d2 := flush_cache d1 (ls_data t) (ls_last_cached t) (S (ls_src t))) in *.
      assert (Hon1 : color_cache_on d1 = (0 <? size0)%nat)
        by (apply color_cache_on_size; split; congruence).
      assert (Hon2 : color_cache_on d2 = (0 <? size0)%nat)
        by (apply color_cache_on_size; split; congruence).
      rewrite Hon2, F1, F2, F3, F4, E1, E3, E4. rewrite Hon1, E1 in F6.
      destruct (Nat.ltb_spec 0 size0) as [Hpos|Hpos].
      + split_and!; try assumption; try lia.
        * intros _. rewrite F6. split; [|lia].
          destruct (Hcache Hpos) as [-> _]. apply replay_extend; lia.
        * intros Hi. destruct (Hsnap Hi) as [Hs1 Hs2]. split; [lia|].
          intros _. destruct (Hs2 Hpos). split; [lia|assumption].
      + split_and!; try assumption; try lia.
        intros Hi. destruct (Hsnap Hi) as [Hs1 Hs2]. split; [lia|]. intros; lia.
    - split_and!; try assumption; try lia.
      + intros Hpos. destruct (Hcache Hpos) as [Hcc _]. split; [exact Hcc|]. lia.
      + intros Hi. destruct (Hsnap Hi) as [Hs1 Hs2]. split; [lia|].
        intros Hpos. destruct (Hs2 Hpos). split; [lia|assumption].
  Qed.

  (** ** The three kinds of codes *)

Lemma literal_case_inv (r : LoopState) (br : VP8LBitReader) (code : nat) :
    loop_inv r -> (ls_src r < LAST)%nat -> (ls_row r < ls_next_sync_row r)%nat ->
    loop_inv (step_state (literal_case lp r br code)).
  Proof.
    intros Hinv Hlast Hns. pose proof LAST_le_N.
    assert (Hp : forall br v, loop_inv (step_state (advance_by_one lp (with_pixel r br v))))
      by (intros; apply advance_inv; [apply with_pixel_inv|..]; simpl; (assumption || lia)).
    unfold literal_case. destruct (is_trivial_literal _); [apply Hp|].
    destruct (ReadSymbol _ br) as [red br1]. destruct (ReadSymbol _ _) as [blue br2].
    destruct (ReadSymbol _ br2) as [alpha br3].
    destruct (eos_ br3); [apply with_br_inv, Hinv|apply Hp].
  Qed.

Lemma cache_case_inv (r : LoopState) (br : VP8LBitReader) (code : nat) :
    loop_inv r -> (ls_src r < LAST)%nat -> (ls_row r < ls_next_sync_row r)%nat ->
    loop_inv (step_state (cache_case lp r br code)).
  Proof.
    intros Hinv Hlast Hns. pose proof LAST_le_N. unfold cache_case. cbv zeta.
    apply advance_inv; [|simpl; lia|simpl; lia].
    destruct Hinv as (Hl & Hlc & Hsrc & Hrc & Hc & [Hsz Hinc] & Hcache & Hsnap).
    assert (Hf : forall v, frame_from (ls_src r) (ls_data r) (<[ls_src r := v]> (ls_data r)))
      by (intros; apply frame_insert; lia).
    destruct (flush_cache_frame (set_br (ls_dec r) br) (ls_data r) (ls_last_cached r) (ls_src r))
      as (F1 & F2 & F3 & F4 & _ & F6).
    set (d := flush_cache (set_br (ls_dec r) br) (ls_data r) (ls_last_cached r) (ls_src r)) in *.
    simpl in F1, F2, F3, F4, F6.
    assert (Hon0 : color_cache_on (set_br (ls_dec r) br) = (0 <? size0)%nat)
      by (apply color_cache_on_size; split; assumption).
    assert (Hon : color_cache_on d = (0 <? size0)%nat)
      by (apply color_cache_on_size; split; congruence).
    rewrite Hon0 in F6.
    unfold loop_inv, dec_frame, cache_ok; simpl.
    rewrite Hon, length_insert, F1, F2. revert F6.
    destruct (Nat.ltb_spec 0 size0) as [Hpos|Hpos]; intros F6; split_and!; try assumption;
      try lia; try (eapply snapshot_step; [eassumption|eassumption|eassumption|apply Hf|lia|lia]).
    intros _. split; [|lia]. rewrite F6, (replay_frame (ls_data r) _ (ls_src r)) by (apply Hf || lia).
    destruct (Hcache Hpos) as [-> _]. apply replay_extend; lia.
  Qed.

Lemma backref_case_inv (r : LoopState) (br : VP8LBitReader) (code : nat) :
    loop_inv r -> loop_inv (step_state (backref_case lp r br code)).
  Proof.
    intros Hinv. unfold backref_case.
    destruct (GetCopyLength _ br) as [len br1]. destruct (ReadSymbol _ br1) as [ds br2].
    destruct (GetCopyDistance _ _) as [dc br3].
    destruct (eos_ br3); [apply with_br_inv, Hinv|].
    destruct (_ || _) eqn:G; [apply with_br_inv, Hinv|].
    apply orb_false_elim in G as [G1 G2]. apply Nat.ltb_ge in G1, G2.
    destruct Hinv as (Hl & Hlc & Hsrc & Hrc & Hc & [Hsz Hinc] & Hcache & Hsnap).
    set (data' := CopyBlock32b _ _ _ _ _).
    assert (Hfr : frame_from (ls_src r) (ls_data r) data') by apply CopyBlock32b_frame.
    pose proof (wrap_rows_frame (S (ls_col r + len)) (set_br (ls_dec r) br3) data'
                  (ls_col r + len) (ls_row r)) as Hw.
    destruct (wrap_rows _ _ _ _ _ _) as [[d1 c1] r1]. simpl in Hw.
    destruct Hw as (W1 & _ & W3 & W4 & W5 & W6).
    destruct (flush_cache_frame d1 data' (ls_last_cached r) (ls_src r + len))
      as (F1 & F2 & F3 & F4 & _ & F6).
    set (d2 := flush_cache d1 data' (ls_last_cached r) (ls_src r + len)) in *.
    assert (Hon1 : color_cache_on d1 = (0 <? size0)%nat)
      by (apply color_cache_on_size; split; congruence).
    assert (Hon2 : color_cache_on d2 = (0 <? size0)%nat)
      by (apply color_cache_on_size; split; congruence).
    rewrite Hon1, W1 in F6. destruct Hfr as [Hlen Hagree].
    unfold loop_inv, dec_frame, cache_ok; simpl.
    rewrite Hon1, F1, F2, W1, W4, Hlen. revert F6.
    destruct (Nat.ltb_spec 0 size0) as [Hpos|Hpos]; intros F6; split_and!; try assumption;
      try lia; try (eapply snapshot_step;
                    [eassumption|congruence|congruence|split; eassumption|lia|lia]).
    intros _. split; [|lia]. simpl in F6.
    rewrite F6. destruct (Hcache Hpos) as [-> _].
    rewrite <- (replay_frame (ls_data r) data' (ls_src r) (ls_last_cached r))
      by (try split; assumption || lia).
    apply replay_extend; lia.
  Qed.

  (** ** The loop *)

Lemma decode_step_inv (s : LoopState) :
    loop_inv s -> (ls_src s < LAST)%nat -> loop_inv (step_state (decode_step lp s)).
  Proof.
    intros Hinv Hlast. unfold decode_step.
    destruct (sync_point_inv s Hinv) as (H1 & H2 & H3 & _).
    assert (Hr : loop_inv (refresh_group (sync_point s))) by (apply refresh_group_inv, H1).
    set (r := refresh_group (sync_point s)) in *.
    assert (Hsrc : (ls_src r < LAST)%nat) by (simpl; congruence).
    assert (Hrow : (ls_row r < ls_next_sync_row r)%nat) by exact H2.
    destruct (ReadSymbol _ _) as [code br]. destruct (eos_ br); [apply with_br_inv, Hr|].
    destruct (code <? _)%nat; [apply literal_case_inv; assumption|].
    destruct (code <? _)%nat; [apply backref_case_inv; assumption|].
    destruct (code <? _)%nat; [apply cache_case_inv; assumption|apply with_br_inv, Hr].
  Qed.

Lemma decode_loop_inv (fuel : nat) (s : LoopState) (res : StepResult) :
    loop_inv s -> decode_loop fuel lp s = Some res ->
    loop_inv (step_state res) /\
    (forall s', res = Continue s' -> (LAST <= ls_src s')%nat) /\
    (forall s', res = Break s' -> eos_ (br_ (ls_dec s')) = true).
  Proof.
    revert s. induction fuel as [|f IH]; intros s Hinv; simpl; [discriminate|].
    destruct (Nat.ltb_spec (ls_src s) LAST) as [Hlt|Hge];
      [|intros [= <-]; split_and!; [exact Hinv|intros ? [= <-]; lia|discriminate]].
    pose proof (decode_step_inv s Hinv Hlt) as Hs. pose proof (decode_step_break lp s) as Hb.
    destruct (decode_step lp s) as [s'|s'|s'].
    - apply IH, Hs.
    - intros [= <-]. split_and!; [exact Hs|discriminate|intros ? [= <-]; apply Hb; reflexivity].
    - intros [= <-]. split_and!; [exact Hs|discriminate..].
  Qed.
End CacheInvariant.

(** ** The cache after [DecodeImageData] *)

Lemma row_col_aligned (w row col k : nat) :
  (row * w + col = k * w)%nat -> (col < w)%nat -> col = 0%nat.
Proof.
  intros H Hc. pose proof (f_equal (fun x => (x mod w)%nat) H) as Hm. simpl in Hm.
  rewrite Nat.add_comm, Nat.Div0.mod_add, Nat.mod_small, Nat.Div0.mod_mul in Hm by lia.
  exact Hm.
Qed.

Lemma cache_eq (a b : VP8LColorCache) :
  colors_ a = colors_ b -> hash_shift_ a = hash_shift_ b -> hash_bits_ a = hash_bits_ b -> a = b.
Proof. destruct a, b; simpl; intros -> -> ->; reflexivity. Qed.

Lemma RestoreState_cache (d : VP8LDecoder) :
  (0 < color_cache_size_ (hdr_ d))%nat ->
  last_pixel_ (RestoreState d) = saved_last_pixel_ d /\
  color_cache_ (hdr_ (RestoreState d))
  = VP8LColorCacheCopy (saved_color_cache_ (hdr_ d)) (color_cache_ (hdr_ d)).
Proof.
  intros Hpos. unfold RestoreState. simpl.
  destruct (Nat.ltb_spec 0 (color_cache_size_ (hdr_ d))); [split; reflexivity|lia].
Qed.

(** The state [DecodeImageData] starts its loop in satisfies the invariant. *)
Lemma initial_inv (lp : LoopParams) (dec : VP8LDecoder) (data : list Z) :
  (1 <= lp_width lp)%nat ->
  length data = (lp_width lp * lp_height lp)%nat ->
  (last_pixel_ dec <= lp_width lp * lp_height lp)%nat ->
  (incremental_ dec = true -> saved_last_pixel_ dec = last_pixel_ dec /\
     colors_ (saved_color_cache_ (hdr_ dec)) = colors_ (color_cache_ (hdr_ dec))) ->
  forall ns grp,
  loop_inv lp (last_pixel_ dec) (color_cache_ (hdr_ dec)) (color_cache_size_ (hdr_ dec))
    (incremental_ dec)
    (mkLoopState dec data (last_pixel_ dec) (last_pixel_ dec mod lp_width lp)
       (last_pixel_ dec / lp_width lp) (last_pixel_ dec) ns grp).
Proof.
  intros HW Hl Hp Hs ns grp.
  pose proof (Nat.div_mod_eq (last_pixel_ dec) (lp_width lp)).
  pose proof (Nat.mod_upper_bound (last_pixel_ dec) (lp_width lp) ltac:(lia)).
  unfold loop_inv, dec_frame, cache_ok, snapshot_ok; simpl. rewrite slice_empty.
  split_and!; try lia; [reflexivity|intros _; split; [reflexivity|lia]|].
  intros Hi. destruct (Hs Hi) as [-> Hc]. split; [lia|]. split; [lia|].
  rewrite slice_empty. exact Hc.
Qed.

(** C1: whenever [DecodeImageData] succeeds
    (status [OK], or [SUSPENDED] after a [RestoreState]) with a color cache,
    the cache it leaves is the cache it started with, into which every
    pixel from the starting [last_pixel_] up to the returned [last_pixel_]
    has been inserted once, in raster order: the encoder's cache and the
    decoder's stay in step across row hooks, back-references, cache hits and
    suspensions.  Hypotheses: a nonempty row, [last_row <= height], a raster
    of [width * height] pixels, a row hook that leaves the metadata, the
    bit reader and the snapshot alone, and, in incremental mode, a snapshot
    taken at the starting pixel. *)
Theorem DecodeImageData_color_cache (fuel : nat) (lp : LoopParams) (dec dec' : VP8LDecoder)
    (data data' : list Z) :
  (1 <= lp_width lp)%nat -> (lp_last_row lp <= lp_height lp)%nat ->
  (forall f, lp_process lp = Some f -> hook_preserves f) ->
  length data = (lp_width lp * lp_height lp)%nat ->
  (last_pixel_ dec <= lp_width lp * lp_height lp)%nat ->
  (incremental_ dec = true -> saved_last_pixel_ dec = last_pixel_ dec /\
     colors_ (saved_color_cache_ (hdr_ dec)) = colors_ (color_cache_ (hdr_ dec))) ->
  (0 < color_cache_size_ (hdr_ dec))%nat ->
  DecodeImageData fuel lp dec data = Some (true, dec', data') ->
  color_cache_ (hdr_ dec')
  = insert_all (color_cache_ (hdr_ dec)) (slice data' (last_pixel_ dec) (last_pixel_ dec')).
Proof.
  intros HW HLR Hhook Hlen Hp Hsnap0 Hpos. unfold DecodeImageData. cbv zeta.
  match goal with |- context [decode_loop fuel lp ?s] =>
    pose proof (initial_inv lp dec data HW Hlen Hp Hsnap0 (ls_next_sync_row s) (ls_group s)) as H0;
    change (loop_inv lp (last_pixel_ dec) (color_cache_ (hdr_ dec)) (color_cache_size_ (hdr_ dec))
              (incremental_ dec) s) in H0 end.
  destruct (decode_loop fuel lp _) as [res|] eqn:E; [|discriminate].
  destruct (decode_loop_inv _ _ _ _ _ HW HLR Hhook fuel _ res H0 E) as (Hinv & Hcont & Hbrk).
  destruct res as [s|s|s]; [| |discriminate]; simpl in Hinv.
  1,2: assert (Hexit : (lp_width lp * lp_last_row lp <= ls_src s)%nat \/
                       eos_ (br_ (ls_dec s)) = true)
         by (first [left; apply Hcont; reflexivity | right; apply Hbrk; reflexivity]).
  all: clear Hcont Hbrk E H0.
  all: destruct Hinv as (Hl & Hlc & Hsrc & Hrc & Hc & [Hsz Hinc] & Hcache & Hsnap).
  all: destruct (Hcache Hpos) as [Hcc Hlag].
  all: destruct (incremental_ (ls_dec s) && _ && _) eqn:Hr;
    [intros H; injection H as <- <-;
     apply andb_prop in Hr as [Hr _]; apply andb_prop in Hr as [Hr _];
     destruct (Hsnap (eq_trans (eq_sym Hinc) Hr)) as [_ Hs];
     destruct (Hs Hpos) as [_ Hcol];
     destruct (RestoreState_cache (ls_dec s) ltac:(lia)) as [-> ->];
     destruct (insert_all_geometry (color_cache_ (hdr_ dec))
                 (slice (ls_data s) (last_pixel_ dec) (ls_last_cached s))) as [G1 G2];
     destruct (insert_all_geometry (color_cache_ (hdr_ dec))
                 (slice (ls_data s) (last_pixel_ dec) (saved_last_pixel_ (ls_dec s)))) as [G3 G4];
     apply cache_eq; simpl; [exact Hcol|rewrite Hcc; congruence|rewrite Hcc; congruence]|].
  all: destruct (negb _) eqn:Heos; [|discriminate].
  all: intros H; injection H as <- <-; simpl.
  all: assert (Hhdr : hdr_ (match lp_process lp with
                            | Some f => f (ls_dec s) (ls_data s) (ls_row s)
                            | None => ls_dec s end) = hdr_ (ls_dec s))
         by (destruct (lp_process lp) as [f|] eqn:Ef; [apply (Hhook f eq_refl)|reflexivity]).
  all: rewrite Hhdr, Hcc; f_equal; f_equal.
  all: destruct (Nat.eq_dec (ls_last_cached s) (ls_src s)) as [Heq|Hne]; [exact Heq|exfalso].
  all: destruct (Hlag ltac:(lia)) as (Hcol & _ & Hle).
  all: apply negb_true_iff in Heos; destruct Hexit as [Hexit|Hexit]; [|congruence].
  all: assert (Hsrc_eq : ls_src s = (lp_last_row lp * lp_width lp)%nat) by lia.
  all: rewrite Hsrc_eq in Hrc; apply row_col_aligned in Hrc; lia.
Qed.

Lemma DecodeImageData_color_cache_witness :
  match DecodeImageData 10 Examples.lp (Examples.dec 2 1) (replicate 4 0) with
  | Some (true, d', data') =>
      color_cache_ (hdr_ d')
      = insert_all (VP8LColorCacheInit 1) (slice data' 0 (last_pixel_ d')) /\
      last_pixel_ d' = 4%nat
  | _ => False
  end.
Proof.
  destruct (DecodeImageData 10 Examples.lp (Examples.dec 2 1) (replicate 4 0))
    as [[[[] d'] data']|] eqn:E; try (vm_compute in E; discriminate).
  split; [|vm_compute in E; injection E as <- _; reflexivity].
  apply (DecodeImageData_color_cache 10 Examples.lp (Examples.dec 2 1) d' (replicate 4 0) data');
    try (vm_compute; lia); try assumption; intros; discriminate.
Defined.
