(* ===== verification/HuffmanCodes.v ===== *)
(** * Huffman codes of a stream: [ReadHuffmanCodes]

    Models [ReadHuffmanCodes] of [vp8l.cpp]: the optional meta-Huffman
    image ([read_meta_image]: a sub-stream whose pixels name a group in
    bits 8..23, [num_htree_groups] is the largest name plus one), then for
    each group the five codes read by [ReadHuffmanCode] and packed into
    one [huffman_tables] block ([read_htrees], [read_groups]), with the
    [is_trivial_literal] / [literal_arb] fast path of each group
    ([make_group]); the three blocks are allocated through the
    [Allocator] of [Memory.v], with the [OUT_OF_MEMORY] path of the code
    when one is [NULL].  Also the metadata helpers [InitMetadata] and
    [ClearMetadata] and the field updates the stream decoder uses.

    The block is the list [pool]: [next] is its length, and the table a
    tree points to is [drop offset pool], the entries from its root to the
    end of the block, as the C pointer sees them.  The table builder
    [VP8LBuildHuffmanTable] and the sub-stream decoder are parameters
    ([BuildFunc], [SubDecodeFunc]); [Stream.v] instantiates the latter.
    The theorems show that a successful call leaves metadata that keeps
    [codes_ok]: every group is [group_ok] and every entry of the group
    image names a group. *)

From S2P Require Import Prelude Memory BitReader Prefix ColorCache Huffman CodeLengths Entropy.
From Stdlib Require Import Lia.

Local Open Scope Z_scope.
Local Open Scope vp8l_scope.

(** The table builder [VP8LBuildHuffmanTable(root_bits, code_lengths,
    code_lengths_size)]: [None] for an invalid code. *)
Definition BuildFunc := nat -> list nat -> nat -> option HuffmanTable.

Definition kLiteralMap : list nat := [0; 1; 1; 1; 0]%nat.

(** ** Metadata *)

(** [InitMetadata] / [ClearMetadata]: every field zero. *)
Definition empty_color_cache : VP8LColorCache := mkColorCache [] 0 0.

Definition InitMetadata : VP8LMetadata :=
  mkMetadata 0 empty_color_cache empty_color_cache 0 0 0 [] 0 [].

Definition ClearMetadata (d : VP8LDecoder) : VP8LDecoder := set_hdr d InitMetadata.

Definition set_subsample_bits (h : VP8LMetadata) (bits : nat) : VP8LMetadata :=
  mkMetadata (color_cache_size_ h) (color_cache_ h) (saved_color_cache_ h) (huffman_mask_ h)
    bits (huffman_xsize_ h) (huffman_image_ h) (num_htree_groups_ h) (htree_groups_ h).

Definition set_huffman_codes (h : VP8LMetadata) (image : list Z) (num : nat)
    (groups : list HTreeGroup) : VP8LMetadata :=
  mkMetadata (color_cache_size_ h) (color_cache_ h) (saved_color_cache_ h) (huffman_mask_ h)
    (huffman_subsample_bits_ h) (huffman_xsize_ h) image num groups.

Definition set_color_cache_size (h : VP8LMetadata) (n : nat) : VP8LMetadata :=
  mkMetadata n (color_cache_ h) (saved_color_cache_ h) (huffman_mask_ h)
    (huffman_subsample_bits_ h) (huffman_xsize_ h) (huffman_image_ h)
    (num_htree_groups_ h) (htree_groups_ h).

Definition set_huffman_geometry (h : VP8LMetadata) (xsize : nat) (mask : Z) : VP8LMetadata :=
  mkMetadata (color_cache_size_ h) (color_cache_ h) (saved_color_cache_ h) mask
    (huffman_subsample_bits_ h) xsize (huffman_image_ h) (num_htree_groups_ h) (htree_groups_ h).

Definition set_dims (d : VP8LDecoder) (w h : nat) : VP8LDecoder :=
  mkDecoder (status_ d) (br_ d) (saved_br_ d) (saved_last_pixel_ d) (last_pixel_ d)
    (incremental_ d) (hdr_ d) w h (last_row_ d) (last_out_row_ d).

(** ** [ReadHuffmanCodes] *)

(** The size of the alphabet of tree [j]: the green tree also codes the
    [1 << color_cache_bits] cache keys. *)
Definition alphabet_size_of (j color_cache_bits : nat) : nat :=
  (kAlphabetSize !!! j +
   (if (j =? 0) && (0 <? color_cache_bits) then Nat.shiftl 1 color_cache_bits else 0))%nat.

(** [for (j = 0; j < 5; ++j) if (max_alphabet_size < alphabet_size) ...]. *)
Fixpoint max_alphabet_loop (color_cache_bits j k m : nat) : nat :=
  match k with
  | O => m
  | S k' =>
      let a := alphabet_size_of j color_cache_bits in
      max_alphabet_loop color_cache_bits (S j) k' (if (m <? a)%nat then a else m)
  end.

Definition max_alphabet_size (color_cache_bits : nat) : nat :=
  max_alphabet_loop color_cache_bits 0 HUFFMAN_CODES_PER_META_CODE 0.

(** The inner loop over the trees [j .. j + k - 1] of one group:
    [(ok, offsets, is_trivial_literal, code_lengths, pool, br)].  Each
    table is written at [next = length pool]; [is_trivial_literal] reads
    [next->bits] of the red, blue and alpha trees. *)
Fixpoint read_htrees (build : BuildFunc) (color_cache_bits j k : nat) (is_trivial : bool)
    (cl : list nat) (pool : HuffmanTable) (br : VP8LBitReader)
    : bool * list nat * bool * list nat * HuffmanTable * VP8LBitReader :=
  match k with
  | O => (true, [], is_trivial, cl, pool, br)
  | S k' =>
      let next := length pool in
      let '(size, table, cl, br) :=
        ReadHuffmanCode build (alphabet_size_of j color_cache_bits) cl br in
      let is_trivial :=
        if is_trivial && (kLiteralMap !!! j =? 1)%nat then (hc_bits (table !!! 0%nat) =? 0)%nat
        else is_trivial in
      let pool := pool ++ table in
      if (size =? 0)%nat then (false, [next], is_trivial, cl, pool, br)
      else
        let '(ok, offs, t, cl, pool, br) :=
          read_htrees build color_cache_bits (S j) k' is_trivial cl pool br in
        (ok, next :: offs, t, cl, pool, br)
  end.

(** [htree_group->literal_arb = ((uint32_t)alpha << 24) | (red << 16) | blue]. *)
Definition pack_arb (red blue alpha : nat) : Z :=
  u32 (Z.of_nat alpha << 24) .| (Z.of_nat red << 16) .| Z.of_nat blue.

(** A group as the C code leaves it: [htrees[j]] points at offset [j] of
    the block; [literal_arb] is only written for a trivial literal
    ([VP8LHtreeGroupsNew] leaves it unset, zero here). *)
Definition make_group (pool : HuffmanTable) (offs : list nat) (is_trivial : bool) : HTreeGroup :=
  let trees := map (fun o => drop o pool) offs in
  mkHTreeGroup trees is_trivial
    (if is_trivial then
       pack_arb (hc_value ((trees !!! RED) !!! 0%nat)) (hc_value ((trees !!! BLUE) !!! 0%nat))
         (hc_value ((trees !!! ALPHA) !!! 0%nat))
     else 0).

(** The outer loop [for (i = 0; i < num_htree_groups; ++i)], with [n]
    groups left: [(ok, groups as (offsets, is_trivial), code_lengths, pool, br)]. *)
Fixpoint read_groups (build : BuildFunc) (color_cache_bits n : nat) (cl : list nat)
    (pool : HuffmanTable) (br : VP8LBitReader)
    : bool * list (list nat * bool) * list nat * HuffmanTable * VP8LBitReader :=
  match n with
  | O => (true, [], cl, pool, br)
  | S n' =>
      let '(ok, offs, t, cl, pool, br) :=
        read_htrees build color_cache_bits 0 HUFFMAN_CODES_PER_META_CODE true cl pool br in
      if ok then
        let '(ok, gs, cl, pool, br) := read_groups build color_cache_bits n' cl pool br in
        (ok, (offs, t) :: gs, cl, pool, br)
      else (false, [(offs, t)], cl, pool, br)
  end.

(** The loop over the meta-Huffman image: [group = (pixel >> 8) & 0xffff],
    and [num_htree_groups] grows to [group + 1]. *)
Fixpoint group_image_loop (image : list Z) (num : nat) : list Z * nat :=
  match image with
  | [] => ([], num)
  | p :: rest =>
      let group := (p >> 8) .& 0xffff in
      let num := if (num <=? Z.to_nat group)%nat then S (Z.to_nat group) else num in
      let '(rest, num) := group_image_loop rest num in
      (group :: rest, num)
  end.

(** A sub-stream decoder [DecodeImageStream(xsize, ysize, 0, dec, &data)]:
    [ok], the pixels and the decoder. *)
Definition SubDecodeFunc := nat -> nat -> VP8LDecoder -> bool * list Z * VP8LDecoder.

(** The meta-Huffman block of [ReadHuffmanCodes]:
    [if (allow_recursion && VP8LReadBits(br, 1)) { ... }], returning [ok],
    the group image, [num_htree_groups] and the decoder. *)
Definition read_meta_image (sub : SubDecodeFunc) (xsize ysize : nat) (allow_recursion : bool)
    (dec : VP8LDecoder) : bool * list Z * nat * VP8LDecoder :=
  let '(use_meta, br) := if allow_recursion then VP8LReadBits (br_ dec) 1 else (0, br_ dec) in
  let dec := set_br dec br in
  if negb (use_meta =? 0) then
    let '(p, br) := VP8LReadBits (br_ dec) 3 in
    let precision := (Z.to_nat p + 2)%nat in
    let hx := VP8LSubSampleSize xsize precision in
    let hy := VP8LSubSampleSize ysize precision in
    let '(ok, image, dec) := sub hx hy (set_br dec br) in
    if ok then
      let dec := set_hdr dec (set_subsample_bits (hdr_ dec) precision) in
      let '(image, num) := group_image_loop image 1 in
      (true, image, num, dec)
    else (false, [], 1%nat, dec)
  else (true, [], 1%nat, dec).

(** [sizeof(HuffmanCode)] (a [uint8_t] length and a [uint16_t] value)
    and [sizeof(HTreeGroup)] (five table pointers, [is_trivial_literal]
    and [literal_arb], on a 64-bit target). *)
Definition sizeof_HuffmanCode : Z := 4.
Definition sizeof_HTreeGroup : Z := 48.

(** [ReadHuffmanCodes(dec, xsize, ysize, color_cache_bits, allow_recursion)]
    with the allocator [a]: the three blocks of lines 355-357, and
    [OUT_OF_MEMORY] when one of them is [NULL]. *)
Definition ReadHuffmanCodes (a : Allocator) (sub : SubDecodeFunc) (build : BuildFunc)
    (xsize ysize color_cache_bits : nat) (allow_recursion : bool) (dec : VP8LDecoder)
    : bool * VP8LDecoder :=
  let '(ok, image, num_groups, dec) := read_meta_image sub xsize ysize allow_recursion dec in
  if negb ok || eos_ (br_ dec) then (false, dec)
  else
    let table_size := kTableSize !!! color_cache_bits in
    let huffman_tables := malloc a (Z.of_nat (num_groups * table_size) * sizeof_HuffmanCode) in
    let htree_groups := malloc a (Z.of_nat num_groups * sizeof_HTreeGroup) in
    let code_lengths := malloc a (Z.of_nat (max_alphabet_size color_cache_bits) * 4) in
    match htree_groups, code_lengths, huffman_tables with
    | Some _, Some _, Some _ =>
        let '(ok, gs, _, pool, br) :=
          read_groups build color_cache_bits num_groups
            (replicate (max_alphabet_size color_cache_bits) 0%nat) [] (br_ dec) in
        let dec := set_br dec br in
        if ok then
          (true, set_hdr dec (set_huffman_codes (hdr_ dec) image num_groups
                                (map (fun '(offs, t) => make_group pool offs t) gs)))
        else (false, dec)
    | _, _, _ => (false, set_status dec VP8_STATUS_OUT_OF_MEMORY)
    end.

(** ** Lemmas: the meta-Huffman image *)

Lemma group_image_loop_spec (image : list Z) (num : nat) :
  let '(image', num') := group_image_loop image num in
  length image' = length image /\ (num <= num')%nat /\
  Forall (fun g => 0 <= g /\ (Z.to_nat g < num')%nat) image'.
Proof.
  revert num. induction image as [|p rest IH]; intros num; simpl; [split_and!; auto|].
  set (g := (p >> 8) .& 0xffff).
  assert (Hg : 0 <= g) by (apply Z.land_nonneg; lia).
  set (num1 := if (num <=? Z.to_nat g)%nat then S (Z.to_nat g) else num).
  assert (H1 : (num <= num1)%nat /\ (Z.to_nat g < num1)%nat)
    by (unfold num1; destruct (Nat.leb_spec num (Z.to_nat g)); lia).
  specialize (IH num1). destruct (group_image_loop rest num1) as [rest' num'].
  destruct IH as (Hl & Hn & Hf). simpl. split_and!; [congruence|lia|].
  constructor; [lia|exact Hf].
Qed.

(** ** Lemmas: the groups and the table block *)

(** [ReadHuffmanCode] returns the size of the table it writes. *)
Lemma ReadHuffmanCode_size (build : BuildFunc) (a : nat) (cl : list nat) (br : VP8LBitReader)
    (size : nat) (table : HuffmanTable) (cl' : list nat) (br' : VP8LBitReader) :
  ReadHuffmanCode build a cl br = (size, table, cl', br') -> size = length table.
Proof. unfold ReadHuffmanCode. head_cases; intros [= <- <- _ _]; reflexivity. Qed.

(** The [is_trivial_literal] test on the trees at [offs], from tree [j] on:
    every literal tree (red, blue, alpha) has [bits == 0] at its root. *)
Definition literal_trees_trivial (pool : HuffmanTable) (j : nat) (offs : list nat) : bool :=
  forallb (fun '(i, o) => implb (kLiteralMap !!! i =? 1)%nat (hc_bits (pool !!! o) =? 0)%nat)
    (zip (seq j (length offs)) offs).

Lemma literal_trees_trivial_cons (pool : HuffmanTable) (j o : nat) (offs : list nat) :
  literal_trees_trivial pool j (o :: offs) =
  implb (kLiteralMap !!! j =? 1)%nat (hc_bits (pool !!! o) =? 0)%nat &&
  literal_trees_trivial pool (S j) offs.
Proof. reflexivity. Qed.

(** The inner loop, when it succeeds: one table per tree, each written at
    the end of the block, and [is_trivial_literal] as the C test computes
    it on the tables written. *)
Lemma read_htrees_spec (build : BuildFunc) (ccb j k : nat) (triv : bool) (cl : list nat)
    (pool : HuffmanTable) (br : VP8LBitReader) (offs : list nat) (t : bool) (cl' : list nat)
    (pool' : HuffmanTable) (br' : VP8LBitReader) :
  read_htrees build ccb j k triv cl pool br = (true, offs, t, cl', pool', br') ->
  length offs = k /\ (exists rest, pool' = pool ++ rest) /\
  Forall (fun o => length pool <= o < length pool')%nat offs /\
  t = triv && literal_trees_trivial pool' j offs.
Proof.
  revert j triv cl pool br offs t cl' pool' br'.
  induction k as [|k IH]; intros j triv cl pool br offs t cl' pool' br'; simpl.
  - intros [= <- <- <- <- <-]. split_and!; [reflexivity|exists []; symmetry; apply app_nil_r|constructor|].
    symmetry. apply andb_true_r.
  - destruct (ReadHuffmanCode _ _ _ _) as [[[size table] cl1] br1] eqn:E.
    apply ReadHuffmanCode_size in E. destruct (Nat.eqb_spec size 0) as [|Hs]; [discriminate|].
    destruct (read_htrees _ _ _ _ _ _ _ _) as [[[[[ok offs1] t1] cl2] pool2] br2] eqn:R.
    intros [= -> <- <- <- <- <-].
    destruct (IH _ _ _ _ _ _ _ _ _ _ R) as (Hl & [rest ->] & Hf & ->).
    rewrite <- app_assoc.
    split_and!; [simpl; congruence|eexists; reflexivity| |].
    + constructor; [rewrite !length_app; lia|].
      eapply Forall_impl; [exact Hf|]. simpl. intros o Ho. rewrite !length_app in *. lia.
    + rewrite literal_trees_trivial_cons, lookup_total_app_r, Nat.sub_diag by lia.
      rewrite lookup_total_app_l by lia.
      destruct triv, (kLiteralMap !!! j =? 1)%nat; reflexivity.
Qed.

Lemma literal_trees_trivial_app (pool rest : HuffmanTable) (j : nat) (offs : list nat) :
  Forall (fun o => o < length pool)%nat offs ->
  literal_trees_trivial (pool ++ rest) j offs = literal_trees_trivial pool j offs.
Proof.
  revert j. induction offs as [|o offs IH]; intros j Hf; [reflexivity|].
  inversion Hf; subst. rewrite !literal_trees_trivial_cons, lookup_total_app_l by assumption.
  f_equal. apply IH. assumption.
Qed.

(** The outer loop, when it succeeds: [n] groups of five trees each, all
    in the block, with the [is_trivial_literal] the test computes. *)
Lemma read_groups_spec (build : BuildFunc) (ccb n : nat) (cl : list nat) (pool : HuffmanTable)
    (br : VP8LBitReader) (gs : list (list nat * bool)) (cl' : list nat) (pool' : HuffmanTable)
    (br' : VP8LBitReader) :
  read_groups build ccb n cl pool br = (true, gs, cl', pool', br') ->
  length gs = n /\ (exists rest, pool' = pool ++ rest) /\
  Forall (fun '(offs, t) =>
            length offs = HUFFMAN_CODES_PER_META_CODE /\
            Forall (fun o => o < length pool')%nat offs /\
            t = literal_trees_trivial pool' 0 offs) gs.
Proof.
  revert cl pool br gs cl' pool' br'.
  induction n as [|n IH]; intros cl pool br gs cl' pool' br'; cbn [read_groups].
  - intros [= <- <- <- <-]. split_and!; [reflexivity|exists []; symmetry; apply app_nil_r|constructor].
  - destruct (read_htrees build ccb 0 HUFFMAN_CODES_PER_META_CODE true cl pool br)
      as [[[[[[] offs] t] cl1] pool1] br1] eqn:E; [|intros [=]].
    destruct (read_htrees_spec _ _ _ _ _ _ _ _ _ _ _ _ _ E) as (Hl & [r1 ->] & Hf & ->).
    destruct (read_groups build ccb n cl1 (pool ++ r1) br1) as [[[[[] gs1] cl2] pool2] br2] eqn:R;
      [|intros [=]].
    intros [= <- <- <- <-].
    destruct (IH _ _ _ _ _ _ _ R) as (Hl2 & [r2 ->] & Hg).
    split_and!; [simpl; congruence|exists (r1 ++ r2); symmetry; apply app_assoc|].
    constructor; [|exact Hg].
    assert (Hf' : Forall (fun o => o < length (pool ++ r1))%nat offs)
      by (eapply Forall_impl; [exact Hf|]; simpl; lia).
    split_and!; [exact Hl| |].
    + eapply Forall_impl; [exact Hf'|]. simpl. intros o Ho. rewrite length_app. lia.
    + rewrite (literal_trees_trivial_app (pool ++ r1) r2) by exact Hf'. reflexivity.
Qed.

Lemma drop_lookup_total_0 (pool : HuffmanTable) (o : nat) : drop o pool !!! 0%nat = pool !!! o.
Proof. rewrite !list_lookup_total_alt, lookup_drop, Nat.add_0_r. reflexivity. Qed.

(** ** The group contract *)

(** What [ReadHuffmanCodes] promises of each group to [DecodeImageData]:
    five trees; [is_trivial_literal] exactly when the red, blue and alpha
    trees have a zero-length root entry; and then [literal_arb] packs
    their values. *)
Definition group_ok (g : HTreeGroup) : Prop :=
  length (htrees g) = HUFFMAN_CODES_PER_META_CODE /\
  (is_trivial_literal g = true <->
   (hc_bits (htree g RED !!! 0%nat) = 0 /\ hc_bits (htree g BLUE !!! 0%nat) = 0 /\
    hc_bits (htree g ALPHA !!! 0%nat) = 0)%nat) /\
  (is_trivial_literal g = true ->
   literal_arb g = pack_arb (hc_value (htree g RED !!! 0%nat)) (hc_value (htree g BLUE !!! 0%nat))
                     (hc_value (htree g ALPHA !!! 0%nat))).

Lemma make_group_ok (pool : HuffmanTable) (offs : list nat) :
  length offs = HUFFMAN_CODES_PER_META_CODE ->
  group_ok (make_group pool offs (literal_trees_trivial pool 0 offs)).
Proof.
  intros Hl. destruct offs as [|o0 [|o1 [|o2 [|o3 [|o4 [|]]]]]]; try discriminate.
  unfold group_ok, make_group, htree. cbn -[drop pack_arb]. rewrite !drop_lookup_total_0.
  split_and!; [reflexivity| |intros H; rewrite H; reflexivity].
  rewrite !andb_true_r, !andb_true_iff, !Nat.eqb_eq. tauto.
Qed.

(** ** [ReadHuffmanCodes] *)

(** What a successful [ReadHuffmanCodes] leaves in the metadata [h]
    (from [h0]): as many groups as [num_htree_groups_], at least one, each
    [group_ok]; every entry of the group image names one of them; and
    either no image (the subsample bits of [h0] kept) or an image of
    [subsampleSize(xsize, bits) * subsampleSize(ysize, bits)] entries with
    [2 <= bits <= 9]. *)
Definition codes_ok (xsize ysize : nat) (h0 h : VP8LMetadata) : Prop :=
  num_htree_groups_ h = length (htree_groups_ h) /\ (1 <= num_htree_groups_ h)%nat /\
  Forall group_ok (htree_groups_ h) /\
  Forall (fun g => 0 <= g /\ (Z.to_nat g < num_htree_groups_ h)%nat) (huffman_image_ h) /\
  ((huffman_image_ h = [] /\ huffman_subsample_bits_ h = huffman_subsample_bits_ h0) \/
   (2 <= huffman_subsample_bits_ h <= 9 /\
    length (huffman_image_ h) =
    VP8LSubSampleSize xsize (huffman_subsample_bits_ h) *
    VP8LSubSampleSize ysize (huffman_subsample_bits_ h))%nat).

Section Codes.
Context (a : Allocator) (sub : SubDecodeFunc) (build : BuildFunc).

(** The sub-stream decoder returns an image of the size it is asked for. *)
Hypothesis Hsub : forall xs ys d img d',
  sub xs ys d = (true, img, d') -> length img = (xs * ys)%nat.

Lemma read_meta_image_spec (xs ys : nat) (ar : bool) (dec : VP8LDecoder) (image : list Z)
    (num : nat) (dec' : VP8LDecoder) :
  read_meta_image sub xs ys ar dec = (true, image, num, dec') ->
  (1 <= num)%nat /\ Forall (fun g => 0 <= g /\ (Z.to_nat g < num)%nat) image /\
  ((image = [] /\ hdr_ dec' = hdr_ dec) \/
   (2 <= huffman_subsample_bits_ (hdr_ dec') <= 9 /\
    length image = VP8LSubSampleSize xs (huffman_subsample_bits_ (hdr_ dec')) *
                   VP8LSubSampleSize ys (huffman_subsample_bits_ (hdr_ dec')))%nat).
Proof.
  unfold read_meta_image.
  destruct (if ar then VP8LReadBits (br_ dec) 1 else (0, br_ dec)) as [use br].
  destruct (negb (use =? 0)).
  - pose proof (read_bits_bound (br_ (set_br dec br)) 3) as Hp.
    destruct (VP8LReadBits (br_ (set_br dec br)) 3) as [p br1]. simpl in Hp.
    set (hx := VP8LSubSampleSize xs _). set (hy := VP8LSubSampleSize ys _).
    destruct (sub hx hy (set_br (set_br dec br) br1)) as [[[] img] d1] eqn:Es; [|intros [=]].
    apply Hsub in Es.
    pose proof (group_image_loop_spec img 1) as G.
    destruct (group_image_loop img 1) as [img' n'].
    intros [= <- <- <-]. destruct G as (Gl & Gn & Gf).
    split_and!; [lia|exact Gf|right]. simpl. split; [lia|]. rewrite Gl, Es. reflexivity.
  - intros [= <- <- <-]. split_and!; [lia|constructor|left; split; reflexivity].
Qed.

Lemma ReadHuffmanCodes_spec (xs ys ccb : nat) (ar : bool) (dec dec' : VP8LDecoder) :
  ReadHuffmanCodes a sub build xs ys ccb ar dec = (true, dec') ->
  codes_ok xs ys (hdr_ dec) (hdr_ dec').
Proof.
  unfold ReadHuffmanCodes.
  destruct (read_meta_image sub xs ys ar dec) as [[[[] image] num] dec1] eqn:M; [|intros [=]].
  apply read_meta_image_spec in M as (Hn & Hf & Hm).
  destruct (eos_ (br_ dec1)); [intros [=]|]. cbv zeta.
  repeat match goal with |- context [malloc a ?n] => destruct (malloc a n) end;
    try (intros [=]; fail).
  destruct (read_groups build ccb num (replicate (max_alphabet_size ccb) 0%nat) [] (br_ dec1))
    as [[[[[] gs] cl] pool] br] eqn:R; [|intros [=]].
  apply read_groups_spec in R as (Hl & _ & Hg).
  intros [= <-]. unfold codes_ok; simpl. rewrite length_map.
  split_and!; [lia|lia| |exact Hf|].
  - apply List.Forall_map. eapply Forall_impl; [exact Hg|].
    intros [offs t] (H5 & _ & ->). apply make_group_ok, H5.
  - destruct Hm as [[-> ->]|Hm]; [left; split; reflexivity|right; exact Hm].
Qed.
End Codes.

(** ** A property of every tree the builder makes

    A property [P j] of the tables the builder returns for tree [j] of
    a group (green, red, blue, alpha, distance) that holds whatever
    follows the table in memory ([ext_ok]) holds of tree [j] of every
    group [ReadHuffmanCodes] leaves: each tree is [drop o pool], the
    table written at [o] followed by the tables written after it. *)

Section Trees.
Context (P : nat -> HuffmanTable -> Prop) (build : BuildFunc).

Definition ext_ok (j : nat) (u : HuffmanTable) : Prop := forall rest, P j (u ++ rest).

Hypothesis Hbuild : forall ccb j cl t,
  build HUFFMAN_TABLE_BITS cl (alphabet_size_of j ccb) = Some t -> ext_ok j t.

Lemma ext_ok_app (j : nat) (u v : HuffmanTable) : ext_ok j u -> ext_ok j (u ++ v).
Proof. intros H rest. rewrite <- app_assoc. apply H. Qed.

Lemma ext_ok_drop (j : nat) (pool v : HuffmanTable) (o : nat) :
  (o <= length pool)%nat -> ext_ok j (drop o pool) -> ext_ok j (drop o (pool ++ v)).
Proof. intros Ho H. rewrite drop_app_le by exact Ho. apply ext_ok_app, H. Qed.

(** Tree [m] of the trees [j ..] of a group. *)
Definition trees_from (j : nat) (pool : HuffmanTable) (offs : list nat) : Prop :=
  forall m o, offs !! m = Some o -> ext_ok (j + m) (drop o pool).

Lemma read_htrees_trees (ccb j k : nat) (triv : bool) (cl : list nat) (pool : HuffmanTable)
    (br : VP8LBitReader) (offs : list nat) (t : bool) (cl' : list nat) (pool' : HuffmanTable)
    (br' : VP8LBitReader) :
  read_htrees build ccb j k triv cl pool br = (true, offs, t, cl', pool', br') ->
  trees_from j pool' offs.
Proof.
  revert j triv cl pool br offs t cl' pool' br'.
  induction k as [|k IH]; intros j triv cl pool br offs t cl' pool' br'; simpl.
  - intros [= <- _ _ _ _] m o Hm. discriminate.
  - destruct (ReadHuffmanCode _ _ _ _) as [[[size table] cl1] br1] eqn:E.
    destruct (Nat.eqb_spec size 0) as [|Hs]; [discriminate|].
    apply ReadHuffmanCode_built in E; [|lia]. apply Hbuild in E.
    destruct (read_htrees _ _ _ _ _ _ _ _) as [[[[[ok offs1] t1] cl2] pool2] br2] eqn:R.
    intros [= -> <- _ _ <- _].
    destruct (read_htrees_spec _ _ _ _ _ _ _ _ _ _ _ _ _ R) as (_ & [rest ->] & _ & _).
    intros [|m] o Hm; cbn in Hm.
    + injection Hm as <-. rewrite Nat.add_0_r, <- app_assoc, drop_app_length. apply ext_ok_app, E.
    + rewrite <- Nat.add_succ_comm. exact (IH _ _ _ _ _ _ _ _ _ _ R m o Hm).
Qed.

Lemma read_groups_trees (ccb n : nat) (cl : list nat) (pool : HuffmanTable) (br : VP8LBitReader)
    (gs : list (list nat * bool)) (cl' : list nat) (pool' : HuffmanTable) (br' : VP8LBitReader) :
  read_groups build ccb n cl pool br = (true, gs, cl', pool', br') ->
  Forall (fun '(offs, _) => trees_from 0 pool' offs) gs.
Proof.
  revert cl pool br gs cl' pool' br'.
  induction n as [|n IH]; intros cl pool br gs cl' pool' br'; cbn [read_groups].
  - intros [= <- _ _ _]. constructor.
  - destruct (read_htrees build ccb 0 HUFFMAN_CODES_PER_META_CODE true cl pool br)
      as [[[[[[] offs] t] cl1] pool1] br1] eqn:E; [|intros [=]].
    destruct (read_groups build ccb n cl1 pool1 br1) as [[[[[] gs1] cl2] pool2] br2] eqn:R;
      [|intros [=]].
    intros [= <- _ <- _].
    destruct (read_groups_spec _ _ _ _ _ _ _ _ _ _ R) as (_ & [r2 ->] & _).
    destruct (read_htrees_spec _ _ _ _ _ _ _ _ _ _ _ _ _ E) as (_ & _ & Hf & _).
    constructor; [|exact (IH _ _ _ _ _ _ _ R)].
    pose proof (read_htrees_trees _ _ _ _ _ _ _ _ _ _ _ _ E) as Ht.
    intros m o Hm. apply ext_ok_drop; [|exact (Ht m o Hm)].
    pose proof (Forall_lookup_1 _ _ _ _ Hf Hm) as Ho. cbv beta in Ho. lia.
Qed.

(** Tree [m] of every group of a successful [ReadHuffmanCodes] has the
    property [P m]. *)
Lemma ReadHuffmanCodes_trees (a : Allocator) (sub : SubDecodeFunc) (xs ys ccb : nat) (ar : bool)
    (dec dec' : VP8LDecoder) :
  ReadHuffmanCodes a sub build xs ys ccb ar dec = (true, dec') ->
  Forall (fun g => forall m u, htrees g !! m = Some u -> P m u) (htree_groups_ (hdr_ dec')).
Proof.
  unfold ReadHuffmanCodes.
  destruct (read_meta_image sub xs ys ar dec) as [[[ok image] num] dec1].
  destruct (negb ok || eos_ (br_ dec1)); [intros [=]|]. cbv zeta.
  repeat match goal with |- context [malloc a ?n] => destruct (malloc a n) end;
    try (intros [=]; fail).
  destruct (read_groups build ccb num (replicate (max_alphabet_size ccb) 0%nat) [] (br_ dec1))
    as [[[[[] gs] cl] pool] br] eqn:R; [|intros [=]].
  apply read_groups_trees in R.
  intros [= <-]. cbn. apply List.Forall_map. eapply Forall_impl; [exact R|].
  intros [offs t] Ho m u Hm. unfold make_group in Hm. cbn [htrees] in Hm.
  apply list_lookup_fmap_Some in Hm as (o & -> & Hm).
  rewrite <- (app_nil_r (drop o pool)). exact (Ho m o Hm []).
Qed.
End Trees.


(** C21: the [OUT_OF_MEMORY] path of [ReadHuffmanCodes]: once the
    meta-Huffman image is read and the stream has not ended, if one of
    the three blocks (the [num_htree_groups] groups, the
    [max_alphabet_size] code lengths, the [num_htree_groups *
    kTableSize[color_cache_bits]] table entries) cannot be allocated, the
    call returns 0 with status [OUT_OF_MEMORY] and reads no code. *)
Theorem ReadHuffmanCodes_out_of_memory (a : Allocator) (sub : SubDecodeFunc) (build : BuildFunc)
    (xs ys ccb : nat) (ar : bool) (dec : VP8LDecoder) (image : list Z) (num : nat)
    (dec1 : VP8LDecoder) :
  read_meta_image sub xs ys ar dec = (true, image, num, dec1) -> eos_ (br_ dec1) = false ->
  malloc a (Z.of_nat num * sizeof_HTreeGroup) = None \/
  malloc a (Z.of_nat (max_alphabet_size ccb) * 4) = None \/
  malloc a (Z.of_nat (num * kTableSize !!! ccb) * sizeof_HuffmanCode) = None ->
  ReadHuffmanCodes a sub build xs ys ccb ar dec = (false, set_status dec1 VP8_STATUS_OUT_OF_MEMORY).
Proof.
  intros M E A. unfold ReadHuffmanCodes. rewrite M, E. cbv zeta.
  destruct (malloc a (Z.of_nat num * sizeof_HTreeGroup)) eqn:E1,
    (malloc a (Z.of_nat (max_alphabet_size ccb) * 4)) eqn:E2,
    (malloc a (Z.of_nat (num * kTableSize !!! ccb) * sizeof_HuffmanCode)) eqn:E3;
    try reflexivity.
  exfalso. destruct A as [A|[A|A]]; congruence.
Qed.


(** ** The literal fast path of [DecodeImageData] *)

Definition with_group (s : LoopState) (g : HTreeGroup) : LoopState :=
  mkLoopState (ls_dec s) (ls_data s) (ls_src s) (ls_col s) (ls_row s) (ls_last_cached s)
    (ls_next_sync_row s) g.

Definition regroup (g : HTreeGroup) (r : StepResult) : StepResult :=
  match r with
  | Continue s => Continue (with_group s g)
  | Break s => Break (with_group s g)
  | Fail s => Fail (with_group s g)
  end.

(** The same group with the fast path switched off. *)
Definition slow_group (g : HTreeGroup) : HTreeGroup := mkHTreeGroup (htrees g) false (literal_arb g).

(** The fast-path pixel is the composed pixel. *)
Lemma pack_literal (red blue alpha code : nat) :
  pack_arb red blue alpha .| (Z.of_nat code << 8) =
  u32 (Z.of_nat alpha << 24) .| (Z.of_nat red << 16) .| (Z.of_nat code << 8) .| Z.of_nat blue.
Proof.
  unfold pack_arb. rewrite <- !Z.lor_assoc, (Z.lor_comm (Z.of_nat blue)). reflexivity.
Qed.

Lemma advance_regroup (lp : LoopParams) (s : LoopState) (g g' : HTreeGroup) (br : VP8LBitReader)
    (pix : Z) :
  advance_by_one lp (with_pixel (with_group s g) br pix) =
  regroup g (advance_by_one lp (with_pixel (with_group s g') br pix)).
Proof. unfold advance_by_one. destruct (_ <=? _)%nat; reflexivity. Qed.

(** C6: the literal fast path is exact (spec invariant 6): for a group
    that keeps [group_ok], flagged [is_trivial_literal], whose red, blue
    and alpha trees are one-symbol tables, decoding a literal with the fast
    path ([literal_arb | (green << 8)], no bit read) gives the same pixel,
    reader, decoder and position as reading the red, blue and alpha
    symbols and composing [(alpha << 24) | (red << 16) | (green << 8) | blue]. *)
Theorem literal_fast_path (lp : LoopParams) (s : LoopState) (g : HTreeGroup) (br : VP8LBitReader)
    (code : nat) :
  group_ok g -> is_trivial_literal g = true ->
  root_uniform (htree g RED) -> root_uniform (htree g BLUE) -> root_uniform (htree g ALPHA) ->
  VP8LIsEndOfStream br = eos_ br -> eos_ br = false ->
  literal_case lp (with_group s g) br code =
  regroup g (literal_case lp (with_group s (slow_group g)) br code).
Proof.
  intros (_ & Hiff & Harb) Ht Hr Hb Ha He Hf.
  destruct (proj1 Hiff Ht) as (Br & Bb & Ba).
  unfold literal_case. cbn [ls_group with_group slow_group is_trivial_literal].
  rewrite Ht. unfold htree in *. change (htrees (slow_group g)) with (htrees g).
  rewrite (ReadSymbol_uniform _ br Hr Br He). unfold VP8LFillBitWindow.
  rewrite (ReadSymbol_uniform _ br Hb Bb He), (ReadSymbol_uniform _ br Ha Ba He), Hf.
  rewrite (advance_regroup lp s g (slow_group g)), (Harb Ht), pack_literal. reflexivity.
Qed.

(** ** Witnesses *)

(** A group of one-symbol trees: red 5, blue 6, alpha 7. *)
Definition trivial_group : HTreeGroup :=
  mkHTreeGroup [trivial_table 0; trivial_table 5; trivial_table 6; trivial_table 7; trivial_table 0]
    true (pack_arb 5 6 7).

Lemma trivial_table_uniform (v : nat) : root_uniform (trivial_table v).
Proof.
  intros i Hi. unfold trivial_table.
  rewrite !lookup_total_replicate_2 by (simpl in *; lia). reflexivity.
Qed.

Lemma trivial_group_ok : group_ok trivial_group.
Proof.
  split_and!; [reflexivity| |intros _; reflexivity].
  split; [intros _; split_and!; reflexivity|reflexivity].
Qed.

Definition fast_path_state : LoopState :=
  mkLoopState (Examples.dec 0 0) (replicate 4 0) 0 0 0 0 0 trivial_group.

Lemma literal_fast_path_witness :
  literal_case Examples.lp (with_group fast_path_state trivial_group) (VP8LInitBitReader [3]) 9 =
  regroup trivial_group
    (literal_case Examples.lp (with_group fast_path_state (slow_group trivial_group))
       (VP8LInitBitReader [3]) 9).
Proof.
  apply literal_fast_path;
    [exact trivial_group_ok|reflexivity|apply trivial_table_uniform|apply trivial_table_uniform
    |apply trivial_table_uniform|reflexivity|reflexivity].
Defined.

(** Without meta-Huffman codes and with an allocator that always fails,
    [ReadHuffmanCodes] fails with [OUT_OF_MEMORY]. *)
Lemma ReadHuffmanCodes_out_of_memory_witness :
  let dec := set_br (Examples.dec 0 0) (VP8LInitBitReader [1]) in
  read_meta_image (fun _ _ d => (false, [], d)) 2 2 false dec
    = (true, [], 1%nat, set_br dec (br_ dec)) /\
  eos_ (br_ (set_br dec (br_ dec))) = false /\
  ReadHuffmanCodes alloc_none (fun _ _ d => (false, [], d)) (fun _ _ _ => None) 2 2 0 false dec
    = (false, set_status (set_br dec (br_ dec)) VP8_STATUS_OUT_OF_MEMORY).
Proof.
  cbv zeta. split; [reflexivity|]. split; [reflexivity|].
  apply (ReadHuffmanCodes_out_of_memory alloc_none _ _ 2 2 0 false _ [] 1 _); [reflexivity..|].
  left. reflexivity.
Defined.
