(* ===== verification/Stream.v ===== *)
(** * Stream decoding: [DecodeImageStream] and [VP8LDecodeHeader]

    Models the part of [vp8l.cpp] that ties the components together: the
    two levels of [DecodeImageStream] (the level-0 stream with transforms
    and meta-Huffman codes, and the sub-streams it decodes for transform
    data and for the meta-Huffman image, [DecodeSubStream]) and the entry
    points [VP8LNew], [VP8LClear] and [VP8LDecodeHeader].  The decoder
    [Decoder] is the entropy state [VP8LDecoder], the transform state and
    [state_]; a sub-stream runs on the whole decoder, so what it leaves in
    the metadata, the dimensions and the status is what the next step of
    the level-0 stream finds.

    Allocation goes through the [Allocator] oracle of [Memory.v]: the
    blocks of [ReadHuffmanCodes], the color cache and the pixels of a
    sub-stream may be [NULL], with the [OUT_OF_MEMORY] paths of the code;
    a buffer [malloc] leaves uninitialised is zero. *)

From S2P Require Import Prelude Memory BitReader Header Prefix ColorCache Transform Huffman CodeLengths Entropy HuffmanCodes.
From Stdlib Require Import Lia.

Local Open Scope Z_scope.
Local Open Scope vp8l_scope.

(** ** [DecodeImageStream] *)

(** The metadata of the color-cache set-up of [DecodeImageStream]. *)
Definition color_cache_hdr (color_cache_bits : Z) (h : VP8LMetadata) : VP8LMetadata :=
  if 0 <? color_cache_bits then
    set_color_cache (set_color_cache_size h (Z.to_nat (1 << color_cache_bits)))
      (VP8LColorCacheInit color_cache_bits)
  else set_color_cache_size h 0.

(** [if (color_cache_bits > 0) { hdr->color_cache_size_ = 1 << bits;
    if (!VP8LColorCacheInit(...)) { OUT_OF_MEMORY } }]: the cache's
    [calloc] of [1 << bits] words may fail. *)
Definition setup_color_cache (a : Allocator) (color_cache_bits : Z) (dec : VP8LDecoder)
    : bool * VP8LDecoder :=
  if 0 <? color_cache_bits then
    match malloc a ((1 << color_cache_bits) * 4) with
    | Some _ => (true, set_hdr dec (color_cache_hdr color_cache_bits (hdr_ dec)))
    | None =>
        (false, set_status (set_hdr dec (set_color_cache_size (hdr_ dec)
                                          (Z.to_nat (1 << color_cache_bits))))
                  VP8_STATUS_OUT_OF_MEMORY)
    end
  else (true, set_hdr dec (color_cache_hdr color_cache_bits (hdr_ dec))).

(** [UpdateDecoder(dec, width, height)] applied to the decoder. *)
Definition update_decoder (dec : VP8LDecoder) (width height : nat) : VP8LDecoder :=
  let '(w, h, hx, mask) := UpdateDecoder (huffman_subsample_bits_ (hdr_ dec)) width height in
  set_hdr (set_dims dec w h) (set_huffman_geometry (hdr_ dec) hx mask).

(** [dec->status_ = VP8_STATUS_BITSTREAM_ERROR; goto End;] and the
    [ClearMetadata] of the failing [End]. *)
Definition stream_error (dec : VP8LDecoder) : VP8LDecoder :=
  ClearMetadata (set_status dec VP8_STATUS_BITSTREAM_ERROR).

(** [dec->status_ = VP8_STATUS_OUT_OF_MEMORY; ok = 0; goto End;]. *)
Definition oom_error (dec : VP8LDecoder) : VP8LDecoder :=
  ClearMetadata (set_status dec VP8_STATUS_OUT_OF_MEMORY).

(** The meta-Huffman decoder a sub-stream passes to [ReadHuffmanCodes]:
    with [allow_recursion = 0] it is never called. *)
Definition no_meta : SubDecodeFunc := fun _ _ d => (false, [], d).

(** The loop parameters of a sub-stream: [DecodeImageData(dec, data,
    xsize, ysize, ysize, NULL)] on a fresh buffer. *)
Definition sub_params (xsize ysize : nat) : LoopParams := mkLoopParams xsize ysize ysize None 0.

(** [DecodeImageStream(xsize, ysize, 0, dec, &data)]: a sub-stream (no
    transforms, no meta-Huffman codes), decoded into a fresh
    [xsize * ysize] buffer.  [DecodeImageData] runs with
    [xsize * ysize + 1] steps of fuel, which always suffice
    ([DecodeSubStream_fuel]). *)
Definition DecodeSubStream (a : Allocator) (build : BuildFunc) (xsize ysize : nat)
    (dec : VP8LDecoder) : bool * list Z * VP8LDecoder :=
  let '(ok, color_cache_bits, br) := read_color_cache_bits (br_ dec) in
  let dec := set_br dec br in
  if negb ok then (false, [], stream_error dec) else
  let '(ok, dec) :=
    ReadHuffmanCodes a no_meta build xsize ysize (Z.to_nat color_cache_bits) false dec in
  if negb ok then (false, [], stream_error dec) else
  let '(ok, dec) := setup_color_cache a color_cache_bits dec in
  if negb ok then (false, [], ClearMetadata dec) else
  let dec := update_decoder dec xsize ysize in
  match malloc a (u64 (Z.of_nat (xsize * ysize)) * 4) with
  | None => (false, [], oom_error dec)
  | Some _ =>
      match DecodeImageData (S (xsize * ysize)) (sub_params xsize ysize) dec
              (replicate (xsize * ysize) 0) with
      | Some (true, dec, data) =>
          if eos_ (br_ dec) then (false, [], ClearMetadata dec)
          else (true, data, ClearMetadata (set_last_pixel dec 0))
      | Some (false, dec, _) => (false, [], ClearMetadata dec)
      | None => (false, [], ClearMetadata dec)
      end
  end.

(** The decoder states of [vp8li.h] the code uses. *)
Inductive VP8LDecodeState := READ_DIM | READ_HDR | READ_DATA.

#[export] Instance VP8LDecodeState_eq_dec : EqDecision VP8LDecodeState.
Proof. solve_decision. Defined.

(** The whole decoder: the entropy state, the transforms and [state_].
    The reader of [core_] is the decoder's; [tbr_] of [tstate_] is only
    used while the transforms are read. *)
Record Decoder := mkFullDecoder {
  core_ : VP8LDecoder;
  tstate_ : TransformState;
  state_ : VP8LDecodeState
}.

Definition set_tbr (ts : TransformState) (br : VP8LBitReader) : TransformState :=
  mkTransformState (transforms_ ts) (next_transform_ ts) (transforms_seen_ ts) br.

(** The sub-streams of the transform loop, as [ReadTransform] calls
    them: the decoder [d] with the current reader. *)
Definition sub_stream (a : Allocator) (build : BuildFunc) : SubStreamFunc VP8LDecoder :=
  fun xs ys br d =>
    let '(ok, data, d) := DecodeSubStream a build xs ys (set_br d br) in (ok, data, br_ d, d).

(** [DecodeImageStream(xsize, ysize, 1, dec, NULL)]: the level-0 stream.
    [read_transforms] runs with [NUM_TRANSFORMS + 1] steps of fuel, which
    suffice from a decoder with at most four transforms read
    ([read_transforms_total]). *)
Definition DecodeImageStream (a : Allocator) (build : BuildFunc) (xsize ysize : nat) (d : Decoder)
    : bool * Decoder :=
  let dec0 := core_ d in
  let fail dec ts := (false, mkFullDecoder (stream_error dec) ts (state_ d)) in
  match read_transforms (S NUM_TRANSFORMS) (sub_stream a build) xsize ysize
          (set_tbr (tstate_ d) (br_ dec0)) dec0 with
  | None => fail dec0 (tstate_ d)
  | Some (ok, transform_xsize, ts, dec) =>
      let dec := set_br dec (tbr_ ts) in
      if negb ok then fail dec ts else
      let '(ok, color_cache_bits, br) := read_color_cache_bits (br_ dec) in
      let dec := set_br dec br in
      if negb ok then fail dec ts else
      let '(ok, dec) :=
        ReadHuffmanCodes a (DecodeSubStream a build) build transform_xsize ysize
          (Z.to_nat color_cache_bits) true dec in
      if negb ok then fail dec ts else
      let '(ok, dec) := setup_color_cache a color_cache_bits dec in
      if negb ok then (false, mkFullDecoder (ClearMetadata dec) ts (state_ d)) else
      let dec := update_decoder dec transform_xsize ysize in
      (true, mkFullDecoder (set_last_pixel dec 0) ts READ_HDR)
  end.

(** ** Entry points *)

Definition null_reader : VP8LBitReader := mkBitReader [] 0 false.

(** [VP8LNew]: a [calloc]ed decoder with [status_ = OK], [state_ = READ_DIM]. *)
Definition VP8LNew : Decoder :=
  mkFullDecoder (mkDecoder VP8_STATUS_OK null_reader null_reader 0 0 false InitMetadata 0 0 0 0)
    (no_transforms null_reader) READ_DIM.

(** [ClearTransform(transform)]: [data_] freed and set to [NULL]. *)
Definition ClearTransform (t : VP8LTransform) : VP8LTransform :=
  mkTransform (type_ t) (bits_ t) (xsize_ t) (ysize_ t) [].

(** [ClearTransform] on the [n] transforms read. *)
Definition clear_transforms (n : nat) (ts : list VP8LTransform) : list VP8LTransform :=
  imap (fun i t => if (i <? n)%nat then ClearTransform t else t) ts.

(** [VP8LClear]: metadata and transforms released ([pixels_] and the
    rescaler memory are not part of the model). *)
Definition VP8LClear (d : Decoder) : Decoder :=
  let ts := tstate_ d in
  mkFullDecoder (ClearMetadata (core_ d))
    (mkTransformState (clear_transforms (next_transform_ ts) (transforms_ ts)) 0 0 (tbr_ ts))
    (state_ d).

(** [VP8LDecodeHeader(dec, io)] for a non-NULL [io] whose payload is [data]. *)
Definition VP8LDecodeHeader (a : Allocator) (build : BuildFunc) (data : list Z) (d : Decoder)
    : bool * Decoder :=
  let dec := set_br (set_status (core_ d) VP8_STATUS_OK) (VP8LInitBitReader data) in
  let '(info, br) := ReadImageInfo (br_ dec) in
  let dec := set_br dec br in
  match info with
  | None =>
      (false, VP8LClear (mkFullDecoder (set_status dec VP8_STATUS_BITSTREAM_ERROR)
                           (tstate_ d) (state_ d)))
  | Some (w, h, _) =>
      let '(ok, d) :=
        DecodeImageStream a build (Z.to_nat w) (Z.to_nat h) (mkFullDecoder dec (tstate_ d) READ_DIM) in
      if ok then (true, d) else (false, VP8LClear d)
  end.


(** ** Lemmas: sub-streams *)

(** The [xsize * ysize + 1] steps of fuel of a sub-stream always suffice. *)
Lemma sub_stream_fuel (xs ys : nat) (dec : VP8LDecoder) (data : list Z) :
  DecodeImageData (S (xs * ys)) (sub_params xs ys) dec data <> None.
Proof.
  unfold DecodeImageData. destruct (decode_loop _ _ _) as [r|] eqn:E.
  - destruct r as [s|s|s]; [destruct (_ && _ && _)|destruct (_ && _ && _)|]; try discriminate;
      destruct (negb _); discriminate.
  - exfalso. revert E. apply decode_loop_some. simpl. lia.
Qed.

(** A successful color-cache set-up is [color_cache_hdr]. *)
Lemma setup_color_cache_ok (a : Allocator) (b : Z) (dec dec' : VP8LDecoder) :
  setup_color_cache a b dec = (true, dec') -> dec' = set_hdr dec (color_cache_hdr b (hdr_ dec)).
Proof.
  unfold setup_color_cache. destruct (0 <? b); [destruct (malloc a _)|]; intros [= <-]; reflexivity.
Qed.

(** A sub-stream always ends with [ClearMetadata]. *)
Lemma DecodeSubStream_clears (a : Allocator) (build : BuildFunc) (xs ys : nat) (dec : VP8LDecoder) :
  hdr_ (snd (DecodeSubStream a build xs ys dec)) = InitMetadata.
Proof.
  unfold DecodeSubStream.
  destruct (read_color_cache_bits (br_ dec)) as [[ok ccb] br]. destruct (negb ok); [reflexivity|].
  destruct (ReadHuffmanCodes _ _ _ _ _ _ _ _) as [ok' d1]. destruct (negb ok'); [reflexivity|].
  destruct (setup_color_cache _ _ _) as [ok3 d3]. destruct (negb ok3); [reflexivity|].
  destruct (malloc a _); [|reflexivity].
  destruct (DecodeImageData _ _ _ _) as [[[[] d2] data]|]; [destruct (eos_ _)| |]; reflexivity.
Qed.

(** A successful sub-stream returns [xsize * ysize] pixels. *)
Lemma DecodeSubStream_length (a : Allocator) (build : BuildFunc) (xs ys : nat) (dec : VP8LDecoder)
    (img : list Z) (dec' : VP8LDecoder) :
  DecodeSubStream a build xs ys dec = (true, img, dec') -> length img = (xs * ys)%nat.
Proof.
  unfold DecodeSubStream.
  destruct (read_color_cache_bits (br_ dec)) as [[ok1 ccb] br]. destruct (negb ok1); [intros [=]|].
  destruct (ReadHuffmanCodes _ _ _ _ _ _ _ _) as [ok2 d1]. destruct (negb ok2); [intros [=]|].
  destruct (setup_color_cache _ _ _) as [ok3 d3]. destruct (negb ok3); [intros [=]|].
  destruct (malloc a _); [|intros [=]].
  destruct (DecodeImageData _ _ _ _) as [[[[] d2] data]|] eqn:E; [destruct (eos_ _)| |];
    try (intros [=]; fail).
  intros [= <- _]. apply DecodeImageData_length in E. rewrite E, length_replicate. reflexivity.
Qed.

(** ** The group index of every pixel names a group *)

(** With the geometry [update_decoder] sets, [GetMetaIndex] of every
    pixel of a [width * height] image is below the number of groups. *)
Lemma meta_index_bound (h0 h : VP8LMetadata) (W H x y : nat) :
  codes_ok W H h0 h -> huffman_subsample_bits_ h0 = 0%nat ->
  huffman_xsize_ h = VP8LSubSampleSize W (huffman_subsample_bits_ h) ->
  (x < W)%nat -> (y < H)%nat ->
  (GetMetaIndex (huffman_image_ h) (huffman_xsize_ h) (huffman_subsample_bits_ h) x y
   < length (htree_groups_ h))%nat.
Proof.
  intros (Hn & Hpos & _ & Himg & Hm) H0 Hx Hxs Hys. unfold GetMetaIndex.
  destruct Hm as [[_ Hb]|(Hb & Hl)].
  - rewrite Hb, H0. simpl. lia.
  - destruct (Nat.eqb_spec (huffman_subsample_bits_ h) 0) as [|_]; [lia|].
    set (b := huffman_subsample_bits_ h) in *. rewrite Hx.
    pose proof (subsample_index_bound W b x Hxs). pose proof (subsample_index_bound H b y Hys).
    assert (Hi : (VP8LSubSampleSize W b * Nat.shiftr y b + Nat.shiftr x b
                  < length (huffman_image_ h))%nat) by (rewrite Hl; nia).
    apply list_lookup_lookup_total_lt in Hi.
    pose proof (Forall_lookup_1 _ _ _ _ Himg Hi) as Hg. cbv beta in Hg. lia.
Qed.

(** ** The level-0 stream *)

(** Every sub-stream leaves subsample bits 0 behind it. *)
Lemma sub_stream_bits (a : Allocator) (build : BuildFunc) (xs ys : nat) (br : VP8LBitReader)
    (d : VP8LDecoder) :
  huffman_subsample_bits_ (hdr_ (snd (sub_stream a build xs ys br d))) = 0%nat.
Proof.
  unfold sub_stream. pose proof (DecodeSubStream_clears a build xs ys (set_br d br)) as H.
  destruct (DecodeSubStream a build xs ys (set_br d br)) as [[ok data] d']. simpl in *.
  rewrite H. reflexivity.
Qed.

(** What a successful level-0 [DecodeImageStream] leaves: the codes of
    [codes_ok] for an image of [width_ * height_] pixels, with the
    [huffman_xsize_] of [UpdateDecoder]. *)
Lemma DecodeImageStream_codes (a : Allocator) (build : BuildFunc) (xs ys : nat) (d d' : Decoder) :
  huffman_subsample_bits_ (hdr_ (core_ d)) = 0%nat ->
  DecodeImageStream a build xs ys d = (true, d') ->
  exists h0, huffman_subsample_bits_ h0 = 0%nat /\
    codes_ok (width_ (core_ d')) (height_ (core_ d')) h0 (hdr_ (core_ d')) /\
    huffman_xsize_ (hdr_ (core_ d')) =
    VP8LSubSampleSize (width_ (core_ d')) (huffman_subsample_bits_ (hdr_ (core_ d'))).
Proof.
  intros H0. unfold DecodeImageStream.
  destruct (read_transforms (S NUM_TRANSFORMS) (sub_stream a build) xs ys
              (set_tbr (tstate_ d) (br_ (core_ d))) (core_ d))
    as [[[[ok txs] ts] dec1]|] eqn:R; [|intros [=]].
  apply (read_transforms_preserves (fun d => huffman_subsample_bits_ (hdr_ d) = 0%nat))
    in R; [|intros; apply sub_stream_bits|exact H0].
  destruct ok; [|intros [=]]. cbn [negb].
  destruct (read_color_cache_bits (br_ (set_br dec1 (tbr_ ts)))) as [[ok ccb] br].
  destruct ok; [|intros [=]]. cbn [negb].
  destruct (ReadHuffmanCodes _ _ _ _ _ _ _ _) as [[] dec2] eqn:E; [|intros [=]].
  apply ReadHuffmanCodes_spec in E; [|apply DecodeSubStream_length]. cbn [negb].
  destruct (setup_color_cache _ _ _) as [[] dec3] eqn:C; [|intros [=]].
  apply setup_color_cache_ok in C as ->.
  intros [= <-]. exists (hdr_ (set_br (set_br dec1 (tbr_ ts)) br)). split; [exact R|].
  unfold update_decoder, UpdateDecoder. cbn.
  split; [unfold color_cache_hdr; destruct (0 <? ccb); exact E|].
  unfold color_cache_hdr; destruct (0 <? ccb); reflexivity.
Qed.

(** A level-0 stream that decodes leaves the decoder in [READ_HDR] at
    pixel 0. *)
Lemma DecodeImageStream_ready (a : Allocator) (build : BuildFunc) (xs ys : nat) (d d' : Decoder) :
  DecodeImageStream a build xs ys d = (true, d') ->
  state_ d' = READ_HDR /\ last_pixel_ (core_ d') = 0%nat.
Proof.
  unfold DecodeImageStream. head_cases; try discriminate. intros [= <-]. split; reflexivity.
Qed.

(** ** Properties of [VP8LDecodeHeader] *)

Lemma VP8LDecodeHeader_codes (a : Allocator) (build : BuildFunc) (data : list Z) (d : Decoder) :
  VP8LDecodeHeader a build data VP8LNew = (true, d) ->
  exists h0, huffman_subsample_bits_ h0 = 0%nat /\
    codes_ok (width_ (core_ d)) (height_ (core_ d)) h0 (hdr_ (core_ d)) /\
    huffman_xsize_ (hdr_ (core_ d)) =
    VP8LSubSampleSize (width_ (core_ d)) (huffman_subsample_bits_ (hdr_ (core_ d))).
Proof.
  unfold VP8LDecodeHeader.
  destruct (ReadImageInfo _) as [[[[w h] alpha]|] br]; [|intros [=]].
  destruct (DecodeImageStream _ _ _ _ _) as [[] d1] eqn:E; [|intros [=]].
  intros [= <-]. eapply DecodeImageStream_codes; [|exact E]. reflexivity.
Qed.

(** The trees of the groups a successful level-0 [DecodeImageStream]
    leaves are trees [ReadHuffmanCodes] read: a property of every table
    the builder makes for tree [j], wherever it is placed, holds of
    tree [j] of each group. *)
Lemma DecodeImageStream_trees (P : nat -> HuffmanTable -> Prop) (a : Allocator) (build : BuildFunc)
    (xs ys : nat) (d d' : Decoder) :
  (forall ccb j cl t, build HUFFMAN_TABLE_BITS cl (alphabet_size_of j ccb) = Some t -> ext_ok P j t) ->
  DecodeImageStream a build xs ys d = (true, d') ->
  Forall (fun g => forall m u, htrees g !! m = Some u -> P m u) (htree_groups_ (hdr_ (core_ d'))).
Proof.
  intros Hb. unfold DecodeImageStream.
  destruct (read_transforms _ _ _ _ _ _) as [[[[ok txs] ts] dec1]|]; [|intros [=]].
  destruct ok; [|intros [=]]. cbn [negb].
  destruct (read_color_cache_bits _) as [[ok ccb] br]. destruct ok; [|intros [=]]. cbn [negb].
  destruct (ReadHuffmanCodes _ _ _ _ _ _ _ _) as [[] dec2] eqn:E; [|intros [=]].
  apply (ReadHuffmanCodes_trees P build Hb) in E. cbn [negb].
  destruct (setup_color_cache _ _ _) as [[] dec3] eqn:C; [|intros [=]].
  apply setup_color_cache_ok in C as ->. intros [= <-].
  unfold update_decoder, UpdateDecoder, color_cache_hdr. cbn. destruct (0 <? ccb); exact E.
Qed.

Lemma VP8LDecodeHeader_trees (P : nat -> HuffmanTable -> Prop) (a : Allocator) (build : BuildFunc)
    (data : list Z) (d : Decoder) :
  (forall ccb j cl t, build HUFFMAN_TABLE_BITS cl (alphabet_size_of j ccb) = Some t -> ext_ok P j t) ->
  VP8LDecodeHeader a build data VP8LNew = (true, d) ->
  Forall (fun g => forall m u, htrees g !! m = Some u -> P m u) (htree_groups_ (hdr_ (core_ d))).
Proof.
  intros Hb. unfold VP8LDecodeHeader.
  destruct (ReadImageInfo _) as [[[[w h] alpha]|] br]; [|intros [=]].
  destruct (DecodeImageStream _ _ _ _ _) as [[] d1] eqn:E; [|intros [=]].
  intros [= <-]. exact (DecodeImageStream_trees P a build _ _ _ _ Hb E).
Qed.

(** C3: after [VP8LDecodeHeader] succeeds on a new decoder, whatever
    the table builder, the meta-Huffman lookup [GetHtreeGroupForPos] of
    every pixel [(x, y)] of the [width_ * height_] image reads inside the
    [htree_groups_] array: the group image, when there is one, has
    [subsampleSize(width) * subsampleSize(height)] entries and each names
    a group below the [num_htree_groups] computed from it, so the
    "group index >= declared count" error of the spec cannot arise. *)
Theorem VP8LDecodeHeader_group_in_bounds (a : Allocator) (build : BuildFunc) (data : list Z)
    (d : Decoder) (x y : nat) :
  VP8LDecodeHeader a build data VP8LNew = (true, d) ->
  (x < width_ (core_ d))%nat -> (y < height_ (core_ d))%nat ->
  (GetMetaIndex (huffman_image_ (hdr_ (core_ d))) (huffman_xsize_ (hdr_ (core_ d)))
     (huffman_subsample_bits_ (hdr_ (core_ d))) x y < length (htree_groups_ (hdr_ (core_ d))))%nat.
Proof.
  intros H Hx Hy. destruct (VP8LDecodeHeader_codes _ _ _ _ H) as (h0 & H0 & Hc & Hxs).
  exact (meta_index_bound h0 _ _ _ x y Hc H0 Hxs Hx Hy).
Qed.

(** C31: after [VP8LDecodeHeader] succeeds on a new decoder, the
    metadata holds [num_htree_groups_ >= 1] groups, as many as
    [htree_groups_], and each keeps the group contract [group_ok]: five
    trees, [is_trivial_literal] exactly when the red, blue and alpha trees
    have a zero-length root entry, and [literal_arb] their packed values. *)
Theorem VP8LDecodeHeader_groups_ok (a : Allocator) (build : BuildFunc) (data : list Z)
    (d : Decoder) :
  VP8LDecodeHeader a build data VP8LNew = (true, d) ->
  num_htree_groups_ (hdr_ (core_ d)) = length (htree_groups_ (hdr_ (core_ d))) /\
  (1 <= num_htree_groups_ (hdr_ (core_ d)))%nat /\
  Forall group_ok (htree_groups_ (hdr_ (core_ d))).
Proof.
  intros H. destruct (VP8LDecodeHeader_codes _ _ _ _ H) as (h0 & _ & (Hn & Hp & Hg & _) & _).
  split_and!; assumption.
Qed.

(** ** The status of a failed header *)

(** A failed color-cache set-up reports [OUT_OF_MEMORY]: the cache's
    [calloc] returned [NULL]. *)
Lemma setup_color_cache_fail (a : Allocator) (b : Z) (dec dec' : VP8LDecoder) :
  setup_color_cache a b dec = (false, dec') ->
  status_ dec' = VP8_STATUS_OUT_OF_MEMORY /\ 0 < b /\ malloc a ((1 << b) * 4) = None.
Proof.
  unfold setup_color_cache. destruct (Z.ltb_spec 0 b) as [Hb|Hb]; [destruct (malloc a _) eqn:E|];
    intros Heq; inversion Heq; subst; auto.
Qed.

(** A failed level-0 stream reports [BITSTREAM_ERROR], unless the
    color cache could not be allocated. *)
Lemma DecodeImageStream_status (a : Allocator) (build : BuildFunc) (xs ys : nat) (d d' : Decoder) :
  DecodeImageStream a build xs ys d = (false, d') ->
  status_ (core_ d') = VP8_STATUS_BITSTREAM_ERROR \/
  (status_ (core_ d') = VP8_STATUS_OUT_OF_MEMORY /\
   exists b, 0 < b /\ malloc a ((1 << b) * 4) = None).
Proof.
  unfold DecodeImageStream.
  destruct (read_transforms _ _ _ _ _ _) as [[[[[] txs] ts] dec1]|]; cbn [negb];
    [|intros [= <-]; left; reflexivity..].
  destruct (read_color_cache_bits _) as [[[] ccb] br]; cbn [negb]; [|intros [= <-]; left; reflexivity].
  destruct (ReadHuffmanCodes _ _ _ _ _ _ _ _) as [[] dec2]; cbn [negb];
    [|intros [= <-]; left; reflexivity].
  destruct (setup_color_cache a ccb dec2) as [[] dec3] eqn:C; cbn [negb]; [intros [=]|].
  apply setup_color_cache_fail in C as (Hs & Hb & Hm). intros [= <-]. right. eauto.
Qed.

(** C20: the status of a failed [VP8LDecodeHeader]: whatever the
    allocator, the table builder and the data, a call that returns 0
    leaves [BITSTREAM_ERROR], or [OUT_OF_MEMORY] when, and only because,
    the [calloc] of a color cache of [1 << bits] words failed.  An
    allocation failure in [ReadHuffmanCodes] or in a sub-stream (its
    pixels, its Huffman codes, a transform's data) is reported as a
    bitstream error. *)
Theorem VP8LDecodeHeader_status (a : Allocator) (build : BuildFunc) (data : list Z) (d d' : Decoder) :
  VP8LDecodeHeader a build data d = (false, d') ->
  status_ (core_ d') = VP8_STATUS_BITSTREAM_ERROR \/
  (status_ (core_ d') = VP8_STATUS_OUT_OF_MEMORY /\
   exists b, 0 < b /\ malloc a ((1 << b) * 4) = None).
Proof.
  unfold VP8LDecodeHeader.
  destruct (ReadImageInfo _) as [[[[w h] alpha]|] br]; [|intros [= <-]; left; reflexivity].
  destruct (DecodeImageStream _ _ _ _ _) as [[] d1] eqn:E; [intros [=]|].
  intros [= <-]. exact (DecodeImageStream_status _ _ _ _ _ _ E).
Qed.

(** ** Witnesses *)

(** A table builder for the witnesses: a one-symbol table of symbol 7. *)
Definition one_symbol_build : BuildFunc := fun _ _ _ => Some (trivial_table 7).

(** A 2x2 stream with no transform, no cache, no meta-Huffman image and
    five simple one-symbol codes: the bits [0, 0, 0] and five times
    [1, 0, 0, 0]. *)
Definition simple_stream : list Z := encode_header 2 2 0 ++ [0x88; 0x88; 0x08].

Definition simple_decoder : Decoder := snd (VP8LDecodeHeader alloc_all one_symbol_build simple_stream VP8LNew).

Lemma VP8LDecodeHeader_group_in_bounds_witness :
  VP8LDecodeHeader alloc_all one_symbol_build simple_stream VP8LNew = (true, simple_decoder) /\
  (1 < width_ (core_ simple_decoder))%nat /\ (1 < height_ (core_ simple_decoder))%nat /\
  (GetMetaIndex (huffman_image_ (hdr_ (core_ simple_decoder)))
     (huffman_xsize_ (hdr_ (core_ simple_decoder)))
     (huffman_subsample_bits_ (hdr_ (core_ simple_decoder))) 1 1
   < length (htree_groups_ (hdr_ (core_ simple_decoder))))%nat.
Proof.
  assert (H : VP8LDecodeHeader alloc_all one_symbol_build simple_stream VP8LNew = (true, simple_decoder))
    by (vm_compute; reflexivity).
  split; [exact H|]. split; [vm_compute; lia|]. split; [vm_compute; lia|].
  apply (VP8LDecodeHeader_group_in_bounds _ _ _ _ 1 1 H); vm_compute; lia.
Defined.

Lemma VP8LDecodeHeader_groups_ok_witness :
  VP8LDecodeHeader alloc_all one_symbol_build simple_stream VP8LNew = (true, simple_decoder) /\
  num_htree_groups_ (hdr_ (core_ simple_decoder)) =
  length (htree_groups_ (hdr_ (core_ simple_decoder))) /\
  (1 <= num_htree_groups_ (hdr_ (core_ simple_decoder)))%nat /\
  Forall group_ok (htree_groups_ (hdr_ (core_ simple_decoder))).
Proof.
  assert (H : VP8LDecodeHeader alloc_all one_symbol_build simple_stream VP8LNew = (true, simple_decoder))
    by (vm_compute; reflexivity).
  split; [exact H|]. exact (VP8LDecodeHeader_groups_ok _ _ _ _ H).
Defined.

(** With an allocator that always fails, the header of [simple_stream]
    (no color cache) fails in [ReadHuffmanCodes] and reports a bitstream
    error. *)
Lemma VP8LDecodeHeader_status_witness :
  VP8LDecodeHeader alloc_none one_symbol_build simple_stream VP8LNew
    = (false, snd (VP8LDecodeHeader alloc_none one_symbol_build simple_stream VP8LNew)) /\
  (status_ (core_ (snd (VP8LDecodeHeader alloc_none one_symbol_build simple_stream VP8LNew)))
     = VP8_STATUS_BITSTREAM_ERROR \/
   (status_ (core_ (snd (VP8LDecodeHeader alloc_none one_symbol_build simple_stream VP8LNew)))
      = VP8_STATUS_OUT_OF_MEMORY /\
    exists b, 0 < b /\ malloc alloc_none ((1 << b) * 4) = None)).
Proof.
  assert (H : VP8LDecodeHeader alloc_none one_symbol_build simple_stream VP8LNew
              = (false, snd (VP8LDecodeHeader alloc_none one_symbol_build simple_stream VP8LNew)))
    by (vm_compute; reflexivity).
  split; [exact H|]. exact (VP8LDecodeHeader_status _ _ _ _ _ H).
Defined.
