(* ===== verification/FillContract.v ===== *)
(** * The fill contract of the decoder, end to end

    Joins three results.  [BitWindow]: the windowed reader of
    [utils/bit_reader_utils] refines the cursor model on every sequence
    of reads that honours the fill contract, and the reads of one
    iteration of the loop of [DecodeImageData] honour it on groups of
    [table_ok] trees.  [CodeTables]: every table [VP8LBuildHuffmanTable]
    returns is [table_ok] wherever it is placed in the block, and returns
    only symbols of its alphabet (40 for a distance tree).  [Stream]:
    the groups [VP8LDecodeHeader] leaves are made of the trees
    [ReadHuffmanCodes] read, and the meta-Huffman lookup
    [GetHtreeGroupForPos] of every pixel names one of them.  Hence,
    after a successful header, the reads the loop makes at any pixels of
    the image return the same values on the windowed reader as on the
    cursor model the other files decode with. *)

From S2P Require Import Prelude Memory BitReader Prefix Huffman BitWindow HuffmanBuild CodeTables Entropy HuffmanCodes Stream.
From Stdlib Require Import Lia.

Local Open Scope vp8l_scope.

(** The iterations of the loop at pixels [(x, y)] with the green code
    [code] and the distance symbol [ds]: the group is the one
    [GetHtreeGroupForPos(hdr, x, y)] selects. *)
Definition decoded_pixels (hdr : VP8LMetadata) (ps : list (nat * nat * nat * nat))
  : list (HTreeGroup * nat * nat) :=
  map (fun '(x, y, code, ds) => (GetHtreeGroupForPos hdr x y, code, ds)) ps.

(** Pixels of a [w * h] image with distance symbols below 40. *)
Definition pixels_in (w h : nat) (ps : list (nat * nat * nat * nat)) : Prop :=
  Forall (fun '(x, y, _, ds) => x < w /\ y < h /\ ds < NUM_DISTANCE_CODES)%nat ps.

#[global] Instance pixels_in_dec w h ps : Decision (pixels_in w h ps).
Proof. unfold pixels_in. apply Forall_dec. intros [[[x y] c] ds]. apply _. Defined.

(** What the decoder needs of tree [m] of a group: the fill contract,
    and for the distance tree symbols below [NUM_DISTANCE_CODES]. *)
Definition tree_ok (m : nat) (u : HuffmanTable) : Prop :=
  table_ok u /\ (m = DIST -> forall br, (fst (ReadSymbol u br) < NUM_DISTANCE_CODES)%nat).

(** Every table the real builder makes for tree [j] keeps [tree_ok j],
    wherever it sits in the block: the distance alphabet has 40 symbols
    whatever the cache size. *)
Lemma VP8LBuildHuffmanTable_tree_ok (ccb j : nat) (cl : list nat) (t : HuffmanTable) :
  VP8LBuildHuffmanTable HUFFMAN_TABLE_BITS cl (alphabet_size_of j ccb) = Some t -> ext_ok tree_ok j t.
Proof.
  intros Hb rest. split; [exact (VP8LBuildHuffmanTable_table_ok_app _ _ _ Hb rest)|].
  intros -> br. exact (VP8LBuildHuffmanTable_symbol_lt _ _ _ Hb rest br).
Qed.

(** A group of five trees each [tree_ok] meets the contract. *)
Lemma trees_group_tables_ok (g : HTreeGroup) :
  length (htrees g) = HUFFMAN_CODES_PER_META_CODE ->
  (forall m u, htrees g !! m = Some u -> tree_ok m u) -> group_tables_ok g.
Proof.
  intros Hl H. unfold group_tables_ok. apply List.Forall_forall. intros i Hi. apply in_seq in Hi.
  unfold htree. assert (Hi' : (i < length (htrees g))%nat) by (rewrite Hl; unfold HUFFMAN_CODES_PER_META_CODE; lia).
  apply list_lookup_lookup_total_lt in Hi'. exact (proj1 (H _ _ Hi')).
Qed.

(** After a successful header, the trees of every group are [tree_ok]
    and there are five of them. *)
Lemma VP8LDecodeHeader_trees_ok (a : Allocator) (data : list Z) (d : Decoder) :
  VP8LDecodeHeader a VP8LBuildHuffmanTable data VP8LNew = (true, d) ->
  Forall (fun g => length (htrees g) = HUFFMAN_CODES_PER_META_CODE /\
                   forall m u, htrees g !! m = Some u -> tree_ok m u) (htree_groups_ (hdr_ (core_ d))).
Proof.
  intros H.
  pose proof (VP8LDecodeHeader_trees tree_ok a VP8LBuildHuffmanTable data d
                VP8LBuildHuffmanTable_tree_ok H) as Ht.
  destruct (VP8LDecodeHeader_codes _ _ _ _ H) as (_ & _ & (_ & _ & Hg & _) & _).
  apply List.Forall_forall. intros g Hin. rewrite List.Forall_forall in Ht, Hg.
  split; [exact (proj1 (Hg g Hin))|exact (Ht g Hin)].
Qed.

(** Every group a successful [VP8LDecodeHeader] with the real table
    builder leaves meets the contract. *)
Lemma VP8LDecodeHeader_groups_tables_ok (a : Allocator) (data : list Z) (d : Decoder) :
  VP8LDecodeHeader a VP8LBuildHuffmanTable data VP8LNew = (true, d) ->
  Forall group_tables_ok (htree_groups_ (hdr_ (core_ d))).
Proof.
  intros H. eapply Forall_impl; [exact (VP8LDecodeHeader_trees_ok a data d H)|].
  intros g [Hl Ht]. exact (trees_group_tables_ok g Hl Ht).
Qed.

(** The distance symbols the loop reads with a decoded group are below
    40: the hypothesis of [VP8LDecodeHeader_reads_refine] on them holds
    of every distance symbol the decoder reads. *)
Lemma VP8LDecodeHeader_dist_symbols (a : Allocator) (data : list Z) (d : Decoder) (g : HTreeGroup)
    (br : VP8LBitReader) :
  VP8LDecodeHeader a VP8LBuildHuffmanTable data VP8LNew = (true, d) ->
  In g (htree_groups_ (hdr_ (core_ d))) ->
  (fst (ReadSymbol (htree g DIST) br) < NUM_DISTANCE_CODES)%nat.
Proof.
  intros H Hin. pose proof (VP8LDecodeHeader_trees_ok a data d H) as Ht.
  rewrite List.Forall_forall in Ht. destruct (Ht g Hin) as [Hl Hg].
  assert (Hi : (DIST < length (htrees g))%nat) by (rewrite Hl; unfold DIST, HUFFMAN_CODES_PER_META_CODE; lia).
  apply list_lookup_lookup_total_lt in Hi. exact (proj2 (Hg _ _ Hi) eq_refl br).
Qed.

(** The group of every pixel of the image meets the contract. *)
Lemma GetHtreeGroupForPos_tables_ok (a : Allocator) (data : list Z) (d : Decoder) (x y : nat) :
  VP8LDecodeHeader a VP8LBuildHuffmanTable data VP8LNew = (true, d) ->
  (x < width_ (core_ d))%nat -> (y < height_ (core_ d))%nat ->
  group_tables_ok (GetHtreeGroupForPos (hdr_ (core_ d)) x y).
Proof.
  intros H Hx Hy. destruct (VP8LDecodeHeader_codes _ _ _ _ H) as (h0 & H0 & Hc & Hxs).
  pose proof (meta_index_bound h0 _ _ _ x y Hc H0 Hxs Hx Hy) as Hi.
  apply list_lookup_lookup_total_lt in Hi.
  exact (Forall_lookup_1 _ _ _ _ (VP8LDecodeHeader_groups_tables_ok a data d H) Hi).
Qed.

(** C27: after [VP8LDecodeHeader] succeeds with [VP8LBuildHuffmanTable]
    as its table builder, the reads the loop of [DecodeImageData] makes
    at pixels of the image (a fill and the green symbol; red, a fill,
    blue and alpha for a literal; the length's extra bits, the distance
    symbol, a fill and the distance's extra bits for a back-reference),
    with the group [GetHtreeGroupForPos] selects and distance symbols
    below 40 (the only symbols [ReadSymbol] returns from the distance
    tree of a decoded group, [VP8LDecodeHeader_dist_symbols]), meet the fill contract of the windowed reader of spec 4.1:
    from any windowed reader in a consistent state, when they read inside
    the input, they return the same values on the windowed reader as on
    the cursor model, and leave [eos_] clear. *)
Theorem VP8LDecodeHeader_reads_refine (a : Allocator) (data : list Z) (d : Decoder)
    (br : VP8LBitReaderW) (ps : list (nat * nat * nat * nat)) :
  VP8LDecodeHeader a VP8LBuildHuffmanTable data VP8LNew = (true, d) ->
  pixels_in (width_ (core_ d)) (height_ (core_ d)) ps ->
  wf_w br -> eos_w br = false -> (cursor_w br <= 8 * len_w br)%nat ->
  let ops := decode_ops (decoded_pixels (hdr_ (core_ d)) ps) in
  run_inside ops (abs_w br) ->
  let '(vs, br') := read_run_w ops br in
  (vs, abs_w br') = read_run ops (abs_w br) /\ eos_w br' = false.
Proof.
  intros Hd Hp Hwf He Hc ops Hin. apply decode_ops_refine; try assumption.
  unfold pixels_ok, decoded_pixels. apply List.Forall_map. eapply Forall_impl; [exact Hp|].
  intros [[[x y] code] ds] (Hx & Hy & Hds). split; [|exact Hds].
  exact (GetHtreeGroupForPos_tables_ok a data d x y Hd Hx Hy).
Qed.

Module FillContractExamples.
(** The 2x2 stream of [Stream.v] (five one-symbol codes) decoded with
    the real table builder; three iterations (a literal, a back-reference
    with length symbol 14 and distance symbol 10, a cache code) read from
    twelve bytes. *)
Definition fc_decoder : Decoder :=
  snd (VP8LDecodeHeader alloc_all VP8LBuildHuffmanTable simple_stream VP8LNew).
Definition fc_reader : VP8LBitReaderW :=
  VP8LInitBitReader_w [90; 195; 23; 255; 0; 129; 46; 155; 68; 208; 111; 19]%Z.
Definition fc_pixels : list (nat * nat * nat * nat) := [(0, 0, 5, 0); (1, 0, 270, 10); (0, 1, 300, 0)]%nat.
End FillContractExamples.

Import FillContractExamples.

Lemma VP8LDecodeHeader_reads_refine_witness :
  VP8LDecodeHeader alloc_all VP8LBuildHuffmanTable simple_stream VP8LNew = (true, fc_decoder) /\
  let ops := decode_ops (decoded_pixels (hdr_ (core_ fc_decoder)) fc_pixels) in
  let '(vs, br') := read_run_w ops fc_reader in
  (vs, abs_w br') = read_run ops (abs_w fc_reader) /\ eos_w br' = false.
Proof.
  assert (Hd : VP8LDecodeHeader alloc_all VP8LBuildHuffmanTable simple_stream VP8LNew = (true, fc_decoder))
    by (vm_compute; reflexivity).
  split; [exact Hd|].
  apply (VP8LDecodeHeader_reads_refine alloc_all simple_stream fc_decoder fc_reader fc_pixels Hd);
    [decide_by_eval | decide_by_eval | reflexivity | vm_compute; lia | decide_by_eval].
Defined.
