(* ===== verification/Alpha.v ===== *)
(** * The 8-bit alpha decoder: [DecodeAlphaData]

    Models [Is8bOptimizable], [ExtractPalettedAlphaRows] and
    [DecodeAlphaData] of [vp8l.cpp]: when an alpha plane has only the
    color-indexing transform, no color cache and one-symbol red, blue and
    alpha trees, [VP8LDecodeAlphaHeader] decodes it one byte per pixel
    (the green code) with [CopyBlock8b] for the backward references.

    The loop state [AlphaState] holds the locals of [DecodeAlphaData]
    ([pos], [col], [row], [htree_group]) with the decoder and the byte
    raster; [alpha_step] is one iteration of [while (!br->eos_ && pos <
    last)], returning [AFail] at the [goto End]s.  The row hook
    [ExtractPalettedAlphaRows] applies the inverse transforms to the rows
    decoded and moves [last_row_] and [last_out_row_]; here it is its
    effect on the decoder, [AlphaPlane.v] adds the plane it writes.

    The theorems show that the loop terminates, that it keeps its buffer
    a byte array, that a success away from the end of the stream has
    reached [last_row] (the progress the alpha entry point relies on),
    that every failure is reported with a status, and that the byte
    decoder refines the 32-bit
    decoder [DecodeImageData]: on a stream that decodes, it produces the
    green channel of the 32-bit raster, with the same reader and
    position. *)

From S2P Require Import Prelude BitReader Prefix ColorCache CopyBlock Huffman Entropy EntropyCache HuffmanCodes.
From Stdlib Require Import Lia.

Local Open Scope Z_scope.
Local Open Scope vp8l_scope.

(** [Is8bOptimizable(hdr)]. *)
Definition Is8bOptimizable (hdr : VP8LMetadata) : bool :=
  negb (0 <? color_cache_size_ hdr)%nat &&
  forallb (fun g => (hc_bits (htree g RED !!! 0%nat) =? 0)%nat &&
                    (hc_bits (htree g BLUE !!! 0%nat) =? 0)%nat &&
                    (hc_bits (htree g ALPHA !!! 0%nat) =? 0)%nat)
    (take (num_htree_groups_ hdr) (htree_groups_ hdr)).

Definition set_last_rows (d : VP8LDecoder) (row : nat) : VP8LDecoder :=
  mkDecoder (status_ d) (br_ d) (saved_br_ d) (saved_last_pixel_ d) (last_pixel_ d)
    (incremental_ d) (hdr_ d) (width_ d) (height_ d) row row.

(** [ExtractPalettedAlphaRows(dec, row)]: [ApplyInverseTransformsAlpha]
    on rows [[last_row_, row)] (into the output plane), then
    [last_row_ = last_out_row_ = row]. *)
Definition ExtractPalettedAlphaRows (dec : VP8LDecoder) (row : nat) : VP8LDecoder :=
  set_last_rows dec row.

(** The loop parameters: [width], [height], [last_row], the row hook and
    the address of [data] (for the alignment tests of [CopyBlock8b]). *)
Definition alpha_params (width height last_row : nat) (data_addr : Z) : LoopParams :=
  mkLoopParams width height last_row (Some (fun d _ row => ExtractPalettedAlphaRows d row))
    data_addr.

(** The locals of [DecodeAlphaData]. *)
Record AlphaState := mkAlphaState {
  as_dec : VP8LDecoder;
  as_data : list Z;
  as_pos : nat;
  as_col : nat;
  as_row : nat;
  as_group : HTreeGroup
}.

Inductive AlphaStep :=
  | AContinue (s : AlphaState)
  | AFail (s : AlphaState).

(** One iteration of the loop; [hdr] is [dec->hdr_], which the loop
    does not change. *)
Definition alpha_step (lp : LoopParams) (hdr : VP8LMetadata) (s : AlphaState) : AlphaStep :=
  let width := lp_width lp in
  let end_ := (width * lp_height lp)%nat in
  let last := (width * lp_last_row lp)%nat in
  let mask := huffman_mask_ hdr in
  let pos := as_pos s in
  let grp := if Z.of_nat (as_col s) .& mask =? 0
             then GetHtreeGroupForPos hdr (as_col s) (as_row s) else as_group s in
  let '(code, br) := ReadSymbol (htree grp GREEN) (VP8LFillBitWindow (br_ (as_dec s))) in
  if (code <? NUM_LITERAL_CODES)%nat then
    let data := <[pos := Z.of_nat code]> (as_data s) in
    let col := S (as_col s) in
    if (width <=? col)%nat then
      let row := S (as_row s) in
      AContinue (mkAlphaState (call_process lp (set_br (as_dec s) br) data row) data (S pos) 0
                   row grp)
    else AContinue (mkAlphaState (set_br (as_dec s) br) data (S pos) col (as_row s) grp)
  else if (code <? NUM_LITERAL_CODES + NUM_LENGTH_CODES)%nat then
    let '(length, br) := GetCopyLength (code - NUM_LITERAL_CODES) br in
    let '(dist_symbol, br) := ReadSymbol (htree grp DIST) br in
    let br := VP8LFillBitWindow br in
    let '(dist_code, br) := GetCopyDistance dist_symbol br in
    let dist := PlaneCodeToDistance width dist_code in
    let dec := set_br (as_dec s) br in
    if (dist <=? pos)%nat && (length <=? end_ - pos)%nat then
      let data := CopyBlock8b (as_data s) pos (lp_data_addr lp + Z.of_nat pos) dist length in
      let pos := (pos + length)%nat in
      let '(dec, col, row) :=
        wrap_rows (S (as_col s + length)) lp dec data (as_col s + length) (as_row s) in
      let grp := if (pos <? last)%nat && negb (Z.of_nat col .& mask =? 0)
                 then GetHtreeGroupForPos hdr col row else grp in
      AContinue (mkAlphaState dec data pos col row grp)
    else AFail (mkAlphaState dec (as_data s) pos (as_col s) (as_row s) grp)
  else AFail (mkAlphaState (set_br (as_dec s) br) (as_data s) pos (as_col s) (as_row s) grp).

(** [while (!br->eos_ && pos < last) { ... }], with fuel. *)
Fixpoint alpha_loop (fuel : nat) (lp : LoopParams) (hdr : VP8LMetadata) (s : AlphaState)
    : option AlphaStep :=
  match fuel with
  | O => None
  | S fuel' =>
      if negb (eos_ (br_ (as_dec s))) && (as_pos s <? lp_width lp * lp_last_row lp)%nat then
        match alpha_step lp hdr s with
        | AContinue s' => alpha_loop fuel' lp hdr s'
        | r => Some r
        end
      else Some (AContinue s)
  end.

(** [DecodeAlphaData(dec, data, width, height, last_row)] with [data] at
    address [data_addr]: [Some (ok, dec, data)], or [None] when the fuel
    runs out. *)
Definition DecodeAlphaData (fuel : nat) (data_addr : Z) (dec : VP8LDecoder) (data : list Z)
    (width height last_row : nat) : option (bool * VP8LDecoder * list Z) :=
  let row := (last_pixel_ dec / width)%nat in
  let col := (last_pixel_ dec mod width)%nat in
  let hdr := hdr_ dec in
  let lp := alpha_params width height last_row data_addr in
  let s0 := mkAlphaState dec data (last_pixel_ dec) col row (GetHtreeGroupForPos hdr col row) in
  match alpha_loop fuel lp hdr s0 with
  | None => None
  | Some r =>
      let '(ok, s) :=
        match r with
        | AContinue s =>
            (true, mkAlphaState (ExtractPalettedAlphaRows (as_dec s) (as_row s)) (as_data s)
                     (as_pos s) (as_col s) (as_row s) (as_group s))
        | AFail s => (false, s)
        end in
      let dec := as_dec s in
      let eos := eos_ (br_ dec) in
      if negb ok || (eos && (as_pos s <? width * height)%nat) then
        Some (false, set_status dec (if eos then VP8_STATUS_SUSPENDED else VP8_STATUS_BITSTREAM_ERROR),
              as_data s)
      else Some (true, set_last_pixel dec (as_pos s), as_data s)
  end.

(** ** Lemmas *)

(** Names the green symbol an iteration reads. *)
Local Ltac read_green :=
  match goal with
  | |- context [ReadSymbol (htree ?g GREEN) ?b] => destruct (ReadSymbol (htree g GREEN) b) as [code br]
  end.

Definition alpha_state (r : AlphaStep) : AlphaState :=
  match r with AContinue s | AFail s => s end.

(** A property of the decoder that the row hook keeps is kept by
    [wrap_rows]. *)
Lemma wrap_rows_keeps (Q : VP8LDecoder -> Prop) (fuel : nat) (lp : LoopParams)
    (dec : VP8LDecoder) (data : list Z) (col row : nat) :
  (forall f, lp_process lp = Some f -> forall d data r, Q d -> Q (f d data r)) -> Q dec ->
  Q (fst (fst (wrap_rows fuel lp dec data col row))).
Proof.
  intros Hf. revert dec col row. induction fuel as [|k IH]; intros dec col row Hd; [exact Hd|].
  simpl. destruct (_ <=? _)%nat; [|exact Hd]. apply IH. unfold call_process.
  destruct (_ =? 0)%nat; [|exact Hd]. destruct (lp_process lp) eqn:E; [|exact Hd].
  apply (Hf _ eq_refl), Hd.
Qed.

(** The column and row [wrap_rows] ends at depend on the width only. *)
Lemma wrap_rows_pos (fuel : nat) (lp lp' : LoopParams) (d d' : VP8LDecoder) (data data' : list Z)
    (col row : nat) :
  lp_width lp = lp_width lp' ->
  snd (wrap_rows fuel lp d data col row) = snd (wrap_rows fuel lp' d' data' col row) /\
  snd (fst (wrap_rows fuel lp d data col row)) = snd (fst (wrap_rows fuel lp' d' data' col row)).
Proof.
  intros Hw. revert d d' col row. induction fuel as [|k IH]; intros d d' col row; [auto|].
  simpl. rewrite Hw. destruct (_ <=? _)%nat; [apply IH|auto].
Qed.

(** An iteration keeps every property of the decoder that [set_br] and
    the row hook [ExtractPalettedAlphaRows] keep. *)
Lemma alpha_step_keeps (Q : VP8LDecoder -> Prop) (w h lr : nat) (addr : Z) (hdr : VP8LMetadata)
    (s : AlphaState) :
  (forall d br, Q d -> Q (set_br d br)) -> (forall d r, Q d -> Q (set_last_rows d r)) ->
  Q (as_dec s) -> Q (as_dec (alpha_state (alpha_step (alpha_params w h lr addr) hdr s))).
Proof.
  intros Hbr Hrows Hs.
  assert (Hcp : forall d data r, Q d -> Q (call_process (alpha_params w h lr addr) d data r))
    by (intros d data r Hd; unfold call_process; destruct (_ =? 0)%nat; [apply Hrows|]; exact Hd).
  unfold alpha_step. read_green.
  destruct (code <? _)%nat; [destruct (_ <=? _)%nat; cbn [alpha_state as_dec]; auto|].
  destruct (code <? _)%nat; [|simpl; auto].
  destruct (GetCopyLength _ _) as [len br1]. destruct (ReadSymbol _ br1) as [ds br2].
  destruct (GetCopyDistance _ _) as [dc br3]. destruct (_ && _); [|simpl; auto].
  pose proof (wrap_rows_keeps Q (S (as_col s + len))
    (alpha_params w h lr addr) (set_br (as_dec s) br3)
    (CopyBlock8b (as_data s) (as_pos s) (addr + Z.of_nat (as_pos s)) (PlaneCodeToDistance w dc) len)
    (as_col s + len) (as_row s)) as Hw.
  destruct (wrap_rows _ _ _ _ _ _) as [[d c] r]. apply Hw; [|auto].
  intros f Hf d0 dt rr H. injection Hf as Hf. subst f. apply Hrows, H.
Qed.

Lemma alpha_loop_keeps (Q : VP8LDecoder -> Prop) (fuel : nat) (w h lr : nat) (addr : Z)
    (hdr : VP8LMetadata) (s : AlphaState) (r : AlphaStep) :
  (forall d br, Q d -> Q (set_br d br)) -> (forall d r, Q d -> Q (set_last_rows d r)) ->
  alpha_loop fuel (alpha_params w h lr addr) hdr s = Some r ->
  Q (as_dec s) -> Q (as_dec (alpha_state r)).
Proof.
  intros Hbr Hrows. revert s. induction fuel as [|f IH]; intros s; simpl; [discriminate|].
  destruct (_ && _); [|intros [= <-]; auto].
  pose proof (alpha_step_keeps Q w h lr addr hdr s Hbr Hrows) as Hs.
  destruct (alpha_step _ hdr s) as [s'|s']; intros H Hq; [exact (IH _ H (Hs Hq))|].
  injection H as <-. exact (Hs Hq).
Qed.

Lemma alpha_loop_status (fuel : nat) (w h lr : nat) (addr : Z) (hdr : VP8LMetadata)
    (s : AlphaState) (r : AlphaStep) :
  alpha_loop fuel (alpha_params w h lr addr) hdr s = Some r ->
  status_ (as_dec (alpha_state r)) = status_ (as_dec s).
Proof.
  intros E. apply (alpha_loop_keeps (fun d => status_ d = status_ (as_dec s)) fuel w h lr addr hdr s r);
    auto.
Qed.

(** [DecodeAlphaData] keeps the dimensions of the decoder. *)
Lemma DecodeAlphaData_dims (fuel : nat) (addr : Z) (dec dec' : VP8LDecoder) (data data' : list Z)
    (W H LR : nat) (ok : bool) :
  DecodeAlphaData fuel addr dec data W H LR = Some (ok, dec', data') ->
  width_ dec' = width_ dec /\ height_ dec' = height_ dec.
Proof.
  unfold DecodeAlphaData. cbv zeta.
  destruct (alpha_loop _ _ _ _) as [r|] eqn:E; [|discriminate].
  apply (alpha_loop_keeps (fun d => width_ d = width_ dec /\ height_ d = height_ dec)) in E;
    [|auto..].
  destruct r as [s|s]; cbn [alpha_state] in E; cbv beta iota zeta;
    match goal with |- (if ?c then _ else _) = _ -> _ => destruct c end;
    intros Hr; injection Hr as _ <- _; cbn; exact E.
Qed.

(** ** Termination *)

Lemma alpha_step_progress (lp : LoopParams) (hdr : VP8LMetadata) (s s' : AlphaState) :
  alpha_step lp hdr s = AContinue s' -> (as_pos s < as_pos s')%nat.
Proof.
  unfold alpha_step. read_green.
  destruct (code <? _)%nat; [destruct (_ <=? _)%nat; intros [= <-]; simpl; lia|].
  destruct (code <? _)%nat; [|discriminate].
  pose proof (GetCopyLength_pos (code - NUM_LITERAL_CODES) br) as Hl.
  destruct (GetCopyLength _ _) as [len br1]. destruct (ReadSymbol _ br1) as [ds br2].
  destruct (GetCopyDistance _ _) as [dc br3]. destruct (_ && _); [|discriminate].
  destruct (wrap_rows _ _ _ _ _ _) as [[d c] r]. intros [= <-]. simpl in *. lia.
Qed.

Lemma alpha_loop_some (fuel : nat) (lp : LoopParams) (hdr : VP8LMetadata) (s : AlphaState) :
  (lp_width lp * lp_last_row lp - as_pos s < fuel)%nat -> alpha_loop fuel lp hdr s <> None.
Proof.
  revert s. induction fuel as [|f IH]; intros s Hf; [lia|]. simpl.
  destruct (negb _ && (as_pos s <? _)%nat) eqn:G; [|discriminate].
  apply andb_prop in G as [_ G]. apply Nat.ltb_lt in G.
  destruct (alpha_step lp hdr s) as [s'|s'] eqn:E; [|discriminate].
  apply IH. apply alpha_step_progress in E. lia.
Qed.

(** ** Progress *)

(** An iteration from before [last_row] stays inside the plane, given
    [last_row <= height] (the [assert] of [VP8LDecodeAlphaImageStream]). *)
Lemma alpha_step_bound (lp : LoopParams) (hdr : VP8LMetadata) (s s' : AlphaState) :
  (lp_last_row lp <= lp_height lp)%nat -> (as_pos s < lp_width lp * lp_last_row lp)%nat ->
  alpha_step lp hdr s = AContinue s' -> (as_pos s' <= lp_width lp * lp_height lp)%nat.
Proof.
  intros HL Hp.
  assert (Hm : (lp_width lp * lp_last_row lp <= lp_width lp * lp_height lp)%nat)
    by (apply Nat.mul_le_mono_l, HL).
  unfold alpha_step. read_green.
  destruct (code <? _)%nat; [destruct (_ <=? _)%nat; intros [= <-]; simpl; lia|].
  destruct (code <? _)%nat; [|discriminate].
  destruct (GetCopyLength _ _) as [len br1]. destruct (ReadSymbol _ br1) as [ds br2].
  destruct (GetCopyDistance _ _) as [dc br3]. destruct (_ && _) eqn:G; [|discriminate].
  apply andb_prop in G as [_ G]. apply Nat.leb_le in G.
  destruct (wrap_rows _ _ _ _ _ _) as [[d c] r]. intros [= <-]. simpl in *. lia.
Qed.

(** The loop ends inside the plane, at [last_row] or at the end of the
    stream. *)
Lemma alpha_loop_exit (fuel : nat) (lp : LoopParams) (hdr : VP8LMetadata) (s s' : AlphaState) :
  (lp_last_row lp <= lp_height lp)%nat -> (as_pos s <= lp_width lp * lp_height lp)%nat ->
  alpha_loop fuel lp hdr s = Some (AContinue s') ->
  (as_pos s' <= lp_width lp * lp_height lp)%nat /\
  (eos_ (br_ (as_dec s')) = true \/ (lp_width lp * lp_last_row lp <= as_pos s')%nat).
Proof.
  intros HL. revert s. induction fuel as [|f IH]; intros s Hp; simpl; [discriminate|].
  destruct (negb _ && _) eqn:G.
  - apply andb_prop in G as [_ G]. apply Nat.ltb_lt in G.
    destruct (alpha_step lp hdr s) as [s1|s1] eqn:E; [|discriminate].
    apply IH. exact (alpha_step_bound lp hdr s s1 HL G E).
  - intros [= <-]. split; [exact Hp|]. destruct (eos_ _); [left; reflexivity|right].
    cbn [negb andb] in G. apply Nat.ltb_ge in G. exact G.
Qed.

(** A successful [DecodeAlphaData] that did not reach the end of the
    stream has decoded every row up to [last_row], and no pixel past
    the plane. *)
Lemma DecodeAlphaData_progress (fuel : nat) (addr : Z) (dec dec' : VP8LDecoder)
    (data data' : list Z) (W H LR : nat) :
  (LR <= H)%nat -> (last_pixel_ dec <= W * H)%nat ->
  DecodeAlphaData fuel addr dec data W H LR = Some (true, dec', data') ->
  eos_ (br_ dec') = false -> (W * LR <= last_pixel_ dec' <= W * H)%nat.
Proof.
  intros HL Hp. unfold DecodeAlphaData. cbv zeta.
  destruct (alpha_loop _ _ _ _) as [[s|s]|] eqn:E;
    [|cbn [negb orb]; discriminate|discriminate].
  - apply alpha_loop_exit in E; [|exact HL|exact Hp]. cbn [alpha_params lp_width lp_height
      lp_last_row] in E.
    unfold ExtractPalettedAlphaRows, set_last_rows. cbn [as_dec as_pos br_ negb orb andb].
    destruct (eos_ (br_ (as_dec s))) eqn:Hs.
    + destruct (as_pos s <? W * H)%nat; [discriminate|].
      intros H'; injection H' as <- _. cbn. rewrite Hs. discriminate.
    + intros H'; injection H' as <- _. cbn. intros _. destruct E as [E [E'|E']]; [congruence|lia].
Qed.

(** The alpha decoding loop terminates: each iteration that goes on
    decodes at least one pixel, so [width * last_row - last_pixel + 1]
    steps of fuel always suffice and [DecodeAlphaData] returns. *)
Theorem DecodeAlphaData_terminates (fuel : nat) (data_addr : Z) (dec : VP8LDecoder)
    (data : list Z) (width height last_row : nat) :
  (width * last_row - last_pixel_ dec < fuel)%nat ->
  DecodeAlphaData fuel data_addr dec data width height last_row <> None.
Proof.
  intros Hf. unfold DecodeAlphaData.
  destruct (alpha_loop _ _ _ _) as [r|] eqn:E.
  - destruct r as [s|s]; destruct (_ || _); discriminate.
  - exfalso. revert E. apply alpha_loop_some. exact Hf.
Qed.

(** C32: the error contract of [DecodeAlphaData]: it returns 0 with
    status [SUSPENDED] when the stream ended before the plane was
    complete and [BITSTREAM_ERROR] otherwise, and 1 with the status it was
    given. *)
Theorem DecodeAlphaData_status (fuel : nat) (data_addr : Z) (dec dec' : VP8LDecoder)
    (data data' : list Z) (width height last_row : nat) (ok : bool) :
  DecodeAlphaData fuel data_addr dec data width height last_row = Some (ok, dec', data') ->
  if ok then status_ dec' = status_ dec
  else status_ dec' = if eos_ (br_ dec') then VP8_STATUS_SUSPENDED else VP8_STATUS_BITSTREAM_ERROR.
Proof.
  unfold DecodeAlphaData.
  destruct (alpha_loop _ _ _ _) as [r|] eqn:E; [|discriminate].
  apply alpha_loop_status in E.
  destruct r as [s|s]; cbn [alpha_state] in E; cbv beta iota;
    (destruct (_ || _); intros [= <- <- _]; [reflexivity|]); exact E.
Qed.

(** ** The byte decoder refines the 32-bit decoder *)

(** The green channel of a pixel: the byte [DecodeAlphaData] stores. *)
Definition green_of (p : Z) : Z := (p >> 8) .& 0xff.

Lemma byte_bits_high (b n : Z) : 0 <= b < 256 -> 8 <= n -> Z.testbit b n = false.
Proof.
  intros Hb Hn. rewrite <- (Z.mod_small b (2 ^ 8)) by (simpl; lia).
  apply Z.mod_pow2_bits_high. lia.
Qed.

(** A composed literal pixel is a 32-bit word whose green channel is the
    green code. *)
Lemma literal_pixel_green (a r c b : Z) :
  0 <= r < 256 -> 0 <= c < 256 -> 0 <= b < 256 ->
  green_of (u32 (a << 24) .| (r << 16) .| (c << 8) .| b) = c /\
  0 <= u32 (a << 24) .| (r << 16) .| (c << 8) .| b < 2 ^ 32.
Proof.
  intros Hr Hc Hb. split.
  - apply Z.bits_inj'. intros i Hi. unfold green_of, u32.
    rewrite Z.land_spec, Z.shiftr_spec, !Z.lor_spec by lia.
    change 0xff with (Z.ones 8).
    destruct (Z.lt_ge_cases i 8) as [Hl|Hl].
    + rewrite Z.ones_spec_low, Z.mod_pow2_bits_low, !Z.shiftl_spec by lia.
      rewrite (Z.testbit_neg_r a (i + 8 - 24)), (Z.testbit_neg_r r (i + 8 - 16)),
        (byte_bits_high b (i + 8)) by lia.
      replace (i + 8 - 8) with i by lia. rewrite andb_true_r, orb_false_r. reflexivity.
    + rewrite Z.ones_spec_high, (byte_bits_high c i) by lia. rewrite andb_false_r. reflexivity.
  - assert (Hs : forall x k, 0 <= x < 256 -> 0 <= k <= 16 -> 0 <= x << k < 2 ^ 32).
    { intros x k Hx Hk. rewrite Z.shiftl_mul_pow2 by lia.
      assert (2 ^ k <= 2 ^ 16) by (apply Z.pow_le_mono_r; lia). simpl in *. nia. }
    repeat apply lor_bound; try lia; try apply u32_bound; apply Hs; lia.
Qed.

(** A tree the table builder makes for a one-symbol alphabet of 256
    symbols: a uniform root of zero-length entries. *)
Definition one_symbol_tree (t : HuffmanTable) : Prop :=
  root_uniform t /\ hc_bits (t !!! 0%nat) = 0%nat /\ (hc_value (t !!! 0%nat) < 256)%nat.

(** The groups of a plane that [Is8bOptimizable] accepts, with the
    tables the builder makes for one-symbol codes: red, blue and alpha are
    one-symbol trees, and a trivial literal packs their values. *)
Definition alpha_group (g : HTreeGroup) : Prop :=
  one_symbol_tree (htree g RED) /\ one_symbol_tree (htree g BLUE) /\
  one_symbol_tree (htree g ALPHA) /\
  (is_trivial_literal g = true ->
   literal_arb g = pack_arb (hc_value (htree g RED !!! 0%nat)) (hc_value (htree g BLUE !!! 0%nat))
                     (hc_value (htree g ALPHA !!! 0%nat))).

(** The empty group the lookup returns out of range is one too. *)
Lemma alpha_group_inhabitant : alpha_group inhabitant.
Proof.
  assert (H : one_symbol_tree []) by (split_and!; [intros i _|..]; reflexivity || (vm_compute; lia)).
  split_and!; [exact H|exact H|exact H|discriminate].
Qed.

Lemma ReadSymbol_consistent (t : HuffmanTable) (br : VP8LBitReader) :
  VP8LIsEndOfStream (snd (ReadSymbol t br)) = eos_ (snd (ReadSymbol t br)).
Proof.
  assert (H : forall b p, VP8LIsEndOfStream (VP8LSetBitPos b p) = eos_ (VP8LSetBitPos b p))
    by (intros [buf q e] p; unfold VP8LSetBitPos, VP8LIsEndOfStream;
        cbn [eos_ buf_ bit_pos_]; destruct e, (8 * length buf <? p)%nat; reflexivity).
  unfold ReadSymbol. destruct (_ <? _)%nat; apply H.
Qed.

(** A literal of an [alpha_group] writes a 32-bit pixel whose green
    channel is the code, and reads no further bit. *)
Lemma literal_case_alpha (lp : LoopParams) (s : LoopState) (br : VP8LBitReader) (code : nat) :
  alpha_group (ls_group s) -> VP8LIsEndOfStream br = eos_ br -> eos_ br = false ->
  (code < 256)%nat ->
  exists p, literal_case lp s br code = advance_by_one lp (with_pixel s br p) /\
            green_of p = Z.of_nat code /\ 0 <= p < 2 ^ 32.
Proof.
  intros ((Ur & Br & Vr) & (Ub & Bb & Vb) & (Ua & Ba & Va) & Harb) He Hf Hc.
  pose proof (literal_pixel_green (Z.of_nat (hc_value (htree (ls_group s) ALPHA !!! 0%nat)))
                (Z.of_nat (hc_value (htree (ls_group s) RED !!! 0%nat))) (Z.of_nat code)
                (Z.of_nat (hc_value (htree (ls_group s) BLUE !!! 0%nat)))) as Hp.
  specialize (Hp ltac:(lia) ltac:(lia) ltac:(lia)).
  unfold literal_case. destruct (is_trivial_literal (ls_group s)) eqn:Ht.
  - eexists. split; [reflexivity|]. rewrite (Harb eq_refl), pack_literal. exact Hp.
  - rewrite (ReadSymbol_uniform _ br Ur Br He). unfold VP8LFillBitWindow.
    rewrite (ReadSymbol_uniform _ br Ub Bb He), (ReadSymbol_uniform _ br Ua Ba He), Hf.
    eexists. split; [reflexivity|]. exact Hp.
Qed.

Lemma ReadSymbol_eos (t : HuffmanTable) (br : VP8LBitReader) :
  eos_ br = true -> eos_ (snd (ReadSymbol t br)) = true.
Proof.
  assert (Hs : forall b p, eos_ b = true -> eos_ (VP8LSetBitPos b p) = true)
    by (intros [buf q e] p H; cbn in H; subst e; reflexivity).
  intros He. unfold ReadSymbol. destruct (_ <? _)%nat; apply Hs; [apply Hs|]; exact He.
Qed.

(** At the end of the stream an iteration of [DecodeImageData] breaks. *)
Lemma decode_step_eos (lp : LoopParams) (s : LoopState) :
  eos_ (br_ (ls_dec s)) = true -> exists s', decode_step lp s = Break s'.
Proof.
  intros He. unfold decode_step. cbv zeta.
  set (t := refresh_group (sync_point s)).
  assert (Hb : eos_ (VP8LFillBitWindow (br_ (ls_dec t))) = true)
    by (unfold t, refresh_group, sync_point, SaveState; destruct (_ <=? _)%nat;
        [destruct (_ <? _)%nat|]; exact He).
  pose proof (ReadSymbol_eos (htree (ls_group t) GREEN) _ Hb) as Hr.
  destruct (ReadSymbol (htree (ls_group t) GREEN) (VP8LFillBitWindow (br_ (ls_dec t))))
    as [code br]. simpl in Hr. rewrite Hr. eexists. reflexivity.
Qed.

(** The element loop commutes with a map of the pixels. *)
Lemma copy_loop_fmap (f : Z -> Z) (mem : list Z) (dst src n : nat) :
  (src + n <= length mem)%nat -> (dst + n <= length mem)%nat ->
  f <$> copy_loop mem dst src n = copy_loop (f <$> mem) dst src n.
Proof.
  revert mem dst src. induction n as [|n IH]; intros mem dst src Hs Hd; [reflexivity|].
  simpl. rewrite IH by (rewrite length_insert; lia).
  rewrite list_fmap_insert, (list_lookup_total_fmap f) by lia. reflexivity.
Qed.

Lemma copy_loop_length (mem : list Z) (dst src n : nat) :
  length (copy_loop mem dst src n) = length mem.
Proof.
  revert mem dst src. induction n as [|n IH]; intros mem dst src; [reflexivity|].
  simpl. rewrite IH, length_insert. reflexivity.
Qed.

Lemma copy_loop_forall (P : Z -> Prop) (mem : list Z) (dst src n : nat) :
  P inhabitant -> Forall P mem -> Forall P (copy_loop mem dst src n).
Proof.
  intros Hi. revert mem dst src. induction n as [|n IH]; intros mem dst src Hm; [exact Hm|].
  simpl. apply IH, Forall_insert; [exact Hm|]. apply Forall_lookup_total; assumption.
Qed.

Lemma green_byte (p : Z) : is_byte (green_of p).
Proof. unfold is_byte, green_of. change 0xff with (mask 8). apply land_mask_bound. lia. Qed.

(** ** The byte plane *)

(** The buffer of the 8-bit path, [uint8_t data[width * height]]. *)
Definition byte_plane (W H : nat) (data : list Z) : Prop :=
  length data = (W * H)%nat /\ Forall is_byte data.

Lemma alpha_step_bytes (lp : LoopParams) (hdr : VP8LMetadata) (s : AlphaState) :
  byte_plane (lp_width lp) (lp_height lp) (as_data s) ->
  byte_plane (lp_width lp) (lp_height lp) (as_data (alpha_state (alpha_step lp hdr s))).
Proof.
  intros [Hl Hb]. unfold alpha_step. read_green.
  destruct (code <? _)%nat eqn:Hc.
  - assert (Hw : byte_plane (lp_width lp) (lp_height lp) (<[as_pos s:=Z.of_nat code]> (as_data s)))
      by (split; [rewrite length_insert; exact Hl|apply Forall_insert; [exact Hb|]];
          apply Nat.ltb_lt in Hc; unfold is_byte, NUM_LITERAL_CODES in *; lia).
    destruct (_ <=? _)%nat; exact Hw.
  - destruct (code <? NUM_LITERAL_CODES + NUM_LENGTH_CODES)%nat; [|exact (conj Hl Hb)].
    pose proof (GetCopyLength_pos (code - NUM_LITERAL_CODES) br) as Hlen.
    destruct (GetCopyLength _ _) as [len br1]. destruct (ReadSymbol _ br1) as [ds br2].
    destruct (GetCopyDistance _ _) as [dc br3].
    pose proof (PlaneCodeToDistance_pos (lp_width lp) dc) as Hd.
    destruct (_ && _) eqn:G; [|exact (conj Hl Hb)].
    apply andb_prop in G as [G1 G2]. apply Nat.leb_le in G1, G2. cbn in Hlen.
    rewrite CopyBlock8b_copy_loop; [|lia|rewrite Hl; lia|exact Hb].
    destruct (wrap_rows _ _ _ _ _ _) as [[d c] r]. cbn [alpha_state as_data].
    split; [rewrite copy_loop_length; exact Hl|].
    apply copy_loop_forall; [unfold is_byte; cbn; lia|exact Hb].
Qed.

Lemma alpha_loop_bytes (fuel : nat) (lp : LoopParams) (hdr : VP8LMetadata) (s : AlphaState)
    (r : AlphaStep) :
  alpha_loop fuel lp hdr s = Some r ->
  byte_plane (lp_width lp) (lp_height lp) (as_data s) ->
  byte_plane (lp_width lp) (lp_height lp) (as_data (alpha_state r)).
Proof.
  revert s. induction fuel as [|f IH]; intros s; simpl; [discriminate|].
  destruct (_ && _); [|intros [= <-]; auto].
  pose proof (alpha_step_bytes lp hdr s) as Hs.
  destruct (alpha_step lp hdr s) as [s'|s']; intros H Hq; [exact (IH _ H (Hs Hq))|].
  injection H as <-. exact (Hs Hq).
Qed.

(** The typing of the 8-bit path: [DecodeAlphaData] keeps its buffer a
    [uint8_t] array of [width * height] entries.  Literal codes are below
    [NUM_LITERAL_CODES = 256], and [CopyBlock8b] (by its equivalence with
    the byte loop) only copies bytes of the buffer inside it, whatever
    the stream and the outcome. *)
Lemma DecodeAlphaData_bytes (fuel : nat) (addr : Z) (dec dec' : VP8LDecoder)
    (data data' : list Z) (W H LR : nat) (ok : bool) :
  byte_plane W H data ->
  DecodeAlphaData fuel addr dec data W H LR = Some (ok, dec', data') ->
  byte_plane W H data'.
Proof.
  intros Hb. unfold DecodeAlphaData. cbv zeta.
  destruct (alpha_loop _ _ _ _) as [r|] eqn:E; [|discriminate].
  apply alpha_loop_bytes in E; [|exact Hb]. cbn [alpha_params lp_width lp_height] in E.
  destruct r as [s|s]; cbn [alpha_state] in E; cbv beta iota zeta;
    match goal with |- (if ?c then _ else _) = _ -> _ => destruct c end;
    intros Hr; injection Hr as _ _ <-; exact E.
Qed.

(** [DecodeImageData] without a row hook keeps [incremental_]. *)
Lemma decode_step_incremental (lp : LoopParams) (s : LoopState) :
  lp_process lp = None ->
  incremental_ (ls_dec (step_state (decode_step lp s))) = incremental_ (ls_dec s).
Proof.
  intros Hp.
  assert (Hcp : forall d data r, call_process lp d data r = d)
    by (intros; unfold call_process; rewrite Hp; destruct (_ =? 0)%nat; reflexivity).
  assert (Hfl : forall d data a b, incremental_ (flush_cache d data a b) = incremental_ d)
    by (intros; unfold flush_cache; destruct (color_cache_on d); reflexivity).
  assert (Hadv : forall t, incremental_ (ls_dec (step_state (advance_by_one lp t))) =
                           incremental_ (ls_dec t))
    by (intros t; unfold advance_by_one; destruct (_ <=? _)%nat; cbn; rewrite ?Hfl, ?Hcp;
        reflexivity).
  assert (Hsr : incremental_ (ls_dec (refresh_group (sync_point s))) = incremental_ (ls_dec s))
    by (unfold refresh_group, sync_point, SaveState; destruct (_ <=? _)%nat;
        [destruct (_ <? _)%nat|]; reflexivity).
  unfold decode_step. cbv zeta. set (t := refresh_group (sync_point s)) in *. clearbody t.
  destruct (ReadSymbol _ _) as [code br]. destruct (eos_ br); [exact Hsr|].
  destruct (code <? _)%nat; [|destruct (code <? _)%nat; [|destruct (code <? _)%nat]].
  - unfold literal_case. destruct (is_trivial_literal _); [rewrite Hadv; exact Hsr|].
    destruct (ReadSymbol _ br) as [r1 b1]. destruct (ReadSymbol _ _) as [b b2].
    destruct (ReadSymbol _ b2) as [a b3].
    destruct (eos_ b3); [exact Hsr|rewrite Hadv; exact Hsr].
  - unfold backref_case. destruct (GetCopyLength _ _) as [len b1].
    destruct (ReadSymbol _ _) as [ds b2]. destruct (GetCopyDistance _ _) as [dc b3].
    destruct (eos_ b3); [exact Hsr|]. destruct (_ || _); [exact Hsr|].
    match goal with
    | |- context [wrap_rows ?f lp ?d ?dt ?c ?r] =>
        pose proof (wrap_rows_keeps (fun x => incremental_ x = incremental_ (ls_dec s)) f lp d dt c r)
          as K; destruct (wrap_rows f lp d dt c r) as [[dA cA] rA]
    end.
    cbn in K |- *. rewrite Hfl. apply K; [intros f Hf; congruence|exact Hsr].
  - unfold cache_case. rewrite Hadv. cbn. rewrite Hfl. exact Hsr.
  - exact Hsr.
Qed.

Lemma decode_loop_incremental (fuel : nat) (lp : LoopParams) (s : LoopState) (r : StepResult) :
  lp_process lp = None -> decode_loop fuel lp s = Some r ->
  incremental_ (ls_dec (step_state r)) = incremental_ (ls_dec s).
Proof.
  intros Hp. revert s. induction fuel as [|f IH]; intros s; simpl; [discriminate|].
  destruct (_ <? _)%nat; [|intros [= <-]; reflexivity].
  pose proof (decode_step_incremental lp s Hp) as Hs.
  destruct (decode_step lp s) as [s'|s'|s']; intros H;
    [rewrite (IH _ H); exact Hs|injection H as <-; exact Hs|injection H as <-; exact Hs].
Qed.

(** Metadata of [alpha_group]s without a cache is what [Is8bOptimizable]
    accepts. *)
Lemma Is8bOptimizable_alpha (hdr : VP8LMetadata) :
  color_cache_size_ hdr = 0%nat -> Forall alpha_group (htree_groups_ hdr) ->
  Is8bOptimizable hdr = true.
Proof.
  intros Hc Hg. unfold Is8bOptimizable. rewrite Hc. cbn [negb andb Nat.ltb Nat.leb].
  apply forallb_forall. intros g Hin.
  assert (Ht : Forall alpha_group (take (num_htree_groups_ hdr) (htree_groups_ hdr)))
    by (apply Forall_take, Hg).
  rewrite List.Forall_forall in Ht.
  destruct (Ht g Hin) as ((_ & B1 & _) & (_ & B2 & _) & (_ & B3 & _) & _).
  rewrite B1, B2, B3. reflexivity.
Qed.

Section Refinement.
Context (W H LR : nat) (addr8 addr32 : Z) (hdr0 : VP8LMetadata).

(** No color cache, and every group of the plane an [alpha_group]. *)
Hypothesis Hcache : color_cache_size_ hdr0 = 0%nat.
Hypothesis Hgroups : Forall alpha_group (htree_groups_ hdr0).

Local Abbreviation lp32 := (mkLoopParams W H LR None addr32).
Local Abbreviation lp8 := (alpha_params W H LR addr8).

(** The 32-bit loop state [s] and the byte loop state [a] agree: same
    reader, position and group, and the byte raster is the green channel
    of the 32-bit raster. *)
Definition sim (s : LoopState) (a : AlphaState) : Prop :=
  hdr_ (ls_dec s) = hdr0 /\ incremental_ (ls_dec s) = false /\
  br_ (as_dec a) = br_ (ls_dec s) /\
  as_pos a = ls_src s /\ as_col a = ls_col s /\ as_row a = ls_row s /\
  ((ls_src s < W * LR)%nat -> as_group a = ls_group s) /\
  as_data a = green_of <$> ls_data s /\
  Forall (fun p => 0 <= p < 2 ^ 32) (ls_data s) /\ length (ls_data s) = (W * H)%nat /\
  alpha_group (ls_group s).

Lemma group_for_pos_alpha (x y : nat) : alpha_group (GetHtreeGroupForPos hdr0 x y).
Proof.
  unfold GetHtreeGroupForPos.
  apply Forall_lookup_total; [apply alpha_group_inhabitant|exact Hgroups].
Qed.

(** The prologue of an iteration: the snapshot (no cache, so only the
    reader and position are saved) and the group refresh. *)
Lemma sync_refresh_shape (s : LoopState) :
  hdr_ (ls_dec s) = hdr0 ->
  let t := refresh_group (sync_point s) in
  hdr_ (ls_dec t) = hdr0 /\ br_ (ls_dec t) = br_ (ls_dec s) /\
  incremental_ (ls_dec t) = incremental_ (ls_dec s) /\
  ls_data t = ls_data s /\ ls_src t = ls_src s /\ ls_col t = ls_col s /\ ls_row t = ls_row s /\
  ls_group t = if Z.of_nat (ls_col s) .& huffman_mask_ hdr0 =? 0
               then GetHtreeGroupForPos hdr0 (ls_col s) (ls_row s) else ls_group s.
Proof.
  intros Hh. unfold refresh_group, sync_point, SaveState, set_snapshot.
  destruct (_ <=? _)%nat; cbn [hdr_ br_ incremental_ ls_dec ls_data ls_src ls_col ls_row ls_group];
    rewrite Hh, ?Hcache; split_and!; reflexivity.
Qed.

Lemma cache_off (d : VP8LDecoder) : hdr_ d = hdr0 -> color_cache_on d = false.
Proof. intros Hh. unfold color_cache_on. rewrite Hh, Hcache. reflexivity. Qed.

Lemma flush_off (d : VP8LDecoder) (data : list Z) (lc src : nat) :
  hdr_ d = hdr0 -> flush_cache d data lc src = d.
Proof. intros Hh. unfold flush_cache. rewrite cache_off by exact Hh. reflexivity. Qed.

Lemma call_process_none (d : VP8LDecoder) (data : list Z) (row : nat) :
  call_process lp32 d data row = d.
Proof. unfold call_process. destruct (_ =? 0)%nat; reflexivity. Qed.

(** The decoder fields the simulation tracks. *)
Definition dec_fields (br : VP8LBitReader) (d : VP8LDecoder) : Prop :=
  br_ d = br /\ hdr_ d = hdr0 /\ incremental_ d = false.

Lemma hooks_keep_fields (br : VP8LBitReader) (lp : LoopParams) :
  lp = lp32 \/ lp = lp8 ->
  forall f, lp_process lp = Some f -> forall d data r, dec_fields br d -> dec_fields br (f d data r).
Proof. intros [-> | ->] f Hf; [discriminate|]. injection Hf as <-. intros d _ r Hd. exact Hd. Qed.

(** One iteration: when the 32-bit loop goes on, the byte loop goes on
    to an agreeing state. *)
Lemma step_sim (s s' : LoopState) (a : AlphaState) :
  sim s a -> (ls_src s < W * LR)%nat -> eos_ (br_ (ls_dec s)) = false ->
  decode_step lp32 s = Continue s' ->
  exists a', alpha_step lp8 hdr0 a = AContinue a' /\ sim s' a'.
Proof.
  intros (Hh & Hi & Hbr & Hp & Hc & Hr & Hg & Hd & Hu & Hl & Ha) Hlt He.
  specialize (Hg Hlt).
  destruct a as [d8 data8 pos col row grp8]; cbn [as_dec as_data as_pos as_col as_row as_group] in *.
  subst pos col row grp8 data8.
  destruct (sync_refresh_shape s Hh) as (T1 & T2 & T3 & T4 & T5 & T6 & T7 & T8).
  unfold decode_step, alpha_step. cbv zeta. set (t := refresh_group (sync_point s)) in *.
  clearbody t.
  cbn [as_dec as_data as_pos as_col as_row as_group lp_width lp_height lp_last_row].
  change (lp_width lp8) with W. change (lp_height lp8) with H. change (lp_last_row lp8) with LR.
  change (lp_data_addr lp8) with addr8.
  rewrite <- T8, Hbr, <- T2.
  assert (Hgt : alpha_group (ls_group t))
    by (rewrite T8; destruct (_ =? 0); [apply group_for_pos_alpha|exact Ha]).
  pose proof (ReadSymbol_consistent (htree (ls_group t) GREEN)
                (VP8LFillBitWindow (br_ (ls_dec t)))) as Hcons.
  destruct (ReadSymbol (htree (ls_group t) GREEN) (VP8LFillBitWindow (br_ (ls_dec t))))
    as [code br1].
  cbn [snd] in Hcons. destruct (eos_ br1) eqn:E1; [discriminate|].
  rewrite T1, Hcache, Nat.add_0_r.
  destruct (Nat.ltb_spec code NUM_LITERAL_CODES) as [L1|L1].
  - destruct (literal_case_alpha lp32 t br1 code Hgt (eq_trans Hcons (eq_sym E1)) E1 L1)
      as (p & -> & Hgp & Hpu).
    unfold advance_by_one, with_pixel. cbn [ls_src ls_col ls_row ls_dec ls_data ls_last_cached
      ls_next_sync_row ls_group lp_width].
    rewrite T4, T5, T6, T7.
    assert (Hdata : green_of <$> <[ls_src s := p]> (ls_data s) =
                    <[ls_src s := Z.of_nat code]> (green_of <$> ls_data s))
      by (rewrite list_fmap_insert, Hgp; reflexivity).
    destruct (Nat.leb_spec W (S (ls_col s))); intros [= <-]; eexists; (split; [reflexivity|]);
      unfold sim; cbn [ls_dec ls_data ls_src ls_col ls_row ls_group as_dec as_data as_pos as_col
        as_row as_group];
      rewrite ?call_process_none, ?flush_off by exact T1;
      (split_and!; [exact T1|exact (eq_trans T3 Hi)| |reflexivity..|intros _; reflexivity|symmetry; exact Hdata
        |apply Forall_insert; assumption|rewrite length_insert; exact Hl|exact Hgt]);
      [unfold call_process; destruct (_ =? 0)%nat|]; reflexivity.
  - destruct (Nat.ltb_spec code (NUM_LITERAL_CODES + NUM_LENGTH_CODES)) as [L2|L2];
      [|intros [=]].
    unfold backref_case. cbn [ls_src ls_col ls_row ls_dec ls_data ls_group lp_width lp_height
      lp_data_addr].
    rewrite T1, T4, T5, T6, T7.
    destruct (GetCopyLength (code - NUM_LITERAL_CODES) br1) as [len br2] eqn:GL.
    pose proof (GetCopyLength_pos (code - NUM_LITERAL_CODES) br1) as Hlen. rewrite GL in Hlen.
    destruct (ReadSymbol (htree (ls_group t) DIST) br2) as [ds br3].
    destruct (GetCopyDistance ds (VP8LFillBitWindow br3)) as [dc br4].
    pose proof (PlaneCodeToDistance_pos W dc) as Hdist.
    set (dist := PlaneCodeToDistance W dc) in *.
    destruct (eos_ br4); [intros [=]|].
    destruct ((ls_src s <? dist) || (W * H - ls_src s <? len))%nat eqn:B; [intros [=]|].
    apply orb_false_iff in B as [B1 B2]. apply Nat.ltb_ge in B1, B2. simpl fst in Hlen.
    replace ((dist <=? ls_src s) && (len <=? W * H - ls_src s))%nat with true
      by (symmetry; apply andb_true_iff; split; apply Nat.leb_le; lia).
    rewrite CopyBlock32b_copy_loop by (assumption || lia).
    rewrite CopyBlock8b_copy_loop
      by (try lia; rewrite ?length_fmap; try lia; apply Forall_fmap, Forall_true; intros; apply green_byte).
    rewrite <- copy_loop_fmap by lia.
    set (data' := copy_loop (ls_data s) (ls_src s) (ls_src s - dist) len).
    pose proof (wrap_rows_pos (S (ls_col s + len)) lp32 lp8 (set_br (ls_dec t) br4)
                  (set_br d8 br4) data' (green_of <$> data') (ls_col s + len) (ls_row s) eq_refl)
      as [Wr Wc].
    pose proof (wrap_rows_keeps (dec_fields br4) (S (ls_col s + len)) lp32 (set_br (ls_dec t) br4)
                  data' (ls_col s + len) (ls_row s) (hooks_keep_fields br4 lp32 (or_introl eq_refl))
                  ltac:(split_and!; [reflexivity|exact T1|exact (eq_trans T3 Hi)])) as K.
    pose proof (wrap_rows_keeps (fun d => br_ d = br4) (S (ls_col s + len)) lp8 (set_br d8 br4)
                  (green_of <$> data') (ls_col s + len) (ls_row s)) as K8.
    destruct (wrap_rows _ lp32 _ _ _ _) as [[dA cA] rA].
    destruct (wrap_rows _ lp8 _ _ _ _) as [[dB cB] rB].
    cbn [fst snd] in Wr, Wc, K, K8. subst cB rB. destruct K as (K1 & K2 & K3).
    specialize (K8 ltac:(intros f Hf d0 dt rr Hd0; injection Hf as Hf; subst f; exact Hd0)
                  eq_refl).
    rewrite flush_off by exact K2. intros [= <-]. eexists. split; [reflexivity|].
    unfold sim; cbn [ls_dec ls_data ls_src ls_col ls_row ls_group as_dec as_data as_pos as_col
      as_row as_group].
    split_and!; try assumption; try reflexivity.
    + congruence.
    + intros Hlast. apply Nat.ltb_lt in Hlast. rewrite Hlast.
      destruct (Z.of_nat cA .& huffman_mask_ hdr0 =? 0); reflexivity.
    + apply copy_loop_forall; [simpl; lia|exact Hu].
    + unfold data'. rewrite copy_loop_length. exact Hl.
    + destruct (Z.of_nat cA .& huffman_mask_ hdr0 =? 0); [exact Hgt|apply group_for_pos_alpha].
Qed.

(** The loops: when the 32-bit loop ends without failing and with the
    stream not exhausted, the byte loop ends in an agreeing state. *)
Lemma loop_sim (fuel : nat) (s : LoopState) (a : AlphaState) (r : StepResult) :
  sim s a -> decode_loop fuel lp32 s = Some r -> eos_ (br_ (ls_dec (step_state r))) = false ->
  (forall f, r <> Fail f) ->
  exists a', alpha_loop fuel lp8 hdr0 a = Some (AContinue a') /\ sim (step_state r) a'.
Proof.
  revert s a. induction fuel as [|f IH]; intros s a Hs; [discriminate|].
  cbn [decode_loop alpha_loop]. change (lp_width lp8 * lp_last_row lp8)%nat with (W * LR)%nat.
  pose proof Hs as (_ & _ & Hbr & Hp & _). rewrite Hbr, Hp. cbn [lp_width lp_last_row].
  destruct (Nat.ltb_spec (ls_src s) (W * LR)) as [Hlt|Hge].
  - destruct (eos_ (br_ (ls_dec s))) eqn:He.
    + destruct (decode_step_eos lp32 s He) as [s' E]. rewrite E. intros [= <-] Hf.
      apply decode_step_break in E. cbn [step_state] in Hf. congruence.
    + cbn [negb andb].
      destruct (decode_step lp32 s) as [s1|s1|s1] eqn:E.
      * destruct (step_sim s s1 a Hs Hlt He E) as (a1 & -> & Hs1). apply IH, Hs1.
      * intros [= <-] Hf. apply decode_step_break in E. cbn [step_state] in Hf. congruence.
      * intros [= <-] _ Hf. exfalso. exact (Hf s1 eq_refl).
  - intros [= <-] _ _. rewrite andb_false_r. eexists. split; [reflexivity|exact Hs].
Qed.
End Refinement.

(** C2: the byte decoder refines the 32-bit decoder.  On metadata
    without a color cache whose groups have one-symbol red, blue and alpha
    trees (which [Is8bOptimizable] then accepts), whenever [DecodeImageData]
    decodes a 32-bit raster without suspending, [DecodeAlphaData] with
    the same fuel, on the green channel of the same raster, succeeds with
    the green channel of the 32-bit result, the same reader and the same
    [last_pixel_]: the 8-bit fast path of [VP8LDecodeAlphaHeader] changes
    nothing but the memory it needs. *)
Theorem DecodeAlphaData_refines (fuel : nat) (addr8 addr32 : Z) (dec dec32 : VP8LDecoder)
    (data data32 : list Z) (W H LR : nat) :
  color_cache_size_ (hdr_ dec) = 0%nat -> Forall alpha_group (htree_groups_ (hdr_ dec)) ->
  incremental_ dec = false -> length data = (W * H)%nat ->
  Forall (fun p => 0 <= p < 2 ^ 32) data ->
  DecodeImageData fuel (mkLoopParams W H LR None addr32) dec data = Some (true, dec32, data32) ->
  Is8bOptimizable (hdr_ dec) = true /\
  exists dec8,
    DecodeAlphaData fuel addr8 dec (green_of <$> data) W H LR =
      Some (true, dec8, green_of <$> data32) /\
    br_ dec8 = br_ dec32 /\ last_pixel_ dec8 = last_pixel_ dec32.
Proof.
  intros Hc Hg Hi Hl Hu HD. split; [apply Is8bOptimizable_alpha; assumption|].
  unfold DecodeImageData in HD. unfold DecodeAlphaData. cbv zeta in HD |- *.
  match type of HD with
  | context [decode_loop fuel ?lp ?s0] =>
      destruct (decode_loop fuel lp s0) as [r|] eqn:E; [|discriminate];
      pose proof (decode_loop_incremental fuel lp s0 r eq_refl E) as Hinc
  end.
  cbn [ls_dec] in Hinc. rewrite Hi in Hinc. cbn [lp_process] in HD.
  assert (Hend : eos_ (br_ (ls_dec (step_state r))) = false /\ (forall f, r <> Fail f) /\
                 dec32 = set_last_pixel (set_status (ls_dec (step_state r)) VP8_STATUS_OK)
                           (ls_src (step_state r)) /\ data32 = ls_data (step_state r)).
  { destruct r as [s|s|s]; cbn [step_state] in *; [| |discriminate];
      rewrite Hinc in HD; destruct (eos_ (br_ (ls_dec s))); try discriminate;
      injection HD as <- <-; split_and!; congruence. }
  destruct Hend as (Heos & Hnf & -> & ->).
  match type of E with
  | decode_loop _ _ ?s0 = _ =>
      match goal with
      | |- context [alpha_loop fuel _ _ ?a0] =>
          destruct (loop_sim W H LR addr8 addr32 (hdr_ dec) Hc Hg fuel s0 a0 r)
            as (a' & Ha & Hs); [|exact E|exact Heos|exact Hnf|]
      end
  end.
  - split_and!; try reflexivity; try assumption. apply group_for_pos_alpha; assumption.
  - rewrite Ha. destruct Hs as (_ & _ & Hbr & Hp & _ & _ & _ & Hd & _).
    cbn [as_dec as_pos as_data]. unfold ExtractPalettedAlphaRows, set_last_rows.
    cbn [br_]. rewrite Hbr, Heos. cbn [negb orb andb].
    eexists. split; [rewrite Hd; reflexivity|]. split; [reflexivity|]. cbn. exact Hp.
Qed.

(** ** Examples *)

Module AlphaExamples.
(** A green tree that reads one bit per pixel, 0 or 1; red, blue and
    alpha one-symbol trees of value 0; no color cache. *)
Definition green_bit : HuffmanTable :=
  map (fun i => mkHuffmanCode 1 (Nat.b2n (Nat.odd i))) (seq 0 256).

Definition hdr : VP8LMetadata :=
  mkMetadata 0 (VP8LColorCacheInit 1) (VP8LColorCacheInit 1) (-1) 0 1 [] 1
    [mkHTreeGroup [green_bit; trivial_table 0; trivial_table 0; trivial_table 0; trivial_table 0]
       false 0].

Definition dec (bytes : list Z) (w h : nat) : VP8LDecoder :=
  mkDecoder VP8_STATUS_OK (VP8LInitBitReader bytes) (VP8LInitBitReader bytes) 0 0 false
    hdr w h 0 0.
End AlphaExamples.

Lemma alpha_example_groups : Forall alpha_group (htree_groups_ AlphaExamples.hdr).
Proof.
  apply Forall_singleton. unfold alpha_group, one_symbol_tree.
  split_and!; try apply trivial_table_uniform; try reflexivity; cbn; lia.
Qed.

Lemma DecodeAlphaData_terminates_witness :
  (4 * 4 - last_pixel_ (AlphaExamples.dec [0x0a%Z] 4 4) < 40)%nat /\
  DecodeAlphaData 40 0 (AlphaExamples.dec [0x0a] 4 4) (replicate 16 0) 4 4 4 <> None.
Proof.
  split; [vm_compute; lia|]. apply DecodeAlphaData_terminates. vm_compute. lia.
Defined.

Lemma DecodeAlphaData_status_witness :
  DecodeAlphaData 40 0 (AlphaExamples.dec [0x0a] 4 4) (replicate 16 0) 4 4 4 =
    Some (false, set_status (set_last_rows (set_br (AlphaExamples.dec [0x0a] 4 4)
                                              (mkBitReader [0x0a] 9 true)) 2) VP8_STATUS_SUSPENDED,
          [0; 1; 0; 1] ++ replicate 12 0) /\
  status_ (set_status (set_last_rows (set_br (AlphaExamples.dec [0x0a] 4 4)
                                        (mkBitReader [0x0a] 9 true)) 2) VP8_STATUS_SUSPENDED) =
    VP8_STATUS_SUSPENDED.
Proof.
  assert (E : DecodeAlphaData 40 0 (AlphaExamples.dec [0x0a] 4 4) (replicate 16 0) 4 4 4 =
    Some (false, set_status (set_last_rows (set_br (AlphaExamples.dec [0x0a] 4 4)
                                              (mkBitReader [0x0a] 9 true)) 2) VP8_STATUS_SUSPENDED,
          [0; 1; 0; 1] ++ replicate 12 0)) by (vm_compute; reflexivity).
  split; [exact E|]. exact (DecodeAlphaData_status _ _ _ _ _ _ _ _ _ _ E).
Defined.

Lemma DecodeAlphaData_refines_witness :
  Is8bOptimizable AlphaExamples.hdr = true /\
  exists dec8,
    DecodeAlphaData 10 0 (AlphaExamples.dec [0x0a] 4 1) (green_of <$> replicate 4 0) 4 1 1 =
      Some (true, dec8, green_of <$> [0; 256; 0; 256]) /\
    br_ dec8 = mkBitReader [0x0a] 4 false /\ last_pixel_ dec8 = 4%nat.
Proof.
  apply (DecodeAlphaData_refines 10 0 0 (AlphaExamples.dec [0x0a] 4 1)
           (set_last_pixel (set_br (AlphaExamples.dec [0x0a] 4 1) (mkBitReader [0x0a] 4 false)) 4)
           (replicate 4 0) [0; 256; 0; 256] 4 1 1);
    [reflexivity|exact alpha_example_groups|reflexivity|reflexivity
    |repeat constructor; lia|vm_compute; reflexivity].
Defined.

