(* ===== verification/Rows.v ===== *)
(** * The row pipeline: cropping, inverse transforms and row output

    Models the functions of [vp8l.cpp] that [ProcessRows] (in
    [Pipeline.v]) calls on each block of rows: [SetCropWindow],
    [ApplyInverseTransforms], [EmitRows], [ConvertToYUVA] and
    [EmitRowsYUVA].  The kernels it calls live in
    [dsp/] and [utils/] (outside [src/]): the inverse transform of one
    [VP8LTransform] ([VP8LInverseTransform]), the conversion of BGRA
    pixels to a color space ([VP8LConvertFromBGRA]) and the RGB to YUV
    formulas ([VP8RGBToY], [VP8RGBToU], [VP8RGBToV]); they are parameters
    of a [Section].  Memory is a list of bytes or of 32-bit pixels,
    pointers are indices into it.

    The theorems show that [SetCropWindow] intersects the rows of a block
    with the crop window, that [EmitRows] writes each row of the window
    to its own line of the output, and that the chroma sums of
    [ConvertToYUVA] are the accumulated channels [VP8RGBToU/V] expect. *)

From S2P Require Import Prelude Transform CopyBlock Entropy.
From Stdlib Require Import Lia.

Local Open Scope Z_scope.
Local Open Scope vp8l_scope.

(** ** [VP8Io] and cropping *)

(** The fields of [VP8Io] the pipeline reads and writes: the final width,
    the crop window, the current block [mb_y], [mb_w], [mb_h], and the
    scaling request with its output size. *)
Record VP8Io := mkVP8Io {
  width : Z;
  crop_left : Z;
  crop_right : Z;
  crop_top : Z;
  crop_bottom : Z;
  mb_y : Z;
  mb_w : Z;
  mb_h : Z;
  use_scaling : bool;
  scaled_width : Z;
  scaled_height : Z
}.

Definition set_mb (io : VP8Io) (y w h : Z) : VP8Io :=
  mkVP8Io (width io) (crop_left io) (crop_right io) (crop_top io) (crop_bottom io) y w h
    (use_scaling io) (scaled_width io) (scaled_height io).

(** [SetCropWindow(io, y_start, y_end, &in_data, pixel_stride)]: whether
    the window is not empty, the [io] with [mb_y], [mb_w], [mb_h] set,
    and the moved byte pointer [in_data].  Its [assert]s
    ([y_start < y_end], [crop_left < crop_right]) are preconditions the
    caller establishes. *)
Definition SetCropWindow (io : VP8Io) (y_start y_end in_data pixel_stride : Z)
    : bool * VP8Io * Z :=
  let y_end := if crop_bottom io <? y_end then crop_bottom io else y_end in
  let '(y_start, in_data) :=
    if y_start <? crop_top io
    then (crop_top io, in_data + (crop_top io - y_start) * pixel_stride)
    else (y_start, in_data) in
  if y_end <=? y_start then (false, io, in_data)
  else
    (true, set_mb io (y_start - crop_top io) (crop_right io - crop_left io) (y_end - y_start),
     in_data + crop_left io * 4).

(** ** Properties of the crop *)

(** The rows of [[y_start, y_end)] inside the window
    [[crop_top, crop_bottom)]. *)
Definition crop_rows (io : VP8Io) (y_start y_end : Z) : Z :=
  Z.max 0 (Z.min y_end (crop_bottom io) - Z.max y_start (crop_top io)).

(** The crop, case by case. *)
Lemma SetCropWindow_intersect (io : VP8Io) (y_start y_end in_data stride : Z) :
  let '(ok, io', p) := SetCropWindow io y_start y_end in_data stride in
  ok = (0 <? crop_rows io y_start y_end) /\
  (ok = true ->
   mb_h io' = crop_rows io y_start y_end /\
   mb_y io' = Z.max y_start (crop_top io) - crop_top io /\
   mb_w io' = crop_right io - crop_left io /\
   p = in_data + (Z.max y_start (crop_top io) - y_start) * stride + crop_left io * 4).
Proof.
  unfold SetCropWindow, crop_rows.
  destruct (Z.ltb_spec (crop_bottom io) y_end); destruct (Z.ltb_spec y_start (crop_top io));
    match goal with |- context [if ?c then _ else _] => destruct c eqn:E end;
    [apply Z.leb_le in E|apply Z.leb_gt in E|apply Z.leb_le in E|apply Z.leb_gt in E
    |apply Z.leb_le in E|apply Z.leb_gt in E|apply Z.leb_le in E|apply Z.leb_gt in E];
    (split; [symmetry; apply Z.ltb_ge || apply Z.ltb_lt; lia|]);
    try discriminate; intros _; cbn; split_and!; lia.
Qed.

(** C15: [SetCropWindow] intersects the block [[y_start, y_end)] with the
    crop window: it reports a non-empty window exactly when the
    intersection has rows, and then sets [mb_h] to their number, [mb_y]
    to the first of them relative to [crop_top] and [mb_w] to the crop
    width, and moves the input pointer to the first cropped pixel of the
    first row of the intersection. *)
Theorem SetCropWindow_spec (io : VP8Io) (y_start y_end in_data stride : Z) :
  let '(ok, io', p) := SetCropWindow io y_start y_end in_data stride in
  ok = (0 <? crop_rows io y_start y_end) /\
  (ok = true ->
   mb_h io' = crop_rows io y_start y_end /\
   mb_y io' = Z.max y_start (crop_top io) - crop_top io /\
   mb_w io' = crop_right io - crop_left io /\
   p = in_data + (Z.max y_start (crop_top io) - y_start) * stride + crop_left io * 4).
Proof. apply SetCropWindow_intersect. Qed.

(** ** The kernels *)

Section Kernels.
(** [VP8LInverseTransform(transform, start_row, end_row, rows_in,
    rows_out)] on the pixel memory, with [rows_in] and [rows_out] as
    indices into it; [VP8LConvertFromBGRA(src, num_pixels, colorspace,
    dst)] as the bytes it writes for the pixels [src]. *)
Context (VP8LInverseTransform : VP8LTransform -> nat -> nat -> list Z -> nat -> nat -> list Z).
Context (VP8LConvertFromBGRA : list Z -> Z -> Z -> list Z).

(** [while (n-- > 0) { VP8LInverseTransform(&dec->transforms_[n], ...);
    rows_in = rows_out; }]: the transforms in reverse order, the first
    reading [rows], the others the cache in place. *)
Fixpoint inverse_loop (ts : list VP8LTransform) (n start_row end_row : nat) (mem : list Z)
    (rows_in rows_out : nat) : list Z :=
  match n with
  | O => mem
  | S n' =>
      inverse_loop ts n' start_row end_row
        (VP8LInverseTransform (ts !!! n') start_row end_row mem rows_in rows_out) rows_out rows_out
  end.

(** [ApplyInverseTransforms(dec, num_rows, rows)] on the pixel memory
    [mem] holding both [rows] and [argb_cache_]: the rows are copied to
    the cache, then transformed. *)
Definition ApplyInverseTransforms (ts : TransformState) (dec : VP8LDecoder) (num_rows : nat)
    (mem : list Z) (rows argb_cache : nat) : list Z :=
  let cache_pixs := (width_ dec * num_rows)%nat in
  let start_row := last_row_ dec in
  let end_row := (start_row + num_rows)%nat in
  let mem := memcpy mem argb_cache rows cache_pixs in
  inverse_loop (transforms_ ts) (next_transform_ ts) start_row end_row mem rows argb_cache.

(** The [mb_w] pixels a row of the cache holds at the byte pointer
    [row_in], read as [const uint32_t] pointer. *)
Definition row_pixels (pixels : list Z) (row_in mb_w : Z) : list Z :=
  slice pixels (Z.to_nat (row_in / 4)) (Z.to_nat (row_in / 4 + mb_w)).

(** [while (lines-- > 0) { VP8LConvertFromBGRA(...); row_in += in_stride;
    row_out += out_stride; }]. *)
Fixpoint emit_rows_loop (cs : Z) (pixels : list Z) (row_in in_stride mb_w : Z) (lines : nat)
    (out : list Z) (row_out out_stride : nat) : list Z :=
  match lines with
  | O => out
  | S l =>
      emit_rows_loop cs pixels (row_in + in_stride) in_stride mb_w l
        (store out row_out (VP8LConvertFromBGRA (row_pixels pixels row_in mb_w) mb_w cs))
        (row_out + out_stride)%nat out_stride
  end.

(** [EmitRows(colorspace, row_in, in_stride, mb_w, mb_h, out,
    out_stride)]: the number of rows out and the output bytes. *)
Definition EmitRows (cs : Z) (pixels : list Z) (row_in in_stride mb_w mb_h : Z) (out : list Z)
    (row_out out_stride : nat) : Z * list Z :=
  (mb_h, emit_rows_loop cs pixels row_in in_stride mb_w (Z.to_nat mb_h) out row_out out_stride).

(** ** Properties of [EmitRows] *)

Lemma emit_rows_loop_length (cs : Z) (pixels : list Z) (row_in in_stride mb_w : Z) (lines : nat)
    (out : list Z) (row_out out_stride : nat) :
  length (emit_rows_loop cs pixels row_in in_stride mb_w lines out row_out out_stride) = length out.
Proof.
  revert row_in out row_out. induction lines as [|l IH]; intros row_in out row_out; [reflexivity|].
  simpl. rewrite IH, length_store. reflexivity.
Qed.

(** The loop leaves the bytes before its first row alone. *)
Lemma emit_rows_loop_below (cs : Z) (pixels : list Z) (row_in in_stride mb_w : Z) (lines : nat)
    (out : list Z) (row_out out_stride j : nat) :
  (j < row_out)%nat ->
  emit_rows_loop cs pixels row_in in_stride mb_w lines out row_out out_stride !!! j = out !!! j.
Proof.
  revert row_in out row_out. induction lines as [|l IH]; intros row_in out row_out Hj; [reflexivity|].
  simpl. rewrite IH by lia. apply store_outside. lia.
Qed.

Section Rows.
  Context (cs : Z) (pixels : list Z) (in_stride mb_w : Z) (out_stride : nat).
  (** Each converted row fits in one line of the output. *)
  Hypothesis Hfit : forall px, (length (VP8LConvertFromBGRA px mb_w cs) <= out_stride)%nat.

Lemma emit_rows_loop_row (lines : nat) (row_in : Z) (out : list Z) (row_out i : nat) :
    (row_out + lines * out_stride <= length out)%nat -> (i < lines)%nat ->
    let row := VP8LConvertFromBGRA (row_pixels pixels (row_in + Z.of_nat i * in_stride) mb_w)
                 mb_w cs in
    slice (emit_rows_loop cs pixels row_in in_stride mb_w lines out row_out out_stride)
      (row_out + i * out_stride) (row_out + i * out_stride + length row) = row.
  Proof.
    revert row_in out row_out i. induction lines as [|l IH]; intros row_in out row_out i Hl Hi;
      [lia|]. cbv zeta. simpl emit_rows_loop. destruct i as [|i].
    - rewrite Z.add_0_r. set (r := VP8LConvertFromBGRA _ _ _). pose proof (Hfit (row_pixels pixels row_in mb_w)) as Hr.
      fold r in Hr. rewrite Nat.mul_0_l, Nat.add_0_r.
      rewrite (slice_ext _ (store out row_out r)).
      + apply store_slice. simpl in Hl. lia.
      + rewrite emit_rows_loop_length. reflexivity.
      + intros j Hj. apply emit_rows_loop_below. lia.
    - specialize (IH (row_in + in_stride) (store out row_out
        (VP8LConvertFromBGRA (row_pixels pixels row_in mb_w) mb_w cs)) (row_out + out_stride)%nat i).
      rewrite length_store in IH. specialize (IH ltac:(simpl in Hl; lia) ltac:(lia)).
      cbv zeta in IH. replace (row_in + in_stride + Z.of_nat i * in_stride)
        with (row_in + Z.of_nat (S i) * in_stride) in IH by lia.
      replace (row_out + out_stride + i * out_stride)%nat with (row_out + S i * out_stride)%nat
        in IH by lia.
      exact IH.
  Qed.
End Rows.

(** C16: [EmitRows] returns [mb_h] and writes, for each [i < mb_h], row [i]
    of the crop window ([mb_w] pixels at [row_in + i * in_stride])
    converted to the color space at [row_out + i * out_stride]; as each
    converted row fits in [out_stride] bytes, no row overwrites
    another. *)
Theorem EmitRows_rows (cs : Z) (pixels : list Z) (row_in in_stride mb_w mb_h : Z)
    (out : list Z) (row_out out_stride i : nat) :
  (forall px, (length (VP8LConvertFromBGRA px mb_w cs) <= out_stride)%nat) ->
  (row_out + Z.to_nat mb_h * out_stride <= length out)%nat -> (i < Z.to_nat mb_h)%nat ->
  let row := VP8LConvertFromBGRA (row_pixels pixels (row_in + Z.of_nat i * in_stride) mb_w)
               mb_w cs in
  fst (EmitRows cs pixels row_in in_stride mb_w mb_h out row_out out_stride) = mb_h /\
  slice (snd (EmitRows cs pixels row_in in_stride mb_w mb_h out row_out out_stride))
    (row_out + i * out_stride) (row_out + i * out_stride + length row) = row.
Proof.
  intros Hfit Hl Hi. split; [reflexivity|]. apply emit_rows_loop_row; assumption.
Qed.

End Kernels.

(** ** Export to YUVA *)

(** [YUV_FIX] and [YUV_HALF] of [dsp/yuv.h]. *)
Definition YUV_FIX : Z := 16.
Definition YUV_HALF : Z := 1 << (YUV_FIX - 1).

(** The planes of a [WebPYUVABuffer]; [a_] is [None] when [buf->a] is
    [NULL]. *)
Record WebPYUVABuffer := mkYUVA {
  y_ : list Z; y_stride : nat;
  u_ : list Z; u_stride : nat;
  v_ : list Z; v_stride : nat;
  a_ : option (list Z); a_stride : nat
}.

(** The channels of a BGRA pixel, as [ConvertToYUVA] reads them for the
    luma. *)
Definition red_of (p : Z) : Z := (p >> 16) .& 0xff.
Definition green8_of (p : Z) : Z := (p >> 8) .& 0xff.
Definition blue_of (p : Z) : Z := (p >> 0) .& 0xff.

(** The sums [r], [g], [b] of two neighbouring pixels [v0], [v1]
    ([(v0 >> 15) & 0x1fe) + ((v1 >> 15) & 0x1fe)], ...; [v0 << 1] is a
    [uint32_t] shift). *)
Definition rgb_pair (v0 v1 : Z) : Z * Z * Z :=
  (((v0 >> 15) .& 0x1fe) + ((v1 >> 15) .& 0x1fe),
   ((v0 >> 7) .& 0x1fe) + ((v1 >> 7) .& 0x1fe),
   (u32 (v0 << 1) .& 0x1fe) + (u32 (v1 << 1) .& 0x1fe)).

(** The values of the last pixel of an odd row ([(v0 >> 14) & 0x3fc], ...). *)
Definition rgb_last (v0 : Z) : Z * Z * Z :=
  ((v0 >> 14) .& 0x3fc, (v0 >> 6) .& 0x3fc, u32 (v0 << 2) .& 0x3fc).

Section YUV.
(** [VP8RGBToY(r, g, b, rounding)], [VP8RGBToU], [VP8RGBToV] of
    [dsp/yuv.h]. *)
Context (VP8RGBToY VP8RGBToU VP8RGBToV : Z -> Z -> Z -> Z -> Z).

(** [for (i = 0; i < width; ++i) y[i] = VP8RGBToY(...)]. *)
Definition luma_row (src : list Z) (width : nat) : list Z :=
  map (fun i => let p := src !!! i in
                u8 (VP8RGBToY (red_of p) (green8_of p) (blue_of p) YUV_HALF)) (seq 0 width).

(** One chroma sample: stored on even lines, averaged with the stored
    one on odd lines. *)
Definition store_uv (odd : bool) (u v : list Z) (ou ov : nat) (rgb : Z * Z * Z) : list Z * list Z :=
  let '(r, g, b) := rgb in
  let tmp_u := VP8RGBToU r g b (YUV_HALF << 2) in
  let tmp_v := VP8RGBToV r g b (YUV_HALF << 2) in
  if negb odd then (<[ou := u8 tmp_u]> u, <[ov := u8 tmp_v]> v)
  else (<[ou := u8 ((u !!! ou + tmp_u + 1) >> 1)]> u, <[ov := u8 ((v !!! ov + tmp_v + 1) >> 1)]> v).

(** [for (i = 0; i < uv_width; ++i) { ... }] from [i] on, [n] rounds. *)
Fixpoint chroma_loop (src : list Z) (odd : bool) (i n : nat) (u v : list Z) (ou ov : nat)
    : list Z * list Z :=
  match n with
  | O => (u, v)
  | S n' =>
      let '(u, v) := store_uv odd u v (ou + i) (ov + i)
                       (rgb_pair (src !!! (2 * i)%nat) (src !!! (2 * i + 1)%nat)) in
      chroma_loop src odd (S i) n' u v ou ov
  end.

(** [ConvertToYUVA(src, width, y_pos, output)]. *)
Definition ConvertToYUVA (src : list Z) (width y_pos : nat) (buf : WebPYUVABuffer)
    : WebPYUVABuffer :=
  let y := store (y_ buf) (y_pos * y_stride buf) (luma_row src width) in
  let ou := (Nat.div2 y_pos * u_stride buf)%nat in
  let ov := (Nat.div2 y_pos * v_stride buf)%nat in
  let uv_width := Nat.div2 width in
  let odd := Nat.odd y_pos in
  let '(u, v) := chroma_loop src odd 0 uv_width (u_ buf) (v_ buf) ou ov in
  let '(u, v) :=
    if Nat.odd width
    then store_uv odd u v (ou + uv_width) (ov + uv_width) (rgb_last (src !!! (2 * uv_width)%nat))
    else (u, v) in
  let a := option_map (fun a => store a (y_pos * a_stride buf)
                                  (map (fun i => u8 ((src !!! i) >> 24)) (seq 0 width))) (a_ buf) in
  mkYUVA y (y_stride buf) u (u_stride buf) v (v_stride buf) a (a_stride buf).

(** [EmitRowsYUVA(dec, in, in_stride, mb_w, num_rows)] from
    [y_pos = last_out_row]: the next [y_pos] and the buffer. *)
Fixpoint emit_rows_yuva_loop (pixels : list Z) (row_in in_stride : Z) (mb_w : Z) (num_rows : nat)
    (y_pos : nat) (buf : WebPYUVABuffer) : nat * WebPYUVABuffer :=
  match num_rows with
  | O => (y_pos, buf)
  | S n =>
      emit_rows_yuva_loop pixels (row_in + in_stride) in_stride mb_w n (S y_pos)
        (ConvertToYUVA (row_pixels pixels row_in mb_w) (Z.to_nat mb_w) y_pos buf)
  end.

Definition EmitRowsYUVA (last_out_row : nat) (pixels : list Z) (row_in in_stride mb_w num_rows : Z)
    (buf : WebPYUVABuffer) : nat * WebPYUVABuffer :=
  emit_rows_yuva_loop pixels row_in in_stride mb_w (Z.to_nat num_rows) last_out_row buf.
End YUV.

(** ** Properties of the YUVA export *)

(** C19: the chroma of [ConvertToYUVA] is computed from four accumulated
    pixels, as [VP8RGBToU] and [VP8RGBToV] expect: for two neighbouring
    pixels the shifted masks give twice the sum of their red, green and
    blue channels, and for the last pixel of an odd row four times its
    channels, for every 32-bit pixel value (the [uint32_t] shift
    [v0 << 1] loses no bit the mask keeps). *)
Theorem rgb_accumulated (v0 v1 : Z) :
  rgb_pair v0 v1 = (2 * (red_of v0 + red_of v1), 2 * (green8_of v0 + green8_of v1),
                    2 * (blue_of v0 + blue_of v1)) /\
  rgb_last v0 = (4 * red_of v0, 4 * green8_of v0, 4 * blue_of v0).
Proof.
  assert (S1 : forall v s, 0 <= s -> (v >> s) .& 0x1fe = 2 * ((v >> (s + 1)) .& 0xff)).
  { intros v s Hs. change 0x1fe with (0xff << 1). rewrite land_shiftl_mask, Z.shiftr_shiftr,
      Z.shiftl_mul_pow2 by lia. lia. }
  assert (S2 : forall v s, 0 <= s -> (v >> s) .& 0x3fc = 4 * ((v >> (s + 2)) .& 0xff)).
  { intros v s Hs. change 0x3fc with (0xff << 2). rewrite land_shiftl_mask, Z.shiftr_shiftr,
      Z.shiftl_mul_pow2 by lia. lia. }
  assert (B : forall v k, 0 <= k <= 2 -> u32 (v << k) .& (0xff << k) = 2 ^ k * (v .& 0xff)).
  { intros v k Hk. rewrite u32_land_small.
    - rewrite <- Z.shiftl_land, Z.shiftl_mul_pow2 by lia. lia.
    - rewrite Z.shiftl_mul_pow2 by lia. assert (2 ^ k <= 4) by (apply (Z.pow_le_mono_r 2 k 2); lia).
      assert (0 < 2 ^ k) by (apply Z.pow_pos_nonneg; lia). lia. }
  unfold rgb_pair, rgb_last, red_of, green8_of, blue_of. rewrite !Z.shiftr_0_r.
  rewrite !S1, !S2 by lia. change 0x1fe with (0xff << 1). change 0x3fc with (0xff << 2).
  rewrite !B by lia. change (15 + 1) with 16. change (7 + 1) with 8. change (14 + 2) with 16.
  change (6 + 2) with 8. change (2 ^ 1) with 2. change (2 ^ 2) with 4. split; repeat f_equal; lia.
Qed.

(** ** Witnesses *)

(** Two rows of two pixels, 8 bytes apart in the cache, converted by a
    kernel that keeps the first [num_pixels] pixels, into an output of
    stride 2: the second row lands at index 2. *)
Lemma EmitRows_rows_witness :
  fst (EmitRows (fun px w _ => take (Z.to_nat w) px) 0 [1; 2; 3; 4; 5; 6] 0 8 2 2 [0; 0; 0; 0] 0 2)
    = 2 /\
  slice (snd (EmitRows (fun px w _ => take (Z.to_nat w) px) 0 [1; 2; 3; 4; 5; 6] 0 8 2 2
                [0; 0; 0; 0] 0 2)) 2 4 = [3; 4].
Proof.
  apply (EmitRows_rows (fun px w _ => take (Z.to_nat w) px) 0 [1; 2; 3; 4; 5; 6] 0 8 2 2
           [0; 0; 0; 0] 0 2 1).
  - intros px. rewrite length_take. lia.
  - simpl. lia.
  - simpl. lia.
Defined.
