(* ===== verification/Rescale.v ===== *)
(** * Scaled output: the rescaler interface and the rescaled emitters

    Models the scaled branch of the row pipeline of [vp8l.cpp]:
    [AllocateAndInitRescaler], [Export], [EmitRescaledRowsRGBA],
    [ExportYUVA] and [EmitRescaledRowsYUVA].  The rescaler itself
    ([utils/rescaler_utils.c], outside [src/]) is an interface, the class
    [Rescaler]: its operations are the functions the code calls, and its
    laws are the contract of spec 4.7 that the loops rely on: an export
    consumes one pending output row, and [WebPRescaleNeededLines] asks for
    at least one and at most the remaining input rows (the [assert] of
    [EmitRescaledRowsRGBA]).  [PassRescaler] is an instance, a rescaler of
    ratio 1 that passes rows through.

    The loops run with the fuel their measure gives ([rescaler_pending]
    for the export loops, the input rows for the emit loops), and the
    theorems show that this fuel always suffices: the emitters return,
    having exported every pending row. *)

From S2P Require Import Prelude Entropy Memory Rows.
From Stdlib Require Import Lia.

Local Open Scope Z_scope.
Local Open Scope vp8l_scope.

(** ** The interface *)

Class Rescaler (R : Type) := {
  (** [WebPRescalerInit(rescaler, src_width, src_height, dst, dst_width,
      dst_height, ...)]. *)
  WebPRescalerInit : Z -> Z -> Z -> Z -> R;
  rescaler_src_width : R -> Z;
  rescaler_dst_width : R -> Z;
  (** The row [rescaler->dst] points to, and a write to it. *)
  rescaler_dst : R -> list Z;
  set_rescaler_dst : R -> list Z -> R;
  WebPRescalerHasPendingOutput : R -> bool;
  WebPRescalerExportRow : R -> R;
  WebPRescaleNeededLines : R -> Z -> Z;
  (** [WebPRescalerImport(rescaler, num_lines, src, src_stride)], with
      [src] a byte pointer into the pixel memory. *)
  WebPRescalerImport : R -> Z -> list Z -> Z -> Z -> R;
  (** The output rows still to export. *)
  rescaler_pending : R -> nat;
  export_progress : forall r, WebPRescalerHasPendingOutput r = true ->
    (rescaler_pending (WebPRescalerExportRow r) < rescaler_pending r)%nat;
  needed_lines_range : forall r n, 0 < n -> 0 < WebPRescaleNeededLines r n <= n;
  set_dst_pending : forall r d,
    rescaler_pending (set_rescaler_dst r d) = rescaler_pending r /\
    WebPRescalerHasPendingOutput (set_rescaler_dst r d) = WebPRescalerHasPendingOutput r
}.

(** A rescaler of ratio 1: each imported row is one pending output row
    ([num_lines] of [WebPRescalerImport] is the rows left; one is read). *)
Record PassRescaler := mkPassRescaler {
  pr_width : Z;
  pr_queue : list (list Z);
  pr_dst : list Z
}.

#[export] Instance PassRescaler_rescaler : Rescaler PassRescaler.
Proof.
  refine {|
  WebPRescalerInit := fun src_w _ _ _ => mkPassRescaler src_w [] [];
  rescaler_src_width := pr_width;
  rescaler_dst_width := pr_width;
  rescaler_dst := pr_dst;
  set_rescaler_dst := fun r d => mkPassRescaler (pr_width r) (pr_queue r) d;
  WebPRescalerHasPendingOutput := fun r => negb (bool_decide (pr_queue r = []));
  WebPRescalerExportRow := fun r =>
    match pr_queue r with
    | [] => r
    | row :: q => mkPassRescaler (pr_width r) q row
    end;
  WebPRescaleNeededLines := fun _ _ => 1;
  WebPRescalerImport := fun r _ mem src _ =>
    mkPassRescaler (pr_width r) (pr_queue r ++ [row_pixels mem src (pr_width r)]) (pr_dst r);
  rescaler_pending := fun r => length (pr_queue r);
  export_progress := _; needed_lines_range := _; set_dst_pending := _ |}.
  - intros [w q d]. cbn. destruct q; cbn; [discriminate|lia].
  - intros _ n Hn. lia.
  - intros r d. split; reflexivity.
Defined.

(** ** [AllocateAndInitRescaler] *)

(** [sizeof(WebPRescaler)], a constant of the platform. *)
Definition AllocateAndInitRescaler `{Rescaler R} (sizeof_WebPRescaler : Z) (a : Allocator)
    (io : VP8Io) (dec : VP8LDecoder) : bool * VP8LDecoder * option R :=
  let num_channels := 4 in
  let work_size := u64 (2 * num_channels * scaled_width io) in
  let scaled_data_size := u64 (num_channels * scaled_width io) in
  let memory_size := u64 (sizeof_WebPRescaler + work_size * 4 + scaled_data_size * 4) in
  match malloc a memory_size with
  | None => (false, set_status dec VP8_STATUS_OUT_OF_MEMORY, None)
  | Some _ =>
      (true, dec, Some (WebPRescalerInit (mb_w io) (mb_h io) (scaled_width io) (scaled_height io)))
  end.

(** ** The rescaled emitters *)

Section Emitters.
Context `{Rescaler R}.
Context (VP8LConvertFromBGRA : list Z -> Z -> Z -> list Z).
(** [WebPMultARGBRow(row, width, inverse)] on a row, and
    [WebPMultARGBRows(rows, stride, width, num_rows, inverse)] in place on
    the pixel memory at a byte pointer. *)
Context (WebPMultARGBRow : list Z -> Z -> Z -> list Z).
Context (WebPMultARGBRows : list Z -> Z -> Z -> Z -> Z -> Z -> list Z).

(** One export: [WebPRescalerExportRow] then [WebPMultARGBRow(src,
    dst_width, 1)] in place on [rescaler->dst]. *)
Definition export_row (dst_width : Z) (r : R) : R :=
  let r := WebPRescalerExportRow r in
  set_rescaler_dst r (WebPMultARGBRow (rescaler_dst r) dst_width 1).

(** [while (WebPRescalerHasPendingOutput(rescaler)) { ... }] of [Export]. *)
Fixpoint export_loop (fuel : nat) (cs dst_width : Z) (r : R) (out : list Z) (rgba rgba_stride : nat)
    (num_lines_out : nat) : option (R * list Z * nat) :=
  match fuel with
  | O => None
  | S f =>
      if WebPRescalerHasPendingOutput r then
        let dst := (rgba + num_lines_out * rgba_stride)%nat in
        let r := export_row dst_width r in
        let out := store out dst (VP8LConvertFromBGRA (rescaler_dst r) dst_width cs) in
        export_loop f cs dst_width r out rgba rgba_stride (S num_lines_out)
      else Some (r, out, num_lines_out)
  end.

(** [Export(rescaler, colorspace, rgba_stride, rgba)]: the rescaler, the
    output and [num_lines_out]. *)
Definition Export (cs : Z) (r : R) (rgba_stride : nat) (out : list Z) (rgba : nat)
    : option (R * list Z * nat) :=
  export_loop (S (rescaler_pending r)) cs (rescaler_dst_width r) r out rgba rgba_stride 0.

(** [while (num_lines_in < mb_h) { ... }] of [EmitRescaledRowsRGBA]. *)
Fixpoint emit_rescaled_loop (fuel : nat) (cs : Z) (r : R) (mem : list Z) (in_ in_stride mb_h : Z)
    (num_lines_in : Z) (out : list Z) (out_base out_stride num_lines_out : nat)
    : option (R * list Z * list Z * nat) :=
  match fuel with
  | O => None
  | S f =>
      if num_lines_in <? mb_h then
        let row_in := in_ + num_lines_in * in_stride in
        let row_out := (out_base + num_lines_out * out_stride)%nat in
        let lines_left := mb_h - num_lines_in in
        let needed_lines := WebPRescaleNeededLines r lines_left in
        let mem := WebPMultARGBRows mem row_in in_stride (rescaler_src_width r) needed_lines 0 in
        let r := WebPRescalerImport r lines_left mem row_in in_stride in
        match Export cs r out_stride out row_out with
        | None => None
        | Some (r, out, k) =>
            emit_rescaled_loop f cs r mem in_ in_stride mb_h (num_lines_in + needed_lines) out
              out_base out_stride (num_lines_out + k)
        end
      else Some (r, mem, out, num_lines_out)
  end.

(** [EmitRescaledRowsRGBA(dec, in, in_stride, mb_h, out, out_stride)]:
    the rescaler, the pixel memory, the output and the rows out. *)
Definition EmitRescaledRowsRGBA (cs : Z) (r : R) (mem : list Z) (in_ in_stride mb_h : Z)
    (out : list Z) (out_base out_stride : nat) : option (R * list Z * list Z * nat) :=
  emit_rescaled_loop (S (Z.to_nat mb_h)) cs r mem in_ in_stride mb_h 0 out out_base out_stride 0.

Section YUVA.
Context (VP8RGBToY VP8RGBToU VP8RGBToV : Z -> Z -> Z -> Z -> Z).

(** The loop of [ExportYUVA(dec, y_pos)]. *)
Fixpoint export_yuva_loop (fuel : nat) (dst_width : Z) (r : R) (buf : WebPYUVABuffer)
    (y_pos num_lines_out : nat) : option (R * WebPYUVABuffer * nat) :=
  match fuel with
  | O => None
  | S f =>
      if WebPRescalerHasPendingOutput r then
        let r := export_row dst_width r in
        let buf := ConvertToYUVA VP8RGBToY VP8RGBToU VP8RGBToV (rescaler_dst r)
                     (Z.to_nat dst_width) y_pos buf in
        export_yuva_loop f dst_width r buf (S y_pos) (S num_lines_out)
      else Some (r, buf, num_lines_out)
  end.

Definition ExportYUVA (r : R) (buf : WebPYUVABuffer) (y_pos : nat) : option (R * WebPYUVABuffer * nat) :=
  export_yuva_loop (S (rescaler_pending r)) (rescaler_dst_width r) r buf y_pos 0.

(** The loop of [EmitRescaledRowsYUVA(dec, in, in_stride, mb_h)]. *)
Fixpoint emit_rescaled_yuva_loop (fuel : nat) (r : R) (mem : list Z) (in_ in_stride mb_h : Z)
    (num_lines_in : Z) (buf : WebPYUVABuffer) (y_pos : nat)
    : option (R * list Z * WebPYUVABuffer * nat) :=
  match fuel with
  | O => None
  | S f =>
      if num_lines_in <? mb_h then
        let lines_left := mb_h - num_lines_in in
        let needed_lines := WebPRescaleNeededLines r lines_left in
        let mem := WebPMultARGBRows mem in_ in_stride (rescaler_src_width r) needed_lines 0 in
        let r := WebPRescalerImport r lines_left mem in_ in_stride in
        match ExportYUVA r buf y_pos with
        | None => None
        | Some (r, buf, k) =>
            emit_rescaled_yuva_loop f r mem (in_ + needed_lines * in_stride) in_stride mb_h
              (num_lines_in + needed_lines) buf (y_pos + k)
        end
      else Some (r, mem, buf, y_pos)
  end.

Definition EmitRescaledRowsYUVA (last_out_row : nat) (r : R) (mem : list Z) (in_ in_stride mb_h : Z)
    (buf : WebPYUVABuffer) : option (R * list Z * WebPYUVABuffer * nat) :=
  emit_rescaled_yuva_loop (S (Z.to_nat mb_h)) r mem in_ in_stride mb_h 0 buf last_out_row.
End YUVA.
End Emitters.

(** ** Termination *)

Section Termination.
Context `{Rescaler R}.
Context (VP8LConvertFromBGRA : list Z -> Z -> Z -> list Z).
Context (WebPMultARGBRow : list Z -> Z -> Z -> list Z).
Context (WebPMultARGBRows : list Z -> Z -> Z -> Z -> Z -> Z -> list Z).
Context (VP8RGBToY VP8RGBToU VP8RGBToV : Z -> Z -> Z -> Z -> Z).

Lemma export_row_pending (w : Z) (r : R) :
  WebPRescalerHasPendingOutput r = true ->
  (rescaler_pending (export_row WebPMultARGBRow w r) < rescaler_pending r)%nat.
Proof.
  intros Hp. unfold export_row. rewrite (proj1 (set_dst_pending _ _)). apply export_progress, Hp.
Qed.

(** Each round of an export loop exports a pending row, so fuel above
    [rescaler_pending] drains the rescaler. *)
Lemma export_loop_some (fuel : nat) (cs w : Z) (r : R) (out : list Z) (rgba st n : nat) :
  (rescaler_pending r < fuel)%nat ->
  exists r' out' k, export_loop VP8LConvertFromBGRA WebPMultARGBRow fuel cs w r out rgba st n =
    Some (r', out', k) /\ WebPRescalerHasPendingOutput r' = false.
Proof.
  revert r out n. induction fuel as [|f IH]; intros r out n Hf; [lia|]. simpl.
  destruct (WebPRescalerHasPendingOutput r) eqn:Hp.
  - apply IH. pose proof (export_row_pending w r Hp). lia.
  - eexists _, _, _. split; [reflexivity|exact Hp].
Qed.

Lemma export_yuva_loop_some (fuel : nat) (w : Z) (r : R) (buf : WebPYUVABuffer) (y n : nat) :
  (rescaler_pending r < fuel)%nat ->
  exists r' buf' k, export_yuva_loop WebPMultARGBRow VP8RGBToY VP8RGBToU VP8RGBToV fuel w r buf y n =
    Some (r', buf', k) /\ WebPRescalerHasPendingOutput r' = false.
Proof.
  revert r buf y n. induction fuel as [|f IH]; intros r buf y n Hf; [lia|]. simpl.
  destruct (WebPRescalerHasPendingOutput r) eqn:Hp.
  - apply IH. pose proof (export_row_pending w r Hp). lia.
  - eexists _, _, _. split; [reflexivity|exact Hp].
Qed.

(** The input rows left drop by [WebPRescaleNeededLines >= 1] a round. *)
Lemma needed_lines_fuel (r : R) (mb_h nli : Z) (f : nat) :
  nli < mb_h -> (Z.to_nat (mb_h - nli) < S f)%nat ->
  (Z.to_nat (mb_h - (nli + WebPRescaleNeededLines r (mb_h - nli))) < f)%nat.
Proof.
  intros Hl Hf. pose proof (needed_lines_range r (mb_h - nli) ltac:(lia)). lia.
Qed.

Lemma emit_rescaled_loop_some (fuel : nat) (cs : Z) (r : R) (mem : list Z) (in_ st mb_h nli : Z)
    (out : list Z) (ob os nlo : nat) :
  (Z.to_nat (mb_h - nli) < fuel)%nat ->
  (nli < mb_h \/ WebPRescalerHasPendingOutput r = false) ->
  exists r' mem' out' n,
    emit_rescaled_loop VP8LConvertFromBGRA WebPMultARGBRow WebPMultARGBRows fuel cs r mem in_ st
      mb_h nli out ob os nlo = Some (r', mem', out', n) /\ WebPRescalerHasPendingOutput r' = false.
Proof.
  revert r mem nli out nlo. induction fuel as [|f IH]; intros r mem nli out nlo Hf Hr; [lia|].
  simpl. destruct (Z.ltb_spec nli mb_h) as [Hl|Hl].
  - unfold Export. match goal with |- context [export_loop _ _ ?fu ?c ?w ?r0 ?o ?b ?s ?n] =>
      destruct (export_loop_some fu c w r0 o b s n ltac:(lia)) as (r1 & out1 & k & -> & Hp) end.
    apply IH; [apply needed_lines_fuel; assumption|right; exact Hp].
  - destruct Hr as [Hr|Hr]; [lia|]. eexists _, _, _, _. split; [reflexivity|exact Hr].
Qed.

Lemma emit_rescaled_yuva_loop_some (fuel : nat) (r : R) (mem : list Z) (in_ st mb_h nli : Z)
    (buf : WebPYUVABuffer) (y : nat) :
  (Z.to_nat (mb_h - nli) < fuel)%nat ->
  (nli < mb_h \/ WebPRescalerHasPendingOutput r = false) ->
  exists r' mem' buf' y',
    emit_rescaled_yuva_loop WebPMultARGBRow WebPMultARGBRows VP8RGBToY VP8RGBToU VP8RGBToV fuel r mem
      in_ st mb_h nli buf y = Some (r', mem', buf', y') /\ WebPRescalerHasPendingOutput r' = false.
Proof.
  revert r mem in_ nli buf y. induction fuel as [|f IH]; intros r mem in_ nli buf y Hf Hr; [lia|].
  simpl. destruct (Z.ltb_spec nli mb_h) as [Hl|Hl].
  - unfold ExportYUVA. match goal with |- context [export_yuva_loop _ _ _ _ ?fu ?w ?r0 ?b ?yy ?n] =>
      destruct (export_yuva_loop_some fu w r0 b yy n ltac:(lia)) as (r1 & buf1 & k & -> & Hp) end.
    apply IH; [apply needed_lines_fuel; assumption|right; exact Hp].
  - destruct Hr as [Hr|Hr]; [lia|]. eexists _, _, _, _. split; [reflexivity|exact Hr].
Qed.

(** C18: the rescaled emitters terminate: for every rescaler that meets the
    contract of [Rescaler], [EmitRescaledRowsRGBA] and
    [EmitRescaledRowsYUVA] on a block of [mb_h > 0] rows return within
    the fuel their loops are given ([mb_h + 1] rounds, each export loop
    [rescaler_pending + 1]), and leave no output row pending in the
    rescaler. *)
Theorem EmitRescaledRows_terminate (cs : Z) (r : R) (mem : list Z) (in_ in_stride mb_h : Z)
    (out : list Z) (ob os last_out_row : nat) (buf : WebPYUVABuffer) :
  0 < mb_h ->
  (exists r' mem' out' n,
     EmitRescaledRowsRGBA VP8LConvertFromBGRA WebPMultARGBRow WebPMultARGBRows cs r mem in_ in_stride
       mb_h out ob os = Some (r', mem', out', n) /\ WebPRescalerHasPendingOutput r' = false) /\
  (exists r' mem' buf' y,
     EmitRescaledRowsYUVA WebPMultARGBRow WebPMultARGBRows VP8RGBToY VP8RGBToU VP8RGBToV last_out_row r
       mem in_ in_stride mb_h buf = Some (r', mem', buf', y) /\ WebPRescalerHasPendingOutput r' = false).
Proof.
  intros Hm. split.
  - apply emit_rescaled_loop_some; [rewrite Z.sub_0_r; lia|left; exact Hm].
  - apply emit_rescaled_yuva_loop_some; [rewrite Z.sub_0_r; lia|left; exact Hm].
Qed.
End Termination.

(** ** Witnesses *)

(** Two rows of two pixels through the pass-through rescaler, both
    emitters. *)
Lemma EmitRescaledRows_terminate_witness :
  let conv := fun (px : list Z) (w _ : Z) => take (Z.to_nat w) px in
  let mult := fun (row : list Z) (_ _ : Z) => row in
  let mults := fun (mem : list Z) (_ _ _ _ _ : Z) => mem in
  let rgb := fun (_ _ _ _ : Z) => 0 in
  let buf := mkYUVA (replicate 4 0) 2 (replicate 1 0) 1 (replicate 1 0) 1 None 0 in
  0 < 2 /\
  (exists r' mem' out' n,
     EmitRescaledRowsRGBA conv mult mults 0 (mkPassRescaler 2 [] []) [1; 2; 3; 4] 0 8 2
       (replicate 4 0) 0 2 = Some (r', mem', out', n) /\ WebPRescalerHasPendingOutput r' = false) /\
  (exists r' mem' buf' y,
     EmitRescaledRowsYUVA mult mults rgb rgb rgb 0 (mkPassRescaler 2 [] []) [1; 2; 3; 4] 0 8 2 buf
       = Some (r', mem', buf', y) /\ WebPRescalerHasPendingOutput r' = false).
Proof.
  cbv zeta. split; [lia|].
  apply (@EmitRescaledRows_terminate PassRescaler _ (fun px w _ => take (Z.to_nat w) px)
           (fun row _ _ => row) (fun mem _ _ _ _ _ => mem) (fun _ _ _ _ => 0) (fun _ _ _ _ => 0)
           (fun _ _ _ _ => 0) 0 (mkPassRescaler 2 [] []) [1; 2; 3; 4] 0 8 2 (replicate 4 0) 0 2 0
           (mkYUVA (replicate 4 0) 2 (replicate 1 0) 1 (replicate 1 0) 1 None 0)).
  lia.
Defined.
