(* ===== verification/Pipeline.v ===== *)
(** * [ProcessRows]: the row hook of [VP8LDecodeImage]

    Models [ProcessRows] of [vp8l.cpp]: after [DecodeImageData] has
    decoded rows up to [row], the rows since [last_row_] are inverse
    transformed into the ARGB cache ([ApplyInverseTransforms]), cropped
    ([SetCropWindow]) and emitted in the output color space, scaled or
    not ([EmitRows], [EmitRowsYUVA], [EmitRescaledRowsRGBA],
    [EmitRescaledRowsYUVA]); then [last_out_row_] and [last_row_] move.
    The state it touches is the decoder's watermarks, the pixel memory
    (the cache), the [VP8Io], the rescaler and the output buffer
    [WebPDecBuffer].

    The theorems show that over any sequence of calls, without scaling,
    [last_out_row_] counts exactly the rows of the crop window above
    [last_row_], so each cropped row is emitted once and in order, and
    that on the decoder [ProcessRows] changes only the two watermarks,
    the frame that the entropy loop's invariants assume of its row hook. *)

From S2P Require Import Prelude BitReader ColorCache Transform Entropy EntropyCache Memory Rows Rescale.
From Stdlib Require Import Lia.

Local Open Scope Z_scope.
Local Open Scope vp8l_scope.

(** The first YUV mode of [WEBP_CSP_MODE] ([decode.h]). *)
Definition MODE_YUV : Z := 11.

(** The [WebPDecBuffer] the rows go to: [colorspace], [height], and the
    [RGBA] or [YUVA] member of its union. *)
Record WebPDecBuffer := mkDecBuffer {
  colorspace : Z;
  out_height : Z;
  rgba : list Z;
  rgba_stride : nat;
  yuva : WebPYUVABuffer
}.

Definition set_rgba (o : WebPDecBuffer) (b : list Z) : WebPDecBuffer :=
  mkDecBuffer (colorspace o) (out_height o) b (rgba_stride o) (yuva o).

Definition set_yuva (o : WebPDecBuffer) (b : WebPYUVABuffer) : WebPDecBuffer :=
  mkDecBuffer (colorspace o) (out_height o) (rgba o) (rgba_stride o) b.

Definition set_last_row (d : VP8LDecoder) (row : nat) : VP8LDecoder :=
  mkDecoder (status_ d) (br_ d) (saved_br_ d) (saved_last_pixel_ d) (last_pixel_ d)
    (incremental_ d) (hdr_ d) (width_ d) (height_ d) row (last_out_row_ d).

Definition set_last_out_row (d : VP8LDecoder) (row : nat) : VP8LDecoder :=
  mkDecoder (status_ d) (br_ d) (saved_br_ d) (saved_last_pixel_ d) (last_pixel_ d)
    (incremental_ d) (hdr_ d) (width_ d) (height_ d) (last_row_ d) row.

(** The state [ProcessRows] reads and writes. *)
Record RowState (R : Type) := mkRowState {
  rs_dec : VP8LDecoder;
  rs_mem : list Z;
  rs_io : VP8Io;
  rs_rescaler : R;
  rs_out : WebPDecBuffer
}.
Arguments mkRowState {R} _ _ _ _ _.
Arguments rs_dec {R} _.
Arguments rs_mem {R} _.
Arguments rs_io {R} _.
Arguments rs_rescaler {R} _.
Arguments rs_out {R} _.

Section ProcessRows.
Context `{Rescaler R}.
Context (VP8LInverseTransform : VP8LTransform -> nat -> nat -> list Z -> nat -> nat -> list Z).
Context (VP8LConvertFromBGRA : list Z -> Z -> Z -> list Z).
Context (WebPMultARGBRow : list Z -> Z -> Z -> list Z).
Context (WebPMultARGBRows : list Z -> Z -> Z -> Z -> Z -> Z -> list Z).
Context (VP8RGBToY VP8RGBToU VP8RGBToV : Z -> Z -> Z -> Z -> Z).
(** The transforms read and the index of [argb_cache_] in the memory. *)
Context (ts : TransformState) (argb_cache : nat).

(** The output block of [ProcessRows], once the window is not empty:
    the new [last_out_row_], memory, rescaler and output. *)
Definition emit_block (dec : VP8LDecoder) (mem : list Z) (io : VP8Io) (r : R) (out : WebPDecBuffer)
    (rows_data in_stride : Z) : option (nat * list Z * R * WebPDecBuffer) :=
  if colorspace out <? MODE_YUV then
    let base := (last_out_row_ dec * rgba_stride out)%nat in
    if use_scaling io then
      match EmitRescaledRowsRGBA VP8LConvertFromBGRA WebPMultARGBRow WebPMultARGBRows (colorspace out)
              r mem rows_data in_stride (mb_h io) (rgba out) base (rgba_stride out) with
      | None => None
      | Some (r, mem, b, n) => Some ((last_out_row_ dec + n)%nat, mem, r, set_rgba out b)
      end
    else
      let '(n, b) := EmitRows VP8LConvertFromBGRA (colorspace out) mem rows_data in_stride
                       (mb_w io) (mb_h io) (rgba out) base (rgba_stride out) in
      Some ((last_out_row_ dec + Z.to_nat n)%nat, mem, r, set_rgba out b)
  else
    if use_scaling io then
      match EmitRescaledRowsYUVA WebPMultARGBRow WebPMultARGBRows VP8RGBToY VP8RGBToU VP8RGBToV
              (last_out_row_ dec) r mem rows_data in_stride (mb_h io) (yuva out) with
      | None => None
      | Some (r, mem, b, y) => Some (y, mem, r, set_yuva out b)
      end
    else
      let '(y, b) := EmitRowsYUVA VP8RGBToY VP8RGBToU VP8RGBToV (last_out_row_ dec) mem rows_data
                       in_stride (mb_w io) (mb_h io) (yuva out) in
      Some (y, mem, r, set_yuva out b).

(** [ProcessRows(dec, row)]. *)
Definition ProcessRows (s : RowState R) (row : nat) : option (RowState R) :=
  let dec := rs_dec s in
  let rows := (width_ dec * last_row_ dec)%nat in
  let num_rows := Z.of_nat row - Z.of_nat (last_row_ dec) in
  if num_rows <=? 0 then Some s else
  let mem := ApplyInverseTransforms VP8LInverseTransform ts dec (Z.to_nat num_rows) (rs_mem s)
               rows argb_cache in
  let in_stride := width (rs_io s) * 4 in
  let '(ok, io, rows_data) :=
    SetCropWindow (rs_io s) (Z.of_nat (last_row_ dec)) (Z.of_nat row) (Z.of_nat argb_cache * 4)
      in_stride in
  let res :=
    if ok then emit_block dec mem io (rs_rescaler s) (rs_out s) rows_data in_stride
    else Some (last_out_row_ dec, mem, rs_rescaler s, rs_out s) in
  option_map (fun '(y, mem, r, out) =>
                mkRowState (set_last_row (set_last_out_row dec y) row) mem io r out) res.

(** A sequence of calls, as [DecodeImageData] makes them. *)
Fixpoint process_rows_seq (rows : list nat) (s : RowState R) : option (RowState R) :=
  match rows with
  | [] => Some s
  | row :: rest =>
      match ProcessRows s row with
      | None => None
      | Some s' => process_rows_seq rest s'
      end
  end.
(** [ProcessRows] as the [process_func_] hook of [DecodeImageData]: the
    decoder part of its effect, with the output side fixed. *)
Definition process_hook (io : VP8Io) (r : R) (out : WebPDecBuffer) : ProcessRowsFunc :=
  fun d data row =>
    match ProcessRows (mkRowState d data io r out) row with Some s => rs_dec s | None => d end.
End ProcessRows.

(** ** Properties *)

(** The rows of the window in two consecutive blocks add up. *)
Lemma crop_rows_add (io : VP8Io) (a b c : Z) :
  a <= b <= c -> crop_rows io a c = crop_rows io a b + crop_rows io b c.
Proof. unfold crop_rows. lia. Qed.

Lemma crop_rows_nonneg (io : VP8Io) (a b : Z) : 0 <= crop_rows io a b.
Proof. unfold crop_rows. lia. Qed.

Lemma crop_rows_empty (io : VP8Io) (a b : Z) : b <= a -> crop_rows io a b = 0.
Proof. unfold crop_rows. lia. Qed.

(** [SetCropWindow] writes only the macroblock fields of [io]. *)
Lemma SetCropWindow_keeps (io : VP8Io) (y_start y_end in_data stride : Z) :
  let '(_, io', _) := SetCropWindow io y_start y_end in_data stride in
  crop_top io' = crop_top io /\ crop_bottom io' = crop_bottom io /\
  use_scaling io' = use_scaling io /\ width io' = width io.
Proof.
  unfold SetCropWindow. repeat case_match; simplify_eq; cbn; auto.
Qed.

Section Emit.
Context (VP8RGBToY VP8RGBToU VP8RGBToV : Z -> Z -> Z -> Z -> Z).

Lemma emit_rows_yuva_loop_pos (pixels : list Z) (row_in in_stride mb_w : Z) (n y : nat)
    (buf : WebPYUVABuffer) :
  fst (emit_rows_yuva_loop VP8RGBToY VP8RGBToU VP8RGBToV pixels row_in in_stride mb_w n y buf)
  = (y + n)%nat.
Proof.
  revert row_in y buf. induction n as [|n IH]; intros row_in y buf; cbn; [lia|].
  rewrite IH. lia.
Qed.
End Emit.

Section Rows.
Context `{Rescaler R}.
Context (VP8LInverseTransform : VP8LTransform -> nat -> nat -> list Z -> nat -> nat -> list Z).
Context (VP8LConvertFromBGRA : list Z -> Z -> Z -> list Z).
Context (WebPMultARGBRow : list Z -> Z -> Z -> list Z).
Context (WebPMultARGBRows : list Z -> Z -> Z -> Z -> Z -> Z -> list Z).
Context (VP8RGBToY VP8RGBToU VP8RGBToV : Z -> Z -> Z -> Z -> Z).
Context (ts : TransformState) (argb_cache : nat).

Local Notation emit_block :=
  (emit_block VP8LConvertFromBGRA WebPMultARGBRow WebPMultARGBRows VP8RGBToY VP8RGBToU VP8RGBToV).
Local Notation ProcessRows :=
  (ProcessRows VP8LInverseTransform VP8LConvertFromBGRA WebPMultARGBRow WebPMultARGBRows
     VP8RGBToY VP8RGBToU VP8RGBToV ts argb_cache).
Local Notation process_hook :=
  (process_hook VP8LInverseTransform VP8LConvertFromBGRA WebPMultARGBRow WebPMultARGBRows
     VP8RGBToY VP8RGBToU VP8RGBToV ts argb_cache).
Local Notation process_rows_seq :=
  (process_rows_seq VP8LInverseTransform VP8LConvertFromBGRA WebPMultARGBRow WebPMultARGBRows
     VP8RGBToY VP8RGBToU VP8RGBToV ts argb_cache).

(** A non-empty block is emitted in every color space, scaled or not;
    unscaled, [last_out_row_] moves by [mb_h] rows. *)
Lemma emit_block_some (dec : VP8LDecoder) (mem : list Z) (io : VP8Io) (r : R)
    (out : WebPDecBuffer) (rows_data in_stride : Z) :
  0 < mb_h io ->
  exists y mem' r' out', emit_block dec mem io r out rows_data in_stride = Some (y, mem', r', out') /\
    (use_scaling io = false -> y = (last_out_row_ dec + Z.to_nat (mb_h io))%nat).
Proof.
  intros Hh. unfold Pipeline.emit_block.
  destruct (colorspace out <? MODE_YUV), (use_scaling io) eqn:Hs.
  - edestruct (emit_rescaled_loop_some VP8LConvertFromBGRA WebPMultARGBRow WebPMultARGBRows
                 (S (Z.to_nat (mb_h io))) (colorspace out) r mem rows_data in_stride (mb_h io) 0)
      as (r' & mem' & b & n & Hr & _); [lia|left; lia|].
    unfold EmitRescaledRowsRGBA. rewrite Hr. eexists _, _, _, _. split; [reflexivity|discriminate].
  - cbn. eexists _, _, _, _. split; reflexivity.
  - edestruct (emit_rescaled_yuva_loop_some WebPMultARGBRow WebPMultARGBRows VP8RGBToY VP8RGBToU
                 VP8RGBToV (S (Z.to_nat (mb_h io))) r mem rows_data in_stride (mb_h io) 0)
      as (r' & mem' & b & y & Hr & _); [lia|left; lia|].
    unfold EmitRescaledRowsYUVA. rewrite Hr. eexists _, _, _, _. split; [reflexivity|discriminate].
  - unfold EmitRowsYUVA.
    pose proof (emit_rows_yuva_loop_pos VP8RGBToY VP8RGBToU VP8RGBToV mem rows_data in_stride
                  (mb_w io) (Z.to_nat (mb_h io)) (last_out_row_ dec) (yuva out)) as Hy.
    destruct (emit_rows_yuva_loop _ _ _ _ _ _ _ _ _ _) as [y b]. cbn in Hy.
    eexists _, _, _, _. split; [reflexivity|auto].
Qed.

(** One call, in full: it returns, moves [last_row_] to [max last_row_
    row], leaves the crop window and the scaling flag, and, unscaled,
    adds the rows of the window in [[last_row_, row)] to
    [last_out_row_]. *)
Lemma ProcessRows_step (s : RowState R) (row : nat) :
  exists s', ProcessRows s row = Some s' /\
    last_row_ (rs_dec s') = Nat.max (last_row_ (rs_dec s)) row /\
    crop_top (rs_io s') = crop_top (rs_io s) /\ crop_bottom (rs_io s') = crop_bottom (rs_io s) /\
    use_scaling (rs_io s') = use_scaling (rs_io s) /\
    (use_scaling (rs_io s) = false ->
     Z.of_nat (last_out_row_ (rs_dec s')) = Z.of_nat (last_out_row_ (rs_dec s))
       + crop_rows (rs_io s) (Z.of_nat (last_row_ (rs_dec s))) (Z.of_nat row)).
Proof.
  unfold Pipeline.ProcessRows. destruct (Z.leb_spec (Z.of_nat row - Z.of_nat (last_row_ (rs_dec s))) 0).
  { exists s. split_and!; auto; [lia|]. intros _. rewrite crop_rows_empty; lia. }
  match goal with |- context [SetCropWindow ?io ?a ?b ?c ?d] =>
    pose proof (SetCropWindow_intersect io a b c d) as Hc; pose proof (SetCropWindow_keeps io a b c d) as Hk;
    destruct (SetCropWindow io a b c d) as [[[|] io'] p] end;
    destruct Hk as (Ht & Hb & Hs & _); destruct Hc as [Hok Hm].
  - destruct (Hm eq_refl) as (Hh & _). symmetry in Hok. apply Z.ltb_lt in Hok.
    edestruct emit_block_some as (y & mem' & r' & out' & -> & Hy); [rewrite Hh; exact Hok|].
    eexists. split; [reflexivity|]. cbn. split_and!; auto; [lia|].
    intros Hs0. rewrite Hy, Hh by congruence. lia.
  - symmetry in Hok. apply Z.ltb_ge in Hok.
    eexists. split; [reflexivity|]. cbn. split_and!; auto; [lia|].
    pose proof (crop_rows_nonneg (rs_io s) (Z.of_nat (last_row_ (rs_dec s))) (Z.of_nat row)). lia.
Qed.
(** C17: [ProcessRows] always returns, for every rescaler that meets the
    contract of [Rescaler]: on every state and every [row], scaled or
    not and in every color space, the call completes, with [last_row_]
    at [max last_row_ row]. *)
Theorem ProcessRows_total (s : RowState R) (row : nat) :
  exists s', ProcessRows s row = Some s' /\ last_row_ (rs_dec s') = Nat.max (last_row_ (rs_dec s)) row.
Proof.
  destruct (ProcessRows_step s row) as (s' & E & Hl & _). eauto.
Qed.

(** C14: each row of the crop window is emitted once and in order: over
    any sequence of calls of [ProcessRows] without scaling, from a state
    where [last_out_row_] is the number of rows of the window above
    [last_row_] (as it is at the start, both 0), the sequence completes,
    [last_row_] ends at the largest row reached, and [last_out_row_] is
    still the number of rows of the window above it. *)
Theorem ProcessRows_out_rows (rows : list nat) (s : RowState R) :
  use_scaling (rs_io s) = false ->
  Z.of_nat (last_out_row_ (rs_dec s)) = crop_rows (rs_io s) 0 (Z.of_nat (last_row_ (rs_dec s))) ->
  exists s', process_rows_seq rows s = Some s' /\
    last_row_ (rs_dec s') = fold_left Nat.max rows (last_row_ (rs_dec s)) /\
    Z.of_nat (last_out_row_ (rs_dec s')) = crop_rows (rs_io s') 0 (Z.of_nat (last_row_ (rs_dec s'))).
Proof.
  revert s. induction rows as [|row rows IH]; intros s Hs Hinv; [eexists; split; eauto|].
  destruct (ProcessRows_step s row) as (s1 & E & Hl & Ht & Hb & Hs1 & Ho). cbn. rewrite E.
  rewrite <- Hl. apply IH; [congruence|]. rewrite (Ho Hs), Hinv, Hl.
  unfold crop_rows in *. rewrite Ht, Hb. lia.
Qed.
(** [ProcessRows] writes [last_row_] and [last_out_row_] of the decoder
    and nothing else of it. *)
Lemma ProcessRows_fields (s s' : RowState R) (row : nat) :
  ProcessRows s row = Some s' ->
  exists y, rs_dec s' = rs_dec s \/ rs_dec s' = set_last_row (set_last_out_row (rs_dec s) y) row.
Proof.
  unfold Pipeline.ProcessRows. intros E. exists (last_out_row_ (rs_dec s')).
  repeat case_match; simplify_eq/=; auto;
    match type of E with option_map _ ?x = _ => destruct x as [[[[y m] r'] o]|] end;
    simplify_eq/=; auto.
Qed.

(** [ProcessRows] is a row hook of the kind the entropy loop's
    theorems assume ([hook_preserves]): it leaves the metadata (Huffman
    groups and color caches), the bit reader, the saved position and the
    incremental flag of the decoder as they are, whatever the output
    buffer, the rescaler and the crop. *)
Lemma ProcessRows_hook (io : VP8Io) (r : R) (out : WebPDecBuffer) :
  hook_preserves (process_hook io r out).
Proof.
  intros d data row. unfold Pipeline.process_hook.
  destruct (ProcessRows _ row) as [s'|] eqn:E; [|auto].
  destruct (ProcessRows_fields _ _ _ E) as (y & [-> | ->]); auto.
Qed.
End Rows.

(** ** Witnesses *)

Module PipelineExamples.
Definition dec : VP8LDecoder :=
  mkDecoder VP8_STATUS_OK (VP8LInitBitReader []) (VP8LInitBitReader []) 0 0 false
    (mkMetadata 0 (VP8LColorCacheInit 1) (VP8LColorCacheInit 1) (-1) 0 1 [] 0 []) 4 4 0 0.

(** A 4x4 image cropped to rows and columns [1, 3). *)
Definition io : VP8Io := mkVP8Io 4 1 3 1 3 0 0 0 false 0 0.

Definition out : WebPDecBuffer :=
  mkDecBuffer 1 2 (replicate 16 0) 8 (mkYUVA [] 0 [] 0 [] 0 None 0).

Definition state : RowState PassRescaler :=
  mkRowState dec (replicate 32 0) io (mkPassRescaler 2 [] []) out.

Definition process_seq (rows : list nat) : option (RowState PassRescaler) :=
  process_rows_seq (fun _ _ _ mem _ _ => mem) (fun px w _ => take (Z.to_nat w) px)
    (fun row _ _ => row) (fun mem _ _ _ _ _ => mem) (fun _ _ _ _ => 0) (fun _ _ _ _ => 0)
    (fun _ _ _ _ => 0) (mkTransformState [] 0 0 (VP8LInitBitReader [])) 16 rows state.
End PipelineExamples.

(** Rows decoded in blocks ending at 2, 1 (nothing to do) and 4: the
    window's two rows are emitted. *)
Lemma ProcessRows_out_rows_witness :
  use_scaling (rs_io PipelineExamples.state) = false /\
  Z.of_nat (last_out_row_ (rs_dec PipelineExamples.state))
    = crop_rows (rs_io PipelineExamples.state) 0 (Z.of_nat (last_row_ (rs_dec PipelineExamples.state))) /\
  exists s', PipelineExamples.process_seq [2; 1; 4]%nat = Some s' /\
    last_row_ (rs_dec s') = fold_left Nat.max [2; 1; 4]%nat (last_row_ (rs_dec PipelineExamples.state)) /\
    Z.of_nat (last_out_row_ (rs_dec s')) = crop_rows (rs_io s') 0 (Z.of_nat (last_row_ (rs_dec s'))).
Proof.
  split; [reflexivity|]. split; [reflexivity|].
  apply ProcessRows_out_rows; reflexivity.
Defined.
