(* ===== verification/Image.v ===== *)
(** * Entry points: buffers, the alpha decoder and [VP8LDecodeImage]

    Models the last part of [vp8l.cpp]: the allocation of the pixel
    buffers ([AllocateInternalBuffers32b], [AllocateInternalBuffers8b]),
    the row hook of the 32-bit alpha path ([ExtractAlphaRows]), the alpha
    entry points [VP8LDecodeAlphaHeader] and [VP8LDecodeAlphaImageStream],
    and [VP8LDecodeImage] with its [READ_DATA] state.

    Allocation is an oracle ([Allocator]): [malloc] of a byte size gives
    an address or [NULL], so every [OUT_OF_MEMORY] path is a path of the
    model.  What the buffers hold is a list of elements; the bytes
    [malloc] leaves uninitialised are zero, which no result depends on
    (every pixel is written before it is read).  The calls into the rest
    of libwebp that have no effect on the decoder's state here
    ([VP8InitIo], [WebPInitCustomIo], [WebPInitAlphaProcessing]) are left
    out; [WebPIoInitFromOptions] is an oracle of [IoEnv], and the row
    hook [ProcessRows] (the output pipeline, [Pipeline.v]) a parameter;
    [ExtractAlphaRows] is its effect on the decoder, [AlphaPlane.v] adds
    the plane it writes.  A call that
    breaks an [assert] of the code, or dereferences the [NULL] it left
    behind, is [Crash]. *)

From S2P Require Import Prelude BitReader ColorCache Transform Huffman Entropy HuffmanCodes Stream Alpha Memory.
From Stdlib Require Import Lia.

Local Open Scope Z_scope.
Local Open Scope vp8l_scope.

(** ** Memory *)

(** [dec->pixels_] (with its address, for the alignment tests of the
    copies) and [dec->argb_cache_], an offset into it. *)
Record Buffers := mkBuffers {
  pixels_ : option (list Z);
  pixels_addr_ : Z;
  argb_cache_ : option Z
}.

Definition no_buffers : Buffers := mkBuffers None 0 None.

(** The element count of [AllocateInternalBuffers32b], in [uint64_t]:
    [num_pixels + cache_top_pixels + cache_pixels], and the offset of
    [argb_cache_]. *)
Definition num_pixels32 (d : VP8LDecoder) : Z := u64 (Z.of_nat (width_ d) * Z.of_nat (height_ d)).

Definition cache_top_pixels (final_width : nat) : Z := Z.of_nat final_width mod 2 ^ 16.

Definition cache_pixels (final_width : nat) : Z :=
  u64 (Z.of_nat final_width * Z.of_nat NUM_ARGB_CACHE_ROWS).

Definition total_num_pixels32 (d : VP8LDecoder) (final_width : nat) : Z :=
  u64 (num_pixels32 d + cache_top_pixels final_width + cache_pixels final_width).

Definition AllocateInternalBuffers32b (a : Allocator) (d : VP8LDecoder) (final_width : nat)
    : bool * VP8LDecoder * Buffers :=
  let total := total_num_pixels32 d final_width in
  match malloc a (u64 (total * 4)) with
  | None => (false, set_status d VP8_STATUS_OUT_OF_MEMORY, no_buffers)
  | Some addr =>
      (true, d, mkBuffers (Some (replicate (Z.to_nat total) 0)) addr
                  (Some (num_pixels32 d + cache_top_pixels final_width)))
  end.

Definition AllocateInternalBuffers8b (a : Allocator) (d : VP8LDecoder)
    : bool * VP8LDecoder * Buffers :=
  let total := u64 (Z.of_nat (width_ d) * Z.of_nat (height_ d)) in
  match malloc a total with
  | None => (false, set_status d VP8_STATUS_OUT_OF_MEMORY, no_buffers)
  | Some addr => (true, d, mkBuffers (Some (replicate (Z.to_nat total) 0)) addr None)
  end.

(** ** The alpha decoder *)

(** [ExtractAlphaRows(dec, row)]: nothing when [row - last_row_ <= 0];
    otherwise the rows are inverse-transformed and their green bytes
    written to the alpha plane ([AlphaPlane.v]), and the
    watermarks move to [row]. *)
Definition ExtractAlphaRows : ProcessRowsFunc :=
  fun d _ row => if (row <=? last_row_ d)%nat then d else set_last_rows d row.

(** [ALPHDecoder]: the dimensions of the plane, [vp8l_dec_] ([None] for
    [NULL]) with the buffers it owns, and [use_8b_decode]. *)
Record ALPHDecoder := mkALPHDecoder {
  alph_width_ : nat;
  alph_height_ : nat;
  vp8l_dec_ : option (Decoder * Buffers);
  use_8b_decode : bool
}.

Definition set_vp8l_dec (ad : ALPHDecoder) (d : option (Decoder * Buffers)) (use8 : bool)
    : ALPHDecoder :=
  mkALPHDecoder (alph_width_ ad) (alph_height_ ad) d use8.

(** The test of the 8-bit path: one transform, color indexing, and
    [Is8bOptimizable]. *)
Definition use_8b (ts : TransformState) (dec : VP8LDecoder) : bool :=
  (next_transform_ ts =? 1)%nat &&
  bool_decide (type_ (transforms_ ts !!! 0%nat) = COLOR_INDEXING_TRANSFORM) &&
  Is8bOptimizable (hdr_ dec).

(** [VP8LDecodeAlphaHeader(alph_dec, data, data_size, output)]; the
    [goto Err] paths [VP8LDelete] the decoder. *)
Definition VP8LDecodeAlphaHeader (a : Allocator) (build : BuildFunc) (ad : ALPHDecoder)
    (data : list Z) : bool * ALPHDecoder :=
  if negb (new_ok a) then (false, set_vp8l_dec ad None (use_8b_decode ad)) else
  let d := VP8LNew in
  let dec := set_dims (core_ d) (alph_width_ ad) (alph_height_ ad) in
  let dec := set_br (set_status dec VP8_STATUS_OK) (VP8LInitBitReader data) in
  let '(ok, d) :=
    DecodeImageStream a build (alph_width_ ad) (alph_height_ ad)
      (mkFullDecoder dec (tstate_ d) (state_ d)) in
  if negb ok then (false, set_vp8l_dec ad None (use_8b_decode ad)) else
  let use8 := use_8b (tstate_ d) (core_ d) in
  let '(ok, dec, bufs) :=
    if use8 then AllocateInternalBuffers8b a (core_ d)
    else AllocateInternalBuffers32b a (core_ d) (alph_width_ ad) in
  if ok then (true, set_vp8l_dec ad (Some (mkFullDecoder dec (tstate_ d) (state_ d), bufs)) use8)
  else (false, set_vp8l_dec ad None use8).

(** [VP8LDecodeAlphaImageStream(alph_dec, last_row)]: done when
    [last_pixel_] is at the end, else [DecodeAlphaData] on the byte
    buffer or [DecodeImageData] with [ExtractAlphaRows]. *)
Definition VP8LDecodeAlphaImageStream (fuel : nat) (ad : ALPHDecoder) (last_row : nat)
    : Outcome (bool * ALPHDecoder) :=
  match vp8l_dec_ ad with
  | None => Crash
  | Some (d, bufs) =>
      let dec := core_ d in
      if negb (last_row <=? height_ dec)%nat then Crash else
      if (last_pixel_ dec =? width_ dec * height_ dec)%nat then Done (true, ad) else
      match pixels_ bufs with
      | None => Crash
      | Some px =>
          let r :=
            if use_8b_decode ad then
              DecodeAlphaData fuel (pixels_addr_ bufs) dec px (width_ dec) (height_ dec) last_row
            else
              DecodeImageData fuel
                (mkLoopParams (width_ dec) (height_ dec) last_row (Some ExtractAlphaRows)
                   (pixels_addr_ bufs)) dec px in
          outcome_of
            (option_map
               (fun '(ok, dec, px) =>
                  (ok, set_vp8l_dec ad
                         (Some (mkFullDecoder dec (tstate_ d) (state_ d),
                                mkBuffers (Some px) (pixels_addr_ bufs) (argb_cache_ bufs)))
                         (use_8b_decode ad)))
               r)
      end
  end.

(** ** [VP8LDecodeImage] *)

(** What [VP8LDecodeImage] learns from the [VP8Io] set up by its caller:
    whether [WebPIoInitFromOptions(params->options, io, MODE_BGRA)]
    succeeds, the final width [io->width] it leaves, and
    [io->use_scaling]. *)
Record IoEnv := mkIoEnv {
  io_init_ok : bool;
  io_width : nat;
  use_scaling : bool
}.

(** The saved color cache of incremental decoding, allocated on first
    use: [VP8LColorCacheInit(&hdr->saved_color_cache_, hash_bits_)] when
    its [colors_] is [NULL]. *)
Definition init_saved_cache (a : Allocator) (dec : VP8LDecoder) : bool * VP8LDecoder :=
  let hdr := hdr_ dec in
  if incremental_ dec && (0 <? color_cache_size_ hdr)%nat &&
     bool_decide (colors_ (saved_color_cache_ hdr) = []) then
    let bits := hash_bits_ (color_cache_ hdr) in
    match malloc a (u64 ((1 << bits) * 4)) with
    | None => (false, set_status dec VP8_STATUS_OUT_OF_MEMORY)
    | Some _ => (true, set_hdr dec (set_saved_color_cache hdr (VP8LColorCacheInit bits)))
    end
  else (true, dec).

(** [VP8LClear] also frees [pixels_] (and sets it to [NULL]); the
    [argb_cache_] pointer into it is left as it was. *)
Definition clear_image (d : Decoder) (b : Buffers) : Decoder * Buffers :=
  (VP8LClear d, mkBuffers None (pixels_addr_ b) (argb_cache_ b)).

(** The initialisation block of [VP8LDecodeImage], run when
    [state_ != READ_DATA]: the decoder and buffers to decode with, or
    the decoder and buffers of the [goto Err]. *)
Definition init_image (a : Allocator) (env : IoEnv) (dec : VP8LDecoder) (b : Buffers)
    : (VP8LDecoder * Buffers) + (VP8LDecoder * Buffers) :=
  if negb (io_init_ok env) then inr (set_status dec VP8_STATUS_INVALID_PARAM, b) else
  let '(ok, dec, b) := AllocateInternalBuffers32b a dec (io_width env) in
  if negb ok then inr (dec, b) else
  if use_scaling env && negb (rescaler_ok a) then
    inr (set_status dec VP8_STATUS_OUT_OF_MEMORY, b) else
  let '(ok, dec) := init_saved_cache a dec in
  if negb ok then inr (dec, b) else inl (dec, b).

(** [VP8LDecodeImage(dec)] with the row hook [ProcessRows] as [process]:
    the decoder, its buffers and [params->last_y] on success. *)
Definition VP8LDecodeImage (fuel : nat) (a : Allocator) (env : IoEnv)
    (process : ProcessRowsFunc) (d : Decoder) (b : Buffers)
    : Outcome (bool * Decoder * Buffers * option nat) :=
  if (num_htree_groups_ (hdr_ (core_ d)) =? 0)%nat then Crash else
  let err dec st b :=
    let '(d, b) := clear_image (mkFullDecoder dec (tstate_ d) st) b in Done (false, d, b, None) in
  let start :=
    if bool_decide (state_ d = READ_DATA) then inl (core_ d, b)
    else init_image a env (core_ d) b in
  match start with
  | inr (dec, b) => err dec (state_ d) b
  | inl (dec, b) =>
      match pixels_ b with
      | None => Crash
      | Some px =>
          match DecodeImageData fuel
                  (mkLoopParams (width_ dec) (height_ dec) (height_ dec) (Some process)
                     (pixels_addr_ b)) dec px with
          | None => OutOfFuel
          | Some (false, dec, px) =>
              err dec READ_DATA (mkBuffers (Some px) (pixels_addr_ b) (argb_cache_ b))
          | Some (true, dec, px) =>
              Done (true, mkFullDecoder dec (tstate_ d) READ_DATA,
                    mkBuffers (Some px) (pixels_addr_ b) (argb_cache_ b),
                    Some (last_out_row_ dec))
          end
      end
  end.

(** ** Properties *)

(** C33: the size computations of [AllocateInternalBuffers32b] do not wrap
    in 64 bits for dimensions of at most [2^14] (the header's limit) and
    a final width of at most [2^14]: [malloc] is asked for
    [4 * (W*H + final_width + NUM_ARGB_CACHE_ROWS * final_width)] bytes,
    and on success [pixels_] holds that many elements with [argb_cache_]
    at [W*H + final_width], so the [NUM_ARGB_CACHE_ROWS * final_width]
    cache pixels end exactly at the end of the block; on failure the
    status is [OUT_OF_MEMORY]. *)
Theorem AllocateInternalBuffers32b_no_wrap (a : Allocator) (d : VP8LDecoder) (fw : nat) :
  (width_ d <= 2 ^ 14)%nat -> (height_ d <= 2 ^ 14)%nat -> (fw <= 2 ^ 14)%nat ->
  AllocateInternalBuffers32b a d fw =
    match malloc a (4 * (Z.of_nat (width_ d) * Z.of_nat (height_ d) + Z.of_nat fw +
                         Z.of_nat NUM_ARGB_CACHE_ROWS * Z.of_nat fw)) with
    | None => (false, set_status d VP8_STATUS_OUT_OF_MEMORY, no_buffers)
    | Some addr =>
        (true, d,
         mkBuffers (Some (replicate (width_ d * height_ d + fw + NUM_ARGB_CACHE_ROWS * fw) 0)) addr
           (Some (Z.of_nat (width_ d) * Z.of_nat (height_ d) + Z.of_nat fw)))
    end.
Proof.
  intros Hw Hh Hf. apply Nat2Z.inj_le in Hw, Hh, Hf. rewrite Nat2Z.inj_pow in Hw, Hh, Hf.
  cbn [Z.of_nat Pos.of_succ_nat Pos.succ] in Hw, Hh, Hf.
  unfold AllocateInternalBuffers32b, total_num_pixels32, num_pixels32, cache_top_pixels,
    cache_pixels, NUM_ARGB_CACHE_ROWS.
  rewrite (Z.mod_small (Z.of_nat fw)) by lia.
  rewrite (u64_small (Z.of_nat (width_ d) * _)) by nia.
  rewrite (u64_small (Z.of_nat fw * _)) by nia.
  rewrite (u64_small (_ + _ + _)) by nia.
  rewrite (u64_small (_ * 4)) by nia.
  replace (4 * _) with ((Z.of_nat (width_ d) * Z.of_nat (height_ d) + Z.of_nat fw +
                         Z.of_nat fw * Z.of_nat 16) * 4) by lia.
  destruct (malloc a _); [|reflexivity].
  repeat f_equal. lia.
Qed.

(** The allocations fail with [OUT_OF_MEMORY]. *)
Lemma AllocateInternalBuffers32b_fail (a : Allocator) (d d' : VP8LDecoder) (fw : nat) (b : Buffers) :
  AllocateInternalBuffers32b a d fw = (false, d', b) -> status_ d' = VP8_STATUS_OUT_OF_MEMORY.
Proof.
  unfold AllocateInternalBuffers32b. destruct (malloc a _); intros H; inversion H; reflexivity.
Qed.

Lemma init_saved_cache_fail (a : Allocator) (d d' : VP8LDecoder) :
  init_saved_cache a d = (false, d') -> status_ d' = VP8_STATUS_OUT_OF_MEMORY.
Proof.
  unfold init_saved_cache. destruct (_ && _ && _); [destruct (malloc a _)|];
    intros H; inversion H; reflexivity.
Qed.

(** Every [goto Err] of the initialisation leaves a status that is not
    [OK]. *)
Lemma init_image_err (a : Allocator) (env : IoEnv) (dec dec' : VP8LDecoder) (b b' : Buffers) :
  init_image a env dec b = inr (dec', b') -> status_ dec' <> VP8_STATUS_OK.
Proof.
  unfold init_image. destruct (negb _); [intros H; injection H as <- _; discriminate|].
  destruct (AllocateInternalBuffers32b a dec _) as [[[|] dec1] b1] eqn:E1;
    [|apply AllocateInternalBuffers32b_fail in E1; intros H; injection H as <- _;
      rewrite E1; discriminate].
  destruct (_ && _); [intros H; injection H as <- _; discriminate|].
  destruct (init_saved_cache a dec1) as [[|] dec2] eqn:E2; [discriminate|].
  apply init_saved_cache_fail in E2. intros H; injection H as <- _. rewrite E2. discriminate.
Qed.

Lemma clear_image_fields (d : Decoder) (b : Buffers) :
  status_ (core_ (fst (clear_image d b))) = status_ (core_ d) /\
  state_ (fst (clear_image d b)) = state_ d /\
  num_htree_groups_ (hdr_ (core_ (fst (clear_image d b)))) = 0%nat /\
  pixels_ (snd (clear_image d b)) = None.
Proof. split_and!; reflexivity. Qed.

(** C9: the error contract of [VP8LDecodeImage]: it returns 0 with a
    status that is not [OK] (the [assert] after [Err] holds), no
    [last_y], the pixels freed and the metadata cleared, but [state_]
    left as it was ([READ_DATA] when [DecodeImageData] failed), so that
    calling [VP8LDecodeImage] again on the same decoder, whatever the
    buffers and options, breaks its entry [assert]s. *)
Theorem VP8LDecodeImage_error (fuel : nat) (a : Allocator) (env : IoEnv)
    (process : ProcessRowsFunc) (d d' : Decoder) (b b' : Buffers) (y : option nat) :
  VP8LDecodeImage fuel a env process d b = Done (false, d', b', y) ->
  status_ (core_ d') <> VP8_STATUS_OK /\ y = None /\ pixels_ b' = None /\
  (forall fuel' a' env' process' b'', VP8LDecodeImage fuel' a' env' process' d' b'' = Crash).
Proof.
  unfold VP8LDecodeImage at 1.
  destruct (_ =? 0)%nat; [discriminate|].
  destruct (bool_decide _) eqn:Hst.
  - destruct (pixels_ b) as [px|]; [|discriminate].
    destruct (DecodeImageData _ _ _ _) as [[[[|] dec1] px1]|] eqn:E; try discriminate.
    apply DecodeImageData_status_cases in E. cbn [negb] in E.
    intros H; injection H as <- <- <-. cbn. split_and!; [rewrite E; discriminate|reflexivity..|].
    intros. reflexivity.
  - destruct (init_image a env (core_ d) b) as [[dec1 b1]|[dec1 b1]] eqn:E.
    + destruct (pixels_ b1) as [px|]; [|discriminate].
      destruct (DecodeImageData _ _ _ _) as [[[[|] dec2] px2]|] eqn:E2; try discriminate.
      apply DecodeImageData_status_cases in E2. cbn [negb] in E2.
      intros H; injection H as <- <- <-. cbn. split_and!; [rewrite E2; discriminate|reflexivity..|].
      intros. reflexivity.
    + apply init_image_err in E.
      intros H; injection H as <- <- <-. cbn. split_and!; [exact E|reflexivity..|].
      intros. reflexivity.
Qed.

(** Resumption: a successful [VP8LDecodeImage] leaves the decoder in
    [READ_DATA], and a call in [READ_DATA] skips the initialisation: it
    neither allocates nor looks at the options, so its result does not
    depend on them (an incremental decode that was [SUSPENDED] goes on
    with the buffers of the first call). *)
Theorem VP8LDecodeImage_resume (fuel : nat) (a : Allocator) (env : IoEnv)
    (process : ProcessRowsFunc) (d d' : Decoder) (b b' : Buffers) (y : option nat) :
  VP8LDecodeImage fuel a env process d b = Done (true, d', b', y) ->
  state_ d' = READ_DATA /\ y = Some (last_out_row_ (core_ d')) /\
  forall fuel' a1 a2 env1 env2,
    VP8LDecodeImage fuel' a1 env1 process d' b' = VP8LDecodeImage fuel' a2 env2 process d' b'.
Proof.
  assert (Hread : forall f a1 a2 e1 e2 d0 b0, state_ d0 = READ_DATA ->
            VP8LDecodeImage f a1 e1 process d0 b0 = VP8LDecodeImage f a2 e2 process d0 b0).
  { intros f a1 a2 e1 e2 d0 b0 Hs. unfold VP8LDecodeImage. rewrite Hs. reflexivity. }
  unfold VP8LDecodeImage at 1.
  destruct (_ =? 0)%nat; [discriminate|].
  destruct (if bool_decide _ then _ else _) as [[dec1 b1]|[dec1 b1]]; [|discriminate].
  destruct (pixels_ b1) as [px|]; [|discriminate].
  destruct (DecodeImageData _ _ _ _) as [[[[|] dec2] px2]|]; try discriminate.
  intros H; injection H as <- <- <-.
  split_and!; [reflexivity|reflexivity|intros; apply Hread; reflexivity].
Qed.

(** A successful allocation keeps the decoder and gives a buffer. *)
Lemma AllocateInternalBuffers8b_ok (a : Allocator) (d d' : VP8LDecoder) (b : Buffers) :
  AllocateInternalBuffers8b a d = (true, d', b) ->
  d' = d /\ argb_cache_ b = None /\ exists px, pixels_ b = Some px.
Proof.
  unfold AllocateInternalBuffers8b. destruct (malloc a _); [|discriminate].
  intros [= <- <-]. split_and!; [reflexivity..|eexists; reflexivity].
Qed.

Lemma AllocateInternalBuffers32b_ok (a : Allocator) (d d' : VP8LDecoder) (fw : nat) (b : Buffers) :
  AllocateInternalBuffers32b a d fw = (true, d', b) ->
  d' = d /\ argb_cache_ b = Some (num_pixels32 d + cache_top_pixels fw) /\
  exists px, pixels_ b = Some px.
Proof.
  unfold AllocateInternalBuffers32b. destruct (malloc a _); [|discriminate].
  intros [= <- <-]. split_and!; [reflexivity..|eexists; reflexivity].
Qed.

(** What a successful [VP8LDecodeAlphaHeader] hands to
    [VP8LDecodeAlphaImageStream]: a decoder in [READ_HDR] at pixel 0
    whose Huffman codes are consistent ([codes_ok]: every group index of
    the meta-Huffman image names a group that was read), with a pixel
    buffer; on the 8-bit path the stream has exactly one transform, a
    color-indexing one, the metadata passes [Is8bOptimizable] and there is
    no ARGB cache; on the 32-bit path the ARGB cache follows the
    [width * height] pixels and the top row. *)
Theorem VP8LDecodeAlphaHeader_ready (a : Allocator) (build : BuildFunc) (ad ad' : ALPHDecoder)
    (data : list Z) :
  VP8LDecodeAlphaHeader a build ad data = (true, ad') ->
  exists d b px, vp8l_dec_ ad' = Some (d, b) /\ pixels_ b = Some px /\
    state_ d = READ_HDR /\ last_pixel_ (core_ d) = 0%nat /\
    (exists h0, codes_ok (width_ (core_ d)) (height_ (core_ d)) h0 (hdr_ (core_ d))) /\
    (use_8b_decode ad' = true ->
     next_transform_ (tstate_ d) = 1%nat /\
     type_ (transforms_ (tstate_ d) !!! 0%nat) = COLOR_INDEXING_TRANSFORM /\
     Is8bOptimizable (hdr_ (core_ d)) = true /\ argb_cache_ b = None) /\
    (use_8b_decode ad' = false ->
     argb_cache_ b = Some (num_pixels32 (core_ d) + cache_top_pixels (alph_width_ ad))).
Proof.
  unfold VP8LDecodeAlphaHeader. destruct (negb (new_ok a)); [discriminate|].
  match goal with |- context [DecodeImageStream a build ?w ?h ?d0] =>
    destruct (DecodeImageStream a build w h d0) as [[|] d] eqn:E; [|discriminate];
    destruct (DecodeImageStream_codes a build w h d0 d eq_refl E) as (h0 & _ & Hc & _)
  end.
  destruct (DecodeImageStream_ready _ _ _ _ _ _ E) as [Hst Hlp]. cbn [negb].
  destruct (use_8b (tstate_ d) (core_ d)) eqn:U.
  - destruct (AllocateInternalBuffers8b a (core_ d)) as [[[|] dec] b] eqn:A; [|discriminate].
    apply AllocateInternalBuffers8b_ok in A as (-> & Ha & px & Hpx).
    intros [= <-]. exists (mkFullDecoder (core_ d) (tstate_ d) (state_ d)), b, px.
    cbn. split_and!; try assumption; [reflexivity|exists h0; exact Hc|intros _|discriminate].
    unfold use_8b in U. apply andb_prop in U as [U U3]. apply andb_prop in U as [U1 U2].
    apply Nat.eqb_eq in U1. apply bool_decide_eq_true in U2. split_and!; assumption.
  - destruct (AllocateInternalBuffers32b a (core_ d) _) as [[[|] dec] b] eqn:A; [|discriminate].
    apply AllocateInternalBuffers32b_ok in A as (-> & Ha & px & Hpx).
    intros [= <-]. exists (mkFullDecoder (core_ d) (tstate_ d) (state_ d)), b, px.
    cbn. split_and!; try assumption; [reflexivity|exists h0; exact Hc|discriminate|intros _; exact Ha].
Qed.

(** Once [last_pixel_] is at the end of the plane, a call returns 1 and
    changes nothing. *)
Lemma alpha_stream_done (fuel lr : nat) (ad : ALPHDecoder) (d : Decoder) (b : Buffers) :
  vp8l_dec_ ad = Some (d, b) ->
  last_pixel_ (core_ d) = (width_ (core_ d) * height_ (core_ d))%nat ->
  (lr <= height_ (core_ d))%nat ->
  VP8LDecodeAlphaImageStream fuel ad lr = Done (true, ad).
Proof.
  intros Hv Hp Hl. unfold VP8LDecodeAlphaImageStream. rewrite Hv.
  apply Nat.leb_le in Hl. rewrite Hl, Hp, Nat.eqb_refl. reflexivity.
Qed.

(** C10: liveness of the 8-bit alpha path: a call of
    [VP8LDecodeAlphaImageStream] up to the last row that succeeds
    without reaching the end of the stream completes the plane
    ([last_pixel_ = width * height]), after which every call, for any
    [last_row] up to the height, returns 1 at once and changes
    nothing. *)
Theorem VP8LDecodeAlphaImageStream_completes (fuel : nat) (ad ad' : ALPHDecoder) (d : Decoder)
    (b : Buffers) :
  vp8l_dec_ ad = Some (d, b) -> use_8b_decode ad = true ->
  (last_pixel_ (core_ d) <= width_ (core_ d) * height_ (core_ d))%nat ->
  VP8LDecodeAlphaImageStream fuel ad (height_ (core_ d)) = Done (true, ad') ->
  exists d' b', vp8l_dec_ ad' = Some (d', b') /\
    (eos_ (br_ (core_ d')) = false ->
     last_pixel_ (core_ d') = (width_ (core_ d') * height_ (core_ d'))%nat /\
     forall fuel' lr, (lr <= height_ (core_ d'))%nat ->
       VP8LDecodeAlphaImageStream fuel' ad' lr = Done (true, ad')).
Proof.
  intros Hv Hu Hp. unfold VP8LDecodeAlphaImageStream at 1. rewrite Hv, Nat.leb_refl.
  cbn [negb]. destruct (_ =? _)%nat eqn:Hdone.
  - intros [= <-]. apply Nat.eqb_eq in Hdone. exists d, b. split; [exact Hv|].
    intros _. split; [exact Hdone|]. intros fuel' lr Hl. exact (alpha_stream_done _ _ _ _ _ Hv Hdone Hl).
  - destruct (pixels_ b) as [px|]; [|discriminate]. rewrite Hu.
    destruct (DecodeAlphaData _ _ _ _ _ _ _) as [[[ok dec'] px']|] eqn:E; [|discriminate].
    cbn. intros [= -> <-]. eexists _, _. split; [reflexivity|]. cbn [core_]. intros Heos.
    destruct (DecodeAlphaData_dims _ _ _ _ _ _ _ _ _ _ E) as [Hw Hh].
    pose proof (DecodeAlphaData_progress _ _ _ _ _ _ _ _ _ (le_n _) Hp E Heos) as Hr.
    rewrite Hw, Hh. assert (Hl : last_pixel_ dec' = (width_ (core_ d) * height_ (core_ d))%nat)
      by lia.
    split; [exact Hl|]. intros fuel' lr Hlr. eapply alpha_stream_done; [reflexivity| |].
    + cbn [core_]. rewrite Hw, Hh. exact Hl.
    + cbn [core_]. rewrite Hh. exact Hlr.
Qed.

(** ** Examples *)

Module ImageExamples.
Definition io_ok (w : nat) : IoEnv := mkIoEnv true w false.

(** The 2x2 stream of [Stream.v] without its 5-byte header, as the
    payload of an alpha chunk. *)
Definition alpha_payload : list Z := [0x88; 0x88; 0x08].

Definition alph (w h : nat) : ALPHDecoder := mkALPHDecoder w h None false.

(** An 8-bit alpha decoder on the 4x1 plane of [AlphaExamples]. *)
Definition alph8 : ALPHDecoder :=
  mkALPHDecoder 4 1
    (Some (mkFullDecoder (AlphaExamples.dec [0x0a] 4 1) (no_transforms null_reader) READ_HDR,
           mkBuffers (Some (replicate 4 0)) 0 None)) true.
End ImageExamples.

Lemma AllocateInternalBuffers32b_no_wrap_witness :
  AllocateInternalBuffers32b alloc_all (AlphaExamples.dec [0x0a] 4 4) 4 =
  (true, AlphaExamples.dec [0x0a] 4 4, mkBuffers (Some (replicate 84 0)) 0 (Some 20)).
Proof.
  rewrite AllocateInternalBuffers32b_no_wrap; [reflexivity|vm_compute; lia..].
Defined.

Lemma VP8LDecodeImage_error_witness :
  exists d' b' y,
    VP8LDecodeImage 10 alloc_none (ImageExamples.io_ok 2) ExtractAlphaRows
      simple_decoder no_buffers = Done (false, d', b', y) /\
    status_ (core_ d') <> VP8_STATUS_OK /\ y = None /\ pixels_ b' = None /\
    (forall fuel' a' env' process' b'', VP8LDecodeImage fuel' a' env' process' d' b'' = Crash).
Proof.
  destruct (VP8LDecodeImage 10 alloc_none (ImageExamples.io_ok 2) ExtractAlphaRows
              simple_decoder no_buffers) as [[[[[|] d'] b'] y]| |] eqn:E;
    try (vm_compute in E; discriminate).
  exists d', b', y. split; [reflexivity|]. exact (VP8LDecodeImage_error _ _ _ _ _ _ _ _ _ E).
Defined.

Lemma VP8LDecodeImage_resume_witness :
  exists d' b' y,
    VP8LDecodeImage 10 alloc_all (ImageExamples.io_ok 2) ExtractAlphaRows
      simple_decoder no_buffers = Done (true, d', b', y) /\
    state_ d' = READ_DATA /\ y = Some (last_out_row_ (core_ d')) /\
    forall fuel' a1 a2 env1 env2,
      VP8LDecodeImage fuel' a1 env1 ExtractAlphaRows d' b' =
      VP8LDecodeImage fuel' a2 env2 ExtractAlphaRows d' b'.
Proof.
  destruct (VP8LDecodeImage 10 alloc_all (ImageExamples.io_ok 2) ExtractAlphaRows
              simple_decoder no_buffers) as [[[[[|] d'] b'] y]| |] eqn:E;
    try (vm_compute in E; discriminate).
  exists d', b', y. split; [reflexivity|]. exact (VP8LDecodeImage_resume _ _ _ _ _ _ _ _ _ E).
Defined.

Lemma VP8LDecodeAlphaHeader_ready_witness :
  exists ad', VP8LDecodeAlphaHeader alloc_all one_symbol_build (ImageExamples.alph 2 2)
                ImageExamples.alpha_payload = (true, ad') /\
  exists d b px, vp8l_dec_ ad' = Some (d, b) /\ pixels_ b = Some px /\
    state_ d = READ_HDR /\ last_pixel_ (core_ d) = 0%nat /\
    (exists h0, codes_ok (width_ (core_ d)) (height_ (core_ d)) h0 (hdr_ (core_ d))) /\
    (use_8b_decode ad' = true ->
     next_transform_ (tstate_ d) = 1%nat /\
     type_ (transforms_ (tstate_ d) !!! 0%nat) = COLOR_INDEXING_TRANSFORM /\
     Is8bOptimizable (hdr_ (core_ d)) = true /\ argb_cache_ b = None) /\
    (use_8b_decode ad' = false ->
     argb_cache_ b = Some (num_pixels32 (core_ d) + cache_top_pixels 2)).
Proof.
  destruct (VP8LDecodeAlphaHeader alloc_all one_symbol_build (ImageExamples.alph 2 2)
              ImageExamples.alpha_payload) as [[|] ad'] eqn:E;
    [|vm_compute in E; discriminate].
  exists ad'. split; [reflexivity|]. exact (VP8LDecodeAlphaHeader_ready _ _ _ _ _ E).
Defined.

Lemma VP8LDecodeAlphaImageStream_completes_witness :
  exists ad', VP8LDecodeAlphaImageStream 10 ImageExamples.alph8 1 = Done (true, ad') /\
  exists d' b', vp8l_dec_ ad' = Some (d', b') /\
    (eos_ (br_ (core_ d')) = false ->
     last_pixel_ (core_ d') = (width_ (core_ d') * height_ (core_ d'))%nat /\
     forall fuel' lr, (lr <= height_ (core_ d'))%nat ->
       VP8LDecodeAlphaImageStream fuel' ad' lr = Done (true, ad')).
Proof.
  destruct (VP8LDecodeAlphaImageStream 10 ImageExamples.alph8 1) as [[[|] ad']| |] eqn:E;
    try (vm_compute in E; discriminate).
  exists ad'. split; [reflexivity|].
  exact (VP8LDecodeAlphaImageStream_completes 10 ImageExamples.alph8 ad' _ _ eq_refl eq_refl
           ltac:(vm_compute; lia) E).
Defined.
