(* ===== verification/AlphaPlane.v ===== *)
(** * The alpha plane: the row hooks of the alpha path with their output

    [Alpha.v] and [Image.v] model the two row hooks of the alpha path,
    [ExtractPalettedAlphaRows] (8-bit path) and [ExtractAlphaRows]
    (32-bit path), by their effect on the decoder: the watermarks
    [last_row_] and [last_out_row_].  This file adds what they write: the
    alpha plane [io->opaque], [io->width] bytes a row.  The 8-bit hook
    runs [ApplyInverseTransformsAlpha], the color-indexing inverse of the
    one transform into the plane ([VP8LColorIndexInverseTransformAlpha],
    in [dsp/], is a parameter); the 32-bit hook runs
    [ApplyInverseTransforms] of [Rows.v] and copies the green byte of each
    pixel of the ARGB cache to the plane.

    The theorems show that the decoder part of each hook is the hook the
    entropy loops were proved with, that the asserts of
    [ApplyInverseTransformsAlpha] hold on every decoder that
    [VP8LDecodeAlphaHeader] sends down the 8-bit path, and that the
    32-bit hook writes exactly the rows [[last_row_, row)] of the plane,
    each byte the green channel of its transformed pixel. *)

From S2P Require Import Prelude BitReader Transform CopyBlock Entropy Alpha Rows Image.
From Stdlib Require Import Lia.

Local Open Scope Z_scope.
Local Open Scope vp8l_scope.

Section AlphaPlane.
(** [VP8LInverseTransform] as in [Rows.v], and
    [VP8LColorIndexInverseTransformAlpha(transform, start_row, end_row,
    src, dst)] with [src] an index into the byte buffer [data] and [dst]
    an index into the plane: the plane it leaves. *)
Context (VP8LInverseTransform : VP8LTransform -> nat -> nat -> list Z -> nat -> nat -> list Z).
Context (VP8LColorIndexInverseTransformAlpha :
  VP8LTransform -> nat -> nat -> list Z -> nat -> list Z -> nat -> list Z).

(** [ApplyInverseTransformsAlpha(dec, num_rows, rows)]: [None] when one of
    its [assert]s ([next_transform_ == 1], [transforms_[0]] a color
    indexing) breaks. *)
Definition ApplyInverseTransformsAlpha (ts : TransformState) (dec : VP8LDecoder) (num_rows : nat)
    (data : list Z) (rows : nat) (plane : list Z) (io_width : nat) : option (list Z) :=
  let start_row := last_row_ dec in
  let end_row := (start_row + num_rows)%nat in
  let rows_out := (io_width * start_row)%nat in
  let transform := transforms_ ts !!! 0%nat in
  if (next_transform_ ts =? 1)%nat &&
     bool_decide (type_ transform = COLOR_INDEXING_TRANSFORM)
  then Some (VP8LColorIndexInverseTransformAlpha transform start_row end_row data rows plane rows_out)
  else None.

(** [ExtractPalettedAlphaRows(dec, row)] with its output: the decoder and
    the plane, [None] on a broken [assert]. *)
Definition ExtractPalettedAlphaRows_plane (ts : TransformState) (dec : VP8LDecoder)
    (data plane : list Z) (io_width row : nat) : option (VP8LDecoder * list Z) :=
  let num_rows := Z.of_nat row - Z.of_nat (last_row_ dec) in
  let in_ := (width_ dec * last_row_ dec)%nat in
  let plane :=
    if 0 <? num_rows
    then ApplyInverseTransformsAlpha ts dec (Z.to_nat num_rows) data in_ plane io_width
    else Some plane in
  option_map (fun plane => (set_last_rows dec row, plane)) plane.

(** [for (i = 0; i < cache_pixs; ++i) dst[i] = (src[i] >> 8) & 0xff;]. *)
Definition extract_green (mem : list Z) (src cache_pixs : nat) : list Z :=
  map green_of (slice mem src (src + cache_pixs)).

(** [ExtractAlphaRows(dec, row)] with its output: the decoder, the pixel
    memory (holding [pixels_] and [argb_cache_]) and the plane. *)
Definition ExtractAlphaRows_plane (ts : TransformState) (dec : VP8LDecoder) (mem plane : list Z)
    (io_width argb_cache row : nat) : VP8LDecoder * list Z * list Z :=
  let num_rows := Z.of_nat row - Z.of_nat (last_row_ dec) in
  if num_rows <=? 0 then (dec, mem, plane) else
  let rows := (width_ dec * last_row_ dec)%nat in
  let mem := ApplyInverseTransforms VP8LInverseTransform ts dec (Z.to_nat num_rows) mem rows argb_cache in
  let cache_pixs := (io_width * Z.to_nat num_rows)%nat in
  let dst := (io_width * last_row_ dec)%nat in
  (set_last_rows dec row, mem, store plane dst (extract_green mem argb_cache cache_pixs)).
End AlphaPlane.

(** ** The decoder part of the hooks *)

(** The watermarks of [ExtractPalettedAlphaRows] are those of the hook
    [DecodeAlphaData] was proved with. *)
Lemma ExtractPalettedAlphaRows_plane_dec (f : VP8LTransform -> nat -> nat -> list Z -> nat -> list Z -> nat -> list Z)
    (ts : TransformState) (dec : VP8LDecoder) (data plane : list Z) (w row : nat)
    (dec' : VP8LDecoder) (plane' : list Z) :
  ExtractPalettedAlphaRows_plane f ts dec data plane w row = Some (dec', plane') ->
  dec' = ExtractPalettedAlphaRows dec row.
Proof.
  unfold ExtractPalettedAlphaRows_plane.
  destruct (_ <? _); [destruct (ApplyInverseTransformsAlpha _ _ _ _ _ _ _ _)|]; cbn;
    intros H; try discriminate; injection H as <- _; reflexivity.
Qed.

(** The watermarks and the pixel memory of [ExtractAlphaRows] are those
    of the hook [VP8LDecodeAlphaHeader] installs on the 32-bit path. *)
Lemma ExtractAlphaRows_plane_dec (inv : VP8LTransform -> nat -> nat -> list Z -> nat -> nat -> list Z)
    (ts : TransformState) (dec : VP8LDecoder) (mem plane : list Z) (w cache row : nat) :
  fst (fst (ExtractAlphaRows_plane inv ts dec mem plane w cache row)) = ExtractAlphaRows dec mem row.
Proof.
  unfold ExtractAlphaRows_plane, ExtractAlphaRows.
  destruct (Nat.leb_spec row (last_row_ dec)), (Z.leb_spec (Z.of_nat row - Z.of_nat (last_row_ dec)) 0);
    reflexivity || lia.
Qed.

(** ** Lengths *)

Lemma length_memcpy_from (orig mem : list Z) (dst src n : nat) :
  length (memcpy_from orig mem dst src n) = length mem.
Proof.
  revert mem dst src. induction n as [|n IH]; intros mem dst src; [reflexivity|].
  simpl. rewrite IH, length_insert. reflexivity.
Qed.

Section Lengths.
Context (inv : VP8LTransform -> nat -> nat -> list Z -> nat -> nat -> list Z).
(** The inverse transforms work in place: they keep the memory's size. *)
Hypothesis Hinv : forall t s e m i o, length (inv t s e m i o) = length m.

Lemma length_inverse_loop (tl : list VP8LTransform) (n s e : nat) (mem : list Z) (i o : nat) :
  length (inverse_loop inv tl n s e mem i o) = length mem.
Proof.
  revert mem i. induction n as [|n IH]; intros mem i; [reflexivity|]. simpl. rewrite IH. apply Hinv.
Qed.

Lemma length_ApplyInverseTransforms (ts : TransformState) (dec : VP8LDecoder) (n : nat)
    (mem : list Z) (rows cache : nat) :
  length (ApplyInverseTransforms inv ts dec n mem rows cache) = length mem.
Proof.
  unfold ApplyInverseTransforms. rewrite length_inverse_loop. apply length_memcpy_from.
Qed.
End Lengths.

Lemma extract_green_lookup (mem : list Z) (src k i : nat) :
  (i < k)%nat -> (src + k <= length mem)%nat ->
  extract_green mem src k !!! i = green_of (mem !!! (src + i)%nat).
Proof.
  intros Hi Hk. unfold extract_green.
  rewrite <- (slice_lookup mem src (src + k) i) by lia.
  apply list_lookup_total_fmap. rewrite length_slice; lia.
Qed.

Lemma length_extract_green (mem : list Z) (src k : nat) :
  (src + k <= length mem)%nat -> length (extract_green mem src k) = k.
Proof. intros Hk. unfold extract_green. rewrite length_map, length_slice; lia. Qed.

(** ** Properties *)

(** On the 8-bit path the [assert]s of [ApplyInverseTransformsAlpha]
    hold: for the transforms of any decoder [VP8LDecodeAlphaHeader] sends
    down that path ([use_8b]: one transform, a color indexing),
    [ExtractPalettedAlphaRows] returns for every decoder state, buffer,
    plane and row, with the watermarks of the hook [DecodeAlphaData] was
    proved with. *)
Theorem ExtractPalettedAlphaRows_asserts
    (f : VP8LTransform -> nat -> nat -> list Z -> nat -> list Z -> nat -> list Z)
    (ts : TransformState) (dec0 dec : VP8LDecoder) (data plane : list Z) (w row : nat) :
  use_8b ts dec0 = true ->
  exists plane', ExtractPalettedAlphaRows_plane f ts dec data plane w row
                 = Some (ExtractPalettedAlphaRows dec row, plane').
Proof.
  unfold use_8b. intros H. apply andb_prop in H as [H _]. apply andb_prop in H as [H1 H2].
  unfold ExtractPalettedAlphaRows_plane, ApplyInverseTransformsAlpha. rewrite H1, H2.
  destruct (_ <? _); eexists; reflexivity.
Qed.

Section Writes.
Context (inv : VP8LTransform -> nat -> nat -> list Z -> nat -> nat -> list Z).
Hypothesis Hinv : forall t s e m i o, length (inv t s e m i o) = length m.

(** C22: [ExtractAlphaRows] writes exactly the rows [[last_row_, row)] of
    the alpha plane: when rows are due, the plane holds them and the
    cache holds their pixels, every byte outside [[io_width * last_row_,
    io_width * row)] is left as it was, and the byte [i] of that range is
    the green channel of pixel [i] of the transformed ARGB cache. *)
Theorem ExtractAlphaRows_writes (ts : TransformState) (dec : VP8LDecoder) (mem plane : list Z)
    (w cache row : nat) :
  (last_row_ dec < row)%nat -> (w * row <= length plane)%nat ->
  (cache + w * (row - last_row_ dec) <= length mem)%nat ->
  let '(dec', mem', plane') := ExtractAlphaRows_plane inv ts dec mem plane w cache row in
  length plane' = length plane /\
  (forall j, (j < w * last_row_ dec \/ w * row <= j)%nat -> plane' !!! j = plane !!! j) /\
  (forall i, (i < w * (row - last_row_ dec))%nat ->
     plane' !!! (w * last_row_ dec + i)%nat = green_of (mem' !!! (cache + i)%nat)).
Proof.
  intros Hr Hp Hm. unfold ExtractAlphaRows_plane.
  destruct (Z.leb_spec (Z.of_nat row - Z.of_nat (last_row_ dec)) 0) as [Hle|_]; [lia|].
  replace (Z.to_nat (Z.of_nat row - Z.of_nat (last_row_ dec))) with (row - last_row_ dec)%nat by lia.
  set (mem' := ApplyInverseTransforms inv ts dec _ mem _ cache).
  assert (Hl : length mem' = length mem) by apply (length_ApplyInverseTransforms inv Hinv).
  assert (He : length (extract_green mem' cache (w * (row - last_row_ dec))) = (w * (row - last_row_ dec))%nat)
    by (apply length_extract_green; lia).
  split_and!.
  - apply length_store.
  - intros j Hj. apply store_outside. rewrite He. nia.
  - intros i Hi. rewrite store_inside by (rewrite He; nia).
    apply extract_green_lookup; lia.
Qed.
End Writes.

(** ** Witnesses *)

Module AlphaPlaneExamples.
(** One color-indexing transform, as the 8-bit path requires. *)
Definition palette_ts : TransformState :=
  mkTransformState [mkTransform COLOR_INDEXING_TRANSFORM 0 4 4 []] 1 8 (VP8LInitBitReader []).

(** No transform: the 32-bit hook copies the rows to the cache and
    extracts their green bytes. *)
Definition plain_ts : TransformState := mkTransformState [] 0 0 (VP8LInitBitReader []).
End AlphaPlaneExamples.

Lemma ExtractAlphaRows_writes_witness :
  (last_row_ (AlphaExamples.dec [0x0a%Z] 2 2) < 2)%nat /\ (2 * 2 <= length (replicate 4 0%Z))%nat /\
  (4 + 2 * (2 - last_row_ (AlphaExamples.dec [0x0a%Z] 2 2)) <= length [0x100; 0x200; 0x300; 0x400; 0; 0; 0; 0])%nat /\
  let '(dec', mem', plane') :=
    ExtractAlphaRows_plane (fun _ _ _ m _ _ => m) AlphaPlaneExamples.plain_ts
      (AlphaExamples.dec [0x0a%Z] 2 2) [0x100; 0x200; 0x300; 0x400; 0; 0; 0; 0] (replicate 4 0) 2 4 2 in
  length plane' = length (replicate 4 0%Z) /\
  (forall j, (j < 2 * last_row_ (AlphaExamples.dec [0x0a%Z] 2 2) \/ 2 * 2 <= j)%nat ->
     plane' !!! j = replicate 4 0%Z !!! j) /\
  (forall i, (i < 2 * (2 - last_row_ (AlphaExamples.dec [0x0a%Z] 2 2)))%nat ->
     plane' !!! (2 * last_row_ (AlphaExamples.dec [0x0a%Z] 2 2) + i)%nat = green_of (mem' !!! (4 + i)%nat)).
Proof.
  split; [vm_compute; lia|]. split; [vm_compute; lia|]. split; [vm_compute; lia|].
  apply (ExtractAlphaRows_writes (fun _ _ _ m _ _ => m) (fun _ _ _ _ _ _ => eq_refl)); vm_compute; lia.
Defined.
