(* ===== verification/Lifetime.v ===== *)
(** * Ownership of the decoder's heap blocks

    The heap blocks a [VP8LDecoder] owns and the functions of [vp8l.cpp]
    that allocate, hand over and release them: [InitMetadata],
    [ClearMetadata], [VP8LNew], [VP8LClear], [VP8LDelete], [ClearTransform],
    the [transform->data_] slot of [ReadTransform] and of
    [DecodeImageStream]'s [*decoded_data = data], the color-map
    replacement of [ExpandColorMap] and the [pixels_] store of
    [AllocateInternalBuffers32b]/[8b].

    The other files see memory as values; this one sees only pointers.
    The heap is the set of live block addresses; [tvg::free(NULL)] does
    nothing and freeing a block that is not live (a double free) has no
    result ([None]).  A decoder is the record of its pointer fields.  The
    theorems: [VP8LNew] gives a decoder that owns nothing; the operations
    that store a pointer keep the ownership invariant (owned blocks live
    and pairwise distinct, transform slots past [next_transform_] empty);
    under it [VP8LClear] frees exactly the owned blocks, each once, and
    leaves a decoder that owns nothing, so a second [VP8LClear] is harmless;
    [VP8LDelete] also frees the decoder block. *)

From S2P Require Import Prelude Memory Transform.
From stdpp Require Import gmap sets.

Local Open Scope Z_scope.

(** ** The heap *)

(** Live block addresses. *)
Definition Heap := gset Z.

(** [tvg::free(p)]. *)
Definition tfree (h : Heap) (p : option Z) : option Heap :=
  match p with
  | None => Some h
  | Some q => if decide (q ∈ h) then Some (h ∖ {[q]}) else None
  end.

(** ** Pointer fields *)

(** The blocks of [VP8LMetadata]: [huffman_image_], [huffman_tables_],
    [htree_groups_], and the [colors_] of [color_cache_] and
    [saved_color_cache_]. *)
Record MetadataMem := mkMetadataMem {
  huffman_image_m : option Z;
  huffman_tables_m : option Z;
  htree_groups_m : option Z;
  colors_m : option Z;
  saved_colors_m : option Z
}.

(** The pointer fields of [VP8LDecoder]: [hdr_], [pixels_], the [data_]
    of the [NUM_TRANSFORMS] slots of [transforms_], [next_transform_],
    [transforms_seen_], [rescaler_memory] and [output_] (not owned). *)
Record DecoderMem := mkDecoderMem {
  hdr_m : MetadataMem;
  pixels_m : option Z;
  transforms_data_m : list (option Z);
  next_transform_m : nat;
  transforms_seen_m : Z;
  rescaler_memory_m : option Z;
  output_m : option Z
}.

(** [InitMetadata(hdr)]: [memset(hdr, 0, sizeof *hdr)]. *)
Definition InitMetadata_mem : MetadataMem := mkMetadataMem None None None None None.

(** [ClearMetadata(hdr)]: the three frees, [VP8LHtreeGroupsFree] and the
    two [VP8LColorCacheClear]s (each a [free] of one block), then
    [InitMetadata]. *)
Definition ClearMetadata_mem (h : Heap) (m : MetadataMem) : option (Heap * MetadataMem) :=
  h ← tfree h (huffman_image_m m);
  h ← tfree h (huffman_tables_m m);
  h ← tfree h (htree_groups_m m);
  h ← tfree h (colors_m m);
  h ← tfree h (saved_colors_m m);
  Some (h, InitMetadata_mem).

(** [ClearTransform(transform)]: [free(data_); data_ = NULL]. *)
Definition ClearTransform_mem (h : Heap) (p : option Z) : option (Heap * option Z) :=
  h ← tfree h p;
  Some (h, None).

(** [for (i = 0; i < dec->next_transform_; ++i) ClearTransform(&dec->transforms_[i]);]
    from slot [i], [n] rounds. *)
Fixpoint clear_transforms_mem (h : Heap) (i n : nat) (ts : list (option Z))
    : option (Heap * list (option Z)) :=
  match n with
  | O => Some (h, ts)
  | S n' =>
      '(h, d) ← ClearTransform_mem h (ts !!! i);
      clear_transforms_mem h (S i) n' (<[i := d]> ts)
  end.

(** [VP8LClear(dec)]. *)
Definition VP8LClear_mem (h : Heap) (dec : option DecoderMem) : option (Heap * option DecoderMem) :=
  match dec with
  | None => Some (h, None)
  | Some d =>
      '(h, hdr) ← ClearMetadata_mem h (hdr_m d);
      h ← tfree h (pixels_m d);
      '(h, ts) ← clear_transforms_mem h 0 (next_transform_m d) (transforms_data_m d);
      h ← tfree h (rescaler_memory_m d);
      Some (h, Some (mkDecoderMem hdr None ts 0 0 None None))
  end.

(** [VP8LDelete(dec)]: [dec] is the decoder block and its fields. *)
Definition VP8LDelete_mem (h : Heap) (dec : option (Z * DecoderMem)) : option Heap :=
  match dec with
  | None => Some h
  | Some (p, d) =>
      '(h, _) ← VP8LClear_mem h (Some d);
      tfree h (Some p)
  end.

(** A decoder whose fields are all zero, as [calloc] leaves it. *)
Definition zero_decoder_mem : DecoderMem :=
  mkDecoderMem InitMetadata_mem None (replicate NUM_TRANSFORMS None) 0 0 None None.

Section New.
(** [sizeof(VP8LDecoder)], a property of the C compiler. *)
Context (sizeof_VP8LDecoder : Z).

(** [VP8LNew()]: [calloc(1, sizeof *dec)], [NULL] on failure. *)
Definition VP8LNew_mem (a : Allocator) (h : Heap) : Heap * option (Z * DecoderMem) :=
  match malloc a sizeof_VP8LDecoder with
  | None => (h, None)
  | Some p => (h ∪ {[p]}, Some (p, zero_decoder_mem))
  end.
End New.

(** ** Stores of a pointer into the decoder *)

Definition set_transforms_data_m (d : DecoderMem) (ts : list (option Z)) (n : nat) : DecoderMem :=
  mkDecoderMem (hdr_m d) (pixels_m d) ts n (transforms_seen_m d) (rescaler_memory_m d) (output_m d).

Definition set_pixels_m (d : DecoderMem) (p : option Z) : DecoderMem :=
  mkDecoderMem (hdr_m d) p (transforms_data_m d) (next_transform_m d) (transforms_seen_m d)
    (rescaler_memory_m d) (output_m d).

(** [ReadTransform]: [transform->data_ = NULL; ++dec->next_transform_;]
    on the slot [next_transform_]. *)
Definition begin_transform_mem (d : DecoderMem) : DecoderMem :=
  set_transforms_data_m d (<[next_transform_m d := None]> (transforms_data_m d))
    (S (next_transform_m d)).

(** [DecodeImageStream] at the end of a transform's sub-stream:
    [*decoded_data = data] into the slot [ReadTransform] opened. *)
Definition store_transform_data_mem (d : DecoderMem) (p : Z) : DecoderMem :=
  set_transforms_data_m d (<[pred (next_transform_m d) := Some p]> (transforms_data_m d))
    (next_transform_m d).

(** [ExpandColorMap]'s memory: the new color map is [malloc]ed; on
    [NULL] the call returns 0 and nothing changes; otherwise the old
    [data_] is freed and replaced.  [size] is the byte size of the map. *)
Definition ExpandColorMap_mem (a : Allocator) (size : Z) (h : Heap) (d : DecoderMem)
    : option (bool * Heap * DecoderMem) :=
  let slot := pred (next_transform_m d) in
  match malloc a size with
  | None => Some (false, h, d)
  | Some q =>
      h ← tfree (h ∪ {[q]}) (transforms_data_m d !!! slot);
      Some (true, h, set_transforms_data_m d (<[slot := Some q]> (transforms_data_m d))
                       (next_transform_m d))
  end.

(** [AllocateInternalBuffers32b]/[8b]: [dec->pixels_ = malloc(...)]. *)
Definition AllocateInternalBuffers_mem (a : Allocator) (size : Z) (h : Heap) (d : DecoderMem)
    : bool * Heap * DecoderMem :=
  match malloc a size with
  | None => (false, h, set_pixels_m d None)
  | Some p => (true, h ∪ {[p]}, set_pixels_m d (Some p))
  end.

(** [VP8LDecodeImage] in incremental mode: [if (color_cache_size_ > 0 &&
    saved_color_cache_.colors_ == NULL) VP8LColorCacheInit(...)], the
    allocation of the snapshot cache ([false] on [NULL]). *)
Definition init_saved_cache_mem (a : Allocator) (incremental : bool) (color_cache_size : nat)
    (size : Z) (h : Heap) (d : DecoderMem) : bool * Heap * DecoderMem :=
  let m := hdr_m d in
  if incremental && (0 <? color_cache_size)%nat && bool_decide (saved_colors_m m = None) then
    match malloc a size with
    | None => (false, h, d)
    | Some p =>
        (true, h ∪ {[p]},
         mkDecoderMem (mkMetadataMem (huffman_image_m m) (huffman_tables_m m) (htree_groups_m m)
                         (colors_m m) (Some p))
           (pixels_m d) (transforms_data_m d) (next_transform_m d) (transforms_seen_m d)
           (rescaler_memory_m d) (output_m d))
    end
  else (true, h, d).

(** ** Ownership *)

(** The owned pointer fields, in the order [VP8LClear] frees them. *)
Definition meta_ptrs (m : MetadataMem) : list (option Z) :=
  [huffman_image_m m; huffman_tables_m m; htree_groups_m m; colors_m m; saved_colors_m m].

Definition owned_ptrs (d : DecoderMem) : list (option Z) :=
  meta_ptrs (hdr_m d) ++ [pixels_m d] ++ take (next_transform_m d) (transforms_data_m d)
  ++ [rescaler_memory_m d].

(** The owned blocks. *)
Definition owned (d : DecoderMem) : list Z := omap id (owned_ptrs d).

(** The ownership invariant: the [NUM_TRANSFORMS] slots, the slots not
    yet opened empty, the owned blocks pairwise distinct and live. *)
Definition mem_wf (h : Heap) (d : DecoderMem) : Prop :=
  length (transforms_data_m d) = NUM_TRANSFORMS /\
  (next_transform_m d <= NUM_TRANSFORMS)%nat /\
  Forall (fun p => p = None) (drop (next_transform_m d) (transforms_data_m d)) /\
  NoDup (owned d) /\
  list_to_set (owned d) ⊆ h.

(** Freeing a list of pointers in order. *)
Fixpoint tfree_all (h : Heap) (l : list (option Z)) : option Heap :=
  match l with
  | [] => Some h
  | p :: l => h ← tfree h p; tfree_all h l
  end.

(** ** Freeing lists of pointers *)

Lemma tfree_all_app (h : Heap) (l1 l2 : list (option Z)) :
  tfree_all h (l1 ++ l2) = h' ← tfree_all h l1; tfree_all h' l2.
Proof.
  induction l1 as [|p l1 IH] in h |- *; [reflexivity|]. cbn.
  destruct (tfree h p); [apply IH|reflexivity].
Qed.

(** Distinct live blocks are freed each once. *)
Lemma tfree_all_spec (h : Heap) (l : list (option Z)) :
  NoDup (omap id l) -> list_to_set (omap id l) ⊆ h ->
  tfree_all h l = Some (h ∖ list_to_set (omap id l)).
Proof.
  induction l as [|[q|] l IH] in h |- *; cbn.
  - intros _ _. f_equal. set_solver.
  - intros Hnd Hsub. rewrite NoDup_cons in Hnd. destruct Hnd as [Hq Hnd].
    rewrite decide_True by set_solver. cbn. rewrite IH by (done || set_solver).
    f_equal. set_solver.
  - apply IH.
Qed.

(** Pointers that are all [NULL] free nothing. *)
Lemma tfree_all_null (h : Heap) (l : list (option Z)) :
  Forall (fun p => p = None) l -> tfree_all h l = Some h.
Proof. induction 1 as [|p l -> _ IH]; [reflexivity|exact IH]. Qed.

Lemma ClearMetadata_mem_eq (h : Heap) (m : MetadataMem) :
  ClearMetadata_mem h m = h' ← tfree_all h (meta_ptrs m); Some (h', InitMetadata_mem).
Proof.
  unfold ClearMetadata_mem, meta_ptrs. cbn.
  repeat (destruct (tfree _ _); cbn; [|reflexivity]). reflexivity.
Qed.

(** The transform loop frees the [data_] of slots [i .. i+n-1] and
    empties them. *)
Lemma clear_transforms_mem_eq (n : nat) (h : Heap) (i : nat) (ts : list (option Z)) :
  (i + n <= length ts)%nat ->
  clear_transforms_mem h i n ts =
  h' ← tfree_all h (take n (drop i ts));
  Some (h', take i ts ++ replicate n None ++ drop (i + n) ts).
Proof.
  induction n as [|n IH] in h, i, ts |- *; intros Hn.
  - cbn. rewrite Nat.add_0_r, take_drop. reflexivity.
  - destruct (lookup_lt_is_Some_2 ts i) as [x Hx]; [lia|].
    cbn [clear_transforms_mem]. unfold ClearTransform_mem.
    rewrite (list_lookup_total_correct _ _ _ Hx), (drop_S _ _ _ Hx). cbn.
    destruct (tfree h x) as [h1|]; cbn; [|reflexivity].
    rewrite IH by (rewrite length_insert; lia).
    rewrite !drop_insert_lt by lia.
    rewrite (take_S_r _ _ None) by (apply list_lookup_insert_eq; lia).
    rewrite take_insert_ge by lia. rewrite <- app_assoc.
    replace (S i + n)%nat with (i + S n)%nat by lia. cbn. reflexivity.
Qed.

(** A list of [NULL]s. *)
Lemma null_replicate (l : list (option Z)) :
  Forall (fun p => p = None) l -> l = replicate (length l) None.
Proof. induction 1 as [|p l -> _ IH]; [reflexivity|cbn; f_equal; exact IH]. Qed.

(** What [VP8LClear] leaves: the metadata zeroed, [pixels_],
    [rescaler_memory] and [output_] [NULL], the opened transform slots
    emptied and the counters reset. *)
Definition clear_result (d : DecoderMem) : DecoderMem :=
  mkDecoderMem InitMetadata_mem None
    (replicate (next_transform_m d) None ++ drop (next_transform_m d) (transforms_data_m d))
    0 0 None None.

(** [VP8LClear] frees the owned pointers in order. *)
Lemma VP8LClear_mem_eq (h : Heap) (d : DecoderMem) :
  (next_transform_m d <= length (transforms_data_m d))%nat ->
  VP8LClear_mem h (Some d) = h' ← tfree_all h (owned_ptrs d); Some (h', Some (clear_result d)).
Proof.
  intros Hn. unfold VP8LClear_mem, owned_ptrs. rewrite ClearMetadata_mem_eq, !tfree_all_app.
  destruct (tfree_all h (meta_ptrs _)) as [h1|]; cbn; [|reflexivity].
  destruct (tfree h1 (pixels_m d)) as [h2|]; cbn; [|reflexivity].
  rewrite clear_transforms_mem_eq by lia. rewrite drop_0, tfree_all_app. cbn.
  destruct (tfree_all h2 _) as [h3|]; cbn; [|reflexivity].
  destruct (tfree h3 _); reflexivity.
Qed.

(** The invariant gives the transform array its [NUM_TRANSFORMS] empty
    slots back after the loop. *)
Lemma clear_result_zero (h : Heap) (d : DecoderMem) :
  mem_wf h d -> clear_result d = zero_decoder_mem.
Proof.
  intros (Hlen & Hn & Hnull & _). unfold clear_result, zero_decoder_mem. f_equal.
  rewrite (null_replicate _ Hnull), length_drop, Hlen, <- replicate_add. f_equal. lia.
Qed.

(** ** Ownership after a store *)

(** The owned pointers with transform slot [k] set apart. *)
Definition owned_ptrs_slot (d : DecoderMem) (k : nat) : list (option Z) :=
  meta_ptrs (hdr_m d) ++ [pixels_m d] ++ delete k (take (next_transform_m d) (transforms_data_m d))
  ++ [rescaler_memory_m d].

Lemma insert_Permutation {A} (l : list A) (k : nat) (x : A) :
  (k < length l)%nat -> <[k:=x]> l ≡ₚ x :: delete k l.
Proof.
  intros Hk. rewrite (delete_Permutation (<[k:=x]> l) k x) by (apply list_lookup_insert_eq; lia).
  rewrite !delete_take_drop, take_insert_ge, drop_insert_lt by lia. reflexivity.
Qed.

Section Slot.
Context (d : DecoderMem) (k : nat).
Hypothesis Hk : (k < next_transform_m d)%nat.
Hypothesis Hn : (next_transform_m d <= length (transforms_data_m d))%nat.

Lemma owned_ptrs_slot_perm :
  owned_ptrs d ≡ₚ transforms_data_m d !!! k :: owned_ptrs_slot d k.
Proof.
  unfold owned_ptrs, owned_ptrs_slot.
  rewrite (delete_Permutation (take _ (transforms_data_m d)) k (transforms_data_m d !!! k)) at 1.
  - solve_Permutation.
  - rewrite lookup_take_lt by lia. apply list_lookup_lookup_total_lt. lia.
Qed.

Lemma owned_ptrs_set_perm (x : option Z) :
  owned_ptrs (set_transforms_data_m d (<[k:=x]> (transforms_data_m d)) (next_transform_m d))
  ≡ₚ x :: owned_ptrs_slot d k.
Proof.
  unfold owned_ptrs, owned_ptrs_slot, set_transforms_data_m. cbn [hdr_m pixels_m
    transforms_data_m next_transform_m rescaler_memory_m].
  rewrite take_insert_lt by lia. rewrite (insert_Permutation _ k x) by (rewrite length_take; lia).
  solve_Permutation.
Qed.
End Slot.

Lemma omap_some_cons (r : Z) (l : list (option Z)) : omap id (Some r :: l) = r :: omap id l.
Proof. reflexivity. Qed.

(** Replacing the pointer of an opened transform slot: the old block is
    freed and the new one is live and owned by no other field. *)
Lemma mem_wf_set_slot (h h1 : Heap) (d : DecoderMem) (k : nat) (x : option Z) :
  mem_wf h d -> (k < next_transform_m d)%nat ->
  tfree h (transforms_data_m d !!! k) = Some h1 ->
  (forall q, x = Some q -> q ∈ h1 /\ q ∉ omap id (owned_ptrs_slot d k)) ->
  mem_wf h1 (set_transforms_data_m d (<[k:=x]> (transforms_data_m d)) (next_transform_m d)).
Proof.
  intros (Hlen & Hn & Hnull & Hnd & Hsub) Hk Hf Hx. unfold owned in *.
  rewrite (owned_ptrs_slot_perm d k) in Hnd, Hsub by lia.
  split; [cbn; rewrite length_insert; exact Hlen|]. split; [exact Hn|].
  split; [cbn; rewrite drop_insert_lt by lia; exact Hnull|].
  unfold owned. rewrite (owned_ptrs_set_perm d k) by lia.
  assert (Hs : NoDup (omap id (owned_ptrs_slot d k)) /\ list_to_set (omap id (owned_ptrs_slot d k)) ⊆ h1).
  { destruct (transforms_data_m d !!! k) as [r|]; cbn [tfree] in Hf.
    - rewrite omap_some_cons in Hnd, Hsub. rewrite NoDup_cons in Hnd. destruct Hnd as [Hr Hnd].
      destruct (decide (r ∈ h)); [|discriminate]. injection Hf as <-.
      split; [exact Hnd|]. intros y Hy. apply elem_of_difference. split.
      + apply Hsub. rewrite list_to_set_cons. apply elem_of_union_r, Hy.
      + rewrite elem_of_singleton. intros ->. apply Hr. apply elem_of_list_to_set in Hy. exact Hy.
    - injection Hf as <-. done. }
  destruct Hs as [Hnd' Hsub']. destruct x as [q|]; [|done]. rewrite omap_some_cons.
  destruct (Hx q eq_refl) as [Hq Hq']. split; [by apply NoDup_cons|].
  rewrite list_to_set_cons. apply union_least; [apply singleton_subseteq_l, Hq|exact Hsub'].
Qed.

(** ** Release *)

(** C23: under the ownership invariant, [VP8LClear] frees every block the
    decoder owns exactly once (no double free, no owned block left live)
    and no other block, and leaves a decoder whose pointer fields are
    all [NULL], as [VP8LNew]'s [calloc] left it. *)
Theorem VP8LClear_mem_frees (h : Heap) (d : DecoderMem) :
  mem_wf h d ->
  VP8LClear_mem h (Some d) = Some (h ∖ list_to_set (owned d), Some zero_decoder_mem).
Proof.
  intros Hwf. pose proof Hwf as (Hlen & Hn & _ & Hnd & Hsub).
  rewrite VP8LClear_mem_eq by lia. unfold owned in *. rewrite tfree_all_spec by assumption.
  cbn. rewrite (clear_result_zero h d Hwf). reflexivity.
Qed.

(** A cleared decoder owns nothing. *)
Lemma owned_zero : owned zero_decoder_mem = [].
Proof. reflexivity. Qed.

(** C24: whatever the decoder, a second [VP8LClear] after a successful one
    frees nothing and changes nothing: every pointer the first one freed
    it set to [NULL] ("leave no trace behind"), which is what makes the
    [VP8LClear] of [VP8LDecodeImage]'s error path safe before the
    caller's [VP8LDelete]. *)
Theorem VP8LClear_mem_twice (h h' : Heap) (d : DecoderMem) (d' : option DecoderMem) :
  VP8LClear_mem h (Some d) = Some (h', d') -> VP8LClear_mem h' d' = Some (h', d').
Proof.
  unfold VP8LClear_mem at 1. rewrite ClearMetadata_mem_eq.
  destruct (tfree_all h _) as [h1|]; cbn; [|discriminate].
  destruct (tfree h1 _) as [h2|]; cbn; [|discriminate].
  destruct (clear_transforms_mem h2 _ _ _) as [[h3 ts]|]; cbn; [|discriminate].
  destruct (tfree h3 _) as [h4|]; cbn; [|discriminate].
  intros [= <- <-]. reflexivity.
Qed.

(** [VP8LDelete] frees the owned blocks and the decoder block. *)
Lemma VP8LDelete_mem_frees (h : Heap) (p : Z) (d : DecoderMem) :
  mem_wf h d -> p ∈ h -> p ∉ owned d ->
  VP8LDelete_mem h (Some (p, d)) = Some (h ∖ list_to_set (owned d) ∖ {[p]}).
Proof.
  intros Hwf Hp Hpo. cbn [VP8LDelete_mem]. rewrite (VP8LClear_mem_frees h d Hwf). cbn.
  rewrite decide_True; [reflexivity|]. apply elem_of_difference. split; [exact Hp|].
  rewrite elem_of_list_to_set. exact Hpo.
Qed.

(** [VP8LNew] returns [NULL] or a fresh decoder block whose decoder owns
    nothing. *)
Lemma VP8LNew_mem_wf (sz : Z) (a : Allocator) (h : Heap) :
  (forall p, malloc a sz = Some p -> p ∉ h) ->
  match VP8LNew_mem sz a h with
  | (h', None) => h' = h
  | (h', Some (p, d)) => h' = h ∪ {[p]} /\ (p ∉ h) /\ mem_wf h' d /\ owned d = []
  end.
Proof.
  intros Hfresh. unfold VP8LNew_mem. destruct (malloc a sz) as [p|] eqn:E; [|reflexivity].
  split; [reflexivity|]. split; [exact (Hfresh p eq_refl)|]. split; [|reflexivity].
  repeat split; cbn; try lia; repeat constructor. set_solver.
Qed.

(** ** The stores keep the invariant *)

Lemma mem_wf_mono (h h' : Heap) (d : DecoderMem) : h ⊆ h' -> mem_wf h d -> mem_wf h' d.
Proof. intros Hh (? & ? & ? & ? & Hsub). repeat split; try assumption. etransitivity; eassumption. Qed.

(** A fresh block added in front of distinct live blocks. *)
Lemma fresh_cons (h : Heap) (p : Z) (l : list (option Z)) :
  NoDup (omap id l) -> list_to_set (omap id l) ⊆ h -> p ∉ h ->
  NoDup (omap id (Some p :: l)) /\ list_to_set (omap id (Some p :: l)) ⊆ h ∪ {[p]}.
Proof.
  intros Hnd Hsub Hp. rewrite omap_some_cons, list_to_set_cons. split.
  - apply NoDup_cons. split; [|exact Hnd]. intros Hin. apply Hp, Hsub, elem_of_list_to_set, Hin.
  - apply union_least; [apply union_subseteq_r|]. etransitivity; [exact Hsub|apply union_subseteq_l].
Qed.

(** [ReadTransform] opens the next slot empty: ownership unchanged. *)
Lemma begin_transform_mem_wf (h : Heap) (d : DecoderMem) :
  mem_wf h d -> (next_transform_m d < NUM_TRANSFORMS)%nat -> mem_wf h (begin_transform_mem d).
Proof.
  intros (Hlen & Hn & Hnull & Hnd & Hsub) Hlt.
  assert (Hown : owned (begin_transform_mem d) = owned d).
  { unfold owned, owned_ptrs, begin_transform_mem, set_transforms_data_m. cbn [hdr_m pixels_m
      transforms_data_m next_transform_m rescaler_memory_m].
    rewrite (take_S_r _ _ None) by (apply list_lookup_insert_eq; lia).
    rewrite take_insert_ge by lia. rewrite !omap_app. cbn [omap list_omap id]. rewrite app_nil_r. reflexivity. }
  split; [cbn; rewrite length_insert; exact Hlen|]. split; [cbn; lia|].
  split; [|rewrite Hown; split; assumption].
  cbn. rewrite drop_insert_lt by lia. rewrite <- Nat.add_1_r, <- drop_drop.
  apply Forall_drop, Hnull.
Qed.

(** [*decoded_data = data]: a live block no field owns goes into the
    slot [ReadTransform] opened empty. *)
Lemma store_transform_data_mem_wf (h : Heap) (d : DecoderMem) (p : Z) :
  mem_wf h d -> (0 < next_transform_m d)%nat ->
  transforms_data_m d !!! pred (next_transform_m d) = None ->
  p ∈ h -> p ∉ owned d -> mem_wf h (store_transform_data_mem d p).
Proof.
  intros Hwf Hpos Hslot Hp Hpo. pose proof Hwf as (Hlen & Hn & _).
  apply (mem_wf_set_slot h h d); [exact Hwf|lia|rewrite Hslot; reflexivity|].
  intros q [= <-]. split; [exact Hp|].
  unfold owned in Hpo. rewrite (owned_ptrs_slot_perm d (pred (next_transform_m d))), Hslot in Hpo by lia.
  exact Hpo.
Qed.

(** The block of an opened slot is live and owned by that slot only. *)
Lemma slot_block (h : Heap) (d : DecoderMem) (k : nat) (r : Z) :
  mem_wf h d -> (k < next_transform_m d)%nat -> transforms_data_m d !!! k = Some r ->
  r ∈ h /\ r ∉ omap id (owned_ptrs_slot d k).
Proof.
  intros (Hlen & Hn & _ & Hnd & Hsub) Hk Hr. unfold owned in *.
  rewrite (owned_ptrs_slot_perm d k), Hr, omap_some_cons in Hnd, Hsub by lia.
  rewrite NoDup_cons in Hnd. split; [|apply Hnd].
  apply Hsub. rewrite list_to_set_cons. apply elem_of_union_l, elem_of_singleton. reflexivity.
Qed.

(** The block a pointer field holds, as a set of addresses. *)
Definition block (p : option Z) : Heap :=
  match p with Some r => {[r]} | None => ∅ end.

(** C25: [ExpandColorMap]'s memory, for every allocator that returns
    fresh blocks: when [malloc] fails the call returns 0 and changes
    nothing; otherwise the heap afterwards is exactly the heap before
    without the old color map of the current transform slot (so it is
    freed, once) and with the new map, which the slot now holds; the
    ownership invariant is kept in both cases. *)
Theorem ExpandColorMap_mem_wf (a : Allocator) (size : Z) (h : Heap) (d : DecoderMem) :
  mem_wf h d -> (0 < next_transform_m d)%nat ->
  (forall q, malloc a size = Some q -> q ∉ h) ->
  exists ok h' d', ExpandColorMap_mem a size h d = Some (ok, h', d') /\ mem_wf h' d' /\
    next_transform_m d' = next_transform_m d /\
    match malloc a size with
    | None => ok = false /\ h' = h /\ d' = d
    | Some q =>
        ok = true /\
        h' = (h ∖ block (transforms_data_m d !!! pred (next_transform_m d))) ∪ {[q]} /\
        transforms_data_m d' !!! pred (next_transform_m d) = Some q
    end.
Proof.
  intros Hwf Hpos Hfresh. unfold ExpandColorMap_mem.
  destruct (malloc a size) as [q|]; [|by exists false, h, d].
  specialize (Hfresh q eq_refl). set (k := pred (next_transform_m d)).
  assert (Hk : (k < next_transform_m d)%nat) by lia.
  assert (Hwf' : mem_wf (h ∪ {[q]}) d) by (eapply mem_wf_mono; [apply union_subseteq_l|exact Hwf]).
  assert (Hslot : exists h1, tfree (h ∪ {[q]}) (transforms_data_m d !!! k) = Some h1 /\ q ∈ h1 /\
                    h1 = (h ∖ block (transforms_data_m d !!! k)) ∪ {[q]}).
  { destruct (transforms_data_m d !!! k) as [r|] eqn:Er; cbn [tfree block].
    - destruct (slot_block h d k r Hwf Hk Er) as [Hr _].
      rewrite decide_True by (apply elem_of_union_l, Hr). eexists. split; [reflexivity|].
      assert (q <> r) by (intros ->; contradiction).
      split; [set_solver|]. unfold_leibniz. set_solver.
    - exists (h ∪ {[q]}). split; [reflexivity|]. split; [set_solver|]. unfold_leibniz. set_solver. }
  destruct Hslot as (h1 & Hf & Hq & Hh1). rewrite Hf. cbn.
  assert (Hlen : (k < length (transforms_data_m d))%nat)
    by (destruct Hwf as (Hl & Hn & _); rewrite Hl; unfold NUM_TRANSFORMS in *; lia).
  eexists _, h1, _. split; [reflexivity|]. split; [|split; [reflexivity|]].
  - apply (mem_wf_set_slot (h ∪ {[q]}) h1 d k); [exact Hwf'|exact Hk|exact Hf|].
    intros q' [= <-]. split; [exact Hq|]. intros Hin. apply Hfresh.
    destruct Hwf as (Hl & Hn & _ & _ & Hsub). apply Hsub. apply elem_of_list_to_set. unfold owned.
    rewrite (owned_ptrs_slot_perm d k Hk) by lia.
    destruct (transforms_data_m d !!! k); [rewrite omap_some_cons; right|]; exact Hin.
  - split; [reflexivity|]. split; [exact Hh1|]. cbn [transforms_data_m set_transforms_data_m].
    apply list_lookup_total_insert_eq, Hlen.
Qed.

Lemma omap_perm_slot (l1 l2 : list (option Z)) (p : Z) :
  omap id (l1 ++ Some p :: l2) ≡ₚ p :: omap id (l1 ++ None :: l2).
Proof.
  rewrite !omap_app, omap_some_cons. change (omap id (None :: l2)) with (omap id l2).
  solve_Permutation.
Qed.

(** Storing a fresh block into an empty owned field. *)
Lemma mem_wf_fresh_field (h : Heap) (d d' : DecoderMem) (p : Z) :
  mem_wf h d -> p ∉ h ->
  transforms_data_m d' = transforms_data_m d -> next_transform_m d' = next_transform_m d ->
  owned d' ≡ₚ p :: owned d ->
  mem_wf (h ∪ {[p]}) d'.
Proof.
  intros (Hlen & Hn & Hnull & Hnd & Hsub) Hp Ht Hnx Hperm. unfold mem_wf.
  rewrite Ht, Hnx, Hperm. unfold owned in *. rewrite <- omap_some_cons.
  destruct (fresh_cons h p _ Hnd Hsub Hp). auto.
Qed.

(** [AllocateInternalBuffers32b]/[8b] on a decoder without [pixels_]
    keep the invariant. *)
Lemma AllocateInternalBuffers_mem_wf (a : Allocator) (size : Z) (h : Heap) (d : DecoderMem) :
  mem_wf h d -> pixels_m d = None -> (forall p, malloc a size = Some p -> p ∉ h) ->
  let '(_, h', d') := AllocateInternalBuffers_mem a size h d in mem_wf h' d'.
Proof.
  intros Hwf Hnone Hfresh. unfold AllocateInternalBuffers_mem.
  destruct (malloc a size) as [p|].
  - apply (mem_wf_fresh_field h d); [exact Hwf|exact (Hfresh p eq_refl)|reflexivity|reflexivity|].
    unfold owned, owned_ptrs, set_pixels_m. cbn [hdr_m pixels_m transforms_data_m next_transform_m
      rescaler_memory_m]. rewrite Hnone. apply (omap_perm_slot (meta_ptrs _)).
  - destruct d; cbn in *; subst. exact Hwf.
Qed.

(** The snapshot cache of [VP8LDecodeImage] is allocated only when
    [saved_color_cache_.colors_] is [NULL], so the invariant is kept. *)
Lemma init_saved_cache_mem_wf (a : Allocator) (incremental : bool) (n : nat) (size : Z)
    (h : Heap) (d : DecoderMem) :
  mem_wf h d -> (forall p, malloc a size = Some p -> p ∉ h) ->
  let '(_, h', d') := init_saved_cache_mem a incremental n size h d in mem_wf h' d'.
Proof.
  intros Hwf Hfresh. unfold init_saved_cache_mem.
  destruct (_ && _ && bool_decide _) eqn:E; [|exact Hwf].
  apply andb_prop in E as [_ E]. apply bool_decide_eq_true in E.
  destruct (malloc a size) as [p|]; [|exact Hwf].
  apply (mem_wf_fresh_field h d); [exact Hwf|exact (Hfresh p eq_refl)|reflexivity|reflexivity|].
  unfold owned, owned_ptrs, meta_ptrs. cbn [hdr_m pixels_m transforms_data_m next_transform_m
    rescaler_memory_m huffman_image_m huffman_tables_m htree_groups_m colors_m saved_colors_m].
  rewrite E. apply (omap_perm_slot [_; _; _; _]).
Qed.

#[global] Instance mem_wf_dec (h : Heap) (d : DecoderMem) : Decision (mem_wf h d).
Proof. unfold mem_wf, owned. apply _. Defined.

Module LifetimeExamples.
(** A decoder after a header with a color cache and one transform:
    meta-Huffman image 10, tables 11, groups 12, cache 13, pixels 20,
    transform data 30; 99 is a block of the caller. *)
Definition ex_dec : DecoderMem :=
  mkDecoderMem (mkMetadataMem (Some 10) (Some 11) (Some 12) (Some 13) None) (Some 20)
    [Some 30; None; None; None] 1 1 None None.
Definition ex_heap : Heap := {[10; 11; 12; 13; 20; 30; 99]}.
(** An allocator whose next block is 40. *)
Definition ex_alloc : Allocator := mkAllocator (fun _ => Some 40) true true.
End LifetimeExamples.

Import LifetimeExamples.

Lemma VP8LClear_mem_frees_witness :
  mem_wf ex_heap ex_dec /\
  VP8LClear_mem ex_heap (Some ex_dec) = Some (ex_heap ∖ list_to_set (owned ex_dec), Some zero_decoder_mem).
Proof.
  split; [decide_by_eval|].
  apply VP8LClear_mem_frees. decide_by_eval.
Defined.

Lemma VP8LClear_mem_twice_witness :
  VP8LClear_mem ex_heap (Some ex_dec) = Some ({[99]}, Some zero_decoder_mem) /\
  VP8LClear_mem {[99]} (Some zero_decoder_mem) = Some ({[99]}, Some zero_decoder_mem).
Proof.
  assert (H : VP8LClear_mem ex_heap (Some ex_dec) = Some ({[99]}, Some zero_decoder_mem))
    by (vm_compute; reflexivity).
  split; [exact H|]. exact (VP8LClear_mem_twice ex_heap {[99]} ex_dec _ H).
Defined.

Lemma ExpandColorMap_mem_wf_witness :
  exists ok h' d', ExpandColorMap_mem ex_alloc 64 ex_heap ex_dec = Some (ok, h', d') /\
    mem_wf h' d' /\ next_transform_m d' = next_transform_m ex_dec /\
    ok = true /\ h' = (ex_heap ∖ block (transforms_data_m ex_dec !!! pred (next_transform_m ex_dec))) ∪ {[40]} /\
    transforms_data_m d' !!! pred (next_transform_m ex_dec) = Some 40.
Proof.
  destruct (ExpandColorMap_mem_wf ex_alloc 64 ex_heap ex_dec) as (ok & h' & d' & H1 & H2 & H3 & H4).
  - decide_by_eval.
  - vm_compute. lia.
  - intros q [= <-]. decide_by_eval.
  - exists ok, h', d'. cbn [malloc ex_alloc] in H4. tauto.
Defined.
